(* ===== verification/_CoqProject ===== *)
-Q . S2P
Prelude.v
SliceStable.v
GoStrings.v
GoRegexp.v
GoUrl.v
GoFloat.v
FloatFacts.v
GoTime.v
Errors.v
Effects.v
Pagination.v
Domain.v
Snapshot.v
SliceHeap.v
Cardinality.v
Ports.v
PromClient.v
Metrics.v
Collectors.v
FamilyCollectors.v
AccountReaders.v
CostExplorer.v
SummaryReaders.v
Exporter.v
Store.v
Isolation.v
Config.v
Validation.v
ValidationSpec.v
Loader.v
Logging.v
Retry.v
Verifier.v
ClientFactory.v
StandaloneClient.v
HttpServer.v
AthenaQuery.v
Athena.v
Scheduler.v
Timers.v
Bootstrap.v
Application.v
Composition.v
Refresh.v
Delivery.v
Command.v
Services.v
Dispatcher.v
TimedRunner.v
Pages.v
