(* ===== verification/Prelude.v ===== *)
(** * aws-cost-exporter: a verification library

    The exporter (internal/app) periodically reads costs, forecasts, budgets, accounts,
    commitments, anomalies and tag costs of several AWS targets and serves them as Prometheus
    metrics.  A scheduler runs one collector per target and family; a collector calls a reader
    (Cost Explorer, Athena, Budgets, Organizations), bounds the cardinality of the answer and
    returns a partial snapshot; the store validates the partial, merges the partials of all
    collectors and publishes the result; the metrics collectors turn the published snapshot and
    the status of the collectors into time series at each scrape.

    ** Files, and what they correspond to

    - Prelude: results (a Go pair of a value and an error), the guard notation, inversion tactics,
      list lemmas.  SliceStable: insertion sort as [sort.SliceStable], its stability, and that
      the result is determined by the multiset under a total order (so [sort.Slice] and the
      iteration order of a map do not matter where keys are distinct).  GoStrings: the parts of
      [strings] and [strconv.ParseFloat] the code calls.  GoFloat: binary64 over the Standard
      Library's [SpecFloat].  GoTime: instants and durations in nanoseconds with the proleptic
      Gregorian calendar of [time], [Sub] saturating, truncation, the date layout.
    - Errors: errors as chains of causes; internal/aws/common/errors.go and the status and retry
      labels of instrumentation.go.  Effects: calls to the outside as functions of a world
      ([io]), the class [World] of what the modelled code sees of it.
    - Domain: internal/domain/{cost,identity,budget,organization,commitment,anomaly,tagcost}.
      Snapshot: internal/domain/snapshot.  Ports: internal/ports.
    - Cardinality: internal/collector/cardinality.go, [LimitValues] of tag/collector.go.
      Collectors: registry, queries, grouped collection and the five cost collectors of
      internal/collector.  FamilyCollectors: tag, cur, commitment, budget, anomaly and
      organizationmeta.
    - CostExplorer: pagination, mapping, tag mapping, usage and forecast adapters of
      internal/aws/costexplorer.
    - Metrics: internal/metrics/cost.go.  Exporter: internal/metrics/exporter.go.
    - Store: internal/cache/memory/store.go.
    - Scheduler: internal/scheduler/runner.go, its constructor, delays and the retry loop of one
      refresh.  Dispatcher: the goroutines of the same file as a step relation.
    - PromClient: descriptions, metrics and what a collector sends to the Prometheus client.
    - Isolation: what one target's collectors do to what the store holds of another.
    - Pagination: the loop the paginated readers of internal/aws share.  AccountReaders:
      internal/aws/organizations and internal/aws/budgets.  SummaryReaders: commitments.go and
      anomalies.go of internal/aws/costexplorer.  AthenaQuery: the text of the CUR query and a
      scanner that reads it back; Athena: execution and results of internal/aws/athena.
    - GoRegexp: the regular expressions of the validation, matched by derivatives.  GoUrl: the
      parts of [url.Parse] and [net.ParseIP] an S3 location reaches.  Config: schema.go and the
      flat checks of validation.go in internal/config; Validation: the checks of sources and
      targets; ValidationSpec: what a valid configuration is.
    - FloatFacts: rounding of binary64 products and their monotonicity, for the delays.  Retry:
      retry.go, the limiter and the retryer of instrumentation.go.
    - Verifier: [targetVerifier] of internal/aws/clientfactory/factory.go as a step relation;
      ClientFactory: the rest of that file.  HttpServer: internal/httpserver/server.go.
    - Bootstrap: instrumentation.go of internal/aws/costexplorer and the collectors and jobs of
      internal/app/bootstrap.go; Application: [Run] of that file up to the listener; Services:
      [RunServices]; Composition: what is built, running; Refresh: a refresh over the store and
      the other jobs; Delivery: when a refresh reaches the readers; Command: command.go and [Run].
    - SliceHeap: the slices of a snapshot in shared memory.  Timers: timer.go and the
      schedule goroutine of internal/scheduler over timers; TimedRunner: the schedules of Timers
      among the goroutines of Dispatcher.  StandaloneClient: client.go of
      internal/aws/costexplorer.
    - Loader: internal/config/loader.go.  Logging: internal/logging/logging.go.  Pages:
      tools/pages/main.go, a build tool.

    ** How the parts meet

    Readers promise [CostReaderLaws], [ForecastReaderLaws], [TagReaderLaws] or [CURReaderLaws];
    the Cost Explorer adapters are instances, and collectors are proved against the classes.  A
    collector promises [CollectorContract]: what it answers with passes [ValidatePartial] for its
    own target and can be exposed.  The store's theorems hold for any sequence of publications
    and failures, and for any order Go may range over a map (an argument of the definition); the
    exposition theorems need only what the contract gives.

    ** What the theorems show

    - Store: the published snapshot has no duplicate series and each record comes from the
      current part of a collector of the record's target; publication is all or nothing; a
      failure retains data; account policies bound what is exposed; freshness only ages; the
      order of map iteration does not reach the readers; no snapshot exposes a series twice.
    - Collectors and cardinality: limits hold exactly, with sums in the overflow record; every
      collector answers with a publishable partial.
    - Cost Explorer: pagination is complete and bounded; mapping keeps basis, window and
      dimensions; month-to-date aggregation equals a per-key reference sum; dates round-trip.
    - Scheduler: a refresh retries only what may be retried, within the attempts and with the
      exponential delays, publishes what it collected once, and gives its slots back; in any
      interleaving of the goroutines at most one refresh per collector is in flight, at most
      [MaxConcurrency] collect, one per target, and the locks cannot deadlock.
    - Exporter and metrics: descriptions match labels, series are unique, self metrics are
      bounded.
    - Configuration: [Validate] accepts exactly the configurations of the contract [Valid]; with
      one of them no constructor of [Run] fails, every configured collector has one job, no
      metric name clashes in the registry, and every job keeps the contract the store relies on.
    - Athena: a query that was started is waited for, stopped or read, never left running; the
      polling ends within two turns of its deadline; the rows are those of all pages, each mapped;
      the query text reads back as the configured table and columns, whatever characters they hold.
    - Account and summary readers: what each answers with, as a function of the pages read.
    - Identity: a collector runs only behind an identity reported and confirmed, with the same
      credentials before and after; calls of the identity API are
      shared, spaced, and never block a caller for good; a fingerprint tells credentials apart;
      the clients of a target use its own credentials only.
    - The whole: from the arguments to the listener nothing fails that a loaded configuration could
      cause; what the two metrics collectors send in a scrape of the running exporter, each from
      the store it loads, never repeats a series, names a metric the registry does not hold, or
      labels a target that is not configured; the one panic left is a label that is not UTF-8.
    - Shutdown: it ends within its two timeouts even if the scheduler hangs, with its work
      accounted for.
    - Targets: what is exposed of one, the statuses of its collectors and the answers to its
      publications do not depend on what the collectors of the others publish; the names the
      configuration accepts are those for which this holds ([running_bar_free]).
    - Schedules and refreshes: dispatches keep their interval and one timer is armed at a time;
      with the timers in the runner, refreshes and the calls of the collectors are bounded by the
      time passed, and the two views of a schedule stay together ([timed_simulates]); a refresh
      leaves a store the application can be in, with the part of before or a new one, and the new
      one whenever its target accepts it, whatever the other targets do.
    - Loading: the registration of the defaults loses no field.  Logs: what is written, at which level
      and in which format, with every secret redacted except groups, which [slog] does not hand to
      the code.
    - HTTP: each path has one response; the server is ready exactly when every required collector
      is current, and publishing it makes it so.
    - Delays: those of the scheduler and of the SDK retries stay within their configured bounds,
      without overflow, rounding included (which can add nanoseconds above 2^53 of them); a schedule keeps its pace while its interval and the
      largest jitter fit 64 bits (about 194 years at the largest ratio).
    - Memory: a snapshot keeps its records whatever is written to the slices it was made of or to
      the copies it gave.
    - Pages: a source is never cleared, and the destination holds its pages and nothing else.

    ** Fuel and bounds

    The retry loop recurses on the attempts left and pagination on the pages left, which are the
    bounds the code tests; the scanners of GoStrings recurse on the bytes left; the polling of
    Athena has fuel, and [query_ends] computes how much is enough from the deadline and the
    interval.  Integers that can overflow in the source are wrapped where
    they can ([int64_wrap], [int32], [Sub] saturates).  Amounts are binary64: sums are the
    rounded sums in the order of the source.

    ** Not modelled

    The text of error messages formatted from values (the sentinel or cause they wrap is kept);
    the SDK clients, the Prometheus client, the output of slog's handlers, viper, cobra and net/http, which
    the source only calls; data races within one critical section (a locked section is one step).
    What the registry of the Prometheus client does with the metrics it is sent ([Gather]) is not
    modelled: the theorems of a scrape are of what is sent to it.
    The flags of tools/pages and the modes of the files it makes are not modelled either. *)

From stdpp Require Export prelude gmap strings list sorting fin_maps.
From Stdlib Require Export ZArith Lia Ascii.
From Stdlib Require String.

(** ** Results: a Go pair [(value, error)] in which exactly one side is meaningful *)

Inductive result (E A : Type) : Type :=
| Ok (value : A)
| Err (err : E).
Arguments Ok {E A} value.
Arguments Err {E A} err.

#[export] Instance result_eq_dec {E A} `{EqDecision E, EqDecision A} :
  EqDecision (result E A).
Proof. solve_decision. Defined.

#[export] Instance result_ret {E} : MRet (result E) := fun A a => Ok a.
#[export] Instance result_bind {E} : MBind (result E) :=
  fun A B f m => match m with Ok a => f a | Err e => Err e end.
#[export] Instance result_fmap {E} : FMap (result E) :=
  fun A B f m => match m with Ok a => Ok (f a) | Err e => Err e end.

(** [if cond { return err }] followed by the rest of the function. *)
Definition guard_err {E A} (cond : bool) (e : E) (k : result E A) : result E A :=
  if cond then Err e else k.

Declare Scope go_scope.
Delimit Scope go_scope with go.
Notation "'fail_if' c 'with_' e ;; k" := (guard_err c e k)
  (at level 100, c at level 99, e at level 99, k at level 200, right associativity) : go_scope.
#[global] Open Scope go_scope.

Definition is_ok {E A} (r : result E A) : bool :=
  match r with Ok _ => true | Err _ => false end.

Lemma Ok_inj {E A} (a b : A) : Ok (E:=E) a = Ok b -> a = b.
Proof. by intros [= ->]. Qed.

Section ResultLemmas.
Context {E A B : Type}.

Lemma bind_ok (m : result E A) (f : A -> result E B) b :
  m ≫= f = Ok b <-> exists a, m = Ok a /\ f a = Ok b.
Proof. destruct m; simpl; naive_solver. Qed.

Lemma bind_err (m : result E A) (f : A -> result E B) e :
  m ≫= f = Err e <-> m = Err e \/ exists a, m = Ok a /\ f a = Err e.
Proof. destruct m; simpl; naive_solver. Qed.

Lemma fmap_ok (m : result E A) (f : A -> B) b :
  f <$> m = Ok b <-> exists a, m = Ok a /\ f a = b.
Proof. destruct m; simpl; naive_solver. Qed.

Lemma guard_ok (c : bool) (e : E) (k : result E A) a :
  guard_err c e k = Ok a <-> c = false /\ k = Ok a.
Proof. destruct c; simpl; naive_solver. Qed.

Lemma is_ok_true (m : result E A) : is_ok m = true <-> exists a, m = Ok a.
Proof. destruct m; naive_solver. Qed.
End ResultLemmas.

(** Inverts every hypothesis saying that a sequence of steps returned [Ok]. *)
Ltac inv_ok :=
  repeat match goal with
  | H : Ok _ = Ok _ |- _ => injection H as H; try subst
  | H : Err _ = Ok _ |- _ => discriminate H
  | H : Ok _ = Err _ |- _ => discriminate H
  | H : (_ ≫= _) = Ok _ |- _ => apply bind_ok in H as (? & ? & ?)
  | H : (_ <$> _) = Ok _ |- _ => apply fmap_ok in H as (? & ? & ?)
  | H : guard_err _ _ _ = Ok _ |- _ => apply guard_ok in H as [? ?]
  | H : mret _ = Ok _ |- _ => injection H as H; try subst
  end.

(** Splits boolean conjunctions and disjunctions in the hypotheses. *)
Ltac inv_bool :=
  repeat match goal with
  | H : (_ && _) = true |- _ => apply andb_prop in H as [? ?]
  | H : (_ || _) = false |- _ => apply orb_false_elim in H as [? ?]
  | H : negb _ = true |- _ => apply negb_true_iff in H
  | H : negb _ = false |- _ => apply negb_false_iff in H
  | H : bool_decide _ = true |- _ => apply bool_decide_eq_true in H
  | H : bool_decide _ = false |- _ => apply bool_decide_eq_false in H
  | H : (_ <=? _)%Z = true |- _ => apply Z.leb_le in H
  | H : (_ <=? _)%Z = false |- _ => apply Z.leb_gt in H
  | H : (_ <? _)%Z = true |- _ => apply Z.ltb_lt in H
  | H : (_ <? _)%Z = false |- _ => apply Z.ltb_ge in H
  end.

(** ** Lists *)

Section ListLemmas.
Context {A B : Type}.

Lemma filter_all_true (f : A -> bool) l :
  (forall x, x ∈ l -> f x = true) -> List.filter f l = l.
Proof.
  induction l as [|x l IH]; simpl; intros H; [done|].
  rewrite (H x) by set_solver. f_equal. apply IH. set_solver.
Qed.

Lemma filter_none (g : A -> bool) l : (forall x, x ∈ l -> g x = false) -> List.filter g l = [].
Proof.
  induction l as [|x l IH]; simpl; [done|]. intros H. rewrite (H x) by set_solver.
  apply IH. set_solver.
Qed.

Lemma elem_of_filter_b (f : A -> bool) l x :
  x ∈ List.filter f l <-> x ∈ l /\ f x = true.
Proof. rewrite !list_elem_of_In. apply filter_In. Qed.

Lemma Permutation_List_filter (f : A -> bool) l l' :
  l ≡ₚ l' -> List.filter f l ≡ₚ List.filter f l'.
Proof.
  induction 1 as [|x l l' Hp IH|x y l|]; simpl; [done| | |by etrans].
  - destruct (f x); by rewrite IH.
  - destruct (f x), (f y); done || apply Permutation_swap.
Qed.

Lemma forallb_elem_of (f : A -> bool) l :
  forallb f l = true <-> forall x, x ∈ l -> f x = true.
Proof. rewrite forallb_forall. by setoid_rewrite list_elem_of_In. Qed.

Lemma forallb_not (f : A -> bool) l : forallb f l = false <-> exists x, x ∈ l /\ f x = false.
Proof.
  induction l as [|x l IH]; cbn; [split; [done|by intros (? & ?%elem_of_nil & _)]|].
  rewrite andb_false_iff, IH. setoid_rewrite elem_of_cons. naive_solver.
Qed.

Lemma forallb_and (f g : A -> bool) l :
  forallb (fun x => f x && g x) l = forallb f l && forallb g l.
Proof.
  induction l as [|x l IH]; simpl; [done|]. rewrite IH.
  by destruct (f x), (g x), (forallb f l).
Qed.

Lemma forallb_decide (P : A -> Prop) `{forall x, Decision (P x)} l :
  forallb (fun x => bool_decide (P x)) l = true <-> forall x, x ∈ l -> P x.
Proof. rewrite forallb_elem_of. by setoid_rewrite bool_decide_eq_true. Qed.

Lemma flat_map_app' (f : A -> list B) l1 l2 :
  flat_map f (l1 ++ l2) = flat_map f l1 ++ flat_map f l2.
Proof. apply flat_map_app. Qed.

Lemma elem_of_flat_map (f : A -> list B) l y :
  y ∈ flat_map f l <-> exists x, x ∈ l /\ y ∈ f x.
Proof. rewrite list_elem_of_In, in_flat_map. by setoid_rewrite list_elem_of_In. Qed.

Lemma flat_map_perm (f : A -> list B) l1 l2 :
  l1 ≡ₚ l2 -> flat_map f l1 ≡ₚ flat_map f l2.
Proof. intros H. by apply Permutation_flat_map. Qed.

Lemma flat_map_perm_ext (f g : A -> list B) l :
  (forall x, f x ≡ₚ g x) -> flat_map f l ≡ₚ flat_map g l.
Proof. intros H. induction l as [|x l IH]; simpl; [done|]. by rewrite H, IH. Qed.

Lemma length_flat_map_sum (f : A -> list B) l :
  length (flat_map f l) = sum_list_with (fun x => length (f x)) l.
Proof. induction l; simpl; [done|]. rewrite length_app. lia. Qed.

Lemma elem_of_map (f : A -> B) l y : y ∈ map f l <-> exists x, x ∈ l /\ f x = y.
Proof. rewrite list_elem_of_In, in_map_iff. setoid_rewrite list_elem_of_In. naive_solver. Qed.

Lemma NoDup_map_inj (f : A -> B) l x y :
  NoDup (map f l) -> x ∈ l -> y ∈ l -> f x = f y -> x = y.
Proof.
  induction l as [|z l IH]; simpl; [set_solver|]. intros [Hz Hnd]%NoDup_cons Hx Hy He.
  assert (Hno : forall w, w ∈ l -> f w <> f z)
    by (intros w Hw Hwz; apply Hz, elem_of_map; by exists w).
  apply elem_of_cons in Hx as [->|Hx], Hy as [->|Hy]; try done; [| |by apply IH].
  - by destruct (Hno y Hy).
  - by destruct (Hno x Hx).
Qed.

Lemma flat_map_map_singleton (f : A -> B) l : flat_map (fun a => [f a]) l = map f l.
Proof. induction l; simpl; congruence. Qed.
End ListLemmas.

Lemma filter_split {A} (f : A -> bool) l : l ≡ₚ List.filter f l ++ List.filter (fun a => negb (f a)) l.
Proof.
  induction l as [|a l IH]; simpl; [done|]. destruct (f a); simpl; [by constructor|].
  rewrite <- Permutation_middle. by constructor.
Qed.

Lemma NoDup_filter_b {A} (f : A -> bool) l : NoDup l -> NoDup (List.filter f l).
Proof. rewrite !NoDup_ListNoDup. apply List.NoDup_filter. Qed.

Lemma flat_map_split {A B} (f g : A -> list B) l : flat_map (fun a => f a ++ g a) l ≡ₚ flat_map f l ++ flat_map g l.
Proof.
  induction l as [|a l IH]; simpl; [done|]. rewrite IH. solve_Permutation.
Qed.

Lemma filter_sublist {A} (f : A -> bool) l : List.filter f l `sublist_of` l.
Proof. induction l as [|a l IH]; simpl; [done|]. destruct (f a); by constructor. Qed.

Lemma filter_filter {A} (f g : A -> bool) l : List.filter f (List.filter g l) = List.filter g (List.filter f l).
Proof.
  induction l as [|a l IH]; cbn; [done|]. destruct (f a) eqn:Hf, (g a) eqn:Hg; cbn; rewrite ?Hf, ?Hg, IH; done.
Qed.

Lemma filter_ext_elem {A} (f g : A -> bool) l : (forall a, a ∈ l -> f a = g a) -> List.filter f l = List.filter g l.
Proof.
  induction l as [|a l IH]; cbn; intros Hfg; [done|]. rewrite (Hfg a) by (by left).
  rewrite IH; [done|]. intros b Hb. apply Hfg. by right.
Qed.

(** Duplicate-freedom carries over from one expansion of a list to another when elements
    that meet in the second expansion already meet in the first. *)
Lemma NoDup_flat_map_transfer {A B C} (f : A -> list B) (g : A -> list C) l :
  NoDup (flat_map f l) ->
  (forall x, x ∈ l -> NoDup (g x)) ->
  (forall x y c, x ∈ l -> y ∈ l -> c ∈ g x -> c ∈ g y -> exists b, b ∈ f x /\ b ∈ f y) ->
  NoDup (flat_map g l).
Proof.
  induction l as [|x l IH]; simpl; [constructor|].
  intros (Hf & Hdis & Hl)%NoDup_app Hg Hmeet. apply NoDup_app. split; [apply Hg; by left|].
  split.
  - intros c Hc (y & Hy & Hcy)%elem_of_flat_map.
    destruct (Hmeet x y c) as (b & Hbx & Hby); [by left|by right|done|done|].
    apply (Hdis b Hbx), elem_of_flat_map. eauto.
  - apply IH; [done|set_solver|]. intros y z c Hy Hz. apply Hmeet; by right.
Qed.

Lemma sum_list_with_perm {A} (f : A -> nat) l1 l2 :
  l1 ≡ₚ l2 -> sum_list_with f l1 = sum_list_with f l2.
Proof. induction 1; simpl; lia. Qed.

(** A list whose set has as many elements as the list has no duplicates. *)
Lemma size_list_to_set_le (l : list string) : size (list_to_set l : gset string) <= length l.
Proof.
  induction l as [|x l IH]; [done|].
  change (size ({[x]} ∪ list_to_set l : gset string) <= S (length l)).
  rewrite size_union_alt, size_singleton.
  pose proof (subseteq_size (list_to_set l ∖ {[x]} : gset string) (list_to_set l)) as Hs.
  assert (size (list_to_set l ∖ {[x]} : gset string) <= size (list_to_set l : gset string))
    by (apply Hs; set_solver). lia.
Qed.

Lemma NoDup_of_size (l : list string) : size (list_to_set l : gset string) = length l -> NoDup l.
Proof.
  induction l as [|x l IH]; simpl; [constructor|]. intros Hs.
  pose proof (size_list_to_set_le l).
  destruct (decide (x ∈ l)) as [Hin|Hn].
  - assert (Heq : {[x]} ∪ list_to_set l =@{gset string} list_to_set l) by set_solver.
    rewrite Heq in Hs. lia.
  - constructor; [done|]. apply IH. rewrite size_union, size_singleton in Hs by set_solver. lia.
Qed.
