(* ===== verification/SliceStable.v ===== *)
(** * Stable sorting with a boolean [less]

    The model of Go's [sort.SliceStable] and of the multi-key comparison chains
    the source writes by hand ([if a.X != b.X { return a.X < b.X }; ...]). *)

From S2P Require Import Prelude.

(** [less] is a strict weak order on the values satisfying [P]. *)
Class StrictWeakOrder {A} (P : A -> Prop) (less : A -> A -> bool) : Prop := {
  swo_irrefl : forall x, P x -> less x x = false;
  swo_trans : forall x y z, P x -> P y -> P z ->
    less x y = true -> less y z = true -> less x z = true;
  swo_negtrans : forall x y z, P x -> P y -> P z ->
    less x y = false -> less y z = false -> less x z = false
}.

(** [less] is moreover total on distinct keys: the order of strings or integers. *)
Class StrictTotal {K} (less : K -> K -> bool) : Prop := {
  st_irrefl : forall x, less x x = false;
  st_trans : forall x y z, less x y = true -> less y z = true -> less x z = true;
  st_total : forall x y, x <> y -> less x y = true \/ less y x = true
}.

(** One link of a comparison chain: compare by [key], and go on with [rest] on a tie. *)
Definition by_key {A K} `{EqDecision K} (lt : K -> K -> bool) (key : A -> K)
    (rest : A -> A -> bool) (left right : A) : bool :=
  if bool_decide (key left = key right) then rest left right
  else lt (key left) (key right).

Definition no_key {A} (_ _ : A) : bool := false.

(** Insertion before the first element that is not smaller: the new element goes
    before its equals, so sorting from the right end keeps the input order. *)
Fixpoint insert_by {A} (less : A -> A -> bool) (x : A) (l : list A) : list A :=
  match l with
  | [] => [x]
  | y :: l' => if less y x then y :: insert_by less x l' else x :: y :: l'
  end.

Definition SliceStable {A} (less : A -> A -> bool) (l : list A) : list A :=
  foldr (insert_by less) [] l.

(** The order a sorted slice satisfies between an earlier and a later element. *)
Definition not_after {A} (less : A -> A -> bool) (x y : A) : Prop := less y x = false.

(** Elements a comparison cannot tell apart. *)
Definition tied {A} (less : A -> A -> bool) (x y : A) : bool :=
  negb (less x y) && negb (less y x).

(** ** Orders *)

Section Orders.
Context {A : Type} (P : A -> Prop) (less : A -> A -> bool).
Context {Hswo : StrictWeakOrder P less}.

Lemma swo_asym x y : P x -> P y -> less x y = true -> less y x = false.
Proof.
  intros Hx Hy Hxy. destruct (less y x) eqn:Hyx; [|done].
  pose proof (swo_trans x y x Hx Hy Hx Hxy Hyx) as Hxx.
  by rewrite (swo_irrefl x Hx) in Hxx.
Qed.

Lemma not_after_refl x : P x -> not_after less x x.
Proof. apply swo_irrefl. Qed.

Lemma not_after_trans x y z :
  P x -> P y -> P z -> not_after less x y -> not_after less y z -> not_after less x z.
Proof. unfold not_after. intros Hx Hy Hz H1 H2. by apply (swo_negtrans z y x). Qed.

Lemma tied_not_after x y :
  not_after less x y -> not_after less y x -> tied less x y = true.
Proof. unfold not_after, tied. intros -> ->. done. Qed.

Lemma tied_refl x : P x -> tied less x x = true.
Proof. intros Hx. unfold tied. by rewrite (swo_irrefl x Hx). Qed.

Lemma tied_trans_lt k x y :
  P k -> P x -> P y -> tied less k x = true -> tied less k y = true -> less y x = false.
Proof.
  unfold tied. intros Hk Hx Hy H1 H2. inv_bool. by apply (swo_negtrans y k x).
Qed.
End Orders.

#[export] Instance no_key_swo {A} (P : A -> Prop) : StrictWeakOrder P (@no_key A).
Proof. by split. Qed.

#[export] Instance by_key_swo {A K} `{EqDecision K} (P : A -> Prop)
    (lt : K -> K -> bool) (key : A -> K) rest :
  StrictTotal lt -> StrictWeakOrder P rest -> StrictWeakOrder P (by_key lt key rest).
Proof.
  intros [Hirr Htr Htot] Hrest. unfold by_key. split.
  - intros x Hx. rewrite bool_decide_true by done. by apply swo_irrefl.
  - intros x y z Hx Hy Hz. repeat case_bool_decide; try congruence.
    + by apply swo_trans.
    + intros Hl Hr. pose proof (Htr _ _ _ Hl Hr) as Hxz.
      replace (key z) with (key x) in Hxz by done. by rewrite Hirr in Hxz.
    + by apply Htr.
  - intros x y z Hx Hy Hz. repeat case_bool_decide; try congruence.
    + by apply swo_negtrans.
    + intros Hl Hr. destruct (Htot (key x) (key y)) as [Hlt|Hlt]; [done|congruence|].
      replace (key z) with (key x) in Hr by done. congruence.
    + intros Hl Hr. destruct (lt (key x) (key z)) eqn:E; [|done].
      destruct (Htot (key x) (key y)) as [Hlt|Hlt]; [done|congruence|].
      by rewrite (Htr _ _ _ Hlt E) in Hr.
Qed.

(** Two elements a chain cannot tell apart agree on its first key and tie on the rest. *)
Lemma by_key_tied {A K} `{EqDecision K} (lt : K -> K -> bool) (key : A -> K) rest x y :
  StrictTotal lt ->
  by_key lt key rest x y = false -> by_key lt key rest y x = false ->
  key x = key y /\ rest x y = false /\ rest y x = false.
Proof.
  intros [Hirr Htr Htot]. unfold by_key. repeat case_bool_decide; try congruence; try done.
  intros Hl Hr. destruct (Htot (key x) (key y)); [done|congruence|congruence].
Qed.

Lemma string_ltb_leb x y : String.ltb x y = negb (String.leb y x).
Proof.
  unfold String.ltb, String.leb. rewrite (String.compare_antisym x y).
  by destruct (String.compare y x).
Qed.

Lemma string_leb_trans x y z :
  String.leb x y = true -> String.leb y z = true -> String.leb x z = true.
Proof.
  rewrite <- !Is_true_true. intros Hxy Hyz.
  change (String.le x z). by trans y.
Qed.

Lemma string_leb_flip x y : String.leb x y = false -> String.leb y x = true.
Proof. intros Hl. destruct (String.leb_total x y); [congruence|done]. Qed.

#[export] Instance string_ltb_total : StrictTotal String.ltb.
Proof.
  split; intros *; rewrite !string_ltb_leb, ?negb_true_iff, ?negb_false_iff.
  - destruct (String.leb_total x x); done.
  - intros Hl Hr. destruct (String.leb z x) eqn:E; [|done].
    by rewrite (string_leb_trans z x y E (string_leb_flip _ _ Hl)) in Hr.
  - intros Hne. destruct (String.leb y x) eqn:E1; [|by left].
    destruct (String.leb x y) eqn:E2; [|by right].
    by destruct Hne; apply String.leb_antisym.
Qed.

#[export] Instance Z_ltb_total : StrictTotal Z.ltb.
Proof. split; intros *; rewrite ?Z.ltb_irrefl, ?Z.ltb_lt; lia. Qed.

(** ** The sorted slice *)

Section Sorted.
Context {A : Type} (P : A -> Prop) (less : A -> A -> bool).
Context {Hswo : StrictWeakOrder P less}.

Lemma insert_by_perm x l : insert_by less x l ≡ₚ x :: l.
Proof.
  induction l as [|y l IH]; simpl; [done|].
  destruct (less y x); [rewrite IH; apply Permutation_swap|done].
Qed.

Lemma SliceStable_perm l : SliceStable less l ≡ₚ l.
Proof. induction l as [|x l IH]; simpl; [done|]. by rewrite insert_by_perm, IH. Qed.

Lemma SliceStable_length l : length (SliceStable less l) = length l.
Proof. by rewrite SliceStable_perm. Qed.

Lemma elem_of_SliceStable x l : x ∈ SliceStable less l <-> x ∈ l.
Proof. by rewrite SliceStable_perm. Qed.

Lemma insert_by_sorted x l :
  P x -> Forall P l ->
  StronglySorted (not_after less) l -> StronglySorted (not_after less) (insert_by less x l).
Proof.
  intros Hx Hl Hs. induction Hs as [|y l Hs IH Hy]; simpl; [by repeat constructor|].
  apply Forall_cons in Hl as [HPy Hl]. destruct (less y x) eqn:E.
  - constructor; [by apply IH|].
    rewrite insert_by_perm. constructor; [|done]. by apply (swo_asym P).
  - constructor; [by constructor|]. constructor; [done|].
    rewrite Forall_forall in Hl, Hy |- *. intros z Hz.
    apply (not_after_trans P _ x y z); auto.
Qed.

Lemma SliceStable_sorted l :
  Forall P l -> StronglySorted (not_after less) (SliceStable less l).
Proof.
  induction 1 as [|x l Hx Hl IH]; simpl; [constructor|].
  apply insert_by_sorted; [done| |done]. by rewrite SliceStable_perm.
Qed.

Lemma insert_by_stable k x l :
  P k -> P x -> Forall P l ->
  List.filter (tied less k) (insert_by less x l) = List.filter (tied less k) (x :: l).
Proof.
  intros Hk Hx Hl. induction Hl as [|y l Hy Hl IH]; simpl; [done|].
  destruct (less y x) eqn:E; simpl; [|done].
  rewrite IH. simpl. destruct (tied less k x) eqn:Ex, (tied less k y) eqn:Ey; try done.
  by rewrite (tied_trans_lt P less k x y) in E.
Qed.

(** Elements that tie keep their relative order. *)
Lemma SliceStable_stable k l :
  P k -> Forall P l ->
  List.filter (tied less k) (SliceStable less l) = List.filter (tied less k) l.
Proof.
  intros Hk. induction 1 as [|x l Hx Hl IH]; simpl; [done|].
  rewrite insert_by_stable by (done || by rewrite SliceStable_perm).
  simpl. by rewrite IH.
Qed.

(** A sorted list with the same tied groups in the same order is unique, so any stable
    sorting algorithm computes [SliceStable]. *)
Lemma stable_sorted_unique l1 l2 :
  Forall P l1 -> Forall P l2 ->
  StronglySorted (not_after less) l1 -> StronglySorted (not_after less) l2 ->
  (forall k, P k -> List.filter (tied less k) l1 = List.filter (tied less k) l2) ->
  l1 = l2.
Proof.
  intros HP1. revert l2. induction HP1 as [|x l1 Hx HP1 IH]; intros l2 HP2 Hs1 Hs2 Hf.
  - destruct l2 as [|y l2]; [done|]. apply Forall_cons in HP2 as [Hy _].
    specialize (Hf y Hy). simpl in Hf. by rewrite (tied_refl P less y Hy) in Hf.
  - destruct l2 as [|y l2].
    { specialize (Hf x Hx). simpl in Hf. by rewrite (tied_refl P less x Hx) in Hf. }
    apply Forall_cons in HP2 as [Hy HP2].
    apply StronglySorted_cons in Hs1 as [Hx1 Hs1], Hs2 as [Hy2 Hs2].
    assert (Hin : forall u v a b, P u -> not_after less v v -> Forall (not_after less v) b ->
      List.filter (tied less u) (u :: a) = List.filter (tied less u) (v :: b) ->
      not_after less v u).
    { intros u v a b Hu Hv Hb He. cut (u ∈ v :: b).
      - intros [->|Hu']%elem_of_cons; [done|]. rewrite Forall_forall in Hb. by apply Hb.
      - cut (u ∈ List.filter (tied less u) (v :: b)); [by rewrite elem_of_filter_b; intros [??]|].
        rewrite <- He. apply elem_of_filter_b. split; [by left|]. by apply (tied_refl P). }
    assert (Ht : tied less x y = true).
    { apply tied_not_after.
      - apply (Hin y x l2 l1); auto; [by apply (not_after_refl P)|by rewrite Hf].
      - apply (Hin x y l1 l2); auto. by apply (not_after_refl P). }
    assert (x = y) as <-.
    { specialize (Hf x Hx). simpl in Hf. rewrite Ht, (tied_refl P less x Hx) in Hf. congruence. }
    f_equal. apply IH; try done. intros k Hk. specialize (Hf k Hk). simpl in Hf.
    destruct (tied less k x); congruence.
Qed.

(** Without ties between distinct elements the result depends only on the multiset. *)
Lemma SliceStable_deterministic l l' :
  Forall P l -> l ≡ₚ l' ->
  (forall x y, x ∈ l -> y ∈ l -> less x y = false -> less y x = false -> x = y) ->
  SliceStable less l = SliceStable less l'.
Proof.
  intros Hl Hp Hanti.
  apply (StronglySorted_unique_strong (not_after less)).
  - intros x y Hx Hy Hxy Hyx. rewrite elem_of_SliceStable in Hx, Hy.
    apply Hanti; [done|by rewrite Hp|done|done].
  - by apply SliceStable_sorted.
  - apply SliceStable_sorted. by rewrite <- Hp.
  - by rewrite !SliceStable_perm.
Qed.

Lemma SliceStable_idemp l :
  Forall P l -> SliceStable less (SliceStable less l) = SliceStable less l.
Proof.
  intros Hl. assert (Hl' : Forall P (SliceStable less l)) by by rewrite SliceStable_perm.
  apply stable_sorted_unique; [by rewrite SliceStable_perm|done|by apply SliceStable_sorted|by apply SliceStable_sorted|].
  intros k Hk. by apply SliceStable_stable.
Qed.

(** No element of one part ties with an element of the other. *)
Definition apart {B} (f : B -> list A) (p q : B) : Prop :=
  forall x y, x ∈ f p -> y ∈ f q -> tied less x y = false.

Lemma tied_sym x y : tied less x y = tied less y x.
Proof. unfold tied. apply andb_comm. Qed.

Lemma tied_trans x k y :
  P k -> P x -> P y -> tied less k x = true -> tied less k y = true -> tied less x y = true.
Proof.
  intros Hk Hx Hy H1 H2. unfold tied.
  by rewrite (tied_trans_lt P less k x y), (tied_trans_lt P less k y x).
Qed.

Lemma apart_filter_comm {B} (f : B -> list A) p q k :
  P k -> Forall P (f p) -> Forall P (f q) -> apart f p q ->
  List.filter (tied less k) (f p ++ f q) = List.filter (tied less k) (f q ++ f p).
Proof.
  intros Hk Hp Hq Hap. rewrite !List.filter_app.
  destruct (List.filter (tied less k) (f p)) as [|x l] eqn:E; [by rewrite app_nil_r|].
  assert (x ∈ f p /\ tied less k x = true) as [Hx Htx].
  { apply elem_of_filter_b. rewrite E. by left. }
  rewrite (filter_none _ (f q)); [by rewrite app_nil_r|]. intros y Hy.
  rewrite Forall_forall in Hp, Hq. destruct (tied less k y) eqn:Ety; [|done].
  specialize (Hap x y Hx Hy). rewrite (tied_trans x k y) in Hap; auto.
Qed.

Lemma Permutation_ForallOrdPairs {B} (R : B -> B -> Prop) l l' :
  (forall p q, R p q -> R q p) -> l ≡ₚ l' -> ForallOrdPairs R l -> ForallOrdPairs R l'.
Proof.
  intros Hsym. induction 1 as [|p l l' Hp IH|p q l|]; intros Hops; auto.
  - inversion Hops as [|? ? H1 H2]; subst. constructor; [by rewrite <- Hp|auto].
  - inversion Hops as [|? ? H1 H2]; subst. inversion H2 as [|? ? H3 H4]; subst.
    apply Forall_cons in H1 as [H1 H1']. constructor; [constructor; auto|]. by constructor.
Qed.

(** Sorting the concatenation of parts whose elements do not tie across parts does not
    depend on the order of the parts. *)
Lemma SliceStable_parts {B} (f : B -> list A) parts parts' :
  (forall x, P x) -> parts ≡ₚ parts' -> ForallOrdPairs (apart f) parts ->
  SliceStable less (flat_map f parts) = SliceStable less (flat_map f parts').
Proof.
  intros HP Hp Hord. assert (HPl : forall l : list A, Forall P l)
    by (intros l; apply Forall_forall; auto).
  assert (Hsym : forall p q, apart f p q -> apart f q p).
  { intros p q Hpq x y Hx Hy. rewrite tied_sym. auto. }
  apply stable_sorted_unique; [auto|auto|by apply SliceStable_sorted|by apply SliceStable_sorted|].
  intros k Hk. rewrite !SliceStable_stable by done. clear -Hp Hord Hsym HP HPl Hk Hswo.
  induction Hp as [|p l l' Hp IH|p q l|l1 l2 l3 Hp1 IH1 Hp2 IH2]; simpl.
  - done.
  - inversion Hord; subst. rewrite !List.filter_app. by rewrite IH.
  - inversion Hord as [|? ? Hq Hord']; subst. apply Forall_cons in Hq as [Hq _].
    rewrite !app_assoc, !(List.filter_app _ (_ ++ _)). f_equal.
    by apply apart_filter_comm.
  - rewrite IH1 by done. apply IH2. by eapply Permutation_ForallOrdPairs.
Qed.
End Sorted.

(** The comparison chains are orders on every value. *)
Definition everywhere {A} (_ : A) : Prop := True.

Lemma Forall_everywhere {A} (l : list A) : Forall everywhere l.
Proof. induction l; by constructor. Qed.
#[export] Hint Resolve Forall_everywhere : core.
