(* ===== verification/GoStrings.v ===== *)
(** * Go strings

    A Go string is a sequence of bytes; [string] is that sequence, and [String.ltb] is
    the bytewise order of Go's [<].  This file holds the functions of the [strings]
    package that the exporter calls. *)

From S2P Require Import Prelude.
Local Open Scope string_scope.
Local Open Scope list_scope.

Definition bytes (s : string) : list ascii := String.list_ascii_of_string s.
Definition of_bytes (l : list ascii) : string := String.string_of_list_ascii l.

Notation "a +++ b" := (String.app a b) (at level 60, right associativity) : go_scope.

Definition byte_ (n : N) : ascii := Ascii.ascii_of_N n.

(** The UTF-8 encodings of the runes for which [unicode.IsSpace] holds. *)
Definition space_runes : list (list ascii) :=
  map (fun n => [byte_ n]) [9; 10; 11; 12; 13; 32]%N ++
  map (map byte_)
    ([[194; 133]; [194; 160]; [225; 154; 128];
      [226; 128; 168]; [226; 128; 169]; [226; 128; 175]; [226; 129; 159];
      [227; 128; 128]]%N ++
     map (fun n => [226; 128; n]%N)
       [128; 129; 130; 131; 132; 133; 134; 135; 136; 137; 138]%N).

Fixpoint strip (p l : list ascii) : option (list ascii) :=
  match p, l with
  | [], _ => Some l
  | _, [] => None
  | a :: p', b :: l' => if bool_decide (a = b) then strip p' l' else None
  end.

(** The input without its first rune, when that rune is one of [runes]. *)
Fixpoint strip_any (runes : list (list ascii)) (l : list ascii) : option (list ascii) :=
  match runes with
  | [] => None
  | r :: runes' => match strip r l with Some l' => Some l' | None => strip_any runes' l end
  end.

Fixpoint trim_left_fuel (runes : list (list ascii)) (fuel : nat) (l : list ascii) : list ascii :=
  match fuel with
  | O => l
  | S fuel' =>
      match strip_any runes l with
      | Some l' => trim_left_fuel runes fuel' l'
      | None => l
      end
  end.

Definition trim_left (runes : list (list ascii)) (l : list ascii) : list ascii :=
  trim_left_fuel runes (length l) l.

Definition trim_right (runes : list (list ascii)) (l : list ascii) : list ascii :=
  rev (trim_left (map (@rev _) runes) (rev l)).

(** [strings.TrimSpace]. *)
Definition TrimSpace (s : string) : string :=
  of_bytes (trim_right space_runes (trim_left space_runes (bytes s))).

(** [strings.HasPrefix], [strings.TrimPrefix], [strings.Contains]. *)
Definition HasPrefix (s p : string) : bool := String.prefix p s.

Definition TrimPrefix (s p : string) : string :=
  match strip (bytes p) (bytes s) with Some rest => of_bytes rest | None => s end.

Fixpoint Contains (s sub : string) : bool :=
  String.prefix sub s ||
  match s with EmptyString => false | String _ s' => Contains s' sub end.

(** [strings.ToLower], exact on the ASCII bytes of its result: besides [A-Z] only
    U+0130 and U+212A have an ASCII lower case; every other rune stays non-ASCII. *)
Definition lower_ascii (c : ascii) : ascii :=
  let n := Ascii.N_of_ascii c in
  if (65 <=? n)%N && (n <=? 90)%N then byte_ (n + 32)%N else c.

Fixpoint lower_bytes (l : list ascii) : list ascii :=
  match l with
  | [] => []
  | a :: l1 =>
      match strip [byte_ 196; byte_ 176]%N l, l1 with
      | Some _, _ :: l2 => byte_ 105 :: lower_bytes l2
      | _, _ =>
          match strip [byte_ 226; byte_ 132; byte_ 170]%N l, l1 with
          | Some _, _ :: _ :: l3 => byte_ 107 :: lower_bytes l3
          | _, _ => lower_ascii a :: lower_bytes l1
          end
      end
  end.

Definition ToLower (s : string) : string := of_bytes (lower_bytes (bytes s)).

(** The fields of a formatted key, separated by a vertical bar. *)
Fixpoint join (sep : string) (fields : list string) : string :=
  match fields with
  | [] => ""
  | [f] => f
  | f :: rest => String.app f (String.app sep (join sep rest))
  end.

Definition pipe (fields : list string) : string := join "|" fields.

Definition digit_value (c : ascii) : option Z :=
  let n := Z.of_N (Ascii.N_of_ascii c) in
  if (48 <=? n)%Z && (n <=? 57)%Z then Some (n - 48)%Z else None.

Definition is_digit (c : ascii) : bool :=
  match digit_value c with Some _ => true | None => false end.

(** ** Lemmas *)

Lemma of_bytes_bytes s : of_bytes (bytes s) = s.
Proof. apply String.string_of_list_ascii_of_string. Qed.

Lemma bytes_of_bytes l : bytes (of_bytes l) = l.
Proof. apply String.list_ascii_of_string_of_list_ascii. Qed.

Lemma bytes_inj s t : bytes s = bytes t -> s = t.
Proof. intros H. by rewrite <- (of_bytes_bytes s), H, of_bytes_bytes. Qed.

Lemma bytes_app s t : bytes (String.app s t) = bytes s ++ bytes t.
Proof. induction s; simpl; [done|]. by f_equal. Qed.

Section Trim.
Context (runes : list (list ascii)).

Lemma strip_some p l l' : strip p l = Some l' <-> l = p ++ l'.
Proof.
  revert l. induction p as [|a p IH]; intros l; simpl; [naive_solver|].
  destruct l as [|b l]; [naive_solver|].
  case_bool_decide; [subst; rewrite IH; naive_solver|naive_solver].
Qed.

Lemma strip_any_some l l' :
  strip_any runes l = Some l' -> exists r, r ∈ runes /\ l = r ++ l'.
Proof.
  induction runes as [|r rs IH]; simpl; [done|]. destruct (strip r l) eqn:E.
  - intros [= <-]. apply strip_some in E. exists r. split; [left|done].
  - intros (r' & ? & ?)%IH. exists r'. split; [by right|done].
Qed.

Lemma strip_any_none l :
  strip_any runes l = None <-> forall r l', r ∈ runes -> l <> r ++ l'.
Proof.
  induction runes as [|r rs IH]; simpl.
  - split; [intros _ r l' []%elem_of_nil|done].
  - destruct (strip r l) eqn:E.
    + apply strip_some in E. split; [done|]. intros H. by destruct (H r l0); [left|].
    + rewrite IH. split.
      * intros H r' l' [->|Hr]%elem_of_cons; [|by apply H].
        intros ->. rewrite (proj2 (strip_some r _ l') eq_refl) in E. done.
      * intros H r' l' Hr. apply H. by right.
Qed.

Definition trimmed (l : list ascii) : Prop := strip_any runes l = None.

Lemma trim_left_suffix fuel l : exists p, l = p ++ trim_left_fuel runes fuel l.
Proof.
  revert l. induction fuel as [|fuel IH]; intros l; simpl; [by exists []|].
  destruct (strip_any runes l) as [l'|] eqn:E; [|by exists []].
  apply strip_any_some in E as (r & _ & ->). destruct (IH l') as [p Hp].
  exists (r ++ p). rewrite <- app_assoc. by f_equal.
Qed.

Context (Hne : forall r, r ∈ runes -> r <> []).

Lemma trim_left_fuel_trimmed fuel l :
  length l <= fuel -> trimmed (trim_left_fuel runes fuel l).
Proof.
  revert l. induction fuel as [|fuel IH]; intros l Hl; simpl.
  - destruct l; simpl in Hl; [|lia]. apply strip_any_none. intros r l' Hr Heq.
    symmetry in Heq. apply app_eq_nil in Heq as [-> _]. by apply (Hne [] Hr).
  - destruct (strip_any runes l) as [l'|] eqn:E; [|done].
    apply strip_any_some in E as (r & Hr & ->). apply IH.
    rewrite length_app in Hl. pose proof (Hne r Hr). destruct r; [done|]. simpl in Hl. lia.
Qed.

Lemma trim_left_trimmed l : trimmed (trim_left runes l).
Proof. by apply trim_left_fuel_trimmed. Qed.

Lemma trimmed_trim_left l : trimmed l -> trim_left runes l = l.
Proof. unfold trim_left, trimmed. intros H. destruct l; simpl; [done|]. by rewrite H. Qed.

Lemma trimmed_prefix p q : trimmed (p ++ q) -> trimmed p.
Proof.
  unfold trimmed. rewrite !strip_any_none. intros H r l' Hr ->.
  apply (H r (l' ++ q) Hr). by rewrite app_assoc.
Qed.
End Trim.

Lemma space_runes_nonempty r : r ∈ space_runes -> r <> [].
Proof.
  assert (Hall : forallb (fun r => negb (bool_decide (r = []))) space_runes = true) by done.
  rewrite forallb_elem_of in Hall. intros Hr%Hall. by inv_bool.
Qed.

Lemma space_runes_rev_nonempty r : r ∈ map (@rev _) space_runes -> r <> [].
Proof.
  rewrite list_elem_of_In, in_map_iff. intros (r' & <- & Hr) H.
  apply list_elem_of_In, space_runes_nonempty in Hr.
  by apply Hr; rewrite <- (rev_involutive r'), H.
Qed.

(** What [TrimSpace] leaves alone: no space rune at either end. *)
Definition trimmed_both (l : list ascii) : Prop :=
  trimmed space_runes l /\ trimmed (map (@rev _) space_runes) (rev l).

Lemma TrimSpace_trimmed s : trimmed_both (bytes (TrimSpace s)).
Proof.
  unfold TrimSpace. rewrite bytes_of_bytes. set (l := trim_left space_runes (bytes s)).
  assert (Hl : trimmed space_runes l) by (apply trim_left_trimmed, space_runes_nonempty).
  unfold trim_right. split; [|rewrite rev_involutive; apply trim_left_trimmed,
    space_runes_rev_nonempty].
  destruct (trim_left_suffix (map (@rev _) space_runes) (length (rev l)) (rev l)) as [p Hp].
  apply (trimmed_prefix space_runes _ (rev p)).
  rewrite <- rev_app_distr. unfold trim_left. rewrite <- Hp, rev_involutive. done.
Qed.

Lemma trimmed_TrimSpace s : trimmed_both (bytes s) -> TrimSpace s = s.
Proof.
  intros [Hl Hr]. unfold TrimSpace, trim_right.
  rewrite (trimmed_trim_left _ _ Hl), (trimmed_trim_left _ _ Hr), rev_involutive.
  apply of_bytes_bytes.
Qed.

Lemma TrimSpace_idemp s : TrimSpace (TrimSpace s) = TrimSpace s.
Proof. apply trimmed_TrimSpace, TrimSpace_trimmed. Qed.
#[export] Hint Rewrite TrimSpace_idemp of_bytes_bytes bytes_of_bytes : go_strings.

(** Bytes that neither start nor end a space rune. *)
Definition plain_byte (c : ascii) : bool :=
  forallb (fun r => negb (bool_decide (head r = Some c)) && negb (bool_decide (last r = Some c)))
    space_runes.

Lemma plain_TrimSpace s : forallb plain_byte (bytes s) = true -> TrimSpace s = s.
Proof.
  rewrite forallb_elem_of. intros Hp. apply trimmed_TrimSpace.
  split; apply strip_any_none.
  - intros r l' Hr Heq. pose proof (space_runes_nonempty r Hr) as Hne.
    destruct r as [|a r]; [done|]. assert (Ha : plain_byte a = true).
    { apply Hp. rewrite Heq. by left. }
    unfold plain_byte in Ha. rewrite forallb_elem_of in Ha.
    apply Ha in Hr. inv_bool. done.
  - intros r l' Hr Heq. apply list_elem_of_In, in_map_iff in Hr as (r' & <- & Hr).
    apply list_elem_of_In in Hr. pose proof (space_runes_nonempty r' Hr) as Hne.
    destruct r' as [|a r' _] using rev_ind; [done|].
    assert (Ha : plain_byte a = true).
    { apply Hp. apply (f_equal (@rev _)) in Heq. rewrite rev_involutive in Heq.
      rewrite Heq, rev_app_distr, rev_app_distr. simpl. set_solver. }
    unfold plain_byte in Ha. rewrite forallb_elem_of in Ha.
    apply Ha in Hr. inv_bool. by rewrite last_snoc in *.
Qed.

(** ** Keys built from fields *)

Definition no_byte (c : ascii) (s : string) : bool :=
  forallb (fun b => negb (bool_decide (b = c))) (bytes s).

Lemma no_byte_app c s t : no_byte c (String.app s t) = no_byte c s && no_byte c t.
Proof. unfold no_byte. by rewrite bytes_app, forallb_app. Qed.

Lemma split_at_sep c (a b a' b' : list ascii) :
  c ∉ a -> c ∉ a' -> a ++ c :: b = a' ++ c :: b' -> a = a' /\ b = b'.
Proof.
  revert a'. induction a as [|x a IH]; intros [|y a'] Ha Ha' Heq; simplify_eq/=.
  - done.
  - by destruct Ha'; left.
  - by destruct Ha; left.
  - destruct (IH a') as [-> ->]; set_solver.
Qed.

Lemma no_byte_not_elem c s : no_byte c s = true -> c ∉ bytes s.
Proof. unfold no_byte. rewrite forallb_elem_of. intros H Hc%H. by inv_bool. Qed.

(** A key determines its fields when no field holds the separator. *)
Lemma pipe_inj fs gs :
  length fs = length gs ->
  forallb (no_byte "|"%char) fs = true -> forallb (no_byte "|"%char) gs = true ->
  pipe fs = pipe gs -> fs = gs.
Proof.
  unfold pipe. revert gs. induction fs as [|f fs IH]; intros [|g gs] Hlen Hf Hg Heq; try done.
  cbn [forallb] in Hf, Hg. inv_bool.
  destruct fs as [|f' fs], gs as [|g' gs]; try done; [cbn in Heq; congruence|].
  apply (f_equal bytes) in Heq. cbn [join] in Heq. rewrite !bytes_app in Heq.
  apply split_at_sep in Heq as [He1 He2]; [|by apply no_byte_not_elem..].
  f_equal; [by apply bytes_inj|]. apply IH; [cbn in Hlen |- *; congruence|done..|].
  by apply bytes_inj.
Qed.

(** Keys whose first fields differ are different. *)
Lemma pipe_head_inj f fs g gs :
  fs <> [] -> gs <> [] ->
  no_byte "|"%char f = true -> no_byte "|"%char g = true ->
  pipe (f :: fs) = pipe (g :: gs) -> f = g /\ pipe fs = pipe gs.
Proof.
  unfold pipe. destruct fs as [|f1 fs]; [done|]. destruct gs as [|g1 gs]; [done|]. intros _ _ Hf Hg Heq.
  apply (f_equal bytes) in Heq. cbn [join] in Heq. rewrite !bytes_app in Heq.
  apply split_at_sep in Heq as [He1 He2]; [|by apply no_byte_not_elem..].
  split; by apply bytes_inj.
Qed.

Example TrimSpace_ex1 : TrimSpace (of_bytes (map byte_ [32; 226; 128; 131; 97; 32; 98; 194; 160; 10]%N)) = "a b".
Proof. vm_compute. reflexivity. Qed.

Example ToLower_ex1 : ToLower "AccessDeniedException" = "accessdeniedexception".
Proof. vm_compute. reflexivity. Qed.

Example Contains_ex1 : Contains "validationexception" "validation" = true /\ Contains "abc" "bd" = false.
Proof. vm_compute. done. Qed.

(** ** UTF-8 *)

Definition between (lo hi : N) (c : ascii) : bool :=
  let n := Ascii.N_of_ascii c in (lo <=? n)%N && (n <=? hi)%N.
Definition continuation (c : ascii) : bool := between 128 191 c.

(** The bytes that may follow the first one of an encoding of two bytes or more: the range of the
    second, and how many more continuation bytes. *)
Definition encoding_of (c : ascii) : option ((ascii -> bool) * nat) :=
  if between 194 223 c then Some (continuation, 0)
  else if between 224 224 c then Some (between 160 191, 1)
  else if between 225 236 c || between 238 239 c then Some (continuation, 1)
  else if between 237 237 c then Some (between 128 159, 1)
  else if between 240 240 c then Some (between 144 191, 2)
  else if between 241 243 c then Some (continuation, 2)
  else if between 244 244 c then Some (between 128 143, 2)
  else None.

(** [expected]: the second byte of an encoding, or the continuation bytes that are still missing. *)
Fixpoint valid_from (expected : option (ascii -> bool) * nat) (l : list ascii) : bool :=
  match expected, l with
  | (None, 0), [] => true
  | _, [] => false
  | (None, 0), c :: l =>
      if between 0 127 c then valid_from (None, 0) l
      else match encoding_of c with Some (second, n) => valid_from (Some second, n) l | None => false end
  | (Some second, n), c :: l => second c && valid_from (None, n) l
  | (None, S n), c :: l => continuation c && valid_from (None, n) l
  end.

(** [utf8.ValidString]. *)
Definition utf8_ValidString (s : string) : bool := valid_from (None, 0) (bytes s).

Definition is_ascii (s : string) : bool := forallb (between 0 127) (bytes s).

Lemma ascii_valid s : is_ascii s = true -> utf8_ValidString s = true.
Proof.
  unfold is_ascii, utf8_ValidString. induction (bytes s) as [|c l IH]; [done|].
  cbn [forallb valid_from]. intros [-> Hl]%andb_true_iff. by apply IH.
Qed.

Example utf8_ex :
  map (fun l => utf8_ValidString (of_bytes (map byte_ l)))
    [[97; 195; 169]; [226; 130; 172]; [240; 159; 152; 128]; [255]; [195]; [192; 128]; [237; 160; 128]]%N =
  [true; true; true; false; false; false; false].
Proof. vm_compute. reflexivity. Qed.
