(* ===== verification/GoRegexp.v ===== *)
(** * Anchored regular expressions

    The patterns internal/config and internal/aws/athena compile with [regexp.MustCompile] are
    all of the form [^...$]: they match a whole string of ASCII classes, sequences, groups of
    alternatives and counted repetitions.  A pattern is a syntax tree; its language is an
    inductive relation, and [matches] decides it by derivatives. *)

From S2P Require Import Prelude GoStrings.
Local Open Scope list_scope.

(** A class lists ranges of bytes; a repetition has a minimum and, perhaps, a maximum. *)
Inductive regexp :=
| Empty
| Eps
| Class (ranges : list (ascii * ascii))
| Seq (r s : regexp)
| Alt (r s : regexp)
| Repeat (r : regexp) (min : nat) (max : option nat).

Definition in_range (c : ascii) (range : ascii * ascii) : bool :=
  (N_of_ascii range.1 <=? N_of_ascii c)%N && (N_of_ascii c <=? N_of_ascii range.2)%N.

Definition in_class (ranges : list (ascii * ascii)) (c : ascii) : bool := existsb (in_range c) ranges.

(** A literal string, and the classes the patterns are built from. *)
Definition lit (s : string) : regexp :=
  fold_right (fun c r => Seq (Class [(c, c)]) r) Eps (bytes s).
Definition lower : ascii * ascii := ("a", "z")%char.
Definition upper : ascii * ascii := ("A", "Z")%char.
Definition digit : ascii * ascii := ("0", "9")%char.
Definition one (c : ascii) : ascii * ascii := (c, c).
Definition plus (r : regexp) : regexp := Repeat r 1 None.
Definition star (r : regexp) : regexp := Repeat r 0 None.
Definition times (r : regexp) (n : nat) : regexp := Repeat r n (Some n).
Definition between (r : regexp) (m n : nat) : regexp := Repeat r m (Some n).
Definition one_of (l : list string) : regexp := fold_right (fun s r => Alt (lit s) r) Empty l.
Definition seqs (l : list regexp) : regexp := fold_right Seq Eps l.

(** ** The language of a pattern *)

Inductive Matches : regexp -> list ascii -> Prop :=
| match_eps : Matches Eps []
| match_class ranges c : in_class ranges c = true -> Matches (Class ranges) [c]
| match_seq r s u v : Matches r u -> Matches s v -> Matches (Seq r s) (u ++ v)
| match_left r s u : Matches r u -> Matches (Alt r s) u
| match_right r s u : Matches s u -> Matches (Alt r s) u
| match_stop r max : Matches (Repeat r 0 max) []
| match_again r min max u v :
    max <> Some 0 -> Matches r u -> Matches (Repeat r (pred min) (pred <$> max)) v ->
    Matches (Repeat r min max) (u ++ v).

(** ** Matching by derivatives *)

Fixpoint nullable (r : regexp) : bool :=
  match r with
  | Empty | Class _ => false
  | Eps => true
  | Seq r s => nullable r && nullable s
  | Alt r s => nullable r || nullable s
  | Repeat r min max =>
      bool_decide (min = 0) ||
      (nullable r && match max with None => true | Some n => bool_decide (min <= n) end)
  end.

Definition mk_seq (r s : regexp) : regexp :=
  match r with Empty => Empty | Eps => s | _ => Seq r s end.
Definition mk_alt (r s : regexp) : regexp :=
  match r, s with Empty, _ => s | _, Empty => r | _, _ => Alt r s end.

Fixpoint derivative (c : ascii) (r : regexp) : regexp :=
  match r with
  | Empty | Eps => Empty
  | Class ranges => if in_class ranges c then Eps else Empty
  | Seq r s =>
      if nullable r then mk_alt (mk_seq (derivative c r) s) (derivative c s)
      else mk_seq (derivative c r) s
  | Alt r s => mk_alt (derivative c r) (derivative c s)
  | Repeat r min max =>
      if bool_decide (max = Some 0) then Empty
      else mk_seq (derivative c r) (Repeat r (pred min) (pred <$> max))
  end.

Fixpoint matches (r : regexp) (s : list ascii) : bool :=
  match s with
  | [] => nullable r
  | c :: s => matches (derivative c r) s
  end.

(** [pattern.MatchString]. *)
Definition MatchString (r : regexp) (s : string) : bool := matches r (bytes s).

(** ** Correctness *)

Lemma matches_nil_inv r s : Matches r s -> s = [] -> nullable r = true.
Proof.
  induction 1 as [| |r s u v _ IHr _ IHs|r s u _ IH|r s u _ IH|r max|r min max u v Hmax _ IHr _ IHs];
    simpl; intros He; try done.
  - apply app_nil in He as [-> ->]. by rewrite IHr, IHs.
  - by rewrite IH.
  - rewrite IH by done. by rewrite orb_true_r.
  - apply app_nil in He as [-> ->]. specialize (IHr eq_refl). specialize (IHs eq_refl).
    simpl in IHs. rewrite IHr in IHs |- *. simpl in *. apply orb_true_iff in IHs as [Hm|Hm].
    + apply bool_decide_eq_true in Hm. destruct max as [[|n]|]; simpl; [done| |by rewrite orb_true_r].
      apply orb_true_iff. right. apply bool_decide_eq_true. lia.
    + destruct max as [[|n]|]; simpl in *; [done| |by rewrite orb_true_r].
      apply bool_decide_eq_true in Hm. apply orb_true_iff. right. apply bool_decide_eq_true. lia.
Qed.

Lemma nullable_matches r : nullable r = true -> Matches r [].
Proof.
  induction r as [| | |r IHr s IHs|r IHr s IHs|r IHr min max]; simpl; intros Hn; try done.
  - constructor.
  - apply andb_prop in Hn as [Hr Hs]. apply (match_seq r s [] []); auto.
  - apply orb_true_iff in Hn as [Hr|Hs]; [by apply match_left, IHr|by apply match_right, IHs].
  - apply orb_true_iff in Hn as [Hm|[Hr Hm]%andb_prop].
    + apply bool_decide_eq_true in Hm as ->. constructor.
    + revert max Hm. induction min as [|min IH]; intros max Hm; [constructor|].
      apply (match_again r (S min) max [] []); [|auto|].
      * intros ->. by apply bool_decide_eq_true in Hm; lia.
      * simpl. apply IH. destruct max as [n|]; simpl; [|done].
        apply bool_decide_eq_true in Hm. apply bool_decide_eq_true. lia.
Qed.

Lemma Matches_mk_seq r s u : Matches (mk_seq r s) u <-> Matches (Seq r s) u.
Proof.
  destruct r; simpl; try done.
  - split; intros H; [by inversion H|]. inversion H as [| |? ? v w Hv| | | |]; subst. by inversion Hv.
  - split; intros H; [apply (match_seq Eps s []); [constructor|done]|].
    inversion H as [| |? ? ? ? He Hs| | | |]; subst. by inversion He; subst.
Qed.

Lemma Matches_Empty u : ~ Matches Empty u.
Proof. intros H. inversion H. Qed.

Lemma Matches_mk_alt r s u : Matches (mk_alt r s) u <-> Matches r u \/ Matches s u.
Proof.
  assert (Ha : Matches (Alt r s) u <-> Matches r u \/ Matches s u).
  { split; [intros H; inversion H; auto|intros [|]; [by apply match_left|by apply match_right]]. }
  pose proof (Matches_Empty u).
  destruct r, s; simpl; try exact Ha; tauto.
Qed.

Lemma derivative_sound c r u : Matches (derivative c r) u -> Matches r (c :: u).
Proof.
  revert u. induction r as [| |ranges|r IHr s IHs|r IHr s IHs|r IHr min max]; intros u; simpl.
  - by intros ?%Matches_Empty.
  - by intros ?%Matches_Empty.
  - destruct (in_class ranges c) eqn:Hc; [|by intros ?%Matches_Empty].
    intros H. inversion H; subst. by constructor.
  - assert (Hseq : Matches (mk_seq (derivative c r) s) u -> Matches (Seq r s) (c :: u)).
    { intros H%Matches_mk_seq. inversion H as [| |? ? v w Hv Hw| | | |]; subst.
      apply (match_seq r s (c :: v) w); auto. }
    destruct (nullable r) eqn:Hn; [|exact Hseq].
    intros [H|H]%Matches_mk_alt; [by apply Hseq|].
    apply (match_seq r s [] (c :: u)); [by apply nullable_matches|auto].
  - intros [H|H]%Matches_mk_alt; [by apply match_left, IHr|by apply match_right, IHs].
  - case_bool_decide as Hm; [by intros ?%Matches_Empty|].
    intros H%Matches_mk_seq. inversion H as [| |? ? v w Hv Hw| | | |]; subst.
    apply (match_again r min max (c :: v) w); auto.
Qed.

Lemma derivative_complete r s c u : Matches r s -> s = c :: u -> Matches (derivative c r) u.
Proof.
  intros Hm. revert c u.
  induction Hm as [|ranges d Hd|r s v w Hv IHr Hw IHs|r s v Hv IH|r s v Hv IH|r max
    |r min max v w Hmax Hv IHr Hw IHw]; intros c u He; simpl; try done.
  - injection He as -> <-. rewrite Hd. constructor.
  - assert (Hc : forall v', v = c :: v' -> u = v' ++ w -> Matches (mk_seq (derivative c r) s) u).
    { intros v' Hv' ->. apply Matches_mk_seq. constructor; [by apply IHr|done]. }
    destruct v as [|d v].
    + rewrite (matches_nil_inv r [] Hv eq_refl). apply Matches_mk_alt. right. by apply IHs.
    + injection He as -> <-. destruct (nullable r); [apply Matches_mk_alt; left|]; by eapply Hc.
  - apply Matches_mk_alt. left. by apply IH.
  - apply Matches_mk_alt. right. by apply IH.
  - rewrite bool_decide_false by done. apply Matches_mk_seq.
    destruct v as [|d v].
    + simpl in He. specialize (IHw c u He). simpl in IHw.
      case_bool_decide as Hm0; [by apply Matches_Empty in IHw|].
      apply Matches_mk_seq in IHw. inversion IHw as [| |? ? a b Ha Hb| | | |]; subst.
      constructor; [done|]. by apply (match_again r (pred min) (pred <$> max) [] b).
    + injection He as -> <-. constructor; [by apply IHr|done].
Qed.

(** the derivative matcher decides the language of every pattern: it accepts a string
    exactly when the string belongs to the language of the syntax tree. *)
Theorem matches_correct r s : matches r s = true <-> Matches r s.
Proof.
  revert r. induction s as [|c s IH]; intros r; simpl.
  - split; [apply nullable_matches|intros H; by eapply matches_nil_inv].
  - rewrite IH. split; [apply derivative_sound|intros H; by eapply derivative_complete].
Qed.

(** ** What every matched string looks like *)

(** The bytes that can occur in a match, and the least length of one. *)
Fixpoint alphabet (r : regexp) (c : ascii) : bool :=
  match r with
  | Empty | Eps => false
  | Class ranges => in_class ranges c
  | Seq r s | Alt r s => alphabet r c || alphabet s c
  | Repeat r _ _ => alphabet r c
  end.

Lemma Matches_alphabet r s : Matches r s -> forallb (alphabet r) s = true.
Proof.
  assert (Hmono : forall (f g : ascii -> bool) l, (forall c, f c = true -> g c = true) ->
    forallb f l = true -> forallb g l = true).
  { intros f g l Hfg. rewrite !forallb_elem_of. naive_solver. }
  induction 1 as [|ranges d Hd|r s v w Hv IHr Hw IHs|r s v Hv IH|r s v Hv IH|r max
    |r min max v w Hmax Hv IHr Hw IHw]; simpl; try done.
  - by rewrite Hd.
  - rewrite forallb_app. apply andb_true_iff. split; (eapply Hmono; [|eassumption]); simpl;
      intros c ->; [done|by rewrite orb_true_r].
  - eapply Hmono; [|exact IH]. by intros c ->.
  - eapply Hmono; [|exact IH]. intros c ->. by rewrite orb_true_r.
  - rewrite forallb_app. apply andb_true_iff. split; [exact IHr|exact IHw].
Qed.

Lemma Matches_class_repeat ranges min max s :
  Matches (Repeat (Class ranges) min max) s ->
  min <= length s /\ (forall n, max = Some n -> length s <= n) /\
  forallb (in_class ranges) s = true.
Proof.
  intros H. remember (Repeat (Class ranges) min max) as p eqn:Hp. revert min max Hp.
  induction H as [| | | | | |r m o u v Hmax Hu _ Hv IHv]; intros mn mx Hp; try done.
  - injection Hp as -> <- ->. simpl. split; [lia|]. split; [intros; lia|done].
  - injection Hp as -> -> ->. inversion Hu as [|l c Hc| | | | |]; subst. simpl.
    destruct (IHv _ _ eq_refl) as (Hmin & Hm & Hall). split; [lia|].
    split; [|by rewrite Hc]. intros n ->. simpl in Hm. destruct n as [|n]; [done|].
    specialize (Hm n eq_refl). lia.
Qed.

Lemma MatchString_nonempty r s : nullable r = false -> MatchString r s = true -> s <> ""%string.
Proof. unfold MatchString. intros Hn Hm ->. simpl in Hm. congruence. Qed.

Lemma MatchString_plain r s :
  (forall c, alphabet r c = true -> plain_byte c = true) -> MatchString r s = true ->
  TrimSpace s = s.
Proof.
  unfold MatchString. intros Ha Hm%matches_correct%Matches_alphabet. apply plain_TrimSpace.
  revert Hm. rewrite !forallb_elem_of. naive_solver.
Qed.
