(* ===== verification/GoUrl.v ===== *)
(** * URLs of the standard library, as far as the configuration reads them

    [net/url.Parse], [net.ParseIP] on text without a colon, [strings.Cut] and [strings.Split]. *)

From S2P Require Import Prelude GoStrings.
Local Open Scope list_scope.

(** [strings.Cut] at a one-byte separator: what is before it, and what is after when found. *)
Fixpoint Cut (sep : ascii) (l : list ascii) : list ascii * option (list ascii) :=
  match l with
  | [] => ([], None)
  | c :: l =>
      if bool_decide (c = sep) then ([], Some l)
      else let '(before, after) := Cut sep l in (c :: before, after)
  end.

(** [strings.Split] at a one-byte separator. *)
Fixpoint Split (sep : ascii) (l : list ascii) : list (list ascii) :=
  match l with
  | [] => [[]]
  | c :: l =>
      if bool_decide (c = sep) then [] :: Split sep l
      else match Split sep l with
           | [] => [[c]]
           | field :: fields => (c :: field) :: fields
           end
  end.

(** ** [net.ParseIP] of an IPv4 address *)

Definition ip_octet (l : list ascii) : bool :=
  match l with
  | [] => false
  | first :: rest =>
      forallb is_digit l &&
      (bool_decide (rest = []) || negb (bool_decide (first = "0"%char))) &&
      match mapM digit_value l with
      | Some digits => (fold_left (fun n d => n * 10 + d) digits 0 <=? 255)%Z
      | None => false
      end
  end.

Definition ParseIPv4 (s : string) : bool :=
  let fields := Split "."%char (bytes s) in
  bool_decide (length fields = 4) && forallb ip_octet fields.

(** ** [net/url.Parse] *)

Definition control_byte (c : ascii) : bool :=
  (N_of_ascii c <? 32)%N || (N_of_ascii c =? 127)%N.

Definition unhex (c : ascii) : option N :=
  let n := N_of_ascii c in
  if (48 <=? n)%N && (n <=? 57)%N then Some (n - 48)%N
  else if (97 <=? n)%N && (n <=? 102)%N then Some (n - 87)%N
  else if (65 <=? n)%N && (n <=? 70)%N then Some (n - 55)%N
  else None.

(** [unescape] of a path: an escape that is not two hexadecimal digits is an error. *)
Fixpoint unescape (l : list ascii) : option (list ascii) :=
  match l with
  | [] => Some []
  | c :: l1 =>
      if bool_decide (c = "%"%char) then
        match l1 with
        | high :: low :: l3 =>
            h ← unhex high; d ← unhex low; rest ← unescape l3;
            Some (ascii_of_N (h * 16 + d) :: rest)
        | _ => None
        end
      else rest ← unescape l1; Some (c :: rest)
  end.

Definition letter (c : ascii) : bool :=
  let n := N_of_ascii c in
  ((97 <=? n)%N && (n <=? 122)%N) || ((65 <=? n)%N && (n <=? 90)%N).

(** [getScheme]: the text before the first colon when it has the form of a scheme.  [None] is
    the error of an empty scheme; [Some ([], l)] a reference without one. *)
Fixpoint getScheme_from (whole : list ascii) (before : list ascii) (l : list ascii) :
    option (list ascii * list ascii) :=
  match l with
  | [] => Some ([], whole)
  | c :: l =>
      if letter c then getScheme_from whole (before ++ [c]) l
      else if is_digit c || bool_decide (c ∈ ["+"%char; "-"%char; "."%char]) then
        if bool_decide (before = []) then Some ([], whole) else getScheme_from whole (before ++ [c]) l
      else if bool_decide (c = ":"%char) then
        if bool_decide (before = []) then None else Some (before, l)
      else Some ([], whole)
  end.

Definition getScheme (l : list ascii) : option (list ascii * list ascii) := getScheme_from l [] l.

Record URL := mkURL {
  Scheme : string; Opaque : string; HasUser : bool; Host : string; URLPath : string;
  RawQuery : string; Fragment : string
}.

(** [rest] without a lone trailing question mark, or cut at the first one. *)
Definition cut_query (rest : list ascii) : list ascii * list ascii :=
  match Cut "?"%char rest with
  | (before, None) => (before, [])
  | (before, Some query) => (before, query)
  end.

(** [url.Parse] of a text with a scheme.  A text without one, which Go parses as a relative
    reference, is [None] here: the caller asks for a scheme.  So is an authority with a bracket,
    a port or an escape, and one with user information that is malformed: Go rejects some of them
    and keeps others with these bytes in [Host] or with a non-nil [User]; the
    caller refuses all of these.  A host byte that Go rejects is kept in [Host], which the caller
    matches against a pattern of letters, digits, dots and hyphens. *)
Definition url_Parse (value : string) : option URL :=
  let '(u, fragment) := Cut "#"%char (bytes value) in
  if existsb control_byte u then None else
  '(scheme, rest) ← getScheme u;
  if bool_decide (scheme = []) then None else
  let '(rest, query) := cut_query rest in
  let scheme := ToLower (of_bytes scheme) in
  frag ← unescape (default [] fragment);
  match rest with
  | "/"%char :: "/"%char :: rest =>
      let '(authority, path) := Cut "/"%char rest in
      let path := match path with None => [] | Some path => "/"%char :: path end in
      if existsb (fun c => bool_decide (c ∈ ["["; "]"; ":"; "%"]%char)) authority then None else
      path ← unescape path;
      Some (mkURL scheme "" (bool_decide ("@"%char ∈ authority)) (of_bytes authority)
              (of_bytes path) (of_bytes query) (of_bytes frag))
  | "/"%char :: _ =>
      path ← unescape rest;
      Some (mkURL scheme "" false "" (of_bytes path) (of_bytes query) (of_bytes frag))
  | _ => Some (mkURL scheme (of_bytes rest) false "" "" (of_bytes query) (of_bytes frag))
  end.

Example url_Parse_ex :
  map url_Parse ["S3://bucket/a%20b/"; "s3:/bucket"; "s3:bucket"; "s3://b/%zz"; "s3://b/a?x=1#f"]%string =
  [Some (mkURL "s3" "" false "bucket" "/a b/" "" ""); Some (mkURL "s3" "" false "" "/bucket" "" "");
   Some (mkURL "s3" "bucket" false "" "" "" ""); None; Some (mkURL "s3" "" false "b" "/a" "x=1" "f")].
Proof. vm_compute. reflexivity. Qed.

Example ParseIPv4_ex :
  map ParseIPv4 ["10.0.0.1"; "10.0.0"; "10.0.0.256"; "10.00.0.1"; "10.0.0.a"]%string =
  [true; false; false; false; false].
Proof. vm_compute. reflexivity. Qed.

(** ** Lemmas *)

Lemma cut_absent sep l : sep ∉ l -> Cut sep l = (l, None).
Proof.
  induction l as [|c l IH]; simpl; [done|]. intros [Hc Hl]%not_elem_of_cons.
  rewrite bool_decide_false by done. by rewrite IH.
Qed.

Lemma cut_at sep l rest : sep ∉ l -> Cut sep (l ++ sep :: rest) = (l, Some rest).
Proof.
  induction l as [|c l IH]; simpl; intros Hl.
  - by rewrite bool_decide_true.
  - apply not_elem_of_cons in Hl as [Hc Hl]. rewrite bool_decide_false by done. by rewrite IH.
Qed.

Lemma split_nonempty sep l : Split sep l <> [].
Proof. destruct l as [|c l]; simpl; [done|]. case_bool_decide; [done|]. by destruct (Split sep l). Qed.

Lemma split_at sep l rest : sep ∉ l -> Split sep (l ++ sep :: rest) = l :: Split sep rest.
Proof.
  induction l as [|c l IH]; simpl; intros Hl.
  - by rewrite bool_decide_true.
  - apply not_elem_of_cons in Hl as [Hc Hl]. rewrite bool_decide_false by done. by rewrite IH.
Qed.

Lemma split_absent sep l : sep ∉ l -> Split sep l = [l].
Proof.
  induction l as [|c l IH]; simpl; [done|]. intros [Hc Hl]%not_elem_of_cons.
  rewrite bool_decide_false by done. by rewrite IH.
Qed.
