(* ===== verification/GoFloat.v ===== *)
(** * Go float64

    IEEE 754 binary64 as the Standard Library specifies it ([SpecFloat] at precision 53
    and maximal exponent 1024): executable, with every operation rounded to nearest even.
    [strconv.ParseFloat] is the scanner of the Go standard library followed by one
    correctly rounded conversion of the exact decimal (or hexadecimal) value. *)

From S2P Require Import Prelude GoStrings.
From Stdlib Require Export SpecFloat.
Local Open Scope Z_scope.

Definition float64 : Type := spec_float.

#[export] Instance float64_eq_dec : EqDecision spec_float.
Proof. solve_decision. Defined.

Definition f64_prec : Z := 53.
Definition f64_emax : Z := 1024.

Definition f0 : float64 := S754_zero false.
Definition f64_of_Z (z : Z) : float64 := binary_normalize f64_prec f64_emax z 0 false.

Definition IsNaN (x : float64) : bool := match x with S754_nan => true | _ => false end.
Definition IsInf (x : float64) : bool := match x with S754_infinity _ => true | _ => false end.
Definition nonFinite (x : float64) : bool := IsNaN x || IsInf x.

Definition fadd (x y : float64) : float64 := SFadd f64_prec f64_emax x y.
Definition fmul (x y : float64) : float64 := SFmul f64_prec f64_emax x y.
Definition fdiv (x y : float64) : float64 := SFdiv f64_prec f64_emax x y.
Definition feqb (x y : float64) : bool := SFeqb x y.
Definition fltb (x y : float64) : bool := SFltb x y.
Definition fleb (x y : float64) : bool := SFleb x y.

(** The conversion of a float to an integer type truncates toward zero. *)
Definition f64_trunc (x : float64) : Z :=
  match x with
  | S754_finite s m e =>
      let a := if 0 <=? e then Z.pos m * 2 ^ e else Z.pos m / 2 ^ (- e) in
      if s then - a else a
  | _ => 0
  end.

(** The builtin [min] and [max] on floats: a NaN operand gives NaN, and -0 is below +0. *)
Definition fmin (x y : float64) : float64 :=
  if IsNaN x || IsNaN y then S754_nan
  else if feqb x y then (match x with S754_zero true => x | _ => y end)
  else if fltb x y then x else y.
Definition fmax (x y : float64) : float64 :=
  if IsNaN x || IsNaN y then S754_nan
  else if feqb x y then (match x with S754_zero true => y | _ => x end)
  else if fltb y x then x else y.

(** ** strconv.ParseFloat *)

(** The correctly rounded quotient of two positive integers. *)
Definition round_ratio (sign : bool) (num den : Z) : float64 :=
  if num =? 0 then S754_zero sign
  else
    let '(mz, ez, lz) := SFdiv_core_binary f64_prec f64_emax num 0 den 0 in
    binary_round_aux f64_prec f64_emax sign mz ez lz.

Definition hex_value (c : ascii) : option Z :=
  match digit_value c with
  | Some d => Some d
  | None =>
      let n := Z.of_N (N_of_ascii (lower_ascii c)) in
      if (97 <=? n) && (n <=? 102) then Some (n - 87) else None
  end.

(** What the mantissa loop has read so far. *)
Record mantissa_scan := {
  scan_mant : Z;
  scan_frac : Z;
  scan_dot : bool;
  scan_digits : bool;
  scan_underscores : bool
}.

Fixpoint scan_mantissa (hex : bool) (st : mantissa_scan) (l : list ascii) :
    mantissa_scan * list ascii :=
  match l with
  | [] => (st, [])
  | c :: l' =>
      if bool_decide (c = "_"%char) then
        scan_mantissa hex
          {| scan_mant := scan_mant st; scan_frac := scan_frac st; scan_dot := scan_dot st;
             scan_digits := scan_digits st; scan_underscores := true |} l'
      else if bool_decide (c = "."%char) then
        if scan_dot st then (st, l)
        else scan_mantissa hex
          {| scan_mant := scan_mant st; scan_frac := scan_frac st; scan_dot := true;
             scan_digits := scan_digits st; scan_underscores := scan_underscores st |} l'
      else
        match (if hex then hex_value c else digit_value c) with
        | Some d =>
            scan_mantissa hex
              {| scan_mant := scan_mant st * (if hex then 16 else 10) + d;
                 scan_frac := if scan_dot st then scan_frac st + 1 else scan_frac st;
                 scan_dot := scan_dot st; scan_digits := true;
                 scan_underscores := scan_underscores st |} l'
        | None => (st, l)
        end
  end.

(** The exponent digits; the accumulated value stops growing at 10000. *)
Fixpoint scan_exponent (e : Z) (underscores : bool) (l : list ascii) : Z * bool * list ascii :=
  match l with
  | [] => (e, underscores, [])
  | c :: l' =>
      if bool_decide (c = "_"%char) then scan_exponent e true l'
      else
        match digit_value c with
        | Some d => scan_exponent (if e <? 10000 then e * 10 + d else e) underscores l'
        | None => (e, underscores, l)
        end
  end.

Inductive underscore_saw := SawStart | SawDigit | SawUnderscore | SawOther.

Fixpoint underscore_loop (hex : bool) (saw : underscore_saw) (l : list ascii) : bool :=
  match l with
  | [] => match saw with SawUnderscore => false | _ => true end
  | c :: l' =>
      if (is_digit c || (hex && match hex_value c with Some _ => true | None => false end))
      then underscore_loop hex SawDigit l'
      else if bool_decide (c = "_"%char) then
        match saw with SawDigit => underscore_loop hex SawUnderscore l' | _ => false end
      else match saw with SawUnderscore => false | _ => underscore_loop hex SawOther l' end
  end.

Definition skip_sign (l : list ascii) : bool * list ascii :=
  match l with
  | c :: l' =>
      if bool_decide (c = "+"%char) then (false, l')
      else if bool_decide (c = "-"%char) then (true, l') else (false, l)
  | [] => (false, l)
  end.

(** [underscoreOK]: underscores separate digits, or a base prefix from a digit. *)
Definition underscoreOK (s : list ascii) : bool :=
  let '(_, l) := skip_sign s in
  match l with
  | z :: b :: l' =>
      let lb := lower_ascii b in
      if bool_decide (z = "0"%char) &&
         (bool_decide (lb = "b"%char) || bool_decide (lb = "o"%char) || bool_decide (lb = "x"%char))
      then underscore_loop (bool_decide (lb = "x"%char)) SawDigit l'
      else underscore_loop false SawStart l
  | _ => underscore_loop false SawStart l
  end.

(** [special]: the spellings of infinity and not-a-number, case ignored. *)
Definition parse_special (s : list ascii) : option float64 :=
  let low := of_bytes (map lower_ascii s) in
  let '(neg, rest) := skip_sign s in
  let low_rest := of_bytes (map lower_ascii rest) in
  if bool_decide (low_rest = "inf"%string) || bool_decide (low_rest = "infinity"%string)
  then Some (S754_infinity neg)
  else if bool_decide (low = "nan"%string) then Some S754_nan
  else None.

(** The number of decimal digits of a positive integer, for the range cuts below. *)
Definition decimal_digits (z : Z) : Z := Z.log2 z * 1233 / 4096 + 1.

Definition decimal_value (neg : bool) (mant exp10 : Z) : float64 :=
  if mant =? 0 then S754_zero neg
  else if 400 <? decimal_digits mant + exp10 then S754_infinity neg
  else if decimal_digits mant + exp10 <? -400 then S754_zero neg
  else if 0 <=? exp10 then round_ratio neg (mant * 10 ^ exp10) 1
  else round_ratio neg mant (10 ^ (- exp10)).

Definition hex_float (neg : bool) (mant exp2 : Z) : float64 :=
  match mant with
  | Z.pos m => binary_round f64_prec f64_emax neg m exp2
  | _ => S754_zero neg
  end.

(** [readFloat] followed by the conversion; [None] is a syntax error. *)
Definition read_float (s : list ascii) : option float64 :=
  let '(neg, l) := skip_sign s in
  let '(hex, l) :=
    match l with
    | z :: x :: ((_ :: _) as rest) =>
        if bool_decide (z = "0"%char) && bool_decide (lower_ascii x = "x"%char)
        then (true, rest) else (false, l)
    | _ => (false, l)
    end in
  let '(st, l) := scan_mantissa hex
    {| scan_mant := 0; scan_frac := 0; scan_dot := false; scan_digits := false;
       scan_underscores := false |} l in
  if negb (scan_digits st) then None
  else
    let exp :=
      match l with
      | c :: l' =>
          if bool_decide (lower_ascii c = if hex then "p"%char else "e"%char) then
            let '(eneg, l') := skip_sign l' in
            match l' with
            | d :: _ =>
                if is_digit d then
                  let '(e, us, rest) := scan_exponent 0 (scan_underscores st) l' in
                  Some (if eneg then - e else e, us, rest)
                else None
            | [] => None
            end
          else if hex then None else Some (0, scan_underscores st, l)
      | [] => if hex then None else Some (0, scan_underscores st, [])
      end in
    match exp with
    | Some (e, us, []) =>
        if us && negb (underscoreOK s) then None
        else if hex then Some (hex_float neg (scan_mant st) (e - 4 * scan_frac st))
        else Some (decimal_value neg (scan_mant st) (e - scan_frac st))
    | _ => None
    end.

(** [strconv.ParseFloat(s, 64)]: [None] stands for a non-nil error (syntax or range). *)
Definition ParseFloat (s : string) : option float64 :=
  match parse_special (bytes s) with
  | Some f => Some f
  | None =>
      match read_float (bytes s) with
      | Some f => if IsInf f then None else Some f
      | None => None
      end
  end.

(** ** The order of floats *)

(** Non-NaN floats as integer triples, ordered lexicographically. *)
Definition float_rank (x : float64) : Z * Z * Z :=
  match x with
  | S754_infinity true => (-2, 0, 0)
  | S754_finite true m e => (-1, - e, Z.neg m)
  | S754_zero _ => (0, 0, 0)
  | S754_finite false m e => (1, e, Z.pos m)
  | S754_infinity false => (2, 0, 0)
  | S754_nan => (3, 0, 0)
  end.

Definition rank_lt (a b : Z * Z * Z) : Prop :=
  a.1.1 < b.1.1 \/ a.1.1 = b.1.1 /\ (a.1.2 < b.1.2 \/ a.1.2 = b.1.2 /\ a.2 < b.2).

Lemma SFcompare_rank x y :
  IsNaN x = false -> IsNaN y = false ->
  match SFcompare x y with
  | Some Eq => float_rank x = float_rank y
  | Some Lt => rank_lt (float_rank x) (float_rank y)
  | Some Gt => rank_lt (float_rank y) (float_rank x)
  | None => False
  end.
Proof.
  unfold rank_lt.
  destruct x as [sx|sx| |sx mx ex], y as [sy|sy| |sy my ey]; try done;
    try destruct sx; try destruct sy; simpl; intros _ _; try lia; try done;
    destruct (Z.compare_spec ex ey); simpl; try lia; subst;
    change (Pos.compare_cont Eq mx my) with (Pos.compare mx my);
    destruct (Pos.compare_spec mx my); simpl; subst; try done; lia.
Qed.

Lemma fltb_rank x y :
  IsNaN x = false -> IsNaN y = false ->
  fltb x y = true <-> rank_lt (float_rank x) (float_rank y).
Proof.
  intros Hx Hy. pose proof (SFcompare_rank x y Hx Hy) as H.
  unfold fltb, SFltb. destruct (SFcompare x y) as [[]|]; split; try done;
    unfold rank_lt in *; intros; try rewrite H in *; lia.
Qed.

Lemma feqb_rank x y :
  IsNaN x = false -> IsNaN y = false ->
  feqb x y = true <-> float_rank x = float_rank y.
Proof.
  intros Hx Hy. pose proof (SFcompare_rank x y Hx Hy) as H.
  unfold feqb, SFeqb. destruct (SFcompare x y) as [[]|]; split; try done;
    unfold rank_lt in *; intros Heq; rewrite ?Heq in *; lia.
Qed.

Lemma fleb_rank x y :
  IsNaN x = false -> IsNaN y = false ->
  fleb x y = true <-> ~ rank_lt (float_rank y) (float_rank x).
Proof.
  intros Hx Hy. pose proof (SFcompare_rank x y Hx Hy) as H.
  unfold fleb, SFleb. destruct (SFcompare x y) as [[]|]; split; try done;
    unfold rank_lt in *; intros; try rewrite H in *; lia.
Qed.

Lemma rank_lt_total a b : a <> b -> rank_lt a b \/ rank_lt b a.
Proof.
  destruct a as [[a1 a2] a3], b as [[b1 b2] b3]. unfold rank_lt. simpl. intros Hne.
  destruct (Z.eq_dec a1 b1), (Z.eq_dec a2 b2), (Z.eq_dec a3 b3); subst; try done; lia.
Qed.

Lemma nonFinite_false x : nonFinite x = false -> IsNaN x = false /\ IsInf x = false.
Proof. unfold nonFinite. intros. by inv_bool. Qed.

Lemma fltb_irrefl x : fltb x x = false.
Proof.
  destruct (IsNaN x) eqn:Hx; [by destruct x|].
  apply not_true_is_false. rewrite fltb_rank by done. unfold rank_lt. lia.
Qed.

Example ParseFloat_tenth : ParseFloat "0.1" = Some (S754_finite false 7205759403792794 (-56)).
Proof. vm_compute. reflexivity. Qed.

Example ParseFloat_forms :
  map ParseFloat ["-1_23.50_0_0e+1_2"; "0x1.8p1"; "+Inf"; "1e400"; "5e-324"; "1__0"; ""; "12.5 "; ".5"]%string
  = [Some (S754_finite true 7904000000000000 (-6)); Some (S754_finite false 6755399441055744 (-51));
     Some (S754_infinity false); None; Some (S754_finite false 1 (-1074)); None; None; None;
     Some (S754_finite false 4503599627370496 (-53))].
Proof. vm_compute. reflexivity. Qed.
