(* ===== verification/FloatFacts.v ===== *)
(** * Bounds on binary64 arithmetic

    What the delays computed in floating point need: the rounding of [SpecFloat] is faithful (a
    multiple of the last place is never crossed), conversions of integers up to 2^53 are exact,
    and the product with a factor below one does not exceed the other factor.  A float is read as
    an integer scaled by a power of two, so that no real numbers are needed. *)

From S2P Require Import Prelude GoStrings GoFloat.
Local Open Scope Z_scope.

Abbreviation fexp64 := (fexp f64_prec f64_emax).

Lemma fexp64_eq e : fexp64 e = Z.max (e - 53) (-1074).
Proof. reflexivity. Qed.

Lemma digits2_log2 m : Z.pos (digits2_pos m) = Z.log2 (Z.pos m) + 1.
Proof.
  induction m as [m IH|m IH|]; [| |done]; cbn [digits2_pos]; rewrite Pos2Z.inj_succ, IH.
  - rewrite (Pos2Z.inj_xI m), Z.log2_succ_double by lia. lia.
  - rewrite (Pos2Z.inj_xO m), Z.log2_double by lia. lia.
Qed.

Lemma Zdigits2_bounds m : 0 < m -> 2 ^ (Zdigits2 m - 1) <= m < 2 ^ Zdigits2 m /\ 0 < Zdigits2 m.
Proof.
  destruct m as [|m|m]; try lia. intros _. cbn [Zdigits2]. rewrite digits2_log2.
  pose proof (Z.log2_spec (Z.pos m) ltac:(lia)). pose proof (Z.log2_nonneg (Z.pos m)).
  rewrite Z.add_simpl_r, Z.add_1_r. lia.
Qed.

Lemma Zdigits2_le m k : 0 <= k -> 0 <= m < 2 ^ k -> Zdigits2 m <= k.
Proof.
  intros Hk [H0 Hm]. destruct (Z.eq_dec m 0) as [->|]; [done|].
  destruct (Zdigits2_bounds m) as [[Hlo _] Hpos]; [lia|].
  destruct (Z.le_gt_cases (Zdigits2 m) k) as [?|Hgt]; [done|].
  assert (2 ^ k <= 2 ^ (Zdigits2 m - 1)) by (apply Z.pow_le_mono_r; lia). lia.
Qed.

(** ** Shifting *)

(** [mrs] is [o] shifted right by [n] places, and remembers whether anything was lost. *)
Definition shifted (o n : Z) (mrs : shr_record) : Prop :=
  0 <= shr_m mrs /\ exists lost, o = shr_m mrs * 2 ^ n + lost /\ 0 <= lost < 2 ^ n /\
    (loc_of_shr_record mrs = loc_Exact <-> lost = 0).

Lemma shifted_step o n mrs : 0 <= n -> shifted o n mrs -> shifted o (n + 1) (shr_1 mrs).
Proof.
  intros Hn (H0 & lost & Ho & Hl & Hex). unfold shifted. rewrite Z.pow_add_r by lia. change (2 ^ 1) with 2.
  destruct mrs as [m r s]. cbn [shr_m loc_of_shr_record shr_1] in *. destruct m as [|p|p]; [| |lia].
  - split; [done|]. exists lost. cbn [shr_m]. split; [lia|]. split; [lia|]. destruct r, s; cbn in *; naive_solver lia.
  - destruct p as [p|p|]; cbn [shr_m].
    + split; [lia|]. exists (lost + 2 ^ n). split; [lia|]. split; [lia|]. destruct r, s; cbn in *; naive_solver lia.
    + split; [lia|]. exists lost. split; [lia|]. split; [lia|]. destruct r, s; cbn in *; naive_solver lia.
    + split; [lia|]. exists (lost + 2 ^ n). split; [lia|]. split; [lia|]. destruct r, s; cbn in *; naive_solver lia.
Qed.

Lemma shifted_iter o p : forall n mrs,
  0 <= n -> shifted o n mrs -> shifted o (n + Z.pos p) (iter_pos shr_1 p mrs).
Proof.
  induction p as [p IH|p IH|]; intros n mrs Hn Hs; cbn [iter_pos].
  - rewrite (Pos2Z.inj_xI p). replace (n + (2 * Z.pos p + 1)) with ((n + 1 + Z.pos p) + Z.pos p) by lia.
    apply IH; [lia|]. apply IH; [lia|]. by apply shifted_step.
  - rewrite (Pos2Z.inj_xO p). replace (n + 2 * Z.pos p) with (n + Z.pos p + Z.pos p) by lia.
    apply IH; [lia|]. by apply IH.
  - by apply shifted_step.
Qed.

(** How far [shr_fexp] shifts. *)
Definition shift_of (m e : Z) : Z := Z.max 0 (fexp64 (Zdigits2 m + e) - e).

Lemma shr_fexp_shifted m e :
  0 <= m -> exists mrs, shr_fexp f64_prec f64_emax m e loc_Exact = (mrs, e + shift_of m e) /\
    shifted m (shift_of m e) mrs.
Proof.
  intros Hm. unfold shr_fexp, shift_of. cbn [shr_record_of_loc].
  assert (H0 : shifted m 0 (Build_shr_record m false false)).
  { split; [done|]. exists 0. cbn [shr_m]. change (2 ^ 0) with 1. split; [lia|]. split; [lia|done]. }
  destruct (fexp64 (Zdigits2 m + e) - e) as [|p|p]; cbn [shr].
  - eexists. split; [by rewrite Z.max_id, Z.add_0_r|done].
  - eexists. split; [done|]. rewrite Z.max_r by lia. by apply (shifted_iter m p 0).
  - eexists. split; [by rewrite Z.max_l, Z.add_0_r by lia|]. by rewrite Z.max_l by lia.
Qed.

(** ** Rounding *)

(** Rounding a shifted value crosses no multiple of the last place. *)
Lemma round_faithful o n mrs : 0 <= n -> shifted o n mrs ->
  let q := round_nearest_even (shr_m mrs) (loc_of_shr_record mrs) in
  0 <= q /\ forall k, (o <= k * 2 ^ n -> q <= k) /\ (k * 2 ^ n <= o -> k <= q).
Proof.
  intros Hn (H0 & lost & Ho & Hl & Hex). cbv zeta.
  set (q := round_nearest_even _ _).
  assert (Hq : q = shr_m mrs \/ q = shr_m mrs + 1 /\ loc_of_shr_record mrs <> loc_Exact).
  { subst q. unfold round_nearest_even. destruct (loc_of_shr_record mrs) as [|[]]; auto.
    destruct (Z.even _); auto. }
  assert (Hp : 0 < 2 ^ n) by (apply Z.pow_pos_nonneg; lia).
  split; [destruct Hq as [->|[-> _]]; lia|]. intros k. split; intros Hk.
  - destruct Hq as [->|[-> Hne]]; [nia|].
    assert (0 < lost) by (destruct (Z.eq_dec lost 0); [tauto|lia]). nia.
  - destruct Hq as [->|[-> _]]; nia.
Qed.

(** The mantissa and exponent of a canonical float. *)
Definition canonical (m e : Z) : Prop := 0 <= m < 2 ^ 53 /\ -1074 <= e /\ (2 ^ 52 <= m \/ e = -1074).

Definition float_of (s : bool) (m e : Z) : float64 :=
  match m with
  | Z.pos p => if e <=? 971 then S754_finite s p e else S754_infinity s
  | _ => S754_zero s
  end.

Lemma shifted_0 o mrs : shifted o 0 mrs -> shr_m mrs = o.
Proof. intros (_ & lost & Ho & Hl & _). change (2 ^ 0) with 1 in *. lia. Qed.

Lemma shift_of_small q e : 0 <= q < 2 ^ 53 -> -1074 <= e -> shift_of q e = 0.
Proof.
  intros Hq He. unfold shift_of. rewrite fexp64_eq. pose proof (Zdigits2_le q 53 ltac:(lia) Hq). lia.
Qed.

(** The rounded value [q * 2 ^ (e + n)] of [m * 2 ^ e], and the float that represents it. *)
Lemma round_aux_spec s m e : 0 < m ->
  let n := shift_of m e in
  exists q m' e', 0 <= q /\
    (forall k, (m <= k * 2 ^ n -> q <= k) /\ (k * 2 ^ n <= m -> k <= q)) /\
    e + n <= e' /\ q = m' * 2 ^ (e' - (e + n)) /\ 0 <= m' < 2 ^ 53 /\ -1074 <= e' /\
    (e <= fexp64 (Zdigits2 m + e) -> canonical m' e') /\
    binary_round_aux f64_prec f64_emax s m e loc_Exact = float_of s m' e'.
Proof.
  intros Hm n.
  assert (Hn : 0 <= n /\ Zdigits2 m - 53 <= n /\ -1074 <= e + n)
    by (subst n; unfold shift_of; rewrite fexp64_eq; lia).
  destruct (Zdigits2_bounds m Hm) as [[Hlo Hhi] Hd].
  unfold binary_round_aux. destruct (shr_fexp_shifted m e) as (mrs & -> & Hs); [lia|].
  fold n in Hs |- *. destruct (round_faithful m n mrs ltac:(lia) Hs) as [Hq Hf].
  set (q := round_nearest_even _ _) in *.
  assert (Hq53 : q <= 2 ^ 53).
  { apply (Hf (2 ^ 53)). rewrite <- Z.pow_add_r by lia.
    apply Z.lt_le_incl, (Z.lt_le_trans _ _ _ Hhi), Z.pow_le_mono_r; lia. }
  assert (Hcan : e <= fexp64 (Zdigits2 m + e) -> 2 ^ 52 <= q \/ e + n = -1074).
  { intros He. subst n. unfold shift_of in *. rewrite fexp64_eq in *.
    destruct (Z.le_gt_cases (-1074) (Zdigits2 m + e - 53)); [left|right; lia].
    apply (Hf (2 ^ 52)). replace (Z.max 0 _) with (Zdigits2 m - 53) by lia.
    rewrite <- Z.pow_add_r by lia. by replace (52 + (Zdigits2 m - 53)) with (Zdigits2 m - 1) by lia. }
  destruct (shr_fexp_shifted q (e + n) Hq) as (mrs' & -> & Hs').
  destruct (Z.eq_dec q (2 ^ 53)) as [Heq|Hne].
  - assert (Hsh : shift_of q (e + n) = 1) 
      by (rewrite Heq; unfold shift_of; rewrite fexp64_eq; change (Zdigits2 (2 ^ 53)) with 54; lia).
    rewrite Hsh in Hs' |- *. destruct Hs' as (_ & lost & Hlost & Hl & _).
    assert (Hm' : shr_m mrs' = 2 ^ 52) by lia. rewrite Hm'.
    exists q, (2 ^ 52), (e + n + 1). split; [done|]. split; [done|]. split; [lia|].
    split; [rewrite Heq; replace (e + n + 1 - (e + n)) with 1 by lia; done|].
    split; [lia|]. split; [lia|]. split; [intros _; unfold canonical; lia|done].
  - rewrite shift_of_small in Hs' |- * by lia. apply shifted_0 in Hs' as ->.
    exists q, q, (e + n). rewrite !Z.add_0_r, Z.sub_diag. split; [done|]. split; [done|]. split; [lia|].
    split; [lia|]. split; [lia|]. split; [lia|]. split.
    + intros He. split; [lia|]. split; [lia|]. tauto.
    + unfold float_of. destruct q as [|p|p]; [done|done|lia].
Qed.

(** ** Values *)

(** [m * 2 ^ e] in units of 2^-2148, which every product of two floats is a multiple of. *)
Definition sv (m e : Z) : Z := m * 2 ^ (e + 2148).

Lemma sv_align m e e' : -2148 <= e' <= e -> sv m e = m * 2 ^ (e - e') * 2 ^ (e' + 2148).
Proof. intros He. unfold sv. rewrite <- Z.mul_assoc, <- Z.pow_add_r by lia. do 2 f_equal. lia. Qed.

Lemma sv_le_align m e m' e' : -2148 <= e' <= e -> sv m e <= sv m' e' <-> m * 2 ^ (e - e') <= m'.
Proof.
  intros He. rewrite (sv_align m e e') by done. unfold sv.
  symmetry. apply Z.mul_le_mono_pos_r, Z.pow_pos_nonneg; lia.
Qed.

Lemma sv_ge_align m e m' e' : -2148 <= e' <= e -> sv m' e' <= sv m e <-> m' <= m * 2 ^ (e - e').
Proof.
  intros He. rewrite (sv_align m e e') by done. unfold sv.
  symmetry. apply Z.mul_le_mono_pos_r, Z.pow_pos_nonneg; lia.
Qed.

Lemma sv_nonneg m e : 0 <= m -> 0 <= sv m e.
Proof. intros. unfold sv. apply Z.mul_nonneg_nonneg; [lia|apply Z.pow_nonneg; lia]. Qed.

(** A float with a smaller exponent than a normal one is smaller. *)
Lemma sv_lt_exponent m e m' e' :
  0 <= m < 2 ^ 53 -> 2 ^ 52 <= m' -> -2148 <= e < e' -> sv m e < sv m' e'.
Proof.
  intros Hm Hm' He. apply Z.nle_gt. rewrite sv_le_align by lia. apply Z.nle_gt.
  apply (Z.lt_le_trans _ (2 ^ 53)); [lia|]. replace (2 ^ 53) with (2 ^ 52 * 2 ^ 1) by done.
  apply Z.mul_le_mono_nonneg; [lia|done|lia|apply Z.pow_le_mono_r; lia].
Qed.

(** Rounding is monotone against every canonical float. *)
Lemma round_monotone s m e : 0 < m -> -2148 <= e ->
  exists m' e', binary_round_aux f64_prec f64_emax s m e loc_Exact = float_of s m' e' /\
    0 <= m' < 2 ^ 53 /\ -1074 <= e' /\ (e <= fexp64 (Zdigits2 m + e) -> canonical m' e') /\
    forall mb eb, canonical mb eb ->
      (sv m e <= sv mb eb -> sv m' e' <= sv mb eb) /\ (sv mb eb <= sv m e -> sv mb eb <= sv m' e').
Proof.
  intros Hm He. destruct (round_aux_spec s m e Hm) as (q & m' & e' & Hq & Hf & Hee & Hqm & Hm' & He' & Hcan & ->).
  exists m', e'. split; [done|]. split; [done|]. split; [done|]. split; [done|].
  intros mb eb (Hmb & Heb & _). set (n := shift_of m e) in *.
  assert (Hn : 0 <= n) by (subst n; unfold shift_of; lia).
  destruct (Zdigits2_bounds m Hm) as [[Hlo Hhi] Hd].
  assert (Hval : sv m' e' = sv q (e + n)).
  { rewrite (sv_align m' e' (e + n)) by lia. by rewrite <- Hqm. }
  assert (Hin : sv m e = m * 2 ^ (e + 2148)) by done.
  assert (Hout : sv q (e + n) = q * 2 ^ n * 2 ^ (e + 2148)).
  { rewrite (sv_align q (e + n) e) by lia. do 3 f_equal. lia. }
  assert (Hpos : 0 < 2 ^ (e + 2148)) by (apply Z.pow_pos_nonneg; lia).
  rewrite Hval. destruct (Z.le_gt_cases (e + n) eb) as [Hle|Hgt].
  - set (k := mb * 2 ^ (eb - (e + n))).
    assert (Hb : sv mb eb = k * 2 ^ n * 2 ^ (e + 2148)).
    { subst k. unfold sv. rewrite <- !Z.mul_assoc, <- !Z.pow_add_r by lia. do 2 f_equal. lia. }
    rewrite Hb, Hin, Hout. rewrite <- !Z.mul_le_mono_pos_r by done.
    assert (0 < 2 ^ n) by (apply Z.pow_pos_nonneg; lia).
    rewrite <- !Z.mul_le_mono_pos_r by done. apply Hf.
  - destruct (Z.eq_dec n 0) as [Hn0|Hn0].
    + assert (Hqm' : q = m) by (specialize (Hf m); rewrite Hn0 in Hf; change (2 ^ 0) with 1 in Hf; lia).
      rewrite Hn0, Z.add_0_r, Hqm'. done.
    + assert (Hnd : n = Zdigits2 m - 53) by (subst n; unfold shift_of in *; rewrite fexp64_eq in *; lia).
      assert (Hk : 2 ^ 52 * 2 ^ n <= m).
      { rewrite <- Z.pow_add_r by lia. by replace (52 + n) with (Zdigits2 m - 1) by lia. }
      assert (Hq52 : 2 ^ 52 <= q) by (by apply (Hf (2 ^ 52))).
      assert (Hbig : sv mb eb < sv (2 ^ 52) (e + n)) by (apply sv_lt_exponent; lia).
      split; intros Hcmp.
      * exfalso. apply (Z.lt_irrefl (sv mb eb)), (Z.lt_le_trans _ _ _ Hbig).
        apply (Z.le_trans _ (sv m e)); [|done]. rewrite sv_le_align by lia.
        by replace (e + n - e) with n by lia.
      * apply Z.lt_le_incl, (Z.lt_le_trans _ _ _ Hbig). unfold sv.
        apply Z.mul_le_mono_nonneg_r; [apply Z.pow_nonneg; lia|done].
Qed.

(** ** Nonnegative floats *)

(** [x] is the nonnegative float of value [m * 2 ^ e]. *)
Definition is_float (x : float64) (m e : Z) : Prop := x = float_of false m e /\ canonical m e /\ e <= 971.

Lemma canonical_log2 m e : canonical m e -> 0 < m -> 0 <= Z.log2 m < 53 /\ (52 <= Z.log2 m \/ e = -1074).
Proof.
  intros (Hm & _ & Hn) Hp. pose proof (Z.log2_nonneg m). pose proof (proj1 (Z.log2_lt_pow2 m 53 Hp)).
  destruct Hn as [Hn|]; [|lia]. pose proof (proj1 (Z.log2_le_pow2 m 52 Hp)). lia.
Qed.

(** The product of two positive floats: its value is within the same canonical bounds as the
    exact product. *)
Lemma fmul_monotone x m1 e1 y m2 e2 :
  is_float x m1 e1 -> 0 < m1 -> is_float y m2 e2 -> 0 < m2 ->
  exists m e, fmul x y = float_of false m e /\ canonical m e /\
    forall mb eb, canonical mb eb ->
      (sv (m1 * m2) (e1 + e2) <= sv mb eb -> sv m e <= sv mb eb) /\
      (sv mb eb <= sv (m1 * m2) (e1 + e2) -> sv mb eb <= sv m e).
Proof.
  intros (-> & Hc1 & He1) H1 (-> & Hc2 & He2) H2.
  assert (Hmul : fmul (float_of false m1 e1) (float_of false m2 e2) =
    binary_round_aux f64_prec f64_emax false (m1 * m2) (e1 + e2) loc_Exact).
  { destruct m1 as [|p1|], m2 as [|p2|]; try lia. cbn [float_of].
    by rewrite !(proj2 (Z.leb_le _ _)) by done. }
  rewrite Hmul.
  destruct (round_monotone false (m1 * m2) (e1 + e2)) as (m & e & -> & Hm & He & Hcan & Hmono).
  { nia. } { destruct Hc1 as (_ & ? & _), Hc2 as (_ & ? & _). lia. }
  exists m, e. split; [done|]. split; [|done]. apply Hcan. rewrite fexp64_eq.
  destruct (Zdigits2_bounds (m1 * m2)) as [[_ Hhi] Hd]; [nia|].
  destruct Hc1 as (_ & Hl1 & Hn1), Hc2 as (_ & Hl2 & Hn2).
  assert (Hbig : 2 ^ 52 <= m1 * m2 -> 53 <= Zdigits2 (m1 * m2)).
  { intros Hb. apply Z.nlt_ge. intros Hlt.
    assert (2 ^ Zdigits2 (m1 * m2) <= 2 ^ 52) by (apply Z.pow_le_mono_r; lia). lia. }
  destruct Hn1 as [Hn1| ->]; [specialize (Hbig ltac:(nia)); lia|].
  destruct Hn2 as [Hn2| ->]; [specialize (Hbig ltac:(nia)); lia|lia].
Qed.

Lemma iter_xO p q : Z.pos (Pos.iter xO p q) = Z.pos p * 2 ^ Z.pos q.
Proof.
  induction q as [|q IH] using Pos.peano_ind; [cbn [Pos.iter]; lia|].
  rewrite Pos.iter_succ, (Pos2Z.inj_xO (Pos.iter xO p q)), IH, Pos2Z.inj_succ, Z.pow_succ_r by lia. lia.
Qed.

Lemma Zdigits2_shift m k : 0 < m -> 0 <= k -> Zdigits2 (m * 2 ^ k) = Zdigits2 m + k.
Proof.
  intros Hm Hk. assert (0 < m * 2 ^ k) by (apply Z.mul_pos_pos; [lia|apply Z.pow_pos_nonneg; lia]).
  assert (Hlog : forall z, 0 < z -> Zdigits2 z = Z.log2 z + 1).
  { intros [|z|z] Hz; try lia. apply digits2_log2. }
  rewrite !Hlog, Z.log2_mul_pow2 by lia. lia.
Qed.

(** The conversion of an integer, and of one that fits the mantissa. *)
Lemma f64_of_Z_monotone d : 0 < d ->
  exists m e, f64_of_Z d = float_of false m e /\ canonical m e /\
    forall mb eb, canonical mb eb ->
      (sv d 0 <= sv mb eb -> sv m e <= sv mb eb) /\ (sv mb eb <= sv d 0 -> sv mb eb <= sv m e).
Proof.
  intros Hd. destruct d as [|p|p]; try lia. unfold f64_of_Z, binary_normalize, binary_round, shl_align.
  set (f := fexp64 (Z.pos (digits2_pos p) + 0)).
  assert (Hfe : f = Z.max (Z.pos (digits2_pos p) - 53) (-1074)) by (subst f; rewrite fexp64_eq; lia).
  assert (Hdig : Zdigits2 (Z.pos p) = Z.pos (digits2_pos p)) by done.
  destruct (f - 0) as [|q|q] eqn:Hf.
  1, 2: destruct (round_monotone false (Z.pos p) 0) as (m & e & -> & Hm & He & Hcan & Hmono); [lia|lia|];
    exists m, e; (split; [done|]); (split; [|done]); apply Hcan; rewrite Hdig; fold f; lia.
  set (mz := Z.pos (Pos.iter xO p q)).
  assert (Hmz : mz = Z.pos p * 2 ^ Z.pos q) by apply iter_xO.
  assert (Hdz : Zdigits2 mz = Z.pos (digits2_pos p) + Z.pos q) by (rewrite Hmz, Zdigits2_shift by lia; done).
  destruct (round_monotone false mz f) as (m & e & -> & Hm & He & Hcan & Hmono); [lia|lia|].
  exists m, e. split; [done|]. split; [apply Hcan; rewrite fexp64_eq; lia|].
  intros mb eb Hb. specialize (Hmono mb eb Hb).
  replace (sv (Z.pos p) 0) with (sv mz f); [done|]. symmetry.
  rewrite (sv_align (Z.pos p) 0 f) by lia. unfold sv. rewrite Hmz. do 3 f_equal. lia.
Qed.

(** Every integer of at most 53 bits is the mantissa of a float, whatever the exponent. *)
Lemma representable q k : 0 < q <= 2 ^ 53 -> 0 <= k -> exists mb eb, canonical mb eb /\ sv mb eb = sv q k.
Proof.
  intros Hq Hk. destruct (Z.eq_dec q (2 ^ 53)) as [->|Hne].
  - exists (2 ^ 52), (1 + k). split; [split; [lia|]; split; [lia|by left]|].
    rewrite (sv_align (2 ^ 52) (1 + k) k) by lia. replace (1 + k - k) with 1 by lia. done.
  - destruct (Zdigits2_bounds q) as [[Hlo Hhi] Hpos]; [lia|].
    pose proof (Zdigits2_le q 53 ltac:(lia) ltac:(lia)).
    exists (q * 2 ^ (53 - Zdigits2 q)), (Zdigits2 q - 53 + k). split.
    + split; [|split; [lia|left]].
      * split; [apply Z.mul_nonneg_nonneg; [lia|apply Z.pow_nonneg; lia]|].
        apply (Z.lt_le_trans _ (2 ^ Zdigits2 q * 2 ^ (53 - Zdigits2 q))).
        { apply Z.mul_lt_mono_pos_r; [apply Z.pow_pos_nonneg; lia|done]. }
        rewrite <- Z.pow_add_r by lia. apply Z.pow_le_mono_r; lia.
      * apply (Z.le_trans _ (2 ^ (Zdigits2 q - 1) * 2 ^ (53 - Zdigits2 q))).
        { rewrite <- Z.pow_add_r by lia. apply Z.pow_le_mono_r; lia. }
        apply Z.mul_le_mono_nonneg_r; [apply Z.pow_nonneg; lia|done].
    + rewrite (sv_align q k (Zdigits2 q - 53 + k)) by lia. unfold sv. do 2 f_equal. f_equal. lia.
Qed.

(** A float of value between one and [2 ^ 63]. *)
Lemma of_Z_range m e : canonical m e -> sv 1 0 <= sv m e <= sv (2 ^ 63) 0 -> 2 ^ 52 <= m /\ -52 <= e <= 971.
Proof.
  intros ([Hm0 Hm] & He & Hn) [Hlo Hhi].
  assert (He' : -52 <= e).
  { apply Z.nlt_ge. intros Hlt. apply (Z.lt_irrefl (sv m e)).
    apply (Z.lt_le_trans _ (sv 1 0)); [|done].
    change (sv 1 0) with (2 ^ 2148). unfold sv. apply (Z.lt_le_trans _ (2 ^ 53 * 2 ^ (e + 2148))).
    - apply Z.mul_lt_mono_pos_r; [apply Z.pow_pos_nonneg; lia|done].
    - rewrite <- Z.pow_add_r by lia. apply Z.pow_le_mono_r; lia. }
  assert (Hm2 : 2 ^ 52 <= m) by (destruct Hn; [done|lia]). split; [done|]. split; [done|].
  apply Z.nlt_ge. intros Hgt. rewrite sv_le_align in Hhi by lia.
  assert (2 ^ 971 <= 2 ^ (e - 0)) by (apply Z.pow_le_mono_r; lia).
  assert (2 ^ 63 < 2 ^ 971) by (apply Z.pow_lt_mono_r; lia). nia.
Qed.

(** The conversion of an integer is at most any representable integer that is not below it. *)
Lemma f64_of_Z_below d q k : 0 < d -> 0 < q <= 2 ^ 53 -> 0 <= k -> d <= q * 2 ^ k <= 2 ^ 63 ->
  exists m e, is_float (f64_of_Z d) m e /\ 2 ^ 52 <= m /\ -52 <= e /\ sv m e <= sv (q * 2 ^ k) 0.
Proof.
  intros Hd Hq Hk Hb. destruct (f64_of_Z_monotone d Hd) as (m & e & Heq & Hcan & Hmono).
  destruct (representable q k Hq Hk) as (mb & eb & Hcb & Hvb).
  assert (Hqk : sv q k = sv (q * 2 ^ k) 0) by (rewrite (sv_align q k 0) by lia; unfold sv; by rewrite Z.sub_0_r).
  assert (Hle : sv m e <= sv (q * 2 ^ k) 0).
  { rewrite <- Hqk, <- Hvb. apply (Hmono mb eb Hcb). rewrite Hvb, Hqk. unfold sv.
    apply Z.mul_le_mono_nonneg_r; [apply Z.pow_nonneg; lia|lia]. }
  destruct (representable 1 0 ltac:(lia) ltac:(lia)) as (m1 & e1 & Hc1 & Hv1).
  assert (Hge : sv 1 0 <= sv m e).
  { rewrite <- Hv1. apply (Hmono m1 e1 Hc1). rewrite Hv1. unfold sv.
    apply Z.mul_le_mono_nonneg_r; [apply Z.pow_nonneg; lia|lia]. }
  destruct (of_Z_range m e Hcan) as [Hm He].
  { split; [done|]. apply (Z.le_trans _ _ _ Hle). unfold sv. apply Z.mul_le_mono_nonneg_r; [apply Z.pow_nonneg; lia|lia]. }
  exists m, e. split; [split; [done|]; split; [done|lia]|]. split; [done|]. split; [lia|done].
Qed.

Lemma f64_of_Z_exact d : 0 < d <= 2 ^ 53 -> exists m e, is_float (f64_of_Z d) m e /\ sv m e = sv d 0.
Proof.
  intros Hd. destruct (f64_of_Z_below d d 0) as (m & e & Hf & _ & _ & Hle); [lia..|].
  destruct (f64_of_Z_monotone d) as (m' & e' & Heq & Hcan & Hmono); [lia|].
  destruct (representable d 0) as (mb & eb & Hcb & Hvb); [lia..|].
  exists m', e'. destruct (Hmono mb eb Hcb) as [Hup Hlo]. rewrite Hvb in Hup, Hlo.
  assert (Hv : sv m' e' = sv d 0) by lia. split; [|done]. split; [done|]. split; [done|].
  apply of_Z_range in Hcan; [lia|]. rewrite Hv. unfold sv.
  split; apply Z.mul_le_mono_nonneg_r; (apply Z.pow_nonneg || lia); lia.
Qed.

(** What the conversion may add to an integer: nothing up to 53 bits, and above them less than the
    distance of two floats below [2 ^ 63]. *)
Definition rounding (d : Z) : Z := if d <=? 2 ^ 53 then 0 else 1023.

Lemma rounding_bounds d : 0 <= rounding d <= 1023.
Proof. unfold rounding. destruct (d <=? 2 ^ 53); lia. Qed.

Lemma f64_of_Z_rounded d : 0 < d <= 2 ^ 63 ->
  exists m e, is_float (f64_of_Z d) m e /\ 2 ^ 52 <= m /\ -52 <= e /\ sv m e <= sv (d + rounding d) 0.
Proof.
  intros Hd. unfold rounding. destruct (Z.leb_spec d (2 ^ 53)) as [Hle|Hgt].
  - destruct (f64_of_Z_below d d 0) as (m & e & Hf & Hm & He & Hv); [lia..|]. exists m, e.
    rewrite Z.mul_1_r in Hv. by rewrite Z.add_0_r.
  - pose proof (Z.div_mod (d + 1023) (2 ^ 10) ltac:(lia)) as Hdiv.
    pose proof (Z.mod_pos_bound (d + 1023) (2 ^ 10) ltac:(lia)) as Hmod.
    destruct (f64_of_Z_below d ((d + 1023) / 2 ^ 10) 10) as (m & e & Hf & Hm & He & Hv); [lia..|].
    exists m, e. split; [done|]. split; [done|]. split; [done|]. apply (Z.le_trans _ _ _ Hv). unfold sv.
    apply Z.mul_le_mono_nonneg_r; [apply Z.pow_nonneg; lia|lia].
Qed.

(** ** Truncation and comparison *)

Lemma f64_trunc_value m e : 0 <= m -> -2148 <= e <= 971 -> f64_trunc (float_of false m e) = sv m e / 2 ^ 2148.
Proof.
  intros Hm He. unfold float_of. destruct m as [|p|p]; [done| |lia].
  rewrite (proj2 (Z.leb_le e 971)) by lia. unfold f64_trunc.
  destruct (Z.leb_spec 0 e) as [He0|He0].
  - rewrite (sv_align (Z.pos p) e 0) by lia. rewrite Z.sub_0_r, Z.add_0_l.
    by rewrite Z.div_mul by (apply Z.pow_nonzero; lia).
  - unfold sv. replace (2 ^ 2148) with (2 ^ (- e) * 2 ^ (e + 2148)).
    + rewrite Z.div_mul_cancel_r; [done| |]; apply Z.pow_nonzero; lia.
    + rewrite <- Z.pow_add_r by lia. f_equal. lia.
Qed.

Lemma f64_trunc_le x m e d : x = float_of false m e -> 0 <= m -> -2148 <= e ->
  0 <= d -> sv m e <= sv d 0 -> 0 <= f64_trunc x <= d.
Proof.
  intros -> Hm He Hd Hle. destruct (Z.le_gt_cases e 971) as [Hs|Hs].
  - rewrite f64_trunc_value by lia. unfold sv in Hle at 2. rewrite Z.add_0_l in Hle. split.
    + apply Z.div_pos; [by apply sv_nonneg|apply Z.pow_pos_nonneg; lia].
    + apply Z.div_le_upper_bound; [apply Z.pow_pos_nonneg; lia|]. lia.
  - unfold float_of. destruct m; [done| |lia]. rewrite (proj2 (Z.leb_gt e 971)) by lia. done.
Qed.

Lemma f64_trunc_ge x m e d : is_float x m e -> sv d 0 <= sv m e -> d <= f64_trunc x.
Proof.
  intros (-> & (Hm & He & _) & Hs) Hle. rewrite f64_trunc_value by lia.
  apply Z.div_le_lower_bound; [apply Z.pow_pos_nonneg; lia|].
  unfold sv in Hle at 1. rewrite Z.add_0_l in Hle. lia.
Qed.

(** [x] is a nonnegative float (perhaps infinite) of value at most [s]. *)
Definition at_most (x : float64) (s : Z) : Prop :=
  exists m e, x = float_of false m e /\ canonical m e /\ sv m e <= s.

Lemma at_most_zero s : 0 <= s -> at_most (S754_zero false) s.
Proof.
  intros Hs. exists 0, (-1074). split; [done|]. split; [|done]. split; [lia|]. split; [lia|by right].
Qed.

Lemma at_most_finite x s : at_most x s -> s < sv 1 971 -> exists m e, is_float x m e /\ sv m e <= s.
Proof.
  intros (m & e & -> & Hc & Hle) Hs. destruct (Z.eq_dec m 0) as [->|Hm].
  - exists 0, (-1074). split; [|unfold sv in *; lia]. split; [done|]. split; [|lia].
    split; [lia|]. split; [lia|by right].
  - exists m, e. split; [|done]. split; [done|]. split; [done|].
    destruct Hc as ([? _] & _ & _). apply Z.nlt_ge. intros Hgt. apply (Z.lt_irrefl (sv 1 971)).
    apply (Z.le_lt_trans _ (sv m e)); [|lia]. unfold sv.
    apply Z.mul_le_mono_nonneg; [lia|lia|apply Z.pow_nonneg; lia|apply Z.pow_le_mono_r; lia].
Qed.

(** The product with a factor of at most [2 ^ -j], when the bound is a float. *)
Lemma fmul_at_most x m e r j :
  is_float x m e -> at_most r (sv 1 (- j)) -> 0 <= j -> canonical m (e - j) -> at_most (fmul x r) (sv m (e - j)).
Proof.
  intros (-> & Hc & He) Hr Hj Hb. assert (Hm : 0 <= m) by apply Hc.
  apply at_most_finite in Hr as (mr & er & (-> & Hcr & Her) & Hle).
  2: { apply (Z.le_lt_trans _ (sv 1 0)); unfold sv; [apply Z.mul_le_mono_nonneg_l, Z.pow_le_mono_r; lia|].
       apply Z.mul_lt_mono_pos_l, Z.pow_lt_mono_r; lia. }
  assert (Hmr : 0 <= mr) by apply Hcr.
  destruct (Z.eq_dec m 0) as [->|Hm0].
  { cbn [float_of fmul SFmul]. replace (sv 0 (e - j)) with 0 by done.
    destruct mr; [|cbn [float_of]; rewrite (proj2 (Z.leb_le _ _)) by done|lia]; by apply at_most_zero. }
  destruct (Z.eq_dec mr 0) as [->|Hmr0].
  { destruct m as [|p|p]; try lia. cbn [float_of]. rewrite (proj2 (Z.leb_le _ _)) by done.
    apply at_most_zero. by apply sv_nonneg. }
  destruct (fmul_monotone (float_of false m e) m e (float_of false mr er) mr er) as (m' & e' & -> & Hc' & Hmono).
  { by split. } { lia. } { by split. } { lia. }
  exists m', e'. split; [done|]. split; [done|]. apply (Hmono m (e - j)); [done|].
  destruct Hc as (_ & Hel & _), Hcr as (_ & Herl & _), Hb as (_ & Hjl & _).
  assert (Hj1 : j <= 2148) by lia.
  assert (Her' : er <= - j).
  { apply Z.nlt_ge. intros Hgt. apply (Z.lt_irrefl (sv 1 (- j))).
    apply (Z.lt_le_trans _ (sv mr er)); [|done]. unfold sv.
    apply (Z.lt_le_trans _ (1 * 2 ^ (er + 2148))); [|apply Z.mul_le_mono_nonneg_r; [apply Z.pow_nonneg; lia|lia]].
    apply Z.mul_lt_mono_pos_l, Z.pow_lt_mono_r; lia. }
  rewrite sv_ge_align in Hle by lia. rewrite sv_ge_align by lia.
  replace (e - j - (e + er)) with (- j - er) by lia. nia.
Qed.

(** An integer times a factor of at most [2 ^ -j]. *)
Lemma fmul_of_Z_rounded d r j : 0 < d <= 2 ^ 63 -> 0 <= j <= 1000 -> at_most r (sv 1 (- j)) ->
  at_most (fmul (f64_of_Z d) r) (sv (d + rounding d) (- j)).
Proof.
  intros Hd Hj Hr. destruct (f64_of_Z_rounded d Hd) as (m & e & Hf & Hm & He & Hv).
  assert (Hb : canonical m (e - j)).
  { destruct Hf as (_ & (Hm' & _ & _) & _). split; [done|]. split; [lia|by left]. }
  pose proof (fmul_at_most (f64_of_Z d) m e r j Hf Hr ltac:(lia) Hb) as (m' & e' & Heq & Hc & Hle).
  exists m', e'. split; [done|]. split; [done|]. apply (Z.le_trans _ _ _ Hle).
  assert (Hscale : forall a b, -2148 + j <= b -> sv a b = 2 ^ j * sv a (b - j)).
  { intros a b Hb'. unfold sv. rewrite Z.mul_shuffle3, <- Z.pow_add_r by lia. do 2 f_equal. lia. }
  rewrite (Hscale m e), (Hscale (d + rounding d) 0) in Hv by lia. rewrite Z.sub_0_l in Hv.
  by apply Z.mul_le_mono_pos_l in Hv; [|apply Z.pow_pos_nonneg; lia].
Qed.

Lemma f64_of_Z_normal d m e : 0 < d <= 2 ^ 63 -> canonical m e -> sv m e = sv d 0 -> 2 ^ 52 <= m /\ -52 <= e.
Proof.
  intros Hd Hc Hv. apply of_Z_range in Hc; [lia|]. rewrite Hv. unfold sv.
  split; apply Z.mul_le_mono_nonneg_r; (apply Z.pow_nonneg || lia); lia.
Qed.

(** A further factor of at most one. *)
Lemma fmul_unit x s r : at_most x s -> s < sv 1 971 -> at_most r (sv 1 0) -> at_most (fmul x r) s.
Proof.
  intros Hx Hs Hr. apply at_most_finite in Hx as (m & e & Hf & Hle); [|done].
  destruct (fmul_at_most x m e r 0 Hf Hr) as (m' & e' & Heq & Hc & Hle'); [done| |].
  - rewrite Z.sub_0_r. apply Hf.
  - exists m', e'. split; [done|]. split; [done|]. rewrite Z.sub_0_r in Hle'. lia.
Qed.

(** A float below one is at most its predecessor. *)
Lemma below_one m e : canonical m e -> sv m e < sv 1 0 -> e <= -53 \/ m = 0.
Proof.
  intros ([Hm0 Hm] & He & Hn) Hlt. destruct (Z.eq_dec m 0) as [|Hm1]; [by right|left].
  apply Z.nlt_ge. intros Hgt. assert (Hm2 : 2 ^ 52 <= m) by (destruct Hn; [done|lia]).
  apply (Z.lt_irrefl (sv 1 0)). apply (Z.le_lt_trans _ (sv m e)); [|done].
  replace (sv 1 0) with (sv (2 ^ 52) (-52)) by (rewrite (sv_align 1 0 (-52)) by lia; done).
  unfold sv. apply Z.mul_le_mono_nonneg; [lia|lia|apply Z.pow_nonneg; lia|apply Z.pow_le_mono_r; lia].
Qed.

(** A duration times a float below one is a duration. *)
Lemma fmul_of_Z_below_one d r m e :
  0 < d <= 2 ^ 63 -> is_float r m e -> sv m e < sv 1 0 -> f64_trunc (fmul (f64_of_Z d) r) < 2 ^ 63.
Proof.
  intros Hd Hr Hone. destruct (f64_of_Z_below d (2 ^ 53) 10) as (m1 & e1 & Hf & Hm1 & He1 & Hv1); [lia..|].
  pose proof Hr as (Hreq & Hcr & Her). destruct (Z.eq_dec m 0) as [->|Hm].
  { destruct Hf as (-> & _ & He). rewrite Hreq. unfold float_of. rewrite !(proj2 (Z.leb_le _ _)) by done.
    destruct m1; cbn; lia. }
  destruct (below_one m e Hcr Hone) as [He|]; [|done]. assert (Hmpos : 0 < m) by (destruct Hcr as ([? _] & _); lia).
  destruct (fmul_monotone _ m1 e1 _ m e Hf ltac:(lia) Hr Hmpos) as (m' & e' & Heq & Hc & Hmono).
  assert (Hcan : canonical (2 ^ 53 - 1) 10) by (split; [lia|]; split; [lia|left; lia]).
  assert (Hle : sv m' e' <= sv (2 ^ 53 - 1) 10).
  { apply (Hmono _ _ Hcan). destruct Hcr as ([_ Hm53] & Hemin & _). unfold sv in *.
    replace (e1 + e + 2148) with ((e1 + 1074) + (e + 1074)) by lia. rewrite Z.pow_add_r by lia.
    replace (m1 * m * (2 ^ (e1 + 1074) * 2 ^ (e + 1074))) with ((m1 * 2 ^ (e1 + 1074)) * (m * 2 ^ (e + 1074))) by ring.
    replace ((2 ^ 53 - 1) * 2 ^ (10 + 2148)) with (2 ^ 1137 * ((2 ^ 53 - 1) * 2 ^ 1021))
      by (rewrite Z.mul_assoc, (Z.mul_comm (2 ^ 1137)), <- Z.mul_assoc, <- Z.pow_add_r by lia; done).
    apply Z.mul_le_mono_nonneg.
    - apply Z.mul_nonneg_nonneg; [lia|apply Z.pow_nonneg; lia].
    - apply (Z.mul_le_mono_pos_r _ _ (2 ^ 1074)); [by apply Z.pow_pos_nonneg|].
      rewrite <- Z.mul_assoc, <- !Z.pow_add_r by lia. replace (e1 + 1074 + 1074) with (e1 + 2148) by lia.
      apply (Z.le_trans _ _ _ Hv1). change (2 ^ 53 * 2 ^ 10) with (2 ^ 63). rewrite <- Z.pow_add_r by lia. by apply Z.eq_le_incl.
    - apply Z.mul_nonneg_nonneg; [lia|apply Z.pow_nonneg; lia].
    - apply Z.mul_le_mono_nonneg; [lia|lia|apply Z.pow_nonneg; lia|apply Z.pow_le_mono_r; lia]. }
  rewrite Heq. destruct (Z.le_gt_cases e' 971) as [Hs|Hs].
  - apply (Z.le_lt_trans _ ((2 ^ 53 - 1) * 2 ^ 10)); [|lia].
    apply (f64_trunc_le _ m' e'); [done|apply Hc|destruct Hc as (_ & ? & _); lia|lia|].
    apply (Z.le_trans _ _ _ Hle). rewrite (sv_align _ 10 0) by lia. by apply Z.eq_le_incl.
  - unfold float_of. destruct m'; [cbn; lia| |destruct Hc; lia]. rewrite (proj2 (Z.leb_gt e' 971)) by lia. cbn. lia.
Qed.

Lemma at_most_trunc x d j : at_most x (sv d (- j)) -> 0 <= d -> 0 <= j <= 2148 ->
  0 <= f64_trunc x /\ f64_trunc x * 2 ^ j <= d.
Proof.
  intros (m & e & -> & Hc & Hle) Hd Hj. destruct Hc as ([Hm _] & He & _).
  assert (Hp : 0 < 2 ^ 2148) by (apply Z.pow_pos_nonneg; lia).
  destruct (Z.le_gt_cases e 971) as [Hs|Hs].
  - rewrite f64_trunc_value by lia. split; [by apply Z.div_pos; [apply sv_nonneg|]|].
    pose proof (Z.mul_div_le (sv m e) (2 ^ 2148) Hp) as Hdiv. revert Hdiv.
    generalize (sv m e / 2 ^ 2148) as t. intros t Ht.
    assert (Hall : 2 ^ 2148 * t <= sv d (- j)) by lia. unfold sv in Hall.
    replace 2148 with (j + (- j + 2148)) in Hall at 1 by lia. rewrite Z.pow_add_r in Hall by lia.
    assert (0 < 2 ^ (- j + 2148)) by (apply Z.pow_pos_nonneg; lia). nia.
  - unfold float_of. destruct m; [cbn; lia| |lia]. rewrite (proj2 (Z.leb_gt e 971)) by lia. cbn. lia.
Qed.

(** ** Comparison *)

(** Every Go float64 is such a float. *)
Definition valid_float (x : float64) : Prop := valid_binary f64_prec f64_emax x = true.

Lemma valid_finite s p e : valid_float (S754_finite s p e) -> canonical (Z.pos p) e /\ e <= 971.
Proof.
  unfold valid_float, valid_binary, bounded, canonical_mantissa. intros [Hc He]%andb_prop.
  apply Z.eqb_eq in Hc. apply Z.leb_le in He. change (f64_emax - f64_prec) with 971 in He.
  rewrite fexp64_eq, digits2_log2 in Hc.
  assert (Hl : Z.log2 (Z.pos p) < 53) by lia.
  split; [|done]. split; [split; [lia|by apply Z.log2_lt_pow2]|]. split; [lia|].
  destruct (Z.eq_dec e (-1074)) as [|Hne]; [by right|left]. apply Z.log2_le_pow2; lia.
Qed.

(** The order of two canonical floats is that of their values. *)
Lemma sv_compare m1 e1 m2 e2 :
  canonical m1 e1 -> canonical m2 e2 -> 0 < m1 -> 0 < m2 ->
  Z.compare (sv m1 e1) (sv m2 e2) = match Z.compare e1 e2 with Eq => Z.compare m1 m2 | c => c end.
Proof.
  intros ([_ H1] & He1 & Hn1) ([_ H2] & He2 & Hn2) Hp1 Hp2. destruct (Z.compare_spec e1 e2) as [->|Hlt|Hgt].
  - unfold sv. symmetry. apply Zmult_compare_compat_r. apply Z.lt_gt, Z.pow_pos_nonneg; lia.
  - apply Z.compare_lt_iff, sv_lt_exponent; [lia| |lia]. destruct Hn2; [done|lia].
  - apply Z.compare_gt_iff, sv_lt_exponent; [lia| |lia]. destruct Hn1; [done|lia].
Qed.

Lemma SFcompare_value x y m1 e1 m2 e2 :
  is_float x m1 e1 -> is_float y m2 e2 -> SFcompare x y = Some (Z.compare (sv m1 e1) (sv m2 e2)).
Proof.
  intros (-> & Hc1 & He1) (-> & Hc2 & He2).
  assert (Hz : forall e, sv 0 e = 0) by done.
  assert (Hpos : forall p e, -1074 <= e -> 0 < sv (Z.pos p) e).
  { intros p e He. apply Z.mul_pos_pos; [lia|apply Z.pow_pos_nonneg; lia]. }
  destruct m1 as [|p1|p1], m2 as [|p2|p2]; try (by destruct Hc1 as ([? _] & _)); try (by destruct Hc2 as ([? _] & _));
    cbn [float_of]; rewrite ?(proj2 (Z.leb_le _ 971)) by done; cbn [SFcompare].
  - rewrite Hz. symmetry. f_equal. apply Z.compare_lt_iff, Hpos. apply Hc2.
  - rewrite Hz. symmetry. f_equal. apply Z.compare_gt_iff, Hpos. apply Hc1.
  - rewrite sv_compare by (done || lia). by destruct (Z.compare e1 e2).
Qed.

Lemma fleb_value x y m1 e1 m2 e2 :
  is_float x m1 e1 -> is_float y m2 e2 -> fleb x y = (sv m1 e1 <=? sv m2 e2).
Proof.
  intros Hx Hy. unfold fleb, SFleb. rewrite (SFcompare_value x y m1 e1 m2 e2 Hx Hy). unfold Z.leb.
  by destruct (Z.compare _ _).
Qed.

Lemma fltb_value x y m1 e1 m2 e2 :
  is_float x m1 e1 -> is_float y m2 e2 -> fltb x y = (sv m1 e1 <? sv m2 e2).
Proof.
  intros Hx Hy. unfold fltb, SFltb. rewrite (SFcompare_value x y m1 e1 m2 e2 Hx Hy). unfold Z.ltb.
  by destruct (Z.compare _ _).
Qed.

Lemma is_float_zero : is_float (S754_zero false) 0 (-1074).
Proof. split; [done|]. split; [|lia]. split; [lia|]. split; [lia|by right]. Qed.

Lemma is_float_one : is_float (f64_of_Z 1) (2 ^ 52) (-52).
Proof. split; [vm_compute; done|]. split; [|lia]. split; [lia|]. split; [lia|by left]. Qed.

Lemma sv_one : sv (2 ^ 52) (-52) = sv 1 0.
Proof. rewrite (sv_align 1 0 (-52)) by lia. done. Qed.

(** A valid float is not a number, infinite, negative (perhaps a negative zero), or one of the
    nonnegative floats above. *)
Lemma valid_cases x : valid_float x ->
  IsNaN x = true \/ (exists s, x = S754_infinity s) \/ x = S754_zero true \/
  (exists p e, x = S754_finite true p e) \/ exists m e, is_float x m e.
Proof.
  intros Hv. destruct x as [[]|s| |[] p e].
  - right; right; by left.
  - do 4 right. exists 0, (-1074). apply is_float_zero.
  - right; left. by exists s.
  - by left.
  - do 3 right; left. by exists p, e.
  - do 4 right. apply valid_finite in Hv as [Hc He]. exists (Z.pos p), e. split; [|done].
    cbn [float_of]. by rewrite (proj2 (Z.leb_le _ _)) by done.
Qed.
