(* ===== verification/GoTime.v ===== *)
(** * Go time

    A [time.Time] is an instant in nanoseconds counted from January 1 of year 1, 00:00:00
    UTC, so the zero [Time] is [0] and [IsZero] is a comparison with [0].  The source
    normalises every instant with [UTC()], which changes no instant; the location is
    therefore not part of the model.  A [time.Duration] is an [int64] of nanoseconds. *)

From S2P Require Import Prelude GoStrings.
From stdpp Require Import pretty.
Local Open Scope Z_scope.

Definition Time : Type := Z.
Definition Duration : Type := Z.

Definition Nanosecond : Duration := 1.
Definition Millisecond : Duration := 1000000.
Definition Second : Duration := 1000000000.
Definition Minute : Duration := 60 * Second.
Definition Hour : Duration := 60 * Minute.
Definition day_ns : Z := 24 * Hour.

Definition int64_min : Z := - 2 ^ 63.
Definition int64_max : Z := 2 ^ 63 - 1.

(** The result of [int64] arithmetic. *)
Definition int64_wrap (z : Z) : Z := (z + 2 ^ 63) mod 2 ^ 64 - 2 ^ 63.

Lemma int64_wrap_id z : - 2 ^ 63 <= z < 2 ^ 63 -> int64_wrap z = z.
Proof. intros Hz. unfold int64_wrap. rewrite Z.mod_small by lia. lia. Qed.

Definition IsZero (t : Time) : bool := t =? 0.
Definition Before (t u : Time) : bool := t <? u.
Definition After (t u : Time) : bool := u <? t.
Definition Time_Equal (t u : Time) : bool := t =? u.

(** [t.Sub(u)] saturates at the ends of [int64]. *)
Definition Sub (t u : Time) : Duration := Z.max int64_min (Z.min int64_max (t - u)).

(** [t.Unix()]: whole seconds since 1970. *)
Definition unix_epoch_seconds : Z := 62135596800.
Definition Unix (t : Time) : Z := t / Second - unix_epoch_seconds.

(** [t.Truncate(d)], relative to the zero time. *)
Definition Truncate (t : Time) (d : Duration) : Time := if d <=? 0 then t else t - t mod d.

(** ** The proleptic Gregorian calendar

    Days are counted from January 1 of year 1.  The conversions go through eras of 400
    years starting on March 1, so that the leap day is the last day of its year. *)

Definition era_days : Z := 146097.

Definition days_of_civil (year month day : Z) : Z :=
  let y := if month <=? 2 then year - 1 else year in
  let era := y / 400 in
  let yoe := y mod 400 in
  let mp := (month + 9) mod 12 in
  let doy := (153 * mp + 2) / 5 + day - 1 in
  let doe := yoe * 365 + yoe / 4 - yoe / 100 + doy in
  era * era_days + doe - 306.

(** The March-based year of a day of an era, and the day of that year: centuries, then
    cycles of four years, then years; the last of four takes the leap day. *)
Definition year_of_doe (doe : Z) : Z * Z :=
  let c := Z.min 3 (doe / 36524) in
  let r := doe - c * 36524 in
  let q := r / 1461 in
  let r2 := r - q * 1461 in
  let y := Z.min 3 (r2 / 365) in
  (100 * c + 4 * q + y, r2 - 365 * y).

(** The month counted from March, and the day of the month. *)
Definition month_of_doy (doy : Z) : Z * Z :=
  let mp := (5 * doy + 2) / 153 in
  (mp, doy - (153 * mp + 2) / 5 + 1).

Definition civil_of_doe (doe : Z) : Z * Z * Z :=
  let '(yoe, doy) := year_of_doe doe in
  let '(mp, day) := month_of_doy doy in
  let month := if mp <? 10 then mp + 3 else mp - 9 in
  ((if month <=? 2 then yoe + 1 else yoe), month, day).

Definition civil_of_days (days : Z) : Z * Z * Z :=
  let z := days + 306 in
  let '(yoe, month, day) := civil_of_doe (z mod era_days) in
  (yoe + 400 * (z / era_days), month, day).

Definition Year (t : Time) : Z := (civil_of_days (t / day_ns)).1.1.
Definition Month (t : Time) : Z := (civil_of_days (t / day_ns)).1.2.
Definition Day (t : Time) : Z := (civil_of_days (t / day_ns)).2.

(** [time.Date(year, month, day, 0, 0, 0, 0, time.UTC)], with Go's normalisation of
    months outside 1..12 and of days outside the month. *)
Definition Date (year month day : Z) : Time :=
  let m := month - 1 in
  days_of_civil (year + m / 12) (m mod 12 + 1) 1 * day_ns + (day - 1) * day_ns.

(** [t.AddDate(years, months, days)]: the clock time of the day is kept. *)
Definition AddDate (t : Time) (years months days : Z) : Time :=
  Date (Year t + years) (Month t + months) (Day t + days) + t mod day_ns.

Definition is_leap (year : Z) : bool :=
  (year mod 4 =? 0) && (negb (year mod 100 =? 0) || (year mod 400 =? 0)).

Definition days_in (month year : Z) : Z :=
  if (month =? 2) then (if is_leap year then 29 else 28)
  else if (month =? 4) || (month =? 6) || (month =? 9) || (month =? 11) then 30 else 31.

(** ** Format and Parse with the layout [2006-01-02] ([time.DateOnly]) *)

Definition digit_char (d : Z) : ascii := ascii_of_N (Z.to_N (48 + d)).

Fixpoint zero_pad (n : nat) (s : string) : string :=
  match n with O => s | S n' => String "0" (zero_pad n' s) end.

(** Decimal with at least [width] digits. *)
Definition append_int (z : Z) (width : nat) : string :=
  let s := pretty (Z.abs z) in
  let padded := zero_pad (width - String.length s) s in
  if z <? 0 then String "-" padded else padded.

Definition two_digits (z : Z) : string :=
  of_bytes [digit_char (z / 10); digit_char (z mod 10)].

Definition year_string (y : Z) : string :=
  if (0 <=? y) && (y <=? 9999)
  then of_bytes [digit_char (y / 1000); digit_char (y / 100 mod 10);
                 digit_char (y / 10 mod 10); digit_char (y mod 10)]
  else append_int y 4.

Definition Format_DateOnly (t : Time) : string :=
  String.app (year_string (Year t))
    (String "-" (String.app (two_digits (Month t)) (String "-" (two_digits (Day t))))).

Definition number_of (ds : list ascii) : option Z :=
  foldl (fun acc c => n ← acc; d ← digit_value c; Some (n * 10 + d)) (Some 0) ds.

(** [time.Parse(time.DateOnly, s)]: four, two and two digits, no rest, a day of the month. *)
Definition Parse_DateOnly (s : string) : option Time :=
  match bytes s with
  | [y1; y2; y3; y4; s1; m1; m2; s2; d1; d2] =>
      if bool_decide (s1 = "-"%char) && bool_decide (s2 = "-"%char) then
        year ← number_of [y1; y2; y3; y4];
        month ← number_of [m1; m2];
        day ← number_of [d1; d2];
        if (1 <=? month) && (month <=? 12) && (1 <=? day) && (day <=? days_in month year)
        then Some (Date year month day) else None
      else None
  | _ => None
  end.

(** ** Calendar lemmas *)

(** Linear arithmetic with [/] and [mod] by constants. *)
Ltac div_lia := Z.div_mod_to_equations; lia.

Fixpoint all_below (n : nat) (z : Z) (f : Z -> bool) : bool :=
  match n with
  | O => true
  | S n' => f z && all_below n' (z + 1) f
  end.

Lemma all_below_spec n z f x :
  all_below n z f = true -> z <= x < z + Z.of_nat n -> f x = true.
Proof.
  revert z. induction n as [|n IH]; intros z H Hx; simpl in H; [lia|].
  apply andb_prop in H as [H1 H2].
  destruct (Z.eq_dec x z) as [->|Hne]; [done|]. apply (IH (z + 1)); [done|lia].
Qed.

(** The length of a month counted from March, in a leap year. *)
Definition month_length (mp : Z) : Z :=
  if mp =? 11 then 29
  else if (mp =? 1) || (mp =? 3) || (mp =? 6) || (mp =? 8) then 30 else 31.

Definition doy_ok (doy : Z) : bool :=
  let '(mp, day) := month_of_doy doy in
  (0 <=? mp) && (mp <=? 11) && (1 <=? day) && (day <=? month_length mp) &&
  ((153 * mp + 2) / 5 + day - 1 =? doy).

Definition mp_ok (mp day : Z) : bool :=
  (month_length mp <? day) ||
  bool_decide (month_of_doy ((153 * mp + 2) / 5 + day - 1) = (mp, day)).

Lemma all_doy_ok : all_below 366 0 doy_ok = true.
Proof. vm_compute. reflexivity. Qed.

Lemma all_mp_ok : all_below 12 0 (fun mp => all_below 31 1 (mp_ok mp)) = true.
Proof. vm_compute. reflexivity. Qed.

Lemma month_of_doy_spec doy mp day :
  0 <= doy <= 365 -> month_of_doy doy = (mp, day) ->
  0 <= mp <= 11 /\ 1 <= day <= month_length mp /\ (153 * mp + 2) / 5 + day - 1 = doy.
Proof.
  intros Hd E. pose proof (all_below_spec _ _ _ doy all_doy_ok ltac:(lia)) as H.
  unfold doy_ok in H. rewrite E in H. inv_bool. apply Z.eqb_eq in H0. lia.
Qed.

Lemma month_of_doy_inv mp day :
  0 <= mp <= 11 -> 1 <= day <= month_length mp ->
  month_of_doy ((153 * mp + 2) / 5 + day - 1) = (mp, day).
Proof.
  intros Hm Hd. pose proof (all_below_spec _ _ _ mp all_mp_ok ltac:(lia)) as H. cbv beta in H.
  assert (month_length mp <= 31) by (unfold month_length; repeat case_match; lia).
  apply (all_below_spec _ _ _ day) in H; [|lia].
  unfold mp_ok in H. apply orb_prop in H as [H|H]; inv_bool; [lia|done].
Qed.

(** The day of year 365 exists only before a leap February ends. *)
Definition leap_after (yoe : Z) : bool :=
  ((yoe + 1) mod 4 =? 0) && (negb ((yoe + 1) mod 100 =? 0) || (yoe + 1 =? 400)).

Lemma leap_after_spec yoe :
  leap_after yoe = true <->
  (yoe + 1) mod 4 = 0 /\ ((yoe + 1) mod 100 <> 0 \/ yoe + 1 = 400).
Proof.
  unfold leap_after. rewrite andb_true_iff, orb_true_iff, negb_true_iff, Z.eqb_eq, Z.eqb_neq, Z.eqb_eq.
  done.
Qed.

Lemma year_of_doe_spec doe yoe doy :
  0 <= doe < era_days -> year_of_doe doe = (yoe, doy) ->
  0 <= yoe <= 399 /\ 0 <= doy <= 365 /\ (doy = 365 -> leap_after yoe = true) /\
  yoe * 365 + yoe / 4 - yoe / 100 + doy = doe.
Proof.
  unfold era_days. intros Hd [= <- <-]. rewrite leap_after_spec.
  set (c := Z.min 3 (doe / 36524)). set (r := doe - c * 36524).
  assert (Hr : 0 <= c <= 3 /\ 0 <= r <= 36524 /\ (r = 36524 -> c = 3)) by (subst c r; div_lia).
  set (q := r / 1461). set (r2 := r - q * 1461).
  assert (Hq : 0 <= q <= 24 /\ 0 <= r2 <= 1460) by (subst q r2; div_lia).
  set (y := Z.min 3 (r2 / 365)).
  assert (Hy : 0 <= y <= 3 /\ 0 <= r2 - 365 * y <= 365 /\ (r2 - 365 * y = 365 -> y = 3))
    by (subst y; div_lia).
  assert (Hdiv : (100 * c + 4 * q + y) / 4 = 25 * c + q /\ (100 * c + 4 * q + y) / 100 = c)
    by div_lia.
  destruct Hdiv as [-> ->]. split; [lia|]. split; [lia|]. split; [|lia].
  intros H. replace y with 3 by lia. split; [div_lia|].
  destruct (Z.eq_dec q 24) as [Hq24|Hq24]; [right; lia|left; div_lia].
Qed.

Lemma year_of_doe_inv yoe doy :
  0 <= yoe <= 399 -> 0 <= doy <= 365 -> (doy = 365 -> leap_after yoe = true) ->
  year_of_doe (yoe * 365 + yoe / 4 - yoe / 100 + doy) = (yoe, doy) /\
  0 <= yoe * 365 + yoe / 4 - yoe / 100 + doy < era_days.
Proof.
  rewrite leap_after_spec. intros Hy Hd Hl.
  set (c := yoe / 100). set (q := (yoe mod 100) / 4). set (y := yoe mod 4).
  assert (Hc : 0 <= c <= 3) by (subst c; div_lia).
  assert (Hq : 0 <= q <= 24) by (subst q; div_lia).
  assert (Hy4 : 0 <= y <= 3) by (subst y; div_lia).
  assert (Heq : yoe = 100 * c + 4 * q + y) by (subst c q y; div_lia).
  assert (H4 : yoe / 4 = 25 * c + q) by div_lia.
  assert (Hl' : doy = 365 -> y = 3 /\ (q = 24 -> c = 3)).
  { intros H. destruct (Hl H) as [H1 H2]. split; [div_lia|]. intros ->.
    destruct H2 as [H2|H2]; [|lia]. destruct H2. replace y with 3 by div_lia. div_lia. }
  clear Hl. replace (yoe * 365 + yoe / 4 - c + doy) with
    (c * 36524 + (q * 1461 + (y * 365 + doy))) by lia.
  clearbody c q y. unfold year_of_doe, era_days.
  set (r2 := y * 365 + doy). assert (Hr2 : 0 <= r2 <= 1460) by lia.
  set (r := q * 1461 + r2). assert (Hr : 0 <= r <= 36524 /\ (r = 36524 -> c = 3)) by lia.
  assert (E1 : Z.min 3 ((c * 36524 + r) / 36524) = c) by div_lia. rewrite E1.
  replace (c * 36524 + r - c * 36524) with r by lia.
  assert (E2 : r / 1461 = q) by div_lia. rewrite E2.
  replace (r - q * 1461) with r2 by lia.
  assert (E3 : Z.min 3 (r2 / 365) = y) by div_lia. rewrite E3.
  split; [f_equal; lia|lia].
Qed.

Lemma is_leap_era y : 1 <= y <= 400 -> is_leap y = leap_after (y - 1).
Proof.
  intros Hy. unfold is_leap, leap_after. replace (y - 1 + 1) with y by lia. do 2 f_equal.
  destruct (Z.eqb_spec (y mod 400) 0), (Z.eqb_spec y 400); try done; div_lia.
Qed.

Lemma mod_shift y k : (y + 400 * k) mod 400 = y mod 400.
Proof. by rewrite (Z.mul_comm 400), Z.mod_add. Qed.

Lemma div_shift y k : (y + 400 * k) / 400 = y / 400 + k.
Proof. by rewrite (Z.mul_comm 400), Z.div_add. Qed.

Lemma is_leap_shift y k : is_leap (y + 400 * k) = is_leap y.
Proof.
  unfold is_leap. rewrite mod_shift.
  replace (y + 400 * k) with (y + (100 * k) * 4) at 1 by lia. rewrite Z.mod_add by done.
  replace (y + 400 * k) with (y + (4 * k) * 100) by lia. by rewrite Z.mod_add.
Qed.

Lemma days_in_shift m y k : days_in m (y + 400 * k) = days_in m y.
Proof. unfold days_in. by rewrite is_leap_shift. Qed.

Lemma days_in_bounds m y : 28 <= days_in m y <= 31.
Proof. unfold days_in. repeat case_match; lia. Qed.

(** The March-based month and year of a calendar month. *)
Definition march_month (m : Z) : Z := (m + 9) mod 12.
Definition march_year (y m : Z) : Z := if m <=? 2 then y - 1 else y.

(** A March-based date below its month length is a calendar date, and conversely. *)
Lemma days_in_march m yoe d :
  1 <= m <= 12 -> 0 <= yoe <= 399 ->
  let y := if m <=? 2 then yoe + 1 else yoe in
  d <= days_in m y <->
  d <= month_length (march_month m) /\ (march_month m = 11 -> d = 29 -> leap_after yoe = true).
Proof.
  intros Hm Hy. unfold march_month.
  assert (m = 1 \/ m = 2 \/ m = 3 \/ m = 4 \/ m = 5 \/ m = 6 \/ m = 7 \/ m = 8 \/ m = 9 \/
    m = 10 \/ m = 11 \/ m = 12) as Hcases by lia.
  repeat destruct Hcases as [->|Hcases]; subst; cbn -[leap_after];
    try (split; [intros; split; [done|intros ?; done]|by intros [? _]]).
  rewrite is_leap_era by lia. replace (yoe + 1 - 1) with yoe by lia.
  change ((2 + 9) mod 12) with 11. change (month_length 11) with 29.
  destruct (leap_after yoe); cbn; split.
  - by intros.
  - by intros [? _].
  - intros Hd. split; [lia|]. intros _ E. lia.
  - intros [Hd Hl]. destruct (Z.eq_dec d 29) as [E|E]; [by specialize (Hl eq_refl E)|lia].
Qed.

Lemma days_of_civil_march y m d :
  days_of_civil y m d =
  march_year y m / 400 * era_days +
  (march_year y m mod 400 * 365 + march_year y m mod 400 / 4 - march_year y m mod 400 / 100 +
   ((153 * march_month m + 2) / 5 + d - 1)) - 306.
Proof. unfold days_of_civil, march_year, march_month. destruct (m <=? 2); lia. Qed.

Lemma days_of_civil_day y m d : days_of_civil y m d = days_of_civil y m 1 + (d - 1).
Proof. rewrite !days_of_civil_march. lia. Qed.

(** Every day has a valid date, and [days_of_civil] converts it back. *)
Lemma civil_of_days_spec n y m d :
  civil_of_days n = (y, m, d) ->
  1 <= m <= 12 /\ 1 <= d <= days_in m y /\ days_of_civil y m d = n.
Proof.
  unfold civil_of_days, civil_of_doe. set (z := n + 306).
  destruct (year_of_doe (z mod era_days)) as [yoe doy] eqn:Ey.
  destruct (month_of_doy doy) as [mp day] eqn:Em.
  apply year_of_doe_spec in Ey as (Hyoe & Hdoy & Hleap & Hdoe);
    [|by apply Z.mod_pos_bound].
  apply month_of_doy_spec in Em as (Hmp & Hday & Hdoy'); [|done].
  set (mo := if mp <? 10 then mp + 3 else mp - 9). intros [= <- <- <-].
  assert (Hmo : 1 <= mo <= 12 /\ march_month mo = mp)
    by (subst mo; unfold march_month; destruct (Z.ltb_spec mp 10); div_lia).
  destruct Hmo as [Hmo Hmm]. split; [done|]. split.
  - split; [lia|]. rewrite (Z.mul_comm 400), (Z.mul_comm _ 400), days_in_shift.
    apply days_in_march; [done..|]. rewrite Hmm. split; [lia|].
    intros -> ->. apply Hleap. rewrite <- Hdoy'. reflexivity.
  - rewrite days_of_civil_march, Hmm.
    assert (Hmy : march_year ((if mo <=? 2 then yoe + 1 else yoe) + 400 * (z / era_days)) mo
      = yoe + 400 * (z / era_days)) by (unfold march_year; destruct (mo <=? 2); lia).
    rewrite Hmy, mod_shift, div_shift, (Z.mod_small yoe), (Z.div_small yoe) by lia.
    pose proof (Z.div_mod z era_days ltac:(done)). lia.
Qed.

Lemma civil_of_days_of_civil y m d :
  1 <= m <= 12 -> 1 <= d <= days_in m y ->
  civil_of_days (days_of_civil y m d) = (y, m, d).
Proof.
  intros Hm Hd. rewrite days_of_civil_march. unfold civil_of_days, civil_of_doe.
  set (Y := march_year y m). set (yoe := Y mod 400).
  assert (Hyoe : 0 <= yoe <= 399) by (subst yoe; div_lia).
  assert (HY : Y = yoe + 400 * (Y / 400)) by (subst yoe; div_lia).
  assert (Hy : y = (if m <=? 2 then yoe + 1 else yoe) + 400 * (Y / 400))
    by (unfold Y, march_year in *; destruct (m <=? 2); lia).
  rewrite Hy, days_in_shift in Hd. destruct Hd as [Hd1 Hd].
  apply days_in_march in Hd as [Hlen Hleap]; [|done..].
  set (mp := march_month m) in *.
  assert (Hmp : 0 <= mp <= 11) by (subst mp; unfold march_month; div_lia).
  assert (Hdoy : 0 <= (153 * mp + 2) / 5 + d - 1 <= 365 /\
    ((153 * mp + 2) / 5 + d - 1 = 365 -> mp = 11 /\ d = 29))
    by (revert Hlen; unfold month_length; repeat case_match; div_lia).
  destruct Hdoy as [Hdoy H365].
  destruct (year_of_doe_inv yoe ((153 * mp + 2) / 5 + d - 1)) as [E1 E2]; [done..| |].
  { intros H. apply H365 in H as [? ?]. by apply Hleap. }
  set (doe := yoe * 365 + yoe / 4 - yoe / 100 + ((153 * mp + 2) / 5 + d - 1)) in *.
  replace (Y / 400 * era_days + doe - 306 + 306) with (doe + Y / 400 * era_days) by lia.
  rewrite Z.mod_add, Z.div_add, (Z.mod_small doe), (Z.div_small doe) by (done || lia).
  rewrite E1, month_of_doy_inv by lia.
  assert (Hmo : (if mp <? 10 then mp + 3 else mp - 9) = m)
    by (subst mp; unfold march_month; destruct (Z.ltb_spec ((m + 9) mod 12) 10); div_lia).
  rewrite Hmo, Z.add_0_l, (Z.mul_comm 400), (Z.mul_comm _ 400), <- Hy. done.
Qed.

Lemma march_year_days y :
  y / 400 * era_days + (y mod 400 * 365 + y mod 400 / 4 - y mod 400 / 100)
  = 365 * y + y / 4 - y / 100 + y / 400.
Proof.
  unfold era_days. assert (Hy : y = y mod 400 + 400 * (y / 400) /\ 0 <= y mod 400 < 400) by div_lia.
  generalize dependent (y mod 400). generalize (y / 400). intros q r [-> Hr]. div_lia.
Qed.

(** Evaluates the calendar functions at a literal month. *)
Ltac eval_month :=
  match goal with
  | |- context [?m mod 12 + 1] =>
      let m' := eval vm_compute in (m mod 12 + 1) in change (m mod 12 + 1) with m';
      let q := eval vm_compute in (m / 12) in change (m / 12) with q
  end;
  unfold march_year; cbn [Z.leb Z.compare Pos.compare Pos.compare_cont];
  repeat match goal with
  | |- context [march_month ?m] =>
      let k := eval vm_compute in (march_month m) in change (march_month m) with k;
      let d := eval vm_compute in ((153 * k + 2) / 5) in change ((153 * k + 2) / 5) with d
  | |- context [days_in ?m _] =>
      unfold days_in; cbn [Z.eqb Pos.eqb orb]
  end.

Lemma days_next_month y m :
  1 <= m <= 12 ->
  days_of_civil (y + m / 12) (m mod 12 + 1) 1 = days_of_civil y m 1 + days_in m y.
Proof.
  intros Hm. rewrite !days_of_civil_march.
  assert (m = 2 \/ m = 1 \/ m = 3 \/ m = 4 \/ m = 5 \/ m = 6 \/ m = 7 \/ m = 8 \/ m = 9 \/
    m = 10 \/ m = 11 \/ m = 12) as Hcases by lia.
  destruct Hcases as [->|Hcases].
  { (* February: the March year changes *)
    change (march_month 2) with 11. change (march_month (2 mod 12 + 1)) with 0.
    change (march_year (y + 2 / 12) (2 mod 12 + 1)) with (y + 0).
    change (march_year y 2) with (y - 1). rewrite Z.add_0_r.
    pose proof (march_year_days y). pose proof (march_year_days (y - 1)).
    change ((153 * 11 + 2) / 5) with 337. change ((153 * 0 + 2) / 5) with 0.
    assert (365 * y + y / 4 - y / 100 + y / 400
      = 365 * (y - 1) + (y - 1) / 4 - (y - 1) / 100 + (y - 1) / 400 + 337 + days_in 2 y); [|lia].
    unfold days_in, is_leap. cbn [Z.eqb Pos.eqb].
    destruct (Z.eqb_spec (y mod 4) 0), (Z.eqb_spec (y mod 100) 0), (Z.eqb_spec (y mod 400) 0);
      cbn [negb andb orb]; clear H H0; div_lia. }
  repeat destruct Hcases as [->|Hcases]; subst; eval_month;
    rewrite ?Z.add_0_r, ?Z.add_simpl_r; lia.
Qed.

(** ** Instants *)

(** Year, month and day of an instant, together. *)
Lemma civil_of_Time t :
  1 <= Month t <= 12 /\ 1 <= Day t <= days_in (Month t) (Year t) /\
  days_of_civil (Year t) (Month t) (Day t) = t / day_ns.
Proof.
  unfold Year, Month, Day. destruct (civil_of_days (t / day_ns)) as [[y m] d] eqn:E.
  by apply civil_of_days_spec.
Qed.

Lemma Date_valid y m d : 1 <= m <= 12 -> Date y m d = days_of_civil y m d * day_ns.
Proof.
  intros Hm. unfold Date. rewrite (days_of_civil_day y m d).
  rewrite Z.div_small, Z.mod_small by lia.
  replace (y + 0) with y by lia. replace (m - 1 + 1) with m by lia. lia.
Qed.

(** [Date] of an instant's date is its midnight. *)
Lemma Date_of_Time t : Date (Year t) (Month t) (Day t) = t / day_ns * day_ns.
Proof. destruct (civil_of_Time t) as (Hm & _ & Hd). by rewrite Date_valid, Hd. Qed.

Lemma Date_fields y m d :
  1 <= m <= 12 -> 1 <= d <= days_in m y ->
  Year (Date y m d) = y /\ Month (Date y m d) = m /\ Day (Date y m d) = d /\
  Date y m d mod day_ns = 0.
Proof.
  intros Hm Hd. rewrite Date_valid by done. unfold Year, Month, Day.
  rewrite Z.div_mul, Z.mod_mul by done. by rewrite civil_of_days_of_civil.
Qed.

Lemma midnight_bounds t : t / day_ns * day_ns <= t < t / day_ns * day_ns + day_ns.
Proof.
  pose proof (Z.div_mod t day_ns ltac:(done)).
  pose proof (Z.mod_pos_bound t day_ns ltac:(done)). lia.
Qed.

(** Adding days to a midnight. *)
Lemma AddDate_days t n : AddDate t 0 0 n = t + n * day_ns.
Proof.
  unfold AddDate. rewrite !Z.add_0_r. destruct (civil_of_Time t) as (Hm & _ & Hd).
  rewrite Date_valid, days_of_civil_day by done. rewrite days_of_civil_day in Hd.
  pose proof (Z.div_mod t day_ns ltac:(done)). lia.
Qed.

(** The first instant of the month after the one of a first-of-month midnight. *)
Lemma AddDate_month y m :
  1 <= m <= 12 ->
  AddDate (Date y m 1) 0 1 0 = Date y m 1 + days_in m y * day_ns.
Proof.
  intros Hm. pose proof (days_in_bounds m y).
  destruct (Date_fields y m 1 Hm ltac:(lia)) as (Hy & Hmo & Hd & Hz).
  unfold AddDate. rewrite Hy, Hmo, Hd, Hz, (Date_valid y m 1) by done. unfold Date.
  replace (m + 1 - 1) with m by lia. rewrite !Z.add_0_r.
  rewrite days_next_month by done. lia.
Qed.

(** ** The date format *)

Lemma digit_value_char d : 0 <= d <= 9 -> digit_value (digit_char d) = Some d.
Proof.
  intros Hd. unfold digit_value, digit_char.
  rewrite N_ascii_embedding by lia. rewrite Z2N.id by lia.
  rewrite (proj2 (Z.leb_le 48 (48 + d))), (proj2 (Z.leb_le (48 + d) 57)) by lia.
  simpl. f_equal. lia.
Qed.

Lemma number_of_snoc ds c n d :
  number_of ds = Some n -> digit_value c = Some d -> number_of (ds ++ [c]) = Some (n * 10 + d).
Proof. unfold number_of. intros H1 H2. rewrite foldl_app. simpl. by rewrite H1, H2. Qed.

Lemma number_of_two n : 0 <= n < 100 ->
  number_of [digit_char (n / 10); digit_char (n mod 10)] = Some n.
Proof.
  intros Hn. unfold number_of. simpl. rewrite !digit_value_char by div_lia.
  simpl. f_equal. div_lia.
Qed.

Lemma number_of_four n : 0 <= n <= 9999 ->
  number_of [digit_char (n / 1000); digit_char (n / 100 mod 10);
             digit_char (n / 10 mod 10); digit_char (n mod 10)] = Some n.
Proof.
  intros Hn. unfold number_of. simpl. rewrite !digit_value_char by div_lia.
  simpl. f_equal. div_lia.
Qed.

(** A formatted midnight of the years 0 to 9999 parses back to itself. *)
Lemma Parse_Format t :
  0 <= Year t <= 9999 -> t mod day_ns = 0 -> Parse_DateOnly (Format_DateOnly t) = Some t.
Proof.
  intros Hy Hz. destruct (civil_of_Time t) as (Hm & Hd & _).
  pose proof (days_in_bounds (Month t) (Year t)).
  unfold Parse_DateOnly, Format_DateOnly, year_string.
  rewrite (proj2 (Z.leb_le 0 (Year t))), (proj2 (Z.leb_le (Year t) 9999)) by lia.
  cbn [andb]. unfold bytes, two_digits, of_bytes.
  cbv [String.append String.list_ascii_of_string String.string_of_list_ascii].
  cbn -[number_of digit_char Z.div Z.modulo Z.leb Date days_in Year Month Day].
  rewrite number_of_four by lia. rewrite !number_of_two by lia.
  cbn -[Z.leb Date days_in Year Month Day].
  rewrite (proj2 (Z.leb_le 1 (Month t))), (proj2 (Z.leb_le (Month t) 12)),
    (proj2 (Z.leb_le 1 (Day t))), (proj2 (Z.leb_le (Day t) (days_in (Month t) (Year t)))) by lia.
  cbn [andb]. rewrite Date_of_Time. f_equal.
  pose proof (Z.div_mod t day_ns ltac:(done)). lia.
Qed.

Example Format_ex : Format_DateOnly (Date 2026 7 13 + 5 * Hour) = "2026-07-13"%string.
Proof. vm_compute. reflexivity. Qed.

Example Parse_ex : map Parse_DateOnly ["2024-02-29"; "2023-02-29"; "2024-2-29"; "2024-02-29 "]%string
  = [Some (Date 2024 2 29); None; None; None].
Proof. vm_compute. reflexivity. Qed.

Example Unix_ex : Unix (Date 1970 1 1) = 0 /\ Unix (Date 2000 3 1) = 951868800.
Proof. vm_compute. done. Qed.
