(* ===== verification/Errors.v ===== *)
(** * Errors, and their classification (internal/aws/common)

    A Go error is a value with an optional cause; [errors.Is] and [errors.As] walk the
    chain of causes.  The constructors are the errors of the standard library and of the
    AWS SDK that the source can tell apart, and the error types the source declares.
    The text of a message is kept; a text formatted from run-time values is not. *)

From S2P Require Import Prelude GoStrings.
Local Open Scope string_scope.
Local Open Scope list_scope.

(** [common.ErrorKind]. *)
Inductive ErrorKind :=
| ErrorCanceled | ErrorTimeout | ErrorThrottle | ErrorAuthorization
| ErrorValidation | ErrorTransient | ErrorUnknown.

#[export] Instance ErrorKind_eq_dec : EqDecision ErrorKind.
Proof. solve_decision. Defined.

Definition ErrorKind_string (k : ErrorKind) : string :=
  match k with
  | ErrorCanceled => "canceled"
  | ErrorTimeout => "timeout"
  | ErrorThrottle => "throttle"
  | ErrorAuthorization => "authorization"
  | ErrorValidation => "validation"
  | ErrorTransient => "transient"
  | ErrorUnknown => "unknown"
  end.

Inductive error :=
| Canceled                               (** [context.Canceled] *)
| DeadlineExceeded                       (** [context.DeadlineExceeded] *)
| Sentinel (msg : string)                (** a package-level [errors.New], known by identity *)
| ErrorString (msg : string)             (** any other leaf error *)
| NetError (timeout : bool)              (** an error that is a [net.Error] *)
| APIError (code : string)               (** a [smithy.APIError] *)
| Wrapped (msg : string) (cause : error) (** [fmt.Errorf] with a wrapped error *)
| Classified (kind : ErrorKind) (retryable : bool) (cause : error)
| IdentityMismatch                       (** [clientfactory.identityMismatchError] *)
| CredentialsChanged                     (** [clientfactory.credentialsChangedError] *)
| UnavailableSource (cause : error).     (** [clientfactory.unavailableVerifier] as an error *)

#[export] Instance error_eq_dec : EqDecision error.
Proof. solve_decision. Defined.

Abbreviation res := (result error).

Definition Unwrap (e : error) : option error :=
  match e with
  | Wrapped _ c | Classified _ _ c | UnavailableSource c => Some c
  | _ => None
  end.

(** [errors.Is(err, target)]. *)
Fixpoint Is (target : error) (e : error) : bool :=
  bool_decide (e = target) ||
  match e with
  | Wrapped _ c | Classified _ _ c | UnavailableSource c => Is target c
  | _ => false
  end.

(** [errors.As] with a [net.Error] target: the [Timeout()] of the first one found.
    The deadline error of a context is itself a [net.Error] that timed out. *)
Fixpoint As_net (e : error) : option bool :=
  match e with
  | NetError t => Some t
  | DeadlineExceeded => Some true
  | Wrapped _ c | Classified _ _ c | UnavailableSource c => As_net c
  | _ => None
  end.

(** [errors.As] with a [smithy.APIError] target: its [ErrorCode()]. *)
Fixpoint As_api (e : error) : option string :=
  match e with
  | APIError code => Some code
  | Wrapped _ c | Classified _ _ c | UnavailableSource c => As_api c
  | _ => None
  end.

(** [errors.As] with [interface{ Retryable() bool }], and the answer of the method. *)
Fixpoint As_retryable (e : error) : option bool :=
  match e with
  | Classified _ r _ => Some r
  | IdentityMismatch => Some false
  | CredentialsChanged => Some true
  | UnavailableSource _ => Some false
  | Wrapped _ c => As_retryable c
  | _ => None
  end.

(** [errors.As] with [interface{ SafeKind() string }]. *)
Fixpoint As_safe_kind (e : error) : option ErrorKind :=
  match e with
  | Classified k _ _ => Some k
  | IdentityMismatch => Some ErrorValidation
  | CredentialsChanged => Some ErrorTransient
  | UnavailableSource _ => Some ErrorValidation
  | Wrapped _ c => As_safe_kind c
  | _ => None
  end.

Definition throttle_codes : list string :=
  ["Throttling"; "ThrottlingException"; "TooManyRequestsException";
   "RequestLimitExceeded"; "LimitExceededException"].

Definition IsThrottleCode (code : string) : bool := bool_decide (code ∈ throttle_codes).

(** The switch on a service error code, over the lower-cased code. *)
Definition classify_code (code : string) : ErrorKind * bool :=
  let low := ToLower code in
  if IsThrottleCode code then (ErrorThrottle, true)
  else if Contains low "accessdenied" || Contains low "unauthorized" || Contains low "notauthorized"
  then (ErrorAuthorization, false)
  else if Contains low "validation" || Contains low "invalid" then (ErrorValidation, false)
  else if Contains low "unavailable" || Contains low "internal" || Contains low "serviceexception"
  then (ErrorTransient, true)
  else (ErrorUnknown, false).

Definition classification (e : error) : ErrorKind * bool :=
  if Is Canceled e then (ErrorCanceled, false)
  else if Is DeadlineExceeded e then (ErrorTimeout, true)
  else
    match As_net e with
    | Some timeout => (if timeout then ErrorTimeout else ErrorTransient, true)
    | None =>
        match As_api e with
        | None => (ErrorUnknown, false)
        | Some code => classify_code code
        end
    end.

(** [ClassifyError] of a non-nil error. *)
Definition ClassifyError (e : error) : error :=
  let '(k, r) := classification e in Classified k r e.

(** [RequestStatus] and [RetryReason]: bounded metric values; [None] is a nil error. *)
Definition RequestStatus (e : option error) : string :=
  match e with
  | None => "success"
  | Some e =>
      if Is Canceled e || Is DeadlineExceeded e then "canceled"
      else match As_api e with
           | Some code => if IsThrottleCode code then "throttle" else "error"
           | None => "error"
           end
  end.

Definition RetryReason (e : error) : string :=
  match As_api e with
  | Some code =>
      if IsThrottleCode code then "throttle"
      else match As_net e with Some true => "timeout" | _ => "other" end
  | None => match As_net e with Some true => "timeout" | _ => "other" end
  end.

(** ** Lemmas *)

Lemma Is_classified target k r c :
  (forall k' r' c', target <> Classified k' r' c') -> Is target (Classified k r c) = Is target c.
Proof. intros H. simpl. by rewrite bool_decide_false by (intros Heq; by eapply H). Qed.

Lemma classification_Classified k r c : classification (Classified k r c) = classification c.
Proof. unfold classification. by rewrite !Is_classified by done. Qed.

Lemma classification_Wrapped m c : classification (Wrapped m c) = classification c.
Proof. done. Qed.

Lemma ClassifyError_retryable e : As_retryable (ClassifyError e) = Some (classification e).2.
Proof. unfold ClassifyError. by destruct (classification e). Qed.

Lemma ClassifyError_kind e : As_safe_kind (ClassifyError e) = Some (classification e).1.
Proof. unfold ClassifyError. by destruct (classification e). Qed.

Lemma ErrorKind_string_inj : Inj (=) (=) ErrorKind_string.
Proof. by intros [] []. Qed.

(** Exactly the timeout, throttle and transient kinds are retried. *)
Definition retryable_kind (k : ErrorKind) : bool :=
  match k with ErrorTimeout | ErrorThrottle | ErrorTransient => true | _ => false end.

Lemma classify_code_retryable code : (classify_code code).2 = retryable_kind (classify_code code).1.
Proof. unfold classify_code. by repeat case_match. Qed.

(** ** Properties *)

(** an error is classified by what its chain of causes holds, whatever wraps
    it: wrapping or classifying again changes neither the kind nor the retry decision,
    and the decision to retry is a function of the kind: timeout, throttle and transient
    failures are retried, all others are not. *)
Theorem ClassifyError_stable e m :
  As_retryable (ClassifyError e) = Some (retryable_kind (classification e).1) /\
  As_safe_kind (ClassifyError (Wrapped m (ClassifyError e))) = As_safe_kind (ClassifyError e) /\
  As_retryable (ClassifyError (Wrapped m (ClassifyError e))) = As_retryable (ClassifyError e).
Proof.
  rewrite !ClassifyError_retryable, !ClassifyError_kind, classification_Wrapped.
  unfold ClassifyError. destruct (classification e) as [k r] eqn:E.
  rewrite classification_Classified, E. cbn. split; [|done]. f_equal. revert E. unfold classification.
  destruct (Is Canceled e); [by intros [= <- <-]|].
  destruct (Is DeadlineExceeded e); [by intros [= <- <-]|].
  destruct (As_net e) as [[]|]; [by intros [= <- <-]..|].
  destruct (As_api e) as [code|]; [|by intros [= <- <-]].
  intros Hc. pose proof (classify_code_retryable code) as H. by rewrite Hc in H.
Qed.
