(* ===== verification/Effects.v ===== *)
(** * Calls to the outside (context, readers)

    A call that can fail and touches the world outside the modelled code: it takes the world
    and answers with a result and the world after it.  The world is a parameter of the
    development; readers, clocks and the cancellation of a context are operations on it. *)

From S2P Require Import Prelude Errors.

Definition io (W A : Type) : Type := W -> res A * W.

#[export] Instance io_ret {W} : MRet (io W) := fun A a w => (Ok a, w).
#[export] Instance io_bind {W} : MBind (io W) :=
  fun A B f m w => match m w with (Ok a, w') => f a w' | (Err e, w') => (Err e, w') end.

(** A pure result inside a call, and a call whose error gets more context. *)
Definition lift {W A} (r : res A) : io W A := fun w => (r, w).

Definition map_err {A} (f : error -> error) (r : res A) : res A :=
  match r with Ok a => Ok a | Err e => Err (f e) end.

Definition io_map_err {W A} (f : error -> error) (m : io W A) : io W A :=
  fun w => let '(r, w') := m w in (map_err f r, w').

(** [for _, x := range l { ... }] over calls, gathering the values. *)
Fixpoint io_each {W A B} (f : A -> io W (list B)) (l : list A) : io W (list B) :=
  match l with
  | [] => mret []
  | a :: l => bs ← f a; rest ← io_each f l; mret (bs ++ rest)
  end.

(** What the modelled code sees of the world besides its readers and clients: the error of the
    context, the overflow counter, the counter of pages read and the counter of requests by
    status (the elapsed time of a request is the world's). *)
Class World (W : Type) := {
  ctx_Err : W -> option error * W;
  observe_overflow : string -> Z -> W -> W;
  observe_page : string -> string -> W -> W;
  observe_request : string -> string -> string -> W -> W
}.

(** [if err := ctx.Err(); err != nil { return err }]. *)
Definition check_ctx {W} `{World W} : io W unit :=
  fun w => match ctx_Err w with (Some e, w') => (Err e, w') | (None, w') => (Ok tt, w') end.

Definition observe_all {W} `{World W} (events : list (string * Z)) : io W unit :=
  fun w => (Ok tt, fold_left (fun w '(dimension, count) => observe_overflow dimension count w) events w).

(** [observer.ObservePaginationPage(target, operation)]. *)
Definition observe_pagination {W} `{World W} (target operation : string) : io W unit :=
  fun w => (Ok tt, observe_page target operation w).

Section IoLemmas.
Context {W A B : Type}.

Lemma io_bind_ok (m : io W A) (f : A -> io W B) w b w' :
  (m ≫= f) w = (Ok b, w') <-> exists a w1, m w = (Ok a, w1) /\ f a w1 = (Ok b, w').
Proof. unfold mbind, io_bind. destruct (m w) as [[a|e] w1]; naive_solver. Qed.

Lemma io_bind_err (m : io W A) (f : A -> io W B) w e w' :
  (m ≫= f) w = (Err e, w') <->
  m w = (Err e, w') \/ exists a w1, m w = (Ok a, w1) /\ f a w1 = (Err e, w').
Proof. unfold mbind, io_bind. destruct (m w) as [[a|e'] w1]; naive_solver. Qed.

(** Runs the first call of a sequence that is known to succeed. *)
Lemma io_bind_run (m : io W A) (f : A -> io W B) w a w1 :
  m w = (Ok a, w1) -> (m ≫= f) w = f a w1.
Proof. intros Hm. unfold mbind, io_bind. by rewrite Hm. Qed.

Lemma io_ret_ok (a : A) (w : W) b w' : mret (M := io W) a w = (Ok b, w') <-> b = a /\ w' = w.
Proof. unfold mret, io_ret. naive_solver. Qed.

Lemma lift_ok (r : res A) (w : W) a w' : lift r w = (Ok a, w') <-> r = Ok a /\ w' = w.
Proof. unfold lift. naive_solver. Qed.

Lemma map_err_ok (f : error -> error) (r : res A) a : map_err f r = Ok a <-> r = Ok a.
Proof. destruct r; naive_solver. Qed.

Lemma io_map_err_ok (f : error -> error) (m : io W A) w a w' :
  io_map_err f m w = (Ok a, w') <-> m w = (Ok a, w').
Proof. unfold io_map_err. destruct (m w) as [[] ?]; naive_solver. Qed.
End IoLemmas.

Lemma io_each_ok {W A B} (f : A -> io W (list B)) l w bs w' :
  io_each f l w = (Ok bs, w') ->
  exists bss, bs = concat bss /\
    Forall2 (fun a b => exists w1 w2, f a w1 = (Ok b, w2)) l bss.
Proof.
  revert w bs. induction l as [|a l IH]; intros w bs; simpl.
  - intros [-> _]%io_ret_ok. by exists [].
  - intros (b & w1 & Hb & (rest & w2 & Hr & [-> ->]%io_ret_ok)%io_bind_ok)%io_bind_ok.
    apply IH in Hr as (bss & -> & Hf). exists (b :: bss). split; [done|]. constructor; eauto.
Qed.

(** Inverts every hypothesis saying that a sequence of calls returned [Ok]. *)
Ltac inv_io :=
  repeat match goal with
  | H : (_ ≫= _) _ = (Ok _, _) |- _ => apply io_bind_ok in H as (? & ? & ? & ?)
  | H : mret _ _ = (Ok _, _) |- _ => apply io_ret_ok in H as [-> ->]
  | H : lift _ _ = (Ok _, _) |- _ => apply lift_ok in H as [? ->]
  | H : io_map_err _ _ _ = (Ok _, _) |- _ => apply io_map_err_ok in H
  | H : map_err _ _ = Ok _ |- _ => apply map_err_ok in H
  | H : (Err _, _) = (Ok _, _) |- _ => discriminate H
  | H : (Ok _, _) = (Ok _, _) |- _ => injection H as H; try subst
  end.
