(* ===== verification/Pagination.v ===== *)
(** * Paged calls of the AWS readers

    The loop that internal/aws/organizations, internal/aws/budgets and the commitment and
    anomaly readers of internal/aws/costexplorer share: call, report, classify, fold the page
    into a state, follow the token.  A [PagedCall] says in what the loops differ. *)

From S2P Require Import Prelude GoStrings Errors Effects.
Local Open Scope string_scope.
Local Open Scope list_scope.

(** [aws.ToString]. *)
Definition ToString (s : option string) : string := default "" s.

Section Paged.
Context {W : Type} `{World W}.

(** [awscommon.ObserveCall] after the call, and the error classified. *)
Definition ObserveCall {A} (target operation : string) (m : io W A) : io W A :=
  fun w =>
    let '(r, w) := m w in
    let err := match r with Ok _ => None | Err e => Some e end in
    (r, observe_request target operation (RequestStatus err) w).

Definition aws_call {A} (target operation : string) (m : io W A) : io W A :=
  io_map_err ClassifyError (ObserveCall target operation m).

(** One paged operation: the call under a page token, the token of a page, whether the context
    is consulted before a call and whether a token may come twice, the three errors, and the
    check of a page that comes before its page is counted. *)
Record PagedCall (Page : Type) := mkPagedCall {
  pc_call : option string -> io W (option Page);
  pc_target : string;
  pc_operation : string;
  pc_next : Page -> option string;
  pc_check : bool;
  pc_unique : bool;
  pc_limit : error;
  pc_nil : error;
  pc_duplicate : error;
  pc_valid : Page -> res unit
}.
Arguments pc_call {Page}. Arguments pc_target {Page}. Arguments pc_operation {Page}.
Arguments pc_next {Page}. Arguments pc_check {Page}. Arguments pc_unique {Page}.
Arguments pc_limit {Page}. Arguments pc_nil {Page}. Arguments pc_duplicate {Page}.
Arguments pc_valid {Page}.

Context {Page S : Type} (pc : PagedCall Page) (process : bool -> Page -> S -> res S).

(** The loop with [remaining] pages left; [first] is the test [page == 0]. *)
Fixpoint read_paged (remaining : nat) (first : bool) (token : option string) (seen : gset string)
    (s : S) : io W S :=
  match remaining with
  | O => lift (Err (pc_limit pc))
  | Datatypes.S remaining =>
      _ ← (if pc_check pc then check_ctx else mret tt);
      output ← aws_call (pc_target pc) (pc_operation pc) (pc_call pc token);
      match output with
      | None => lift (Err (pc_nil pc))
      | Some page =>
          _ ← lift (pc_valid pc page);
          _ ← observe_pagination (pc_target pc) (pc_operation pc);
          s ← lift (process first page s);
          let next := ToString (pc_next pc page) in
          if bool_decide (next = "") then mret s
          else if pc_unique pc && bool_decide (next ∈ seen) then lift (Err (pc_duplicate pc))
          else read_paged remaining false (Some next) ({[ next ]} ∪ seen) s
      end
  end.

(** ** What a successful loop has read *)

(** A complete chain of pages: each answers the call with the token of the page before it, and
    only the last one has no token. *)
Inductive paged_chain : option string -> list Page -> Prop :=
| paged_last token page w w' :
    pc_call pc token w = (Ok (Some page), w') -> ToString (pc_next pc page) = "" ->
    paged_chain token [page]
| paged_more token page pages w w' :
    pc_call pc token w = (Ok (Some page), w') -> ToString (pc_next pc page) <> "" ->
    paged_chain (Some (ToString (pc_next pc page))) pages ->
    paged_chain token (page :: pages).

(** The pages folded in order. *)
Fixpoint fold_pages (first : bool) (pages : list Page) (s : S) : res S :=
  match pages with
  | [] => Ok s
  | page :: pages => s ← process first page s; fold_pages false pages s
  end.

(** The tokens the pages hand on, the last page aside. *)
Definition paged_tokens (pages : list Page) : list string :=
  List.filter (fun t => negb (bool_decide (t = ""))) (map (fun p => ToString (pc_next pc p)) pages).

Lemma aws_call_ok {A} target operation (m : io W A) w a w' :
  aws_call target operation m w = (Ok a, w') -> exists w1, m w = (Ok a, w1).
Proof.
  unfold aws_call. rewrite io_map_err_ok. unfold ObserveCall.
  destruct (m w) as [[b|e] w1]; intros Hm; injection Hm as ??; subst; eauto; done.
Qed.

(** [read_paged] is sound: what it answers is the fold of a complete chain. *)
Lemma read_paged_ok remaining first token seen s w s' w' :
  read_paged remaining first token seen s w = (Ok s', w') ->
  exists pages, paged_chain token pages /\ fold_pages first pages s = Ok s' /\
    length pages <= remaining /\
    (pc_unique pc = true -> NoDup (paged_tokens pages) /\ forall t, t ∈ paged_tokens pages -> t ∉ seen) /\
    Forall (fun page => pc_valid pc page = Ok tt) pages.
Proof.
  revert first token seen s w. induction remaining as [|remaining IH];
    intros first token seen s w Hr; simpl in Hr; [by inv_io|].
  apply io_bind_ok in Hr as ([] & w1 & _ & Hr).
  apply io_bind_ok in Hr as ([page|] & w2 & (w3 & Hcall)%aws_call_ok & Hr); [|by inv_io].
  apply io_bind_ok in Hr as ([] & w4 & [Hvalid _]%lift_ok & Hr).
  apply io_bind_ok in Hr as ([] & w5 & _ & Hr).
  apply io_bind_ok in Hr as (s1 & w6 & [Hp ->]%lift_ok & Hr).
  case_bool_decide as Htok.
  - apply io_ret_ok in Hr as [-> ->]. exists [page].
    split; [by econstructor|]. split; [simpl; by rewrite Hp|]. split; [simpl; lia|].
    split; [|by constructor].
    unfold paged_tokens. simpl. rewrite Htok. simpl. intros _. split; [constructor|set_solver].
  - destruct (pc_unique pc && bool_decide (ToString (pc_next pc page) ∈ seen)) eqn:Hseen;
      [by inv_io|].
    apply IH in Hr as (pages & Hchain & Hf & Hlen & Hnew & Hall). exists (page :: pages).
    split; [by econstructor|]. split; [simpl; by rewrite Hp|]. split; [simpl; lia|].
    split; [|by constructor]. intros Hu. destruct (Hnew Hu) as [Hnd Hn]. rewrite Hu in Hseen. simpl in Hseen.
    apply bool_decide_eq_false in Hseen. unfold paged_tokens in *. simpl.
    rewrite bool_decide_false by done. simpl. split.
    + constructor; [|done]. intros Hin. apply Hn in Hin. set_solver.
    + intros t [->|Ht]%elem_of_cons; [done|]. apply Hn in Ht. set_solver.
Qed.

(** A property of the state that every page keeps holds at the end. *)
Lemma fold_pages_inv (I : S -> Prop) first pages s s' :
  (forall first page s s', page ∈ pages -> I s -> process first page s = Ok s' -> I s') ->
  I s -> fold_pages first pages s = Ok s' -> I s'.
Proof.
  revert first s. induction pages as [|page pages IH]; simpl; intros first s Hp Hs Hf.
  - by inv_ok; simplify_eq.
  - apply bind_ok in Hf as (s1 & H1 & Hf). eapply IH; [|eapply Hp; [by left|exact Hs|exact H1]|exact Hf].
    intros. eapply Hp; [by right|done..].
Qed.
End Paged.
Arguments PagedCall W Page : clear implicits.
Arguments mkPagedCall {W Page}.

(** Folding pages of items is folding the items. *)
Lemma fold_pages_flat {Page A S} (items : Page -> list A) (add : list A -> S -> res S) first pages s :
  (forall s, add [] s = Ok s) ->
  (forall l k s, add (l ++ k) s = (s1 ← add l s; add k s1)) ->
  fold_pages (fun _ page => add (items page)) first pages s = add (flat_map items pages) s.
Proof.
  intros Hnil Happ. revert first s. induction pages as [|page pages IH]; intros first s; simpl.
  - by rewrite Hnil.
  - rewrite Happ. destruct (add (items page) s); simpl; [apply IH|done].
Qed.
