(* ===== verification/Domain.v ===== *)
(** * Domain values (internal/domain: cost, identity, budget, organization, commitment,
    anomaly, tagcost)

    Money, periods, dimensions, providers and bases with their constructors' checks; the
    records of every business family; and the comparison each [Sort] uses. *)

From S2P Require Import Prelude SliceStable GoStrings GoFloat GoTime Errors.
Local Open Scope string_scope.
Local Open Scope list_scope.

(** ** Money *)

Definition ErrInvalidAmount : error := Sentinel "invalid monetary amount".
Definition ErrEmptyCurrency : error := Sentinel "currency must not be empty".
Definition ErrMismatchedCurrency : error := Sentinel "currency mismatch".

Record Money := mkMoney { amount : float64; currency : string }.

#[export] Instance Money_eq_dec : EqDecision Money.
Proof. solve_decision. Defined.

(** The zero value [Money{}]. *)
Definition Money_zero : Money := mkMoney f0 "".

Definition NewMoney (a : float64) (c : string) : res Money :=
  fail_if nonFinite a with_ ErrInvalidAmount ;;
  let c := TrimSpace c in
  fail_if bool_decide (c = "") with_ ErrEmptyCurrency ;;
  Ok (mkMoney a c).

Definition ParseMoney (a c : string) : res Money :=
  match ParseFloat (TrimSpace a) with
  | None => Err (Wrapped "invalid monetary amount" ErrInvalidAmount)
  | Some value => NewMoney value c
  end.

Definition Money_Add (m other : Money) : res Money :=
  fail_if negb (bool_decide (currency m = currency other)) with_ ErrMismatchedCurrency ;;
  let sum := fadd (amount m) (amount other) in
  fail_if nonFinite sum with_ ErrInvalidAmount ;;
  Ok (mkMoney sum (currency m)).

(** ** Period *)

Definition ErrInvalidPeriod : error := Sentinel "period start must precede end".

Record Period := mkPeriod { Start : Time; End_ : Time }.

#[export] Instance Period_eq_dec : EqDecision Period.
Proof. solve_decision. Defined.

Definition NewPeriod (start end_ : Time) : res Period :=
  fail_if negb (Before start end_) with_ ErrInvalidPeriod ;;
  Ok (mkPeriod start end_).

Definition DayContaining (reference : Time) : Period :=
  let start := Date (Year reference) (Month reference) (Day reference) in
  mkPeriod start (AddDate start 0 0 1).

Definition MonthContaining (reference : Time) : Period :=
  let start := Date (Year reference) (Month reference) 1 in
  mkPeriod start (AddDate start 0 1 0).

(** ** Dimension *)

Definition DimensionKind : Type := string.
Definition DimensionTotal : DimensionKind := "total".
Definition DimensionService : DimensionKind := "service".
Definition DimensionRegion : DimensionKind := "region".
Definition DimensionAccount : DimensionKind := "account".

Definition ErrInvalidDimension : error := Sentinel "invalid cost dimension".

Record Dimension := mkDimension { Kind : DimensionKind; Value : string }.

#[export] Instance Dimension_eq_dec : EqDecision Dimension.
Proof. solve_decision. Defined.

Definition NewDimension (kind : DimensionKind) (value : string) : res Dimension :=
  let value := TrimSpace value in
  if bool_decide (kind = DimensionTotal) then
    fail_if negb (bool_decide (value = ""))
      with_ Wrapped "total must not have a value" ErrInvalidDimension ;;
    Ok (mkDimension kind value)
  else if bool_decide (kind = DimensionRegion) then
    Ok (mkDimension kind (if bool_decide (value = "") then "global" else value))
  else if bool_decide (kind = DimensionService) || bool_decide (kind = DimensionAccount) then
    fail_if bool_decide (value = "") with_ Wrapped "value must not be empty" ErrInvalidDimension ;;
    Ok (mkDimension kind value)
  else Err (Wrapped "unsupported kind" ErrInvalidDimension).

(** ** Provider, Basis, Window *)

Definition Provider : Type := string.
Definition ProviderCostExplorer : Provider := "cost_explorer".
Definition ProviderCURAthena : Provider := "cur_athena".
Definition Provider_Valid (value : Provider) : bool :=
  bool_decide (value = ProviderCostExplorer) || bool_decide (value = ProviderCURAthena).

Definition Basis : Type := string.
Definition BasisUnblended : Basis := "unblended".
Definition BasisAmortized : Basis := "amortized".
Definition BasisNet : Basis := "net".
Definition Basis_Valid (value : Basis) : bool :=
  bool_decide (value = BasisUnblended) || bool_decide (value = BasisAmortized) ||
  bool_decide (value = BasisNet).

Definition Window : Type := string.
Definition WindowDaily : Window := "daily".
Definition WindowMonthToDate : Window := "month_to_date".

(** ** Identity *)

Definition TargetID : Type := string.

Record CollectorID := mkCollectorID { ID_Target : TargetID; ID_Name : string }.

#[export] Instance CollectorID_eq_dec : EqDecision CollectorID.
Proof. solve_decision. Defined.

#[export] Instance CollectorID_countable : Countable CollectorID.
Proof.
  apply (inj_countable' (fun id => (ID_Target id, ID_Name id)) (fun p => mkCollectorID p.1 p.2)).
  by intros [].
Defined.

Definition CollectorID_Valid (id : CollectorID) : bool :=
  bool_decide (TrimSpace (ID_Target id) = ID_Target id) && negb (bool_decide (ID_Target id = "")) &&
  bool_decide (TrimSpace (ID_Name id) = ID_Name id) && negb (bool_decide (ID_Name id = "")).

Definition CollectorID_String (id : CollectorID) : string :=
  String.app (ID_Target id) (String.app "/" (ID_Name id)).

(** ** Records of the business families *)

Record Cost := mkCost {
  CostTarget : TargetID;
  CostProvider : Provider;
  CostBasis : Basis;
  CostWindow : Window;
  CostPeriod : Period;
  CostDimension : Dimension;
  CostAmount : Money
}.

Record Forecast := mkForecast {
  ForecastTarget : TargetID;
  ForecastProvider : Provider;
  ForecastBasis : Basis;
  ForecastPeriod : Period;
  Mean : Money;
  LowerBound : Money;
  UpperBound : Money
}.

Record Budget := mkBudget {
  BudgetTarget : TargetID;
  BudgetName : string;
  BudgetType : string;
  BudgetTimeUnit : string;
  Limit : Money;
  Actual : option Money;      (** [Actual] when [HasActual] *)
  Forecasted : option Money   (** [Forecasted] when [HasForecasted] *)
}.

Record Account := mkAccount {
  AccountTarget : TargetID;
  AccountID : string;
  AccountName : string;
  AccountStatus : string
}.

Definition TypeSavingsPlan : string := "savings_plan".
Definition TypeReservation : string := "reservation".
Definition CommitmentType_Valid (value : string) : bool :=
  bool_decide (value = TypeSavingsPlan) || bool_decide (value = TypeReservation).

(** [commitment.Summary]: a pair of a value and its [Has] flag is an option. *)
Record Commitment := mkCommitment {
  CommitmentTarget : TargetID;
  CommitmentType : string;
  CommitmentTimeUnit : string;
  UtilizationRatio : option float64;
  CoverageRatio : option float64;
  UnusedHours : option float64;
  CoveredSpend : option Money;
  OnDemandCost : option Money;
  NetSavings : option Money
}.

(** [anomaly.Summary]. *)
Record Anomaly := mkAnomaly {
  AnomalyTarget : TargetID;
  Active : bool;
  Count : Z;
  Impact : option Money;
  MaxImpact : option Money;
  LastDetected : Time
}.

(** [tagcost.Cost]. *)
Record TagCost := mkTagCost {
  TagTarget : TargetID;
  TagProvider : Provider;
  TagBasis : Basis;
  TagWindow : Window;
  TagKey : string;
  TagValue : string;
  TagAmount : Money
}.

#[export] Instance Cost_eq_dec : EqDecision Cost.
Proof. solve_decision. Defined.
#[export] Instance Forecast_eq_dec : EqDecision Forecast.
Proof. solve_decision. Defined.
#[export] Instance Budget_eq_dec : EqDecision Budget.
Proof. solve_decision. Defined.
#[export] Instance Account_eq_dec : EqDecision Account.
Proof. solve_decision. Defined.
#[export] Instance Commitment_eq_dec : EqDecision Commitment.
Proof. solve_decision. Defined.
#[export] Instance Anomaly_eq_dec : EqDecision Anomaly.
Proof. solve_decision. Defined.
#[export] Instance TagCost_eq_dec : EqDecision TagCost.
Proof. solve_decision. Defined.

(** ** Comparisons *)

Definition by_string {A} (key : A -> string) := by_key String.ltb key.

Definition costLess : Cost -> Cost -> bool :=
  by_string CostProvider (by_string CostBasis (by_string CostWindow
    (by_string (fun c => Kind (CostDimension c)) (by_string (fun c => Value (CostDimension c))
      (by_string (fun c => currency (CostAmount c))
        (by_key Before (fun c => Start (CostPeriod c)) no_key)))))).

(** [cost.NewSnapshot] and the collectors' cost snapshot sort by [costLess] alone; the
    aggregate snapshot sorts by target first. *)
Definition aggregateCostLess : Cost -> Cost -> bool := by_string CostTarget costLess.

Definition forecastLess : Forecast -> Forecast -> bool :=
  by_string ForecastTarget (by_string ForecastProvider (by_string ForecastBasis
    (by_key Before (fun f => Start (ForecastPeriod f))
      (by_string (fun f => currency (Mean f)) no_key)))).

Definition budgetLess : Budget -> Budget -> bool :=
  by_string BudgetTarget (by_string BudgetName no_key).

Definition accountLess : Account -> Account -> bool :=
  by_string AccountTarget (by_string AccountID no_key).

Definition commitmentLess : Commitment -> Commitment -> bool :=
  by_string CommitmentTarget (by_string CommitmentType (by_string CommitmentTimeUnit no_key)).

Definition anomalyLess : Anomaly -> Anomaly -> bool := by_string AnomalyTarget no_key.

Definition tagLess : TagCost -> TagCost -> bool :=
  by_string TagTarget (by_string TagProvider (by_string TagBasis (by_string TagWindow
    (by_string TagKey (by_string TagValue
      (by_string (fun t => currency (TagAmount t)) no_key)))))).

Definition budget_Sort := SliceStable budgetLess.
Definition organization_Sort := SliceStable accountLess.
Definition commitment_Sort := SliceStable commitmentLess.
Definition anomaly_Sort := SliceStable anomalyLess.
Definition tagcost_Sort := SliceStable tagLess.

(** ** Visitors of the records of a snapshot *)

(** Every record of a family in order; [None] is a nil visitor.  The closures the code passes
    change what they capture: it is the state threaded through. *)
Definition for_each {A State} (visit : option (A -> State -> State)) (items : list A) (s : State) : State :=
  match visit with
  | None => s
  | Some visit => fold_left (fun s item => visit item s) items s
  end.

(** ** cost.Snapshot: the snapshot contract of a single cost collector *)

Record CostSnapshot := mkCostSnapshot { cs_costs : list Cost; cs_forecasts : list Forecast }.

Definition cost_NewSnapshot (costs : list Cost) (forecasts : list Forecast) : CostSnapshot :=
  mkCostSnapshot (SliceStable costLess costs)
    (SliceStable (by_key Before (fun f => Start (ForecastPeriod f)) no_key) forecasts).

Definition cost_MergeSnapshots (parts : list CostSnapshot) : CostSnapshot :=
  cost_NewSnapshot (flat_map cs_costs parts) (flat_map cs_forecasts parts).

Definition cost_ForEachCost {State} (visit : option (Cost -> State -> State)) (snapshot : CostSnapshot) :
    State -> State := for_each visit (cs_costs snapshot).

Definition cost_ForEachForecast {State} (visit : option (Forecast -> State -> State)) (snapshot : CostSnapshot) :
    State -> State := for_each visit (cs_forecasts snapshot).

(** ** Orders *)

#[export] Instance Before_total : StrictTotal Before.
Proof. exact Z_ltb_total. Qed.

#[export] Instance by_string_swo {A} (P : A -> Prop) (key : A -> string) rest :
  StrictWeakOrder P rest -> StrictWeakOrder P (by_string key rest).
Proof. unfold by_string. apply _. Qed.

Ltac solve_swo f := unfold f; apply _.

#[export] Instance costLess_swo : StrictWeakOrder everywhere costLess.
Proof. solve_swo costLess. Qed.
#[export] Instance aggregateCostLess_swo : StrictWeakOrder everywhere aggregateCostLess.
Proof. solve_swo aggregateCostLess. Qed.
#[export] Instance forecastLess_swo : StrictWeakOrder everywhere forecastLess.
Proof. solve_swo forecastLess. Qed.
#[export] Instance budgetLess_swo : StrictWeakOrder everywhere budgetLess.
Proof. solve_swo budgetLess. Qed.
#[export] Instance accountLess_swo : StrictWeakOrder everywhere accountLess.
Proof. solve_swo accountLess. Qed.
#[export] Instance commitmentLess_swo : StrictWeakOrder everywhere commitmentLess.
Proof. solve_swo commitmentLess. Qed.
#[export] Instance anomalyLess_swo : StrictWeakOrder everywhere anomalyLess.
Proof. solve_swo anomalyLess. Qed.
#[export] Instance tagLess_swo : StrictWeakOrder everywhere tagLess.
Proof. solve_swo tagLess. Qed.

(** From two comparisons that both answer no to the equality of every key. *)
Ltac tied_keys Hl Hr :=
  unfold by_string in Hl, Hr;
  repeat lazymatch type of Hl with
  | by_key _ _ _ _ _ = false =>
      let Hk := fresh "Hk" in let Hl' := fresh in let Hr' := fresh in
      destruct (by_key_tied _ _ _ _ _ _ Hl Hr) as [Hk [Hl' Hr']]; clear Hl Hr;
      rename Hl' into Hl; rename Hr' into Hr
  end; clear Hl Hr.

Lemma tied_first_key {A} (key : A -> string) rest x y :
  tied (by_string key rest) x y = true -> key x = key y.
Proof.
  unfold tied. rewrite andb_true_iff, !negb_true_iff. intros [Hl Hr].
  exact (proj1 (by_key_tied _ _ _ _ _ _ Hl Hr)).
Qed.

(** ** Well-formed values *)

(** What the constructors of [Money] and [Dimension] establish. *)
Definition Money_wf (m : Money) : Prop :=
  nonFinite (amount m) = false /\ currency m <> "" /\ TrimSpace (currency m) = currency m.

Definition Dimension_wf (d : Dimension) : Prop :=
  TrimSpace (Value d) = Value d /\
  (Kind d = DimensionTotal /\ Value d = "" \/
   (Kind d = DimensionService \/ Kind d = DimensionRegion \/ Kind d = DimensionAccount) /\
   Value d <> "").

Lemma NewMoney_ok a c m :
  NewMoney a c = Ok m <->
  m = mkMoney a (TrimSpace c) /\ nonFinite a = false /\ TrimSpace c <> "".
Proof.
  unfold NewMoney. rewrite !guard_ok, bool_decide_eq_false. naive_solver.
Qed.

Lemma NewMoney_wf a c m : NewMoney a c = Ok m -> Money_wf m.
Proof. intros (-> & ? & ?)%NewMoney_ok. unfold Money_wf. simpl. by rewrite TrimSpace_idemp. Qed.

Lemma ParseMoney_wf a c m : ParseMoney a c = Ok m -> Money_wf m.
Proof. unfold ParseMoney. destruct (ParseFloat _); [apply NewMoney_wf|done]. Qed.

Lemma Money_Add_ok m n s :
  Money_Add m n = Ok s <->
  s = mkMoney (fadd (amount m) (amount n)) (currency m) /\
  currency m = currency n /\ nonFinite (fadd (amount m) (amount n)) = false.
Proof.
  unfold Money_Add. rewrite !guard_ok, negb_false_iff, bool_decide_eq_true. naive_solver.
Qed.

Lemma Money_Add_wf m n s : Money_wf m -> Money_Add m n = Ok s -> Money_wf s.
Proof. intros (_ & ? & ?) (-> & _ & ?)%Money_Add_ok. done. Qed.

Lemma NewDimension_wf k v d : NewDimension k v = Ok d -> Dimension_wf d.
Proof.
  unfold NewDimension, Dimension_wf. case_bool_decide as Ht.
  { intros H. inv_ok. inv_bool. simpl. rewrite TrimSpace_idemp. auto. }
  case_bool_decide as Hr.
  { intros [= <-]. simpl. case_bool_decide; [|rewrite TrimSpace_idemp; naive_solver].
    split; [done|]. naive_solver. }
  destruct (_ || _) eqn:Hk; [|done]. intros H. inv_ok. inv_bool. simpl.
  rewrite TrimSpace_idemp. split; [done|]. right. split; [|done].
  apply orb_prop in Hk as [Hk|Hk]; apply bool_decide_eq_true in Hk; auto.
Qed.
Create HintDb domain.
#[export] Hint Resolve NewMoney_wf ParseMoney_wf Money_Add_wf NewDimension_wf : domain.

(** A well-formed dimension is rebuilt unchanged from its parts. *)
Lemma NewDimension_roundtrip d : Dimension_wf d -> NewDimension (Kind d) (Value d) = Ok d.
Proof.
  destruct d as [k v]. intros [Ht H]. simpl in *. unfold NewDimension. rewrite Ht.
  destruct H as [[-> ->]|[[->|[->| ->]] Hv]]; simpl; try done;
    rewrite ?bool_decide_false by done; done.
Qed.

(** ** Periods *)

Lemma DayContaining_eq t :
  DayContaining t = mkPeriod (t / day_ns * day_ns)%Z (t / day_ns * day_ns + day_ns)%Z.
Proof.
  unfold DayContaining. rewrite Date_of_Time, AddDate_days. done.
Qed.

Lemma MonthContaining_eq t :
  MonthContaining t =
  mkPeriod (Date (Year t) (Month t) 1)
    (Date (Year t) (Month t) 1 + days_in (Month t) (Year t) * day_ns)%Z.
Proof.
  unfold MonthContaining. destruct (civil_of_Time t) as (Hm & _). by rewrite AddDate_month.
Qed.

Lemma Month_start_day t :
  (Date (Year t) (Month t) 1 + (Day t - 1) * day_ns = t / day_ns * day_ns)%Z.
Proof.
  rewrite <- Date_of_Time. destruct (civil_of_Time t) as (Hm & _).
  rewrite !Date_valid, (days_of_civil_day _ _ (Day t)) by done. lia.
Qed.

Lemma Month_start_fields t :
  Day (Start (MonthContaining t)) = 1%Z /\ Month (Start (MonthContaining t)) = Month t.
Proof.
  rewrite MonthContaining_eq. cbn [Start]. destruct (civil_of_Time t) as (Hm & Hd & _).
  destruct (Date_fields (Year t) (Month t) 1 Hm ltac:(lia)) as (_ & ? & ? & _). done.
Qed.

(** The month holds the day, and the day holds the instant. *)
Lemma periods_nested t :
  (Start (MonthContaining t) <= Start (DayContaining t) /\
   Start (DayContaining t) <= t < End_ (DayContaining t) /\
   End_ (DayContaining t) <= End_ (MonthContaining t) /\
   End_ (DayContaining t) = Start (DayContaining t) + day_ns)%Z.
Proof.
  rewrite (DayContaining_eq t), (MonthContaining_eq t). cbn [Start End_].
  destruct (civil_of_Time t) as (Hm & Hd & _).
  pose proof (Month_start_day t). pose proof (midnight_bounds t).
  assert (0 < day_ns)%Z by done. repeat split; try nia.
Qed.
