(* ===== verification/Snapshot.v ===== *)
(** * The aggregate snapshot (internal/domain/snapshot)

    The seven record families of a snapshot, the sorted copies [NewWithData] makes, [Merge],
    the series count, and the two validations a partial snapshot passes before publication. *)

From S2P Require Import Prelude SliceStable GoStrings GoFloat GoTime Errors Domain.
Local Open Scope string_scope.
Local Open Scope list_scope.

Definition ErrInvalidSnapshot : error := Sentinel "invalid aggregate snapshot".

Record Snapshot := mkSnapshot {
  costs : list Cost;
  forecasts : list Forecast;
  budgets : list Budget;
  accounts : list Account;
  commitments : list Commitment;
  anomalies : list Anomaly;
  tagCosts : list TagCost
}.

#[export] Instance Snapshot_eq_dec : EqDecision Snapshot.
Proof. solve_decision. Defined.

(** [Snapshot{}]. *)
Definition Snapshot_empty : Snapshot := mkSnapshot [] [] [] [] [] [] [].

Definition NewWithData (cs : list Cost) (fs : list Forecast) (bs : list Budget)
    (accs : list Account) (cms : list Commitment) (ans : list Anomaly) (tags : list TagCost) :
    Snapshot :=
  mkSnapshot (SliceStable aggregateCostLess cs) (SliceStable forecastLess fs) (budget_Sort bs)
    (organization_Sort accs) (commitment_Sort cms) (anomaly_Sort ans) (tagcost_Sort tags).

Definition snapshot_New (cs : list Cost) (fs : list Forecast) (bs : list Budget)
    (accs : list Account) : Snapshot := NewWithData cs fs bs accs [] [] [].

Definition Merge (parts : list Snapshot) : Snapshot :=
  NewWithData (flat_map costs parts) (flat_map forecasts parts) (flat_map budgets parts)
    (flat_map accounts parts) (flat_map commitments parts) (flat_map anomalies parts)
    (flat_map tagCosts parts).

(** ** Visitors *)

Section Visitors.
Context {State : Type}.

Definition ForEachCost (visit : option (Cost -> State -> State)) (value : Snapshot) : State -> State :=
  for_each visit (costs value).
Definition ForEachForecast (visit : option (Forecast -> State -> State)) (value : Snapshot) : State -> State :=
  for_each visit (forecasts value).
Definition ForEachBudget (visit : option (Budget -> State -> State)) (value : Snapshot) : State -> State :=
  for_each visit (budgets value).
Definition ForEachAccount (visit : option (Account -> State -> State)) (value : Snapshot) : State -> State :=
  for_each visit (accounts value).
Definition ForEachCommitment (visit : option (Commitment -> State -> State)) (value : Snapshot) : State -> State :=
  for_each visit (commitments value).
Definition ForEachAnomaly (visit : option (Anomaly -> State -> State)) (value : Snapshot) : State -> State :=
  for_each visit (anomalies value).
Definition ForEachTagCost (visit : option (TagCost -> State -> State)) (value : Snapshot) : State -> State :=
  for_each visit (tagCosts value).
End Visitors.

(** ** The series count *)

(** [if has { count++ }]. *)
Definition has {A} (o : option A) : nat := match o with Some _ => 1 | None => 0 end.

Definition commitment_series (item : Commitment) : nat :=
  has (UtilizationRatio item) + has (CoverageRatio item) + has (UnusedHours item) +
  has (CoveredSpend item) + has (OnDemandCost item) + has (NetSavings item).

Definition anomaly_series (item : Anomaly) : nat :=
  2 + has (Impact item) + (if IsZero (LastDetected item) then 0 else 1).

Definition budget_series (item : Budget) : nat := 1 + has (Actual item) + has (Forecasted item).

Definition SeriesCount (value : Snapshot) : nat :=
  length (costs value) + 3 * length (forecasts value) + length (accounts value) +
  length (tagCosts value) + sum_list_with commitment_series (commitments value) +
  sum_list_with anomaly_series (anomalies value) + sum_list_with budget_series (budgets value).

(** ** Validation *)

Definition identity_valid (provider : Provider) (basis : Basis) : bool :=
  Provider_Valid provider && Basis_Valid basis.

Definition ValidatePartial (value : Snapshot) (target : TargetID) : res unit :=
  let owned (t : TargetID) := bool_decide (t = target) in
  let valid :=
    forallb (fun i => owned (CostTarget i) && identity_valid (CostProvider i) (CostBasis i))
      (costs value) &&
    forallb (fun i => owned (ForecastTarget i) &&
      identity_valid (ForecastProvider i) (ForecastBasis i)) (forecasts value) &&
    forallb (fun i => owned (BudgetTarget i)) (budgets value) &&
    forallb (fun i => owned (AccountTarget i)) (accounts value) &&
    forallb (fun i => owned (CommitmentTarget i)) (commitments value) &&
    forallb (fun i => owned (AnomalyTarget i)) (anomalies value) &&
    forallb (fun i => owned (TagTarget i) && identity_valid (TagProvider i) (TagBasis i))
      (tagCosts value) in
  fail_if negb valid
    with_ Wrapped "target, provider, or cost basis mismatch" ErrInvalidSnapshot ;;
  Ok tt.

(** The closure state of [ValidateUnique]: the [valid] flag and the [seen] map. *)
Definition Seen : Type := bool * gset string.

(** [valid = valid && add(key)]: [add] runs only while [valid] holds. *)
Definition try_add (st : Seen) (key : string) : Seen :=
  let '(valid, seen) := st in
  if valid then
    if decide (key ∈ seen) then (false, seen) else (true, {[ key ]} ∪ seen)
  else (false, seen).

Definition add_some {A} (st : Seen) (o : option A) (key : A -> string) : Seen :=
  match o with Some a => try_add st (key a) | None => st end.

Definition cost_key (item : Cost) : string :=
  pipe ["cost"; CostTarget item; CostProvider item; CostBasis item; CostWindow item;
        Kind (CostDimension item); Value (CostDimension item); currency (CostAmount item)].

Definition forecast_key (item : Forecast) : string :=
  pipe ["forecast"; ForecastTarget item; ForecastProvider item; ForecastBasis item;
        currency (Mean item)].

Definition account_key (item : Account) : string :=
  pipe ["account"; AccountTarget item; AccountID item; AccountName item; AccountStatus item].

Definition tag_key (item : TagCost) : string :=
  pipe ["tag"; TagTarget item; TagProvider item; TagBasis item; TagWindow item; TagKey item;
        TagValue item; currency (TagAmount item)].

Definition budget_prefix (item : Budget) : string :=
  String.app
    (pipe ["budget"; BudgetTarget item; BudgetName item; BudgetType item; BudgetTimeUnit item])
    "|".

Definition add_budget (st : Seen) (item : Budget) : Seen :=
  let key suffix (m : Money) := String.app (budget_prefix item) (String.app suffix (currency m)) in
  let st := try_add st (key "limit|" (Limit item)) in
  let st := add_some st (Actual item) (key "actual|") in
  add_some st (Forecasted item) (key "forecasted|").

Definition commitment_prefix (item : Commitment) : string :=
  String.app
    (pipe ["commitment"; CommitmentTarget item; CommitmentType item; CommitmentTimeUnit item]) "|".

Definition add_commitment (st : Seen) (item : Commitment) : Seen :=
  let ratio suffix (_ : float64) := String.app (commitment_prefix item) suffix in
  let key suffix (m : Money) :=
    String.app (commitment_prefix item) (String.app suffix (currency m)) in
  let st := add_some st (UtilizationRatio item) (ratio "utilization") in
  let st := add_some st (CoverageRatio item) (ratio "coverage") in
  let st := add_some st (UnusedHours item) (ratio "unused_hours") in
  let st := add_some st (CoveredSpend item) (key "covered_spend|") in
  let st := add_some st (OnDemandCost item) (key "on_demand_cost|") in
  add_some st (NetSavings item) (key "net_savings|").

Definition anomaly_prefix (item : Anomaly) : string :=
  String.app (pipe ["anomaly"; AnomalyTarget item]) "|".

Definition add_anomaly (st : Seen) (item : Anomaly) : Seen :=
  let st := fold_left (fun st suffix => try_add st (String.app (anomaly_prefix item) suffix))
    ["active"; "count"; "last_detected"] st in
  add_some st (Impact item)
    (fun m => String.app (anomaly_prefix item) (String.app "impact|" (currency m))).

Definition valid_identities (value : Snapshot) : bool :=
  forallb (fun i => identity_valid (CostProvider i) (CostBasis i)) (costs value) &&
  forallb (fun i => identity_valid (ForecastProvider i) (ForecastBasis i)) (forecasts value) &&
  forallb (fun i => identity_valid (TagProvider i) (TagBasis i)) (tagCosts value).

Definition ValidateUnique (value : Snapshot) : res unit :=
  fail_if negb (valid_identities value)
    with_ Wrapped "invalid provider or cost basis" ErrInvalidSnapshot ;;
  let st := (true, ∅) in
  let st := fold_left (fun st i => try_add st (cost_key i)) (costs value) st in
  let st := fold_left (fun st i => try_add st (forecast_key i)) (forecasts value) st in
  let st := fold_left add_budget (budgets value) st in
  let st := fold_left (fun st i => try_add st (account_key i)) (accounts value) st in
  let st := fold_left (fun st i => try_add st (tag_key i)) (tagCosts value) st in
  let st := fold_left add_commitment (commitments value) st in
  let st := fold_left add_anomaly (anomalies value) st in
  fail_if negb (fst st) with_ Wrapped "duplicate metric label set" ErrInvalidSnapshot ;;
  Ok tt.

(** ** The keys as lists *)

Definition opt_key {A} (o : option A) (key : A -> string) : list string :=
  match o with Some a => [key a] | None => [] end.

Definition budget_keys (item : Budget) : list string :=
  let key suffix (m : Money) := String.app (budget_prefix item) (String.app suffix (currency m)) in
  key "limit|" (Limit item) :: opt_key (Actual item) (key "actual|") ++
  opt_key (Forecasted item) (key "forecasted|").

Definition commitment_keys (item : Commitment) : list string :=
  let ratio suffix (_ : float64) := String.app (commitment_prefix item) suffix in
  let key suffix (m : Money) :=
    String.app (commitment_prefix item) (String.app suffix (currency m)) in
  opt_key (UtilizationRatio item) (ratio "utilization") ++
  opt_key (CoverageRatio item) (ratio "coverage") ++
  opt_key (UnusedHours item) (ratio "unused_hours") ++
  opt_key (CoveredSpend item) (key "covered_spend|") ++
  opt_key (OnDemandCost item) (key "on_demand_cost|") ++
  opt_key (NetSavings item) (key "net_savings|").

Definition anomaly_keys (item : Anomaly) : list string :=
  map (String.app (anomaly_prefix item)) ["active"; "count"; "last_detected"] ++
  opt_key (Impact item)
    (fun m => String.app (anomaly_prefix item) (String.app "impact|" (currency m))).

(** Every key [ValidateUnique] adds, in the order it adds them. *)
Definition snapshot_keys (value : Snapshot) : list string :=
  map cost_key (costs value) ++ map forecast_key (forecasts value) ++
  flat_map budget_keys (budgets value) ++ map account_key (accounts value) ++
  map tag_key (tagCosts value) ++ flat_map commitment_keys (commitments value) ++
  flat_map anomaly_keys (anomalies value).

Definition add_keys (keys : list string) (st : Seen) : Seen := fold_left try_add keys st.

Lemma add_keys_app k1 k2 st : add_keys (k1 ++ k2) st = add_keys k2 (add_keys k1 st).
Proof. apply fold_left_app. Qed.

Lemma add_some_keys {A} st (o : option A) key :
  add_some st o key = add_keys (opt_key o key) st.
Proof. by destruct o. Qed.

Lemma fold_add_keys {A} (f : Seen -> A -> Seen) (keys : A -> list string) l st :
  (forall st a, f st a = add_keys (keys a) st) ->
  fold_left f l st = add_keys (flat_map keys l) st.
Proof.
  intros Hf. revert st. induction l as [|a l IH]; intros st; simpl; [done|].
  by rewrite add_keys_app, Hf, IH.
Qed.

Lemma fold_add_key {A} (key : A -> string) l st :
  fold_left (fun st a => try_add st (key a)) l st = add_keys (map key l) st.
Proof. revert st. induction l as [|a l IH]; intros st; simpl; [done|]. apply IH. Qed.

Lemma add_budget_keys st item : add_budget st item = add_keys (budget_keys item) st.
Proof.
  unfold add_budget, budget_keys. rewrite !add_some_keys, <- !add_keys_app. done.
Qed.

Lemma add_commitment_keys st item : add_commitment st item = add_keys (commitment_keys item) st.
Proof.
  unfold add_commitment, commitment_keys. by rewrite !add_some_keys, !add_keys_app.
Qed.

Lemma add_anomaly_keys st item : add_anomaly st item = add_keys (anomaly_keys item) st.
Proof. unfold add_anomaly, anomaly_keys. by rewrite add_some_keys, add_keys_app. Qed.

(** The flag survives exactly when every key is new. *)
Lemma add_keys_valid keys seen :
  fst (add_keys keys (true, seen)) = true <-> NoDup keys /\ forall k, k ∈ keys -> k ∉ seen.
Proof.
  assert (Hfalse : forall keys seen, fst (add_keys keys (false, seen)) = false)
    by (clear; intros keys; induction keys as [|k keys IH]; intros seen; [done|apply IH]).
  revert seen. induction keys as [|k keys IH]; intros seen; simpl.
  { split; [intros _|done]. split; [constructor|set_solver]. }
  destruct (decide (k ∈ seen)) as [Hin|Hin].
  - unfold add_keys in Hfalse |- *. rewrite Hfalse. split; [done|]. set_solver.
  - rewrite IH, NoDup_cons. set_solver.
Qed.

Lemma ValidateUnique_ok value :
  ValidateUnique value = Ok tt <-> valid_identities value = true /\ NoDup (snapshot_keys value).
Proof.
  unfold ValidateUnique. rewrite !guard_ok, !negb_false_iff.
  rewrite !fold_add_key, (fold_add_keys _ _ _ _ add_budget_keys),
    (fold_add_keys _ _ _ _ add_commitment_keys), (fold_add_keys _ _ _ _ add_anomaly_keys).
  rewrite <- !add_keys_app, add_keys_valid.
  fold (snapshot_keys value). set_solver.
Qed.

Lemma ValidateUnique_err value e :
  ValidateUnique value = Err e -> Is ErrInvalidSnapshot e = true.
Proof.
  unfold ValidateUnique. destruct (negb _); [intros [= <-]; done|]. simpl.
  destruct (negb _); [intros [= <-]; done|done].
Qed.

(** ** Contents and order *)

Lemma NewWithData_perm cs fs bs accs cms ans tags :
  let s := NewWithData cs fs bs accs cms ans tags in
  costs s ≡ₚ cs /\ forecasts s ≡ₚ fs /\ budgets s ≡ₚ bs /\ accounts s ≡ₚ accs /\
  commitments s ≡ₚ cms /\ anomalies s ≡ₚ ans /\ tagCosts s ≡ₚ tags.
Proof. simpl. repeat split; apply SliceStable_perm. Qed.

Lemma Merge_perm parts :
  costs (Merge parts) ≡ₚ flat_map costs parts /\
  forecasts (Merge parts) ≡ₚ flat_map forecasts parts /\
  budgets (Merge parts) ≡ₚ flat_map budgets parts /\
  accounts (Merge parts) ≡ₚ flat_map accounts parts /\
  commitments (Merge parts) ≡ₚ flat_map commitments parts /\
  anomalies (Merge parts) ≡ₚ flat_map anomalies parts /\
  tagCosts (Merge parts) ≡ₚ flat_map tagCosts parts.
Proof. apply NewWithData_perm. Qed.

Lemma sum_list_with_flat_map {A B} (f : A -> nat) (g : B -> list A) l :
  sum_list_with f (flat_map g l) = sum_list_with (fun b => sum_list_with f (g b)) l.
Proof. induction l as [|b l IH]; simpl; [done|]. by rewrite sum_list_with_app, IH. Qed.

Lemma sum_list_with_ext {A} (f g : A -> nat) l :
  (forall a, f a = g a) -> sum_list_with f l = sum_list_with g l.
Proof. intros H. induction l; simpl; congruence. Qed.

Lemma SeriesCount_Merge_sum parts : SeriesCount (Merge parts) = sum_list_with SeriesCount parts.
Proof.
  unfold SeriesCount at 1.
  destruct (Merge_perm parts) as (-> & -> & Hb & -> & Hc & Ha & ->).
  rewrite (sum_list_with_perm _ _ _ Hb), (sum_list_with_perm _ _ _ Hc),
    (sum_list_with_perm _ _ _ Ha), !sum_list_with_flat_map, !length_flat_map_sum.
  clear. induction parts as [|p parts IH]; simpl; [done|]. rewrite <- IH.
  unfold SeriesCount. lia.
Qed.

(** The snapshots the constructors build: every family in its order. *)
Definition snapshot_sorted (s : Snapshot) : Prop :=
  s = NewWithData (costs s) (forecasts s) (budgets s) (accounts s) (commitments s)
        (anomalies s) (tagCosts s).

Lemma NewWithData_sorted cs fs bs accs cms ans tags :
  snapshot_sorted (NewWithData cs fs bs accs cms ans tags).
Proof.
  unfold snapshot_sorted, NewWithData. simpl.
  unfold budget_Sort, organization_Sort, commitment_Sort, anomaly_Sort, tagcost_Sort.
  f_equal; symmetry; apply (SliceStable_idemp everywhere); auto with typeclass_instances.
Qed.

Lemma Merge_singleton s : snapshot_sorted s -> Merge [s] = s.
Proof. intros Hs. unfold Merge. simpl. rewrite !app_nil_r. by symmetry. Qed.

(** ** The order of the parts *)

(** The records of one target come from at most one of the parts. *)
Definition one_source {A} (family : Snapshot -> list A) (target : A -> TargetID)
    (parts : list Snapshot) : Prop :=
  ForallOrdPairs (fun p q => forall a b, a ∈ family p -> b ∈ family q -> target a <> target b)
    parts.

Lemma one_source_sort {A} (family : Snapshot -> list A) (target : A -> TargetID) rest parts parts' :
  StrictWeakOrder everywhere rest -> parts ≡ₚ parts' -> one_source family target parts ->
  SliceStable (by_string target rest) (flat_map family parts) =
  SliceStable (by_string target rest) (flat_map family parts').
Proof.
  intros Hrest Hp Hone.
  apply (SliceStable_parts everywhere (by_string target rest)); [done|done|].
  clear Hp. unfold one_source in Hone. induction Hone as [|p l Hl Hone IH]; constructor; [|done].
  eapply Forall_impl; [exact Hl|]. intros q Hq x y Hx Hy.
  destruct (tied (by_string target rest) x y) eqn:E; [|done]. destruct (Hq x y Hx Hy).
  by apply (tied_first_key target rest).
Qed.

(** Families whose sort key determines the metric key: a duplicate-free snapshot has no ties. *)
Lemma keyed_sort {A} (family : Snapshot -> list A) (less : A -> A -> bool) (key : A -> string)
    parts parts' :
  StrictWeakOrder everywhere less -> parts ≡ₚ parts' ->
  (forall x y, less x y = false -> less y x = false -> key x = key y) ->
  NoDup (map key (flat_map family parts)) ->
  SliceStable less (flat_map family parts) = SliceStable less (flat_map family parts').
Proof.
  intros Hswo Hp Hkey Hnd.
  apply (SliceStable_deterministic everywhere less); [done|by apply flat_map_perm|].
  intros x y Hx Hy Hl Hr. apply (NoDup_map_inj key _ x y Hnd); auto.
Qed.

Lemma cost_tied_key x y :
  aggregateCostLess x y = false -> aggregateCostLess y x = false -> cost_key x = cost_key y.
Proof.
  unfold aggregateCostLess, costLess. intros Hl Hr. tied_keys Hl Hr.
  unfold cost_key. congruence.
Qed.

Lemma forecast_tied_key x y :
  forecastLess x y = false -> forecastLess y x = false -> forecast_key x = forecast_key y.
Proof.
  unfold forecastLess. intros Hl Hr. tied_keys Hl Hr. unfold forecast_key. congruence.
Qed.

Lemma tag_tied_key x y : tagLess x y = false -> tagLess y x = false -> tag_key x = tag_key y.
Proof. unfold tagLess. intros Hl Hr. tied_keys Hl Hr. unfold tag_key. congruence. Qed.

Definition active_key (item : Anomaly) : string := String.app (anomaly_prefix item) "active".

Lemma anomaly_tied_key x y :
  anomalyLess x y = false -> anomalyLess y x = false -> active_key x = active_key y.
Proof.
  unfold anomalyLess. intros Hl Hr. tied_keys Hl Hr. unfold active_key, anomaly_prefix. congruence.
Qed.

Lemma NoDup_app_l {A} (l k : list A) : NoDup (l ++ k) -> NoDup l.
Proof. by intros (? & _ & _)%NoDup_app. Qed.

Lemma NoDup_app_r {A} (l k : list A) : NoDup (l ++ k) -> NoDup k.
Proof. by intros (_ & _ & ?)%NoDup_app. Qed.

(** The keys of each family of a validated snapshot are duplicate-free. *)
Lemma snapshot_keys_NoDup s :
  NoDup (snapshot_keys s) ->
  NoDup (map cost_key (costs s)) /\ NoDup (map forecast_key (forecasts s)) /\
  NoDup (flat_map budget_keys (budgets s)) /\ NoDup (map account_key (accounts s)) /\
  NoDup (map tag_key (tagCosts s)) /\ NoDup (flat_map commitment_keys (commitments s)) /\
  NoDup (flat_map anomaly_keys (anomalies s)).
Proof.
  unfold snapshot_keys. intros H. repeat split; repeat
    (eapply NoDup_app_l; exact H) || (apply NoDup_app_r in H; try exact H).
Qed.

Lemma anomaly_active_NoDup l : NoDup (flat_map anomaly_keys l) -> NoDup (map active_key l).
Proof.
  intros H. rewrite <- flat_map_map_singleton. apply (NoDup_flat_map_transfer _ _ _ H).
  - intros x _. apply NoDup_singleton.
  - intros x y c _ _ Hx%list_elem_of_singleton Hy%list_elem_of_singleton. exists c.
    unfold anomaly_keys. subst. split; [by left|]. rewrite Hy. by left.
Qed.

Lemma Merge_order_unique parts parts' :
  parts ≡ₚ parts' ->
  ValidateUnique (Merge parts) = Ok tt ->
  one_source budgets BudgetTarget parts ->
  one_source accounts AccountTarget parts ->
  one_source commitments CommitmentTarget parts ->
  Merge parts = Merge parts'.
Proof.
  intros Hp [_ Hnd]%ValidateUnique_ok Hb Ha Hc.
  apply snapshot_keys_NoDup in Hnd as (Hcost & Hfc & _ & _ & Htag & _ & Han).
  apply anomaly_active_NoDup in Han.
  destruct (Merge_perm parts) as (Pc & Pf & _ & _ & _ & Pa & Pt).
  rewrite Pc in Hcost. rewrite Pf in Hfc. rewrite Pa in Han. rewrite Pt in Htag.
  unfold Merge, NewWithData. f_equal.
  - by apply (keyed_sort _ _ cost_key); [apply _|..|apply cost_tied_key|].
  - by apply (keyed_sort _ _ forecast_key); [apply _|..|apply forecast_tied_key|].
  - by apply (one_source_sort _ BudgetTarget); [apply _|..].
  - by apply (one_source_sort _ AccountTarget); [apply _|..].
  - by apply (one_source_sort _ CommitmentTarget); [apply _|..].
  - by apply (keyed_sort _ _ active_key); [apply _|..|apply anomaly_tied_key|].
  - by apply (keyed_sort _ _ tag_key); [apply _|..|apply tag_tied_key|].
Qed.

(** The verdict of [ValidateUnique] in one expression. *)
Lemma ValidateUnique_eq value :
  ValidateUnique value =
  if valid_identities value then
    if bool_decide (NoDup (snapshot_keys value)) then Ok tt
    else Err (Wrapped "duplicate metric label set" ErrInvalidSnapshot)
  else Err (Wrapped "invalid provider or cost basis" ErrInvalidSnapshot).
Proof.
  pose proof (ValidateUnique_ok value) as Hok. unfold ValidateUnique in Hok |- *.
  destruct (valid_identities value); simpl in Hok |- *; [|done].
  destruct (fst _); simpl in Hok |- *.
  - rewrite bool_decide_true; naive_solver.
  - rewrite bool_decide_false; naive_solver.
Qed.

Lemma forallb_perm {A} (f : A -> bool) l l' : l ≡ₚ l' -> forallb f l = forallb f l'.
Proof.
  intros Hp. apply eq_bool_prop_intro. rewrite !Is_true_true, !forallb_elem_of.
  by setoid_rewrite Hp.
Qed.

Lemma Merge_families parts parts' :
  parts ≡ₚ parts' ->
  let m := Merge parts in let m' := Merge parts' in
  costs m ≡ₚ costs m' /\ forecasts m ≡ₚ forecasts m' /\ budgets m ≡ₚ budgets m' /\
  accounts m ≡ₚ accounts m' /\ commitments m ≡ₚ commitments m' /\
  anomalies m ≡ₚ anomalies m' /\ tagCosts m ≡ₚ tagCosts m'.
Proof.
  intros Hp m m'. subst m m'. destruct (Merge_perm parts) as (-> & -> & -> & -> & -> & -> & ->).
  destruct (Merge_perm parts') as (-> & -> & -> & -> & -> & -> & ->).
  repeat split; by apply flat_map_perm.
Qed.

Lemma ValidateUnique_parts parts parts' :
  parts ≡ₚ parts' -> ValidateUnique (Merge parts) = ValidateUnique (Merge parts').
Proof.
  intros Hp. rewrite !ValidateUnique_eq.
  destruct (Merge_families parts parts' Hp) as (Hc & Hf & Hb & Ha & Hm & Hn & Ht).
  assert (valid_identities (Merge parts) = valid_identities (Merge parts')) as ->.
  { unfold valid_identities. by rewrite (forallb_perm _ _ _ Hc), (forallb_perm _ _ _ Hf),
      (forallb_perm _ _ _ Ht). }
  assert (snapshot_keys (Merge parts) ≡ₚ snapshot_keys (Merge parts')) as Hk.
  { unfold snapshot_keys. repeat apply Permutation_app;
      first [apply Permutation_map; assumption | apply flat_map_perm; assumption]. }
  destruct (valid_identities _); [|done].
  by rewrite (bool_decide_ext _ (NoDup (snapshot_keys (Merge parts')))) by by rewrite Hk.
Qed.

Lemma ValidatePartial_ok value target :
  ValidatePartial value target = Ok tt <->
  valid_identities value = true /\
  (forall i, i ∈ costs value -> CostTarget i = target) /\
  (forall i, i ∈ forecasts value -> ForecastTarget i = target) /\
  (forall i, i ∈ budgets value -> BudgetTarget i = target) /\
  (forall i, i ∈ accounts value -> AccountTarget i = target) /\
  (forall i, i ∈ commitments value -> CommitmentTarget i = target) /\
  (forall i, i ∈ anomalies value -> AnomalyTarget i = target) /\
  (forall i, i ∈ tagCosts value -> TagTarget i = target).
Proof.
  unfold ValidatePartial, valid_identities.
  rewrite guard_ok, negb_false_iff, !forallb_and, !andb_true_iff, !forallb_decide.
  clear. intuition.
Qed.

(** ** Properties *)

(** [ValidateUnique] accepts a snapshot exactly when every provider and basis is
    valid and no two published series share a key; it answers only with [ErrInvalidSnapshot]. *)
Theorem ValidateUnique_spec value :
  (ValidateUnique value = Ok tt <->
   valid_identities value = true /\ NoDup (snapshot_keys value)) /\
  (ValidateUnique value = Ok tt \/
   exists e, ValidateUnique value = Err e /\ Is ErrInvalidSnapshot e = true).
Proof.
  split; [apply ValidateUnique_ok|]. destruct (ValidateUnique value) as [[]|e] eqn:E; [by left|].
  right. exists e. by split; [|apply (ValidateUnique_err value)].
Qed.

(** [ValidatePartial] accepts a partial exactly when every record of its seven
    families is owned by the target and its cost records carry a valid provider and basis. *)
Theorem ValidatePartial_spec value target :
  ValidatePartial value target = Ok tt <->
  valid_identities value = true /\
  (forall i, i ∈ costs value -> CostTarget i = target) /\
  (forall i, i ∈ forecasts value -> ForecastTarget i = target) /\
  (forall i, i ∈ budgets value -> BudgetTarget i = target) /\
  (forall i, i ∈ accounts value -> AccountTarget i = target) /\
  (forall i, i ∈ commitments value -> CommitmentTarget i = target) /\
  (forall i, i ∈ anomalies value -> AnomalyTarget i = target) /\
  (forall i, i ∈ tagCosts value -> TagTarget i = target).
Proof. apply ValidatePartial_ok. Qed.

(** merging does not depend on the order of the parts (the store ranges over a
    map), provided the merged snapshot passes [ValidateUnique] and the budgets, accounts and
    commitments of one target come from a single part. *)
Theorem Merge_order_irrelevant parts parts' :
  parts ≡ₚ parts' ->
  ValidateUnique (Merge parts) = Ok tt ->
  one_source budgets BudgetTarget parts ->
  one_source accounts AccountTarget parts ->
  one_source commitments CommitmentTarget parts ->
  Merge parts = Merge parts'.
Proof. apply Merge_order_unique. Qed.

(** the series of a merged snapshot are the series of its parts. *)
Theorem SeriesCount_Merge parts : SeriesCount (Merge parts) = sum_list_with SeriesCount parts.
Proof. apply SeriesCount_Merge_sum. Qed.

(** ** A concrete run *)

Definition usd (z : Z) : Money := mkMoney (f64_of_Z z) "USD".
Definition sample_period : Period := DayContaining (Date 2026 7 20).

Definition sample_cost (target : TargetID) (kind : DimensionKind) (value : string) : Cost :=
  mkCost target ProviderCostExplorer BasisUnblended WindowDaily sample_period
    (mkDimension kind value) (usd 12).

Definition sample_tag (key value : string) : TagCost :=
  mkTagCost "prod" ProviderCostExplorer BasisUnblended WindowDaily key value (usd 4).

Definition sample_part1 : Snapshot :=
  NewWithData
    [sample_cost "prod" DimensionService "AmazonS3"; sample_cost "prod" DimensionTotal "";
     sample_cost "prod" DimensionAccount "111122223333"]
    [mkForecast "prod" ProviderCostExplorer BasisNet sample_period (usd 20) (usd 10) (usd 30)]
    [mkBudget "prod" "all" "COST" "MONTHLY" (usd 100) (Some (usd 40)) None] [] [] [] [].

Definition sample_part2 : Snapshot :=
  NewWithData [sample_cost "dev" DimensionTotal ""] [] []
    [mkAccount "prod" "111122223333" "main" "ACTIVE"]
    [mkCommitment "prod" TypeSavingsPlan "DAILY" (Some (f64_of_Z 1)) None None (Some (usd 3)) None
       None]
    [mkAnomaly "prod" true 2 (Some (usd 5)) None (Date 2026 7 19)]
    [sample_tag "team" "core"; sample_tag "team" "web"].

Lemma sample_one_source {A} (family : Snapshot -> list A) (target : A -> TargetID) :
  family sample_part1 = [] \/ family sample_part2 = [] ->
  one_source family target [sample_part1; sample_part2].
Proof.
  intros H. repeat constructor. intros a b Ha Hb.
  destruct H as [H|H]; rewrite H in *; set_solver.
Qed.

Lemma Merge_order_irrelevant_witness :
  [sample_part1; sample_part2] ≡ₚ [sample_part2; sample_part1] /\
  Merge [sample_part1; sample_part2] = Merge [sample_part2; sample_part1].
Proof.
  assert (Hp : [sample_part1; sample_part2] ≡ₚ [sample_part2; sample_part1])
    by apply Permutation_swap.
  split; [done|]. apply (Merge_order_irrelevant _ _ Hp).
  - vm_compute; reflexivity.
  - apply sample_one_source. by right.
  - apply sample_one_source. by left.
  - apply sample_one_source. by left.
Defined.
