(* ===== verification/SliceHeap.v ===== *)
(** * The storage of snapshots (internal/domain/snapshot/snapshot.go)

    Go slices over shared arrays: [append] writes in place where there is room, and a sort is in
    place.  One family of records is modelled, with its comparison; arrays of different record
    types are different memory, so a snapshot is seven of these.  The rest of the development
    takes slices as values: the theorem here is why it may. *)

From S2P Require Import Prelude SliceStable Domain Snapshot.
Local Open Scope list_scope.

Set Default Proof Using "Type".

(** ** Slices *)

Section Slices.
(** The zero value of a record, the room [append] leaves when it allocates, and the comparison
    the family is sorted with. *)
Context {A : Type} (zero : A) (grow : nat -> nat) (less : A -> A -> bool).

(** Arrays by address; a slice is an array and a length, or nil. *)
Abbreviation Heap := (gmap nat (list A)).
Abbreviation Slice := (option (nat * nat)).

Definition contents (h : Heap) (s : Slice) : list A :=
  match s with Some (a, n) => take n (default [] (h !! a)) | None => [] end.

(** The element at an index of a range over the slice. *)
Definition element (h : Heap) (s : Slice) (i : nat) : option A := contents h s !! i.

Definition new_array (l : list A) (h : Heap) : nat * Heap := let a := fresh (dom h) in (a, <[ a := l ]> h).

(** [append(s, v)]. *)
Definition append (s : Slice) (v : A) (h : Heap) : Slice * Heap :=
  let grown :=
    let old := contents h s in
    let '(a, h) := new_array (old ++ v :: replicate (grow (length old)) zero) h in
    (Some (a, S (length old)), h) in
  match s with
  | Some (a, n) =>
      match h !! a with
      | Some l => if n <? length l then (Some (a, S n), <[ a := <[ n := v ]> l ]> h) else grown
      | None => grown
      end
  | None => grown
  end.

(** [append([]T(nil), s...)]. *)
Definition copy (s : Slice) (h : Heap) : Slice * Heap :=
  match contents h s with
  | [] => (None, h)
  | l => let '(a, h) := new_array (l ++ replicate (grow (length l)) zero) h in (Some (a, length l), h)
  end.

(** [sort.SliceStable]. *)
Definition sort_slice (s : Slice) (h : Heap) : Heap :=
  match s with
  | Some (a, n) => alter (fun l => SliceStable less (take n l) ++ drop n l) a h
  | None => h
  end.

(** A family of [NewWithData]. *)
Definition new_family (s : Slice) (h : Heap) : Slice * Heap :=
  let '(s, h) := copy s h in (s, sort_slice s h).

(** [part.ForEach(func(value) { values = append(values, value) })]: [n] elements from [i] on. *)
Fixpoint append_each (part : Slice) (i n : nat) (values : Slice) (h : Heap) : Slice * Heap :=
  match n with
  | O => (values, h)
  | S n =>
      match element h part i with
      | Some v => let '(values, h) := append values v h in append_each part (S i) n values h
      | None => (values, h)
      end
  end.

(** A family of [Merge]: nil to start with. *)
Fixpoint append_parts (parts : list Slice) (values : Slice) (h : Heap) : Slice * Heap :=
  match parts with
  | [] => (values, h)
  | part :: parts =>
      let '(values, h) := append_each part 0 (length (contents h part)) values h in
      append_parts parts values h
  end.

Definition merge_family (parts : list Slice) (h : Heap) : Slice * Heap :=
  let '(values, h) := append_parts parts None h in new_family values h.

(** ** What the operations write *)

Definition wf (h : Heap) (s : Slice) : Prop :=
  match s with Some (a, n) => exists l, h !! a = Some l /\ n <= length l | None => True end.

(** The arrays of a heap as they were. *)
Definition extends (h h' : Heap) : Prop := forall a l, h !! a = Some l -> h' !! a = Some l.

(** A slice of an array that an earlier heap does not have. *)
Definition since (h0 : Heap) (s : Slice) : Prop := match s with Some (a, _) => h0 !! a = None | None => True end.

#[export] Instance extends_preorder : PreOrder extends.
Proof. split; [by intros h a l|]. intros h1 h2 h3 H12 H23 a l Hl. auto. Qed.

Lemma extends_contents h h' s : extends h h' -> wf h s -> contents h' s = contents h s /\ wf h' s.
Proof.
  intros He. destruct s as [[a n]|]; cbn; [|done]. intros (l & Hl & Hn). rewrite Hl, (He a l Hl). split; [done|eauto].
Qed.

Lemma new_array_spec l h : let '(a, h') := new_array l h in h !! a = None /\ h' = <[ a := l ]> h /\ extends h h'.
Proof.
  unfold new_array. assert (Hn : h !! fresh (dom h) = None) by (apply not_elem_of_dom, is_fresh).
  split; [done|]. split; [done|]. intros a l' Hl. rewrite lookup_insert_ne; [done|]. intros <-. congruence.
Qed.

Lemma contents_length h s n a : s = Some (a, n) -> wf h s -> length (contents h s) = n.
Proof. intros -> (l & Hl & Hn). cbn. rewrite Hl, length_take. cbn. lia. Qed.

(** [append] to a slice made since [h0] writes nothing of [h0]. *)
Lemma append_spec h0 h s v s' h' :
  append s v h = (s', h') -> extends h0 h -> since h0 s -> wf h s ->
  extends h0 h' /\ since h0 s' /\ wf h' s' /\ contents h' s' = contents h s ++ [v].
Proof.
  intros Happ He Hs Hwf. unfold append in Happ.
  set (old := contents h s) in *. pose proof (new_array_spec (old ++ v :: replicate (grow (length old)) zero) h) as Hnew.
  destruct (new_array _ h) as [b h1]. destruct Hnew as (Hb & -> & Hext).
  assert (Hgrown : (s', h') = (Some (b, S (length old)), <[ b := old ++ v :: replicate (grow (length old)) zero ]> h) ->
    extends h0 h' /\ since h0 s' /\ wf h' s' /\ contents h' s' = old ++ [v]).
  { intros [= -> ->]. split; [by etrans|]. split; [|split]; cbn.
    - destruct (h0 !! b) eqn:E; [|done]. apply He in E. congruence.
    - eexists. rewrite lookup_insert_eq. split; [done|]. rewrite length_app. cbn. lia.
    - rewrite lookup_insert_eq. cbn. rewrite (cons_middle v), app_assoc, take_app_le, take_ge; [done| |];
        rewrite length_app; cbn; lia. }
  destruct s as [[a n]|]; [|by apply Hgrown]. destruct Hwf as (l & Hl & Hn). rewrite Hl in Happ.
  destruct (Nat.ltb_spec n (length l)) as [Hlt|_]; [|by apply Hgrown]. injection Happ as <- <-. cbn in Hs. subst old. cbn.
  rewrite Hl. cbn. split; [|split; [done|split]].
  - intros c l' Hc. rewrite lookup_insert_ne; [by apply He|]. intros <-. congruence.
  - eexists. rewrite lookup_insert_eq. split; [done|]. rewrite length_insert. lia.
  - rewrite lookup_insert_eq. cbn. rewrite (take_S_r _ _ v) by (by apply list_lookup_insert_eq).
    by rewrite take_insert_ge.
Qed.

Lemma copy_spec h s s' h' :
  copy s h = (s', h') -> extends h h' /\ since h s' /\ wf h' s' /\ contents h' s' = contents h s.
Proof.
  unfold copy. destruct (contents h s) as [|v l] eqn:Hc; [by intros [= <- <-]|].
  pose proof (new_array_spec ((v :: l) ++ replicate (grow (length (v :: l))) zero) h) as Hnew.
  destruct (new_array _ h) as [a h1]. destruct Hnew as (Ha & -> & He). intros [= <- <-]. split; [done|].
  split; [done|]. split; cbn.
  - eexists. rewrite lookup_insert_eq. split; [done|]. cbn. rewrite length_app. lia.
  - rewrite lookup_insert_eq. cbn. by rewrite take_app_length.
Qed.

(** A sort writes the array of its slice only. *)
Lemma sort_spec h0 h s :
  extends h0 h -> since h0 s -> wf h s ->
  extends h0 (sort_slice s h) /\ wf (sort_slice s h) s /\
  contents (sort_slice s h) s = SliceStable less (contents h s).
Proof.
  intros He Hs Hwf. destruct s as [[a n]|]; [|done]. destruct Hwf as (l & Hl & Hn). cbn in *. rewrite Hl. cbn.
  assert (Hlen : length (SliceStable less (take n l)) = n) by (rewrite SliceStable_length, length_take; lia).
  split; [|split].
  - intros b l' Hb. rewrite lookup_alter_ne; [by apply He|]. intros <-. congruence.
  - eexists. rewrite lookup_alter_eq, Hl. split; [done|]. rewrite length_app, Hlen. lia.
  - rewrite lookup_alter_eq, Hl. cbn. rewrite take_app_le by lia. rewrite take_ge; [done|lia].
Qed.

Lemma new_family_spec h0 h s s' h' :
  new_family s h = (s', h') -> extends h0 h ->
  extends h0 h' /\ since h0 s' /\ wf h' s' /\ contents h' s' = SliceStable less (contents h s).
Proof.
  unfold new_family. destruct (copy s h) as [c h1] eqn:Hc. intros [= <- <-] He.
  apply copy_spec in Hc as (He1 & Hs & Hwf & Hl). rewrite <- Hl.
  assert (Hs0 : since h0 c).
  { destruct c as [[a n]|]; [|done]. cbn in *. destruct (h0 !! a) eqn:E; [|done]. apply He in E. congruence. }
  destruct (sort_spec h0 h1 c) as (? & ? & ?); [by etrans|done|done|]. done.
Qed.

(** The loop over a part that was there before, appending to a slice that was not. *)
Lemma append_each_spec h0 part : wf h0 part -> forall n i values h values' h',
  append_each part i n values h = (values', h') -> i + n = length (contents h0 part) ->
  extends h0 h -> since h0 values -> wf h values ->
  extends h0 h' /\ since h0 values' /\ wf h' values' /\
  contents h' values' = contents h values ++ drop i (contents h0 part).
Proof.
  intros Hpart n. induction n as [|n IH]; intros i values h values' h' Hrun Hi He Hs Hwf; cbn [append_each] in Hrun.
  - injection Hrun as <- <-. rewrite drop_ge by lia. by rewrite app_nil_r.
  - destruct (extends_contents h0 h part He Hpart) as [Hc _]. unfold element in Hrun. rewrite Hc in Hrun.
    destruct (contents h0 part !! i) as [v|] eqn:Hv; [|apply lookup_ge_None in Hv; lia].
    destruct (append values v h) as [values1 h1] eqn:Happ.
    destruct (append_spec h0 h values v values1 h1 Happ He Hs Hwf) as (He1 & Hs1 & Hwf1 & Hl1).
    destruct (IH (S i) values1 h1 values' h' Hrun) as (He2 & Hs2 & Hwf2 & Hl2); [lia|done..|].
    split; [done|]. split; [done|]. split; [done|]. rewrite Hl2, Hl1, <- app_assoc. f_equal. symmetry. by apply drop_S.
Qed.

Lemma append_parts_spec h0 parts : Forall (wf h0) parts -> forall values h values' h',
  append_parts parts values h = (values', h') -> extends h0 h -> since h0 values -> wf h values ->
  extends h0 h' /\ since h0 values' /\ wf h' values' /\
  contents h' values' = contents h values ++ flat_map (contents h0) parts.
Proof.
  induction 1 as [|part parts Hpart _ IH]; intros values h values' h' Hrun He Hs Hwf; cbn [append_parts flat_map] in *.
  - injection Hrun as <- <-. by rewrite app_nil_r.
  - destruct (append_each _ _ _ values h) as [values1 h1] eqn:Heach.
    pose proof (proj1 (extends_contents h0 h part He Hpart)) as Hc. rewrite Hc in Heach.
    destruct (append_each_spec h0 part Hpart _ _ _ _ _ _ Heach) as (He1 & Hs1 & Hwf1 & Hl1); [done..|].
    destruct (IH values1 h1 values' h' Hrun) as (He2 & Hs2 & Hwf2 & Hl2); [done..|].
    split; [done|]. split; [done|]. split; [done|]. by rewrite Hl2, Hl1, drop_0, app_assoc.
Qed.

Lemma merge_family_spec h parts s' h' :
  merge_family parts h = (s', h') -> Forall (wf h) parts ->
  extends h h' /\ since h s' /\ wf h' s' /\ contents h' s' = SliceStable less (flat_map (contents h) parts).
Proof.
  unfold merge_family. intros Hrun Hparts. destruct (append_parts parts None h) as [values h1] eqn:Hp.
  destruct (append_parts_spec h parts Hparts _ _ _ _ Hp) as (He & Hs & Hwf & Hl); [done..|].
  destruct (new_family_spec h _ _ _ _ Hrun He) as (? & ? & ? & Hn). rewrite Hn, Hl. done.
Qed.

(** ** Snapshots in a shared memory *)

(** The slices snapshots hold, with what they held when the snapshot was made, and the arrays
    that others than the snapshot package can write. *)
Record Memory := mkMemory { mem : Heap; held : list (Slice * list A); shared : gset nat }.

(** What the program does: makes slices, writes them, makes a snapshot of one, merges the
    snapshots there are, and asks a snapshot for a copy. *)
Inductive memory_step (σ : Memory) : Memory -> Prop :=
| makes_slice l a h : new_array l (mem σ) = (a, h) ->
    memory_step σ (mkMemory h (held σ) ({[ a ]} ∪ shared σ))
| writes_slice a l l' : a ∈ shared σ -> mem σ !! a = Some l -> length l' = length l ->
    memory_step σ (mkMemory (<[ a := l' ]> (mem σ)) (held σ) (shared σ))
| makes_snapshot s c h : wf (mem σ) s -> new_family s (mem σ) = (c, h) ->
    memory_step σ (mkMemory h ((c, contents h c) :: held σ) (shared σ))
| merges_snapshots parts c h : Forall (fun part => part ∈ (held σ).*1) parts ->
    merge_family parts (mem σ) = (c, h) ->
    memory_step σ (mkMemory h ((c, contents h c) :: held σ) (shared σ))
| copies_snapshot s l c h : (s, l) ∈ held σ -> copy s (mem σ) = (c, h) ->
    memory_step σ (mkMemory h (held σ) (match c with Some (a, _) => {[ a ]} ∪ shared σ | None => shared σ end)).

Definition memory_reachable (σ : Memory) : Prop := rtc memory_step (mkMemory ∅ [] ∅) σ.

(** The slice of a snapshot, what it holds, and that nobody else can write it. *)
Definition holds (σ : Memory) (s : Slice) (l : list A) : Prop :=
  wf (mem σ) s /\ contents (mem σ) s = l /\ match s with Some (a, _) => a ∉ shared σ | None => True end.

Definition MemInv (σ : Memory) : Prop :=
  (forall s l, (s, l) ∈ held σ -> holds σ s l) /\ forall a, a ∈ shared σ -> is_Some (mem σ !! a).

(** A step that adds arrays keeps what snapshots hold, if it shares new arrays only. *)
Lemma holds_extends σ h held' shared' s l :
  extends (mem σ) h -> (forall a, a ∈ shared' -> a ∈ shared σ \/ mem σ !! a = None) -> holds σ s l ->
  holds (mkMemory h held' shared') s l.
Proof.
  intros He Hshared (Hwf & Hc & Hown). destruct (extends_contents _ _ _ He Hwf) as [Hc' Hwf'].
  split; [done|]. split; [by rewrite <- Hc|]. destruct s as [[a n]|]; [|done]. destruct Hwf as (la & Ha & _).
  intros [Hin|Hnone]%Hshared; [by apply Hown|congruence].
Qed.

Lemma MemInv_extends σ h held' shared' :
  MemInv σ -> extends (mem σ) h -> (forall a, a ∈ shared' -> a ∈ shared σ \/ mem σ !! a = None /\ is_Some (h !! a)) ->
  (forall s l, (s, l) ∈ held' -> (s, l) ∈ held σ \/ holds (mkMemory h held' shared') s l) ->
  MemInv (mkMemory h held' shared').
Proof.
  clear zero grow less. intros [Hheld Hsh] He Hshared Hnew. split.
  - intros s l [Hin|Hh]%Hnew; [|done]. apply (holds_extends σ); [done|naive_solver|by apply Hheld].
  - intros a [Hin|[_ Ha]]%Hshared; [|done]. destruct (Hsh a Hin) as [l Hl]. exists l. by apply He.
Qed.

(** A new snapshot is in arrays nobody else has. *)
Lemma holds_new σ c h :
  MemInv σ -> since (mem σ) c -> wf h c -> holds (mkMemory h ((c, contents h c) :: held σ) (shared σ)) c (contents h c).
Proof.
  intros [_ Hsh] Hs Hwf. split; [done|]. split; [done|]. destruct c as [[a n]|]; [|done]. intros Hin.
  destruct (Hsh a Hin) as [l Hl]. cbn in Hs. congruence.
Qed.

Lemma MemInv_step σ σ' : MemInv σ -> memory_step σ σ' -> MemInv σ'.
Proof.
  intros Hinv [l a h Hn|a l l' Ha Hl Hlen|s c h Hwf Hn|parts c h Hparts Hm|s l c h Hin Hc].
  - pose proof (new_array_spec l (mem σ)) as Hspec. rewrite Hn in Hspec. destruct Hspec as (Ha & Hh & He).
    apply (MemInv_extends σ); [done|done| |auto]. intros b [->%elem_of_singleton|Hb]%elem_of_union; [right|by left].
    split; [done|]. rewrite Hh, lookup_insert_eq. eauto.
  - destruct Hinv as [Hheld Hsh]. split.
    + intros s k Hs. destruct (Hheld s k Hs) as (Hwf & Hc & Hown). unfold holds. cbn.
      destruct s as [[b n]|]; [|done]. assert (Hne : a <> b) by (intros ->; by apply Hown).
      cbn in *. by rewrite lookup_insert_ne.
    + intros b Hb. cbn. destruct (decide (a = b)) as [<-|Hne]; [rewrite lookup_insert_eq; eauto|].
      rewrite lookup_insert_ne by done. by apply Hsh.
  - destruct (new_family_spec (mem σ) (mem σ) s c h Hn) as (He & Hs & Hwf' & _); [done|].
    apply (MemInv_extends σ); [done|done|auto|]. intros s' l' [[= -> ->]|Hold]%elem_of_cons; [right; by apply holds_new|by left].
  - assert (Hall : Forall (wf (mem σ)) parts).
    { eapply Forall_impl; [exact Hparts|]. intros part ([s' l'] & -> & Hin)%list_elem_of_fmap. by apply Hinv in Hin as [? _]. }
    destruct (merge_family_spec (mem σ) parts c h Hm Hall) as (He & Hs & Hwf' & _).
    apply (MemInv_extends σ); [done|done|auto|]. intros s' l' [[= -> ->]|Hold]%elem_of_cons; [right; by apply holds_new|by left].
  - apply copy_spec in Hc as (He & Hs & Hwf & _). apply (MemInv_extends σ); [done|done| |auto].
    intros b Hb. destruct c as [[a n]|]; [|by left]. apply elem_of_union in Hb as [->%elem_of_singleton|Hb]; [right|by left].
    destruct Hwf as (k & Hk & _). eauto.
Qed.

Lemma reachable_MemInv σ : memory_reachable σ -> MemInv σ.
Proof.
  assert (Hinit : MemInv (mkMemory ∅ [] ∅)) by (split; set_solver).
  unfold memory_reachable. intros Hr. revert Hinit. induction Hr; [done|]. intros Hinv. apply IHHr. by eapply MemInv_step.
Qed.

Lemma steps_held σ σ' s : rtc memory_step σ σ' -> s ∈ held σ -> s ∈ held σ'.
Proof. induction 1 as [|σ σ1 σ' Hstep _ IH]; [done|]. intros Hs. apply IH. destruct Hstep; cbn; try done; by right. Qed.

(** C22: snapshots are immutable, though they are slices in shared memory.  Whatever the program
    does after one was made (collectors writing the slices they gave, callers writing the copies
    they got, other snapshots and merges being made), it holds the records it held; a snapshot
    holds the sorted records of the slice it was made of, and a merge those of its parts, one
    after the other: what [NewWithData] and [Merge] are as functions of values. *)
Theorem snapshots_immutable σ σ' :
  memory_reachable σ -> rtc memory_step σ σ' ->
  (forall s l, (s, l) ∈ held σ -> contents (mem σ') s = l) /\
  (forall s c h, wf (mem σ) s -> new_family s (mem σ) = (c, h) -> contents h c = SliceStable less (contents (mem σ) s)) /\
  (forall parts c h, Forall (fun part => part ∈ (held σ).*1) parts -> merge_family parts (mem σ) = (c, h) ->
     contents h c = SliceStable less (flat_map (contents (mem σ)) parts)).
Proof.
  intros Hr Hrun. pose proof (reachable_MemInv σ Hr) as [Hheld _]. split; [|split].
  - intros s l Hin. assert (Hr' : memory_reachable σ') by (unfold memory_reachable in *; by etrans).
    apply reachable_MemInv in Hr' as [Hheld' _]. by apply (steps_held σ σ' (s, l)), Hheld' in Hin as (_ & Hc & _).
  - intros s c h _ Hn. by destruct (new_family_spec (mem σ) (mem σ) s c h Hn) as (_ & _ & _ & Hc).
  - intros parts c h Hparts Hm. destruct (merge_family_spec (mem σ) parts c h Hm) as (_ & _ & _ & Hc); [|done].
    eapply Forall_impl; [exact Hparts|]. intros part ([s' l'] & -> & Hin)%list_elem_of_fmap. by apply Hheld in Hin as [? _].
Qed.
End Slices.

(** ** A collector that reuses its slice *)

Local Open Scope string_scope.
Local Open Scope list_scope.

Definition no_account : Account := mkAccount "" "" "" "".
Definition account_a : Account := mkAccount "prod" "111122223333" "a" "ACTIVE".
Definition account_b : Account := mkAccount "prod" "444455556666" "b" "ACTIVE".

Definition given : nat * gmap nat (list Account) := new_array [account_b; account_a] ∅.
Definition made : option (nat * nat) * gmap nat (list Account) :=
  new_family no_account (fun n => n) accountLess (Some (given.1, 2)) given.2.

(** The snapshot is made; then the collector overwrites its slice. *)
Definition memory_made : Memory := mkMemory made.2 [(made.1, contents made.2 made.1)] ({[ given.1 ]} ∪ ∅).
Definition memory_reused : Memory :=
  mkMemory (<[ given.1 := [account_b; account_b] ]> made.2) [(made.1, contents made.2 made.1)] ({[ given.1 ]} ∪ ∅).

Lemma memory_made_reachable : memory_reachable no_account (fun n => n) accountLess memory_made.
Proof.
  unfold memory_reachable. set (σ := mkMemory given.2 [] ({[ given.1 ]} ∪ ∅)).
  apply (rtc_l _ _ σ); [exact (makes_slice _ _ _ (mkMemory ∅ [] ∅) _ given.1 given.2 (surjective_pairing given))|].
  apply rtc_once. refine (makes_snapshot _ _ _ σ (Some (given.1, 2)) made.1 made.2 _ (surjective_pairing made)).
  exists [account_b; account_a]. split; [vm_compute; reflexivity|cbn; lia].
Qed.

Lemma memory_reused_step : rtc (memory_step no_account (fun n => n) accountLess) memory_made memory_reused.
Proof.
  apply rtc_once. refine (writes_slice _ _ _ memory_made given.1 [account_b; account_a] [account_b; account_b] _ _ eq_refl);
    [|vm_compute; reflexivity].
  cbn [shared memory_made]. set_solver.
Qed.

Lemma snapshots_immutable_witness :
  contents (mem memory_reused) made.1 = [account_a; account_b] /\
  contents (mem memory_reused) (Some (given.1, 2)) = [account_b; account_b].
Proof.
  split; [|vm_compute; reflexivity].
  apply (snapshots_immutable no_account (fun n => n) accountLess memory_made memory_reused memory_made_reachable
    memory_reused_step).
  vm_compute. left.
Defined.
