(* ===== verification/Cardinality.v ===== *)
(** * Cardinality limits (internal/collector/cardinality.go, internal/collector/tag)

    [LimitDimensions] and [LimitValues] keep the largest values of a query and fold the rest
    into one overflow value.  Both rank by amount, largest first, and break ties by name.  The
    overflow counts reported to the observers are returned next to the result, one entry per
    observer. *)

From S2P Require Import Prelude SliceStable GoStrings GoFloat GoTime Errors Domain.
Local Open Scope string_scope.
Local Open Scope list_scope.

Definition ErrInvalidSeriesLimit : error := Sentinel "dimension series limit must be positive".
Definition ErrMixedCurrency : error := Sentinel "dimension overflow contains mixed currencies".
Definition ErrReservedDimension : error := Sentinel "reserved dimension value".
Definition ErrInvalidCostIdentity : error := Sentinel "invalid cost provider or basis".
Definition ErrInvalidOverflowLabel : error := Sentinel "overflow label must not be empty".

Definition DefaultOverflowLabel : string := "__other__".

(** A result with the overflow events reported on the way. *)
Definition events : Type := list (string * Z).

(** [amount] descending, then [name] ascending. *)
Definition rankLess {A} (value : A -> float64) (name : A -> string) (left right : A) : bool :=
  if negb (feqb (value left) (value right)) then fltb (value right) (value left)
  else String.ltb (name left) (name right).

Definition costRank : Cost -> Cost -> bool :=
  rankLess (fun c => amount (CostAmount c)) (fun c => Value (CostDimension c)).

(** [total += value.Amount.Amount()] over a slice. *)
Definition sum_amounts {A} (value : A -> float64) (l : list A) : float64 :=
  fold_left (fun total x => fadd total (value x)) l f0.

(** [append(ranked[:keep:keep], overflow)] after the loop over [ranked[keep:]]; the slice is
    longer than [limit], so [ranked[keep]] exists. *)
Definition limitDimensionGroup (values : list Cost) (limit : Z) (other : string) (observers : nat) :
    res (list Cost) * events :=
  if (Z.of_nat (length values) <=? limit)%Z then (Ok values, []) else
  let ranked := SliceStable costRank values in
  let keep := Z.to_nat (limit - 1) in
  match drop keep ranked with
  | [] => (Ok ranked, [])
  | (first :: _) as tail =>
      let cur := currency (CostAmount first) in
      if negb (forallb (fun v => bool_decide (currency (CostAmount v) = cur)) tail)
      then (Err ErrMixedCurrency, []) else
      match NewMoney (sum_amounts (fun v => amount (CostAmount v)) tail) cur with
      | Err err => (Err (Wrapped "aggregate dimension overflow" err), [])
      | Ok amt =>
          match NewDimension (Kind (CostDimension first)) other with
          | Err err => (Err (Wrapped "construct overflow dimension" err), [])
          | Ok dimension =>
              let overflow := mkCost (CostTarget first) (CostProvider first) (CostBasis first)
                (CostWindow first) (CostPeriod first) dimension amt in
              (Ok (take keep ranked ++ [overflow]),
               repeat (Kind dimension, (Z.of_nat (length values) - Z.of_nat keep)%Z) observers)
          end
      end
  end.

Definition group_of (value : Cost) : string :=
  String.app (CostProvider value) (String.String "000" (CostBasis value)).

(** The loop that checks the values and groups them; the values of a group keep their order. *)
Fixpoint check_values (values : list Cost) (other : string) : res unit :=
  match values with
  | [] => Ok tt
  | value :: values =>
      fail_if negb (Provider_Valid (CostProvider value)) || negb (Basis_Valid (CostBasis value))
        with_ ErrInvalidCostIdentity ;;
      fail_if bool_decide (Value (CostDimension value) = other) with_ ErrReservedDimension ;;
      check_values values other
  end.

(** The group names, sorted: [sort.Strings] of the map's keys. *)
Definition group_keys (values : list Cost) : list string :=
  SliceStable String.ltb (remove_dups (map group_of values)).

Definition group_values (key : string) (values : list Cost) : list Cost :=
  List.filter (fun v => bool_decide (group_of v = key)) values.

Fixpoint limit_groups (keys : list string) (values : list Cost) (limit : Z) (other : string)
    (observers : nat) : res (list Cost) * events :=
  match keys with
  | [] => (Ok [], [])
  | key :: keys =>
      match limitDimensionGroup (group_values key values) limit other observers with
      | (Err err, evs) => (Err err, evs)
      | (Ok bounded, evs) =>
          match limit_groups keys values limit other observers with
          | (Err err, evs') => (Err err, evs ++ evs')
          | (Ok rest, evs') => (Ok (bounded ++ rest), evs ++ evs')
          end
      end
  end.

Definition LimitDimensions (values : list Cost) (limit : Z) (other : string) (observers : nat) :
    res (list Cost) * events :=
  if (limit <=? 0)%Z then (Err ErrInvalidSeriesLimit, []) else
  let other := TrimSpace other in
  if bool_decide (other = "") then (Err ErrInvalidOverflowLabel, []) else
  match check_values values other with
  | Err err => (Err err, [])
  | Ok _ =>
      if (1 <? length (group_keys values))%nat
      then limit_groups (group_keys values) values limit other observers
      else limitDimensionGroup values limit other observers
  end.

(** ** Tag values (internal/collector/tag) *)

Definition tagRank : TagCost -> TagCost -> bool :=
  rankLess (fun t => amount (TagAmount t)) TagValue.

(** The checks on each value folded into the overflow, in the order the loop makes them. *)
Fixpoint check_tags (current : TagCost) (tail : list TagCost) : res unit :=
  match tail with
  | [] => Ok tt
  | item :: tail =>
      fail_if negb (bool_decide (currency (TagAmount item) = currency (TagAmount current)))
        with_ ErrorString "tag values contain mixed currencies" ;;
      fail_if negb (bool_decide (TagProvider item = TagProvider current)) ||
              negb (bool_decide (TagBasis item = TagBasis current)) ||
              negb (bool_decide (TagWindow item = TagWindow current)) ||
              negb (bool_decide (TagKey item = TagKey current))
        with_ ErrorString "tag values cross aggregation boundaries" ;;
      check_tags current tail
  end.

Definition LimitValues (values : list TagCost) (limit : Z) (overflow : string) (observers : nat) :
    res (list TagCost) * events :=
  if (Z.of_nat (length values) <=? limit)%Z then (Ok values, []) else
  let ranked := SliceStable tagRank values in
  if (limit - 1 <? 0)%Z then (Err (ErrorString "tag max values must be positive"), []) else
  let keep := Z.to_nat (limit - 1) in
  match drop keep ranked with
  | [] => (Ok ranked, [])
  | (current :: _) as tail =>
      match check_tags current tail with
      | Err err => (Err err, [])
      | Ok _ =>
          match NewMoney (sum_amounts (fun v => amount (TagAmount v)) tail)
                  (currency (TagAmount current)) with
          | Err err => (Err err, [])
          | Ok amt =>
              (Ok (take keep ranked ++
                   [mkTagCost (TagTarget current) (TagProvider current) (TagBasis current)
                      (TagWindow current) (TagKey current) overflow amt]),
               repeat ("tag", (Z.of_nat (length values) - Z.of_nat keep)%Z) observers)
          end
      end
  end.

(** ** The ranking *)

Definition finite {A} (value : A -> float64) (x : A) : Prop := nonFinite (value x) = false.

#[export] Instance rankLess_swo {A} (value : A -> float64) (name : A -> string) :
  StrictWeakOrder (finite value) (rankLess value name).
Proof.
  assert (Hdec : forall a b, Decision (rank_lt a b)) by (intros; unfold rank_lt; apply _).
  assert (Hlt : StrictTotal (fun a b => bool_decide (rank_lt b a))).
  { split.
    - intros x. apply bool_decide_eq_false. unfold rank_lt. lia.
    - intros x y z. rewrite !bool_decide_eq_true. unfold rank_lt. lia.
    - intros x y Hne. rewrite !bool_decide_eq_true.
      destruct (rank_lt_total x y Hne); auto. }
  assert (Heq : forall x y, finite value x -> finite value y ->
    rankLess value name x y =
    by_key (fun a b => bool_decide (rank_lt b a)) (fun x => float_rank (value x))
      (by_key String.ltb name no_key) x y).
  { intros x y [Hx _]%nonFinite_false [Hy _]%nonFinite_false. unfold rankLess, by_key.
    destruct (feqb (value x) (value y)) eqn:E; simpl.
    - apply feqb_rank in E; [|done|done]. rewrite bool_decide_true by done.
      case_bool_decide as Hn; [by rewrite Hn, st_irrefl|done].
    - rewrite bool_decide_false by (rewrite <- feqb_rank by done; congruence).
      apply eq_bool_prop_intro. rewrite !Is_true_true, bool_decide_eq_true. by apply fltb_rank. }
  pose proof (by_key_swo (finite value) _ (fun x => float_rank (value x)) (by_key String.ltb name no_key)
    Hlt _) as [Hi Ht Hn].
  split; intros *; intros; rewrite Heq in * by done; eauto.
Qed.

Lemma rankLess_le {A} (value : A -> float64) (name : A -> string) k d :
  finite value k -> finite value d -> rankLess value name d k = false ->
  fleb (value d) (value k) = true.
Proof.
  intros [Hk _]%nonFinite_false [Hd _]%nonFinite_false. unfold rankLess.
  rewrite fleb_rank by done. destruct (feqb (value d) (value k)) eqn:E; simpl.
  - apply feqb_rank in E; [|done|done]. rewrite E. unfold rank_lt. lia.
  - intros Hf Hlt. rewrite <- fltb_rank in Hlt by done. congruence.
Qed.

Lemma elem_of_drop_list {A} k (l : list A) x : x ∈ drop k l -> x ∈ l.
Proof. rewrite <- (take_drop k l) at 2. rewrite elem_of_app. by right. Qed.

Lemma elem_of_take_list {A} k (l : list A) x : x ∈ take k l -> x ∈ l.
Proof. rewrite <- (take_drop k l) at 2. rewrite elem_of_app. by left. Qed.

Lemma StronglySorted_split {A} (R : A -> A -> Prop) l k x y :
  StronglySorted R l -> x ∈ take k l -> y ∈ drop k l -> R x y.
Proof.
  intros Hs. revert k. induction Hs as [|z l Hs IH Hz]; intros [|k] Hx Hy; simpl in *; try set_solver.
  apply elem_of_cons in Hx as [->|Hx]; [|by apply (IH k)].
  rewrite Forall_forall in Hz. apply Hz. by eapply elem_of_drop_list, Hy.
Qed.

(** Ranking splits the values into a kept part, none of which is smaller than a dropped one. *)
Lemma rank_split {A} (value : A -> float64) (name : A -> string) values keep :
  Forall (finite value) values ->
  let ranked := SliceStable (rankLess value name) values in
  take keep ranked ++ drop keep ranked ≡ₚ values /\
  forall k d, k ∈ take keep ranked -> d ∈ drop keep ranked -> fleb (value d) (value k) = true.
Proof.
  intros Hfin ranked. split; [rewrite take_drop; apply SliceStable_perm|].
  assert (Hr : forall x, x ∈ ranked -> finite value x).
  { intros x Hx. unfold ranked in Hx. rewrite elem_of_SliceStable in Hx.
    rewrite Forall_forall in Hfin. by apply Hfin. }
  intros k d Hk Hd. apply (rankLess_le value name).
  - apply Hr. by eapply elem_of_take_list, Hk.
  - apply Hr. by eapply elem_of_drop_list, Hd.
  - by apply (StronglySorted_split _ _ keep k d
      (SliceStable_sorted (finite value) (rankLess value name) values Hfin)).
Qed.

(** ** One group of costs *)

(** The overflow cost: the first dropped cost with its value and amount replaced. *)
Definition overflow_cost (first : Cost) (other : string) (total : float64) : Cost :=
  mkCost (CostTarget first) (CostProvider first) (CostBasis first) (CostWindow first)
    (CostPeriod first) (mkDimension (Kind (CostDimension first)) other)
    (mkMoney total (currency (CostAmount first))).

(** [values] limited to [r]: unchanged when they fit, or else the [limit - 1] largest and one
    overflow cost that carries the sum of all others, which share its currency. *)
Definition bounded_group (values r : list Cost) (limit : Z) (other : string) : Prop :=
  (Z.of_nat (length values) <= limit)%Z /\ r = values \/
  (limit < Z.of_nat (length values))%Z /\
  exists kept first rest,
    let dropped := first :: rest in
    r = kept ++ [overflow_cost first other (sum_amounts (fun v => amount (CostAmount v)) dropped)] /\
    nonFinite (sum_amounts (fun v => amount (CostAmount v)) dropped) = false /\
    Z.of_nat (length kept) = (limit - 1)%Z /\ kept ++ dropped ≡ₚ values /\
    (forall k d, k ∈ kept -> d ∈ dropped ->
       fleb (amount (CostAmount d)) (amount (CostAmount k)) = true) /\
    forall d, d ∈ dropped -> currency (CostAmount d) = currency (CostAmount first).

Lemma NewDimension_kind k v d :
  NewDimension k v = Ok d -> TrimSpace v = v -> v <> "" -> d = mkDimension k v.
Proof.
  unfold NewDimension. intros H Ht Hv. rewrite Ht in H.
  case_bool_decide; [inv_ok; by inv_bool|].
  case_bool_decide; [rewrite bool_decide_false in H by done; by inv_ok|].
  destruct (_ || _); [|done]. by inv_ok.
Qed.

Definition costs_wf (values : list Cost) : Prop :=
  Forall (fun v => Money_wf (CostAmount v)) values.

Lemma costs_wf_finite values :
  costs_wf values -> Forall (finite (fun c => amount (CostAmount c))) values.
Proof. intros H. eapply Forall_impl; [exact H|]. by intros v (? & _). Qed.

Lemma limitDimensionGroup_spec values limit other observers r evs :
  (0 < limit)%Z -> TrimSpace other = other -> other <> "" -> costs_wf values ->
  limitDimensionGroup values limit other observers = (Ok r, evs) ->
  bounded_group values r limit other /\
  ((Z.of_nat (length values) <= limit)%Z -> evs = []) /\
  ((limit < Z.of_nat (length values))%Z -> exists kind,
     evs = repeat (kind, (Z.of_nat (length values) - (limit - 1))%Z) observers).
Proof.
  intros Hlim Htrim Hne Hwf. unfold limitDimensionGroup.
  destruct (Z.leb_spec (Z.of_nat (length values)) limit) as [Hle|Hgt].
  { intros [= <- <-]. split; [by left|]. split; [done|lia]. }
  pose proof (rank_split _ (fun c => Value (CostDimension c)) values (Z.to_nat (limit - 1))
    (costs_wf_finite values Hwf)) as [Hperm Hle].
  change (rankLess _ _) with costRank in Hperm, Hle.
  set (ranked := SliceStable costRank values) in *.
  assert (Hlen : length ranked = length values) by apply SliceStable_length.
  destruct (drop (Z.to_nat (limit - 1)) ranked) as [|first rest] eqn:Edrop.
  { apply (f_equal length) in Edrop. rewrite length_drop in Edrop. simpl in Edrop. lia. }
  destruct (forallb _ _) eqn:Ecur; simpl; [|done]. rewrite forallb_decide in Ecur.
  destruct (NewMoney _ _) as [amt|] eqn:Emoney; [|done].
  destruct (NewDimension _ _) as [dim|] eqn:Edim; [|done]. intros [= <- <-].
  apply NewMoney_ok in Emoney as (-> & Hfinite & _). apply NewDimension_kind in Edim as ->; [|done|done].
  assert (Hf : TrimSpace (currency (CostAmount first)) = currency (CostAmount first)).
  { unfold costs_wf in Hwf. rewrite <- Hperm, Forall_app, Forall_cons in Hwf.
    destruct Hwf as (_ & (_ & _ & ?) & _). done. }
  rewrite Hf. split; [|split; [lia|]].
  - right. split; [done|]. exists (take (Z.to_nat (limit - 1)) ranked), first, rest.
    split; [done|]. split; [done|]. split; [rewrite length_take; lia|]. by split.
  - intros _. exists (Kind (CostDimension first)). f_equal. f_equal. lia.
Qed.

Lemma bounded_group_length values r limit other :
  bounded_group values r limit other -> (Z.of_nat (length r) <= limit)%Z.
Proof.
  intros [[? ->]|(? & kept & first & rest & -> & _ & ? & _)]; [done|]. rewrite length_app. simpl. lia.
Qed.

(** What holds of every cost and is kept by replacing value and amount holds of the result. *)
Lemma bounded_group_forall (P : Cost -> Prop) values r limit other :
  (forall c t, P c -> nonFinite t = false -> P (overflow_cost c other t)) ->
  bounded_group values r limit other -> Forall P values -> Forall P r.
Proof.
  intros HP [[_ ->]|(_ & kept & first & rest & -> & Hfin & _ & Hp & _)]; [done|].
  rewrite <- Hp, Forall_app, Forall_cons, Forall_app, Forall_singleton. naive_solver.
Qed.

(** ** All groups *)

Lemma group_values_elem key values v :
  v ∈ group_values key values <-> v ∈ values /\ group_of v = key.
Proof. unfold group_values. by rewrite elem_of_filter_b, bool_decide_eq_true. Qed.

Lemma group_values_app key l k :
  group_values key (l ++ k) = group_values key l ++ group_values key k.
Proof. apply List.filter_app. Qed.

Lemma group_values_all key values :
  (forall v, v ∈ values -> group_of v = key) -> group_values key values = values.
Proof. intros H. apply filter_all_true. intros v Hv. by apply bool_decide_eq_true, H. Qed.

Lemma group_values_none key values :
  (forall v, v ∈ values -> group_of v <> key) -> group_values key values = [].
Proof.
  intros H. apply filter_none. intros v Hv. by apply bool_decide_eq_false, H.
Qed.

Lemma bounded_group_nil limit other : (0 <= limit)%Z -> bounded_group [] [] limit other.
Proof. intros Hl. left. split; [simpl; lia|done]. Qed.

(** The result of a group stays in the group. *)
Lemma bounded_group_of key values r limit other :
  bounded_group (group_values key values) r limit other ->
  forall v, v ∈ r -> group_of v = key.
Proof.
  intros Hb. apply Forall_forall. eapply bounded_group_forall; [|exact Hb|].
  - by intros [].
  - apply Forall_forall. by intros v [_ ?]%group_values_elem.
Qed.

Lemma costs_wf_group key values : costs_wf values -> costs_wf (group_values key values).
Proof.
  unfold costs_wf. rewrite !Forall_forall. intros H v [Hv _]%group_values_elem. auto.
Qed.

Lemma limit_groups_spec keys values limit other observers r evs :
  (0 < limit)%Z -> TrimSpace other = other -> other <> "" -> costs_wf values -> NoDup keys ->
  limit_groups keys values limit other observers = (Ok r, evs) ->
  (forall v, v ∈ r -> group_of v ∈ keys) /\
  forall key, key ∈ keys -> bounded_group (group_values key values) (group_values key r) limit other.
Proof.
  intros Hlim Htrim Hne Hwf. revert r evs. induction keys as [|k keys IH]; intros r evs Hnd; simpl.
  { intros [= <- <-]. split; set_solver. }
  apply NoDup_cons in Hnd as [Hk Hnd].
  destruct (limitDimensionGroup _ _ _ _) as [[bounded|] e1] eqn:E; [|done].
  destruct (limit_groups keys _ _ _ _) as [[rest|] e2] eqn:Erest; [|done]. intros [= <- <-].
  apply limitDimensionGroup_spec in E as (Hb & _); [|done|done|done|by apply costs_wf_group].
  destruct (IH _ _ Hnd eq_refl) as [Hrest Hgroups].
  pose proof (bounded_group_of k values bounded limit other Hb) as Hof. split.
  - intros v [Hv|Hv]%elem_of_app; [rewrite (Hof v Hv); by left|right; auto].
  - intros key [->|Hkey]%elem_of_cons; rewrite group_values_app.
    + rewrite (group_values_all k bounded) by done.
      rewrite (group_values_none k rest), app_nil_r; [done|]. intros v Hv <-. by apply Hk, Hrest.
    + rewrite (group_values_none key bounded); [by apply Hgroups|].
      intros v Hv ->%eq_sym. by rewrite <- (Hof v Hv) in Hk.
Qed.

Lemma group_keys_elem values key : key ∈ group_keys values <-> exists v, v ∈ values /\ group_of v = key.
Proof.
  unfold group_keys. rewrite elem_of_SliceStable, elem_of_remove_dups, elem_of_map. done.
Qed.

Lemma group_keys_NoDup values : NoDup (group_keys values).
Proof. unfold group_keys. rewrite SliceStable_perm. apply NoDup_remove_dups. Qed.

Lemma check_values_ok values other :
  check_values values other = Ok tt <->
  forall v, v ∈ values ->
    Provider_Valid (CostProvider v) = true /\ Basis_Valid (CostBasis v) = true /\
    Value (CostDimension v) <> other.
Proof.
  induction values as [|v values IH]; simpl; [split; [set_solver|done]|].
  rewrite !guard_ok, IH, orb_false_iff, !negb_false_iff, bool_decide_eq_false. set_solver.
Qed.

(** The bounded result, group by group. *)
Definition bounded_dimensions (values r : list Cost) (limit : Z) (other : string) : Prop :=
  (forall v, v ∈ r -> exists w, w ∈ values /\ group_of v = group_of w) /\
  forall key, bounded_group (group_values key values) (group_values key r) limit other.

Lemma LimitDimensions_bounded values limit other observers r evs :
  costs_wf values -> LimitDimensions values limit other observers = (Ok r, evs) ->
  (0 < limit)%Z /\ TrimSpace other <> "" /\
  (forall v, v ∈ values -> Provider_Valid (CostProvider v) = true /\
     Basis_Valid (CostBasis v) = true /\ Value (CostDimension v) <> TrimSpace other) /\
  bounded_dimensions values r limit (TrimSpace other).
Proof.
  intros Hwf. unfold LimitDimensions. destruct (Z.leb_spec limit 0); [done|].
  case_bool_decide as Hne; [done|].
  destruct (check_values values (TrimSpace other)) as [[]|] eqn:Ec; [|done].
  rewrite check_values_ok in Ec. intros Hr. split; [lia|]. split; [done|]. split; [done|].
  destruct (Nat.ltb_spec 1 (length (group_keys values))) as [Hmany|Hone].
  - apply limit_groups_spec in Hr as [Hin Hb];
      [|lia|apply TrimSpace_idemp|done|done|apply group_keys_NoDup].
    split; [intros v (w & Hw & <-)%Hin%group_keys_elem; eauto|].
    intros key. destruct (decide (key ∈ group_keys values)) as [Hkey|Hkey]; [by apply Hb|].
    rewrite !group_values_none; [apply bounded_group_nil; lia| |].
    + intros v Hv <-. by apply Hkey, Hin.
    + intros v Hv <-. apply Hkey, group_keys_elem. eauto.
  - apply limitDimensionGroup_spec in Hr as (Hb & _); [|lia|apply TrimSpace_idemp|done|done].
    assert (Hsame : exists k, forall v, v ∈ values -> group_of v = k).
    { destruct (group_keys values) as [|k [|k' ks]] eqn:Ek; simpl in Hone; [| |lia].
      - exists "". intros v Hv. assert (group_of v ∈ group_keys values) as Hin
          by (apply group_keys_elem; eauto). rewrite Ek in Hin. set_solver.
      - exists k. intros v Hv. assert (group_of v ∈ group_keys values) as Hin
          by (apply group_keys_elem; eauto). rewrite Ek in Hin. set_solver. }
    destruct Hsame as [k Hk]. rewrite <- (group_values_all k values Hk) in Hb.
    pose proof (bounded_group_of k values r limit _ Hb) as Hof. split.
    + intros v Hv. destruct values as [|w values].
      * destruct Hb as [[_ ->]|(Hgt & _)]; [set_solver|simpl in Hgt; lia].
      * exists w. split; [by left|]. by rewrite (Hof v Hv), (Hk w ltac:(by left)).
    + intros key. destruct (decide (key = k)) as [->|Hne'].
      * by rewrite (group_values_all k r).
      * rewrite !group_values_none; [apply bounded_group_nil; lia| |].
        -- intros v Hv <-. by apply Hne', Hof.
        -- intros v Hv <-. by apply Hne', Hk.
Qed.

(** ** Tags *)

Definition overflow_tag (first : TagCost) (overflow : string) (total : float64) : TagCost :=
  mkTagCost (TagTarget first) (TagProvider first) (TagBasis first) (TagWindow first) (TagKey first)
    overflow (mkMoney total (currency (TagAmount first))).

(** What values folded together share: everything but the tag value and the amount. *)
Definition same_tag_group (a b : TagCost) : Prop :=
  currency (TagAmount a) = currency (TagAmount b) /\ TagProvider a = TagProvider b /\
  TagBasis a = TagBasis b /\ TagWindow a = TagWindow b /\ TagKey a = TagKey b.

Definition bounded_tags (values r : list TagCost) (limit : Z) (overflow : string) : Prop :=
  (Z.of_nat (length values) <= limit)%Z /\ r = values \/
  (limit < Z.of_nat (length values))%Z /\
  exists kept first rest,
    let dropped := first :: rest in
    r = kept ++ [overflow_tag first overflow (sum_amounts (fun v => amount (TagAmount v)) dropped)] /\
    nonFinite (sum_amounts (fun v => amount (TagAmount v)) dropped) = false /\
    Z.of_nat (length kept) = (limit - 1)%Z /\ kept ++ dropped ≡ₚ values /\
    (forall k d, k ∈ kept -> d ∈ dropped ->
       fleb (amount (TagAmount d)) (amount (TagAmount k)) = true) /\
    forall d, d ∈ dropped -> same_tag_group d first.

Definition tags_wf (values : list TagCost) : Prop :=
  Forall (fun v => Money_wf (TagAmount v)) values.

Lemma check_tags_ok current tail :
  check_tags current tail = Ok tt <-> forall d, d ∈ tail -> same_tag_group d current.
Proof.
  unfold same_tag_group. induction tail as [|d tail IH]; simpl; [split; [set_solver|done]|].
  rewrite !guard_ok, IH, !orb_false_iff, !negb_false_iff, !bool_decide_eq_true. set_solver.
Qed.

Lemma LimitValues_bounded values limit overflow observers r evs :
  tags_wf values -> LimitValues values limit overflow observers = (Ok r, evs) ->
  bounded_tags values r limit overflow.
Proof.
  intros Hwf. unfold LimitValues.
  destruct (Z.leb_spec (Z.of_nat (length values)) limit) as [Hle|Hgt].
  { intros [= <- <-]. by left. }
  destruct (Z.ltb_spec (limit - 1) 0) as [|Hlim]; [done|].
  assert (Hfin : Forall (finite (fun t => amount (TagAmount t))) values).
  { eapply Forall_impl; [exact Hwf|]. by intros v (? & _). }
  pose proof (rank_split _ TagValue values (Z.to_nat (limit - 1)) Hfin) as [Hperm Hle].
  change (rankLess _ _) with tagRank in Hperm, Hle.
  set (ranked := SliceStable tagRank values) in *.
  assert (Hlen : length ranked = length values) by apply SliceStable_length.
  destruct (drop (Z.to_nat (limit - 1)) ranked) as [|first rest] eqn:Edrop.
  { apply (f_equal length) in Edrop. rewrite length_drop in Edrop. simpl in Edrop. lia. }
  destruct (check_tags first (first :: rest)) as [[]|] eqn:Ec; [|done].
  destruct (NewMoney _ _) as [amt|] eqn:Emoney; [|done]. intros [= <- <-].
  apply NewMoney_ok in Emoney as (-> & Hfinite & _).
  assert (Hf : TrimSpace (currency (TagAmount first)) = currency (TagAmount first)).
  { unfold tags_wf in Hwf. rewrite <- Hperm, Forall_app, Forall_cons in Hwf.
    destruct Hwf as (_ & (_ & _ & ?) & _). done. }
  rewrite Hf. right. split; [done|]. exists (take (Z.to_nat (limit - 1)) ranked), first, rest.
  split; [done|]. split; [done|]. split; [rewrite length_take; lia|]. split; [done|].
  split; [done|]. by apply check_tags_ok.
Qed.

Lemma bounded_tags_length values r limit overflow :
  bounded_tags values r limit overflow -> (Z.of_nat (length r) <= limit)%Z.
Proof.
  intros [[? ->]|(? & kept & first & rest & -> & _ & ? & _)]; [done|]. rewrite length_app. simpl. lia.
Qed.

Lemma bounded_tags_forall (P : TagCost -> Prop) values r limit overflow :
  (forall c t, P c -> nonFinite t = false -> P (overflow_tag c overflow t)) ->
  bounded_tags values r limit overflow -> Forall P values -> Forall P r.
Proof.
  intros HP [[_ ->]|(_ & kept & first & rest & -> & Hfin & _ & Hp & _)]; [done|].
  rewrite <- Hp, Forall_app, Forall_cons, Forall_app, Forall_singleton. naive_solver.
Qed.

(** ** Properties *)

(** C28: when [LimitDimensions] succeeds, each provider and basis keeps its values unchanged
    if they fit the limit; otherwise it keeps the [limit - 1] largest (no dropped amount exceeds
    a kept one) and replaces all the others by one overflow cost holding their sum in their
    common currency.  So no group exceeds the limit, no input used the overflow label, and
    every input identity was valid. *)
Theorem LimitDimensions_spec values limit other observers r evs :
  costs_wf values -> LimitDimensions values limit other observers = (Ok r, evs) ->
  (forall v, v ∈ values -> Provider_Valid (CostProvider v) = true /\
     Basis_Valid (CostBasis v) = true /\ Value (CostDimension v) <> TrimSpace other) /\
  bounded_dimensions values r limit (TrimSpace other) /\
  forall key, (Z.of_nat (length (group_values key r)) <= limit)%Z.
Proof.
  intros Hwf H. apply LimitDimensions_bounded in H as (Hl & Hne & Hin & Hb); [|done].
  split; [done|]. split; [done|]. intros key. eapply bounded_group_length, Hb.
Qed.

(** [LimitValues] keeps a set of tag values that fits unchanged, and otherwise keeps
    the [limit - 1] largest and folds the rest into one overflow value with their sum; it never
    mixes currencies, providers, bases, windows or tag keys in the overflow, and the result never
    exceeds the limit. *)
Theorem LimitValues_spec values limit overflow observers r evs :
  tags_wf values -> LimitValues values limit overflow observers = (Ok r, evs) ->
  bounded_tags values r limit overflow /\ (Z.of_nat (length r) <= limit)%Z.
Proof.
  intros Hwf H. apply LimitValues_bounded in H; [|done].
  split; [done|]. by eapply bounded_tags_length.
Qed.

(** ** A concrete run *)

Definition sample_amount_cost (service : string) (n : Z) : Cost :=
  mkCost "prod" ProviderCostExplorer BasisUnblended WindowDaily (DayContaining 0%Z)
    (mkDimension DimensionService service) (mkMoney (f64_of_Z n) "USD").

Definition sample_costs : list Cost :=
  [sample_amount_cost "EC2" 5; sample_amount_cost "S3" 9; sample_amount_cost "SQS" 2;
   sample_amount_cost "RDS" 7].

Lemma LimitDimensions_spec_witness :
  exists r, LimitDimensions sample_costs 3 "__other__" 1 = (Ok r, [("service", 2%Z)]) /\
    r = [sample_amount_cost "S3" 9; sample_amount_cost "RDS" 7; sample_amount_cost "__other__" 7] /\
    forall key, (Z.of_nat (length (group_values key r)) <= 3)%Z.
Proof.
  eexists. assert (H : LimitDimensions sample_costs 3 "__other__" 1 =
    (Ok [sample_amount_cost "S3" 9; sample_amount_cost "RDS" 7; sample_amount_cost "__other__" 7],
     [("service", 2%Z)])) by (vm_compute; reflexivity).
  split; [exact H|]. split; [reflexivity|].
  refine (proj2 (proj2 (LimitDimensions_spec _ _ _ _ _ _ _ H))).
  repeat (apply Forall_cons; split; [split; [reflexivity|split; [discriminate|reflexivity]]|]).
  apply Forall_nil. exact I.
Defined.

Definition sample_tags : list TagCost :=
  map (fun '(v, n) => mkTagCost "prod" ProviderCostExplorer BasisNet WindowDaily "team" v
    (mkMoney (f64_of_Z n) "USD")) [("a", 1%Z); ("b", 5%Z); ("c", 3%Z)].

Lemma LimitValues_spec_witness :
  exists r evs, LimitValues sample_tags 2 "__other__" 0 = (Ok r, evs) /\
    (Z.of_nat (length r) <= 2)%Z.
Proof.
  destruct (LimitValues sample_tags 2 "__other__" 0) as [[r|e] evs] eqn:E; [|by vm_compute in E].
  exists r, evs. split; [done|]. refine (proj2 (LimitValues_spec _ _ _ _ _ _ _ E)).
  repeat (apply Forall_cons; split; [split; [reflexivity|split; [discriminate|reflexivity]]|]).
  apply Forall_nil. exact I.
Defined.
