(* ===== verification/Ports.v ===== *)
(** * Ports (internal/ports)

    The values that cross the application's boundaries: the queries sent to a cost reader,
    and the collector statuses and the view read from the snapshot store. *)

From S2P Require Import Prelude GoStrings GoTime Errors Domain Snapshot.
Local Open Scope string_scope.

(** ** Queries *)

Record CostQuery := mkCostQuery {
  q_Period : Period;
  q_Window : Window;
  q_Basis : Basis;
  q_GroupBy : DimensionKind;
  q_LinkedAccountIDs : list string;
  q_Services : list string;
  q_Regions : list string
}.

Record ForecastQuery := mkForecastQuery {
  fq_Period : Period;
  fq_Basis : Basis;
  fq_PredictionInterval : Z;
  fq_LinkedAccountIDs : list string;
  fq_Services : list string;
  fq_Regions : list string
}.

(** ** The store's view *)

Inductive Freshness := FreshnessUnset | FreshnessMissing | FreshnessFresh | FreshnessAging | FreshnessStale.

#[export] Instance Freshness_eq_dec : EqDecision Freshness.
Proof. solve_decision. Defined.

Record CollectorStatus := mkStatus {
  LastAttempt : Time;
  LastSuccess : Time;
  Up : bool;
  st_Freshness : Freshness;
  Series : Z
}.

#[export] Instance CollectorStatus_eq_dec : EqDecision CollectorStatus.
Proof. solve_decision. Defined.

(** [CollectorStatus{}]: what a Go map answers for a missing collector. *)
Definition CollectorStatus_zero : CollectorStatus := mkStatus 0%Z 0%Z false FreshnessUnset 0%Z.

Record SnapshotView := mkView {
  view_Snapshot : Snapshot;
  view_Collectors : gmap CollectorID CollectorStatus
}.
