(* ===== verification/PromClient.v ===== *)
(** * Metrics on their way to a scrape (github.com/prometheus/client_golang)

    The collectors of internal/metrics hand a description, a value and label values to
    [prometheus.MustNewConstMetric] and send the metric it makes.  The client library is not part
    of the repository: what it makes of them is an argument, and [ConstMetricLaws] is what its
    documentation says of it. *)

From S2P Require Import Prelude GoStrings GoFloat Errors.
Local Open Scope string_scope.
Local Open Scope list_scope.

(** [prometheus.NewDesc]'s arguments (the help text and the constant labels left out). *)
Record Desc := mkDesc { fqName : string; variableLabels : list string }.

#[export] Instance Desc_eq_dec : EqDecision Desc.
Proof. solve_decision. Defined.

(** A metric; the value of a histogram is the sum of its observations. *)
Record Metric := mkMetric { m_desc : Desc; m_value : float64; m_labels : list string }.

(** A time series: the metric without its value. *)
Definition series_of (m : Metric) : Desc * list string := (m_desc m, m_labels m).

(** ** Descriptions *)

Definition name_start (c : ascii) : bool := between 65 90 c || between 97 122 c || bool_decide (c = "_"%char).
Definition name_char (c : ascii) : bool := name_start c || between 48 57 c.
Definition plain_name (s : string) : bool :=
  match bytes s with c :: l => name_start c && forallb name_char l | [] => false end.

(** A description [NewDesc] accepts: plain names, each label once. *)
Definition Desc_valid (d : Desc) : bool :=
  plain_name (fqName d) && forallb plain_name (variableLabels d) && bool_decide (NoDup (variableLabels d)).

(** ** Sending *)

(** What a collector has sent to its channel, and whether it has panicked. *)
Record Sent := mkSent { sent : list Metric; panicked : bool }.

Definition nothing_sent : Sent := mkSent [] false.

Section Sending.
(** [prometheus.NewConstMetric], for a gauge. *)
Context (NewConstMetric : Desc -> float64 -> list string -> res Metric).

(** [MustNewConstMetric]; [None] is a panic. *)
Definition MustNewConstMetric (d : Desc) (value : float64) (labels : list string) : option Metric :=
  match NewConstMetric d value labels with Ok m => Some m | Err _ => None end.

(** [output <- prometheus.MustNewConstMetric(description, prometheus.GaugeValue, value, labels...)],
    of a goroutine that has not panicked. *)
Definition send_metric (output : Sent) (m : Metric) : Sent :=
  if panicked output then output else
  match MustNewConstMetric (m_desc m) (m_value m) (m_labels m) with
  | Some made => mkSent (sent output ++ [made]) false
  | None => mkSent (sent output) true
  end.

Definition send_all (metrics : list Metric) (output : Sent) : Sent := fold_left send_metric metrics output.

(** [NewConstMetric] answers with the metric, or with an error when the number of values is not
    that of the labels or a value is not valid UTF-8. *)
Record ConstMetricLaws : Prop := mkConstMetricLaws {
  const_ok : forall d value labels, Desc_valid d = true ->
    length labels = length (variableLabels d) -> forallb utf8_ValidString labels = true ->
    NewConstMetric d value labels = Ok (mkMetric d value labels);
  const_err : forall d value labels,
    length labels <> length (variableLabels d) \/ forallb utf8_ValidString labels = false ->
    exists err, NewConstMetric d value labels = Err err
}.

(** The labels of a metric can be exposed. *)
Definition exposable (m : Metric) : bool := forallb utf8_ValidString (m_labels m).

Lemma send_all_app l l' output : send_all (l ++ l') output = send_all l' (send_all l output).
Proof. apply fold_left_app. Qed.

Lemma send_all_panicked l output : panicked output = true -> send_all l output = output.
Proof.
  intros Hp. induction l as [|m l IH]; [done|]. cbn [send_all fold_left]. unfold send_metric at 2. by rewrite Hp.
Qed.

Context (Hlaws : ConstMetricLaws).

(** A metric of a valid description, with a value for each label. *)
Definition well_labelled (m : Metric) : Prop :=
  Desc_valid (m_desc m) = true /\ length (m_labels m) = length (variableLabels (m_desc m)).

(** A collector sends its metrics up to the first whose labels cannot be exposed, and panics there. *)
Lemma send_all_spec l already :
  Forall well_labelled l ->
  exists k, send_all l (mkSent already false) = mkSent (already ++ take k l) (negb (forallb exposable l)) /\
    (forallb exposable l = true -> take k l = l).
Proof using Hlaws.
  intros Hl. revert already. induction Hl as [|m l [Hvalid Hlen] _ IH]; intros already.
  { exists 0. cbn. by rewrite app_nil_r. }
  cbn [send_all fold_left forallb]. unfold send_metric at 2. cbn [panicked]. unfold MustNewConstMetric, exposable at 1 3.
  destruct (forallb utf8_ValidString (m_labels m)) eqn:Hutf.
  - rewrite (const_ok Hlaws _ _ _ Hvalid Hlen Hutf). cbn [sent].
    destruct (IH (already ++ [mkMetric (m_desc m) (m_value m) (m_labels m)])) as (k & Heq & Hall).
    exists (S k). cbn [take andb]. destruct m as [d v labels]. cbn [m_desc m_value m_labels] in *.
    change (fold_left send_metric l) with (send_all l). rewrite Heq, <- app_assoc. split; [done|].
    intros H. by rewrite Hall.
  - destruct (const_err Hlaws (m_desc m) (m_value m) (m_labels m) (or_intror Hutf)) as [err ->].
    exists 0. cbn [take andb negb sent]. rewrite app_nil_r.
    change (fold_left send_metric l) with (send_all l). by rewrite send_all_panicked.
Qed.

Lemma send_all_sent l : Forall well_labelled l -> sent (send_all l nothing_sent) `sublist_of` l.
Proof using Hlaws.
  intros Hl. unfold nothing_sent; destruct (send_all_spec l [] Hl) as (k & -> & _). apply sublist_take.
Qed.

Lemma send_all_panics l : Forall well_labelled l -> panicked (send_all l nothing_sent) = negb (forallb exposable l).
Proof using Hlaws. intros Hl. unfold nothing_sent; by destruct (send_all_spec l [] Hl) as (k & -> & _). Qed.

Lemma send_all_complete l :
  Forall well_labelled l -> panicked (send_all l nothing_sent) = false -> sent (send_all l nothing_sent) = l.
Proof using Hlaws.
  intros Hl. unfold nothing_sent; destruct (send_all_spec l [] Hl) as (k & -> & Hall). cbn. intros Hp%negb_false_iff. by apply Hall.
Qed.
End Sending.

(** A constructor of metrics that follows its documentation. *)
Definition reference_metric (d : Desc) (value : float64) (labels : list string) : res Metric :=
  if negb (bool_decide (length labels = length (variableLabels d))) then Err (ErrorString "inconsistent label cardinality")
  else if forallb utf8_ValidString labels then Ok (mkMetric d value labels)
  else Err (ErrorString "label value is not valid UTF-8").

Lemma reference_metric_laws : ConstMetricLaws reference_metric.
Proof.
  split; intros d value labels; unfold reference_metric.
  - intros _ Hlen ->. by rewrite bool_decide_true.
  - intros [Hne|Hutf]; [rewrite bool_decide_false by done; by eexists|].
    rewrite Hutf. case_bool_decide; by eexists.
Qed.
