(* ===== verification/Metrics.v ===== *)
(** * Metrics (internal/metrics)

    [CostCollector] maps the published snapshot to constant metrics: the descriptions, the values
    and the label values it hands to [prometheus.MustNewConstMetric], and what it sends of them. *)

From S2P Require Import Prelude SliceStable GoStrings GoFloat GoTime Errors Domain Snapshot Ports PromClient.
Local Open Scope string_scope.
Local Open Scope list_scope.

(** ** Descriptions and metrics *)

Definition costDesc (name dimension : string) : Desc :=
  let labels := ["target"; "provider"; "cost_basis"; "currency"] in
  mkDesc (String.app "aws_cost_" name)
    (if bool_decide (dimension = "") then labels else labels ++ [dimension]).

Definition tagCostDesc (name : string) : Desc :=
  mkDesc (String.app "aws_cost_tag_" name)
    ["target"; "provider"; "cost_basis"; "currency"; "tag_key"; "tag_value"].

Definition commitmentDesc (name : string) (hasCurrency : bool) : Desc :=
  let labels := ["target"; "commitment_type"; "time_unit"] in
  mkDesc (String.app "aws_commitment_" name) (if hasCurrency then labels ++ ["currency"] else labels).

Definition budgetDesc (name : string) : Desc :=
  mkDesc (String.app "aws_budget_" name)
    ["target"; "budget_name"; "currency"; "budget_type"; "time_unit"].

(** ** CostCollector *)

Record costDefinition := mkCostDefinition {
  def_window : Window;
  def_kind : DimensionKind;
  def_desc : Desc
}.

Record CostCollector := mkCostCollector {
  cc_costs : list costDefinition;
  cc_indexed : gmap (Window * DimensionKind) Desc;
  cc_forecasts : Desc * Desc * Desc;
  cc_accountInfo : Desc;
  cc_budgets : Desc * Desc * Desc;
  cc_tagCosts : Desc * Desc;
  cc_commitments : Desc * Desc * Desc * Desc * Desc * Desc;
  cc_anomalies : Desc * Desc * Desc * Desc
}.

Definition cost_definitions : list costDefinition := [
  mkCostDefinition WindowDaily DimensionTotal (costDesc "daily_amount" "");
  mkCostDefinition WindowMonthToDate DimensionTotal (costDesc "month_to_date_amount" "");
  mkCostDefinition WindowDaily DimensionService (costDesc "service_daily_amount" "aws_service");
  mkCostDefinition WindowMonthToDate DimensionService
    (costDesc "service_month_to_date_amount" "aws_service");
  mkCostDefinition WindowDaily DimensionRegion (costDesc "region_daily_amount" "aws_region");
  mkCostDefinition WindowMonthToDate DimensionRegion
    (costDesc "region_month_to_date_amount" "aws_region");
  mkCostDefinition WindowDaily DimensionAccount
    (costDesc "account_daily_amount" "linked_account_id");
  mkCostDefinition WindowMonthToDate DimensionAccount
    (costDesc "account_month_to_date_amount" "linked_account_id")
].

(** The collector built by [NewCostCollector] for a store that is not nil. *)
Definition NewCostCollector : CostCollector := {|
  cc_costs := cost_definitions;
  cc_indexed :=
    fold_left (fun m d => <[ (def_window d, def_kind d) := def_desc d ]> m) cost_definitions ∅;
  cc_forecasts := (costDesc "month_forecast_mean_amount" "",
    costDesc "month_forecast_lower_bound_amount" "",
    costDesc "month_forecast_upper_bound_amount" "");
  cc_accountInfo := mkDesc "aws_cost_account_info"
    ["target"; "linked_account_id"; "account_name"; "account_status"];
  cc_budgets := (budgetDesc "limit_amount", budgetDesc "actual_amount",
    budgetDesc "forecasted_amount");
  cc_tagCosts := (tagCostDesc "daily_amount", tagCostDesc "month_to_date_amount");
  cc_commitments := (commitmentDesc "utilization_ratio" false,
    commitmentDesc "coverage_ratio" false, commitmentDesc "unused_hours" false,
    commitmentDesc "covered_spend_amount" true, commitmentDesc "on_demand_cost_amount" true,
    commitmentDesc "net_savings_amount" true);
  cc_anomalies := (mkDesc "aws_cost_anomaly_active" ["target"],
    mkDesc "aws_cost_anomaly_count" ["target"],
    mkDesc "aws_cost_anomaly_impact_amount" ["target"; "currency"],
    mkDesc "aws_cost_anomaly_last_detected_timestamp_seconds" ["target"])
|}.

Definition CostCollector_Describe (c : CostCollector) : list Desc :=
  let '(f0, f1, f2) := cc_forecasts c in
  let '(b0, b1, b2) := cc_budgets c in
  let '(t0, t1) := cc_tagCosts c in
  let '(c0, c1, c2, c3, c4, c5) := cc_commitments c in
  let '(a0, a1, a2, a3) := cc_anomalies c in
  map def_desc (cc_costs c) ++ [f0; f1; f2] ++ [cc_accountInfo c] ++ [b0; b1; b2] ++ [t0; t1] ++
  [c0; c1; c2; c3; c4; c5] ++ [a0; a1; a2; a3].

Definition boolValue (value : bool) : float64 := if value then f64_of_Z 1 else f64_of_Z 0.

Definition collect_cost (c : CostCollector) (item : Cost) : list Metric :=
  match cc_indexed c !! (CostWindow item, Kind (CostDimension item)) with
  | None => []
  | Some description =>
      let labels := [CostTarget item; CostProvider item; CostBasis item;
                     currency (CostAmount item)] in
      [mkMetric description (amount (CostAmount item))
        (if bool_decide (Kind (CostDimension item) = DimensionTotal) then labels
         else labels ++ [Value (CostDimension item)])]
  end.

Definition collect_forecast (c : CostCollector) (item : Forecast) : list Metric :=
  let '(d0, d1, d2) := cc_forecasts c in
  map (fun '(d, m) => mkMetric d (amount m)
         [ForecastTarget item; ForecastProvider item; ForecastBasis item; currency m])
    [(d0, Mean item); (d1, LowerBound item); (d2, UpperBound item)].

Definition collect_account (c : CostCollector) (item : Account) : list Metric :=
  [mkMetric (cc_accountInfo c) (f64_of_Z 1)
    [AccountTarget item; AccountID item; AccountName item; AccountStatus item]].

(** [if has { output <- ... }]. *)
Definition opt_metric {A} (o : option A) (metric : A -> Metric) : list Metric :=
  match o with Some a => [metric a] | None => [] end.

(** Slot 2 of the shared [labels] slice is overwritten before each of the three metrics. *)
Definition collect_budget (c : CostCollector) (item : Budget) : list Metric :=
  let '(d0, d1, d2) := cc_budgets c in
  let metric d (m : Money) := mkMetric d (amount m)
    (<[ 2 := currency m ]> [BudgetTarget item; BudgetName item; currency (Limit item);
                            BudgetType item; BudgetTimeUnit item]) in
  metric d0 (Limit item) :: opt_metric (Actual item) (metric d1) ++
  opt_metric (Forecasted item) (metric d2).

Definition collect_tag (c : CostCollector) (item : TagCost) : list Metric :=
  let d := if bool_decide (TagWindow item = WindowMonthToDate) then snd (cc_tagCosts c)
           else fst (cc_tagCosts c) in
  [mkMetric d (amount (TagAmount item))
    [TagTarget item; TagProvider item; TagBasis item; currency (TagAmount item); TagKey item;
     TagValue item]].

Definition collectCommitment (c : CostCollector) (item : Commitment) : list Metric :=
  let '(d0, d1, d2, d3, d4, d5) := cc_commitments c in
  let base := [CommitmentTarget item; CommitmentType item; CommitmentTimeUnit item] in
  let ratio d (v : float64) := mkMetric d v base in
  let money d (m : Money) := mkMetric d (amount m) (base ++ [currency m]) in
  opt_metric (UtilizationRatio item) (ratio d0) ++ opt_metric (CoverageRatio item) (ratio d1) ++
  opt_metric (UnusedHours item) (ratio d2) ++ opt_metric (CoveredSpend item) (money d3) ++
  opt_metric (OnDemandCost item) (money d4) ++ opt_metric (NetSavings item) (money d5).

Definition collect_anomaly (c : CostCollector) (item : Anomaly) : list Metric :=
  let '(d0, d1, d2, d3) := cc_anomalies c in
  let target := AnomalyTarget item in
  [mkMetric d0 (boolValue (Active item)) [target]; mkMetric d1 (f64_of_Z (Count item)) [target]] ++
  opt_metric (Impact item) (fun m => mkMetric d2 (amount m) [target; currency m]) ++
  (if IsZero (LastDetected item) then []
   else [mkMetric d3 (f64_of_Z (Unix (LastDetected item))) [target]]).

(** [Collect], by one visitor per family; [NewConstMetric] is the client library's. *)
Definition CostCollector_Collect (NewConstMetric : Desc -> float64 -> list string -> res Metric)
    (c : CostCollector) (value : Snapshot) : Sent :=
  let send {A} (metrics : A -> list Metric) :=
    Some (fun item output => send_all NewConstMetric (metrics item) output) in
  let output := ForEachCost (send (collect_cost c)) value nothing_sent in
  let output := ForEachForecast (send (collect_forecast c)) value output in
  let output := ForEachAccount (send (collect_account c)) value output in
  let output := ForEachBudget (send (collect_budget c)) value output in
  let output := ForEachTagCost (send (collect_tag c)) value output in
  let output := ForEachCommitment (send (collectCommitment c)) value output in
  ForEachAnomaly (send (collect_anomaly c)) value output.

(** The metrics of a snapshot: what [Collect] hands to [MustNewConstMetric] when nothing panics. *)
Definition snapshot_metrics (c : CostCollector) (value : Snapshot) : list Metric :=
  flat_map (collect_cost c) (costs value) ++ flat_map (collect_forecast c) (forecasts value) ++
  flat_map (collect_account c) (accounts value) ++ flat_map (collect_budget c) (budgets value) ++
  flat_map (collect_tag c) (tagCosts value) ++
  flat_map (collectCommitment c) (commitments value) ++
  flat_map (collect_anomaly c) (anomalies value).

Lemma Collect_sends NewConstMetric c value :
  CostCollector_Collect NewConstMetric c value = send_all NewConstMetric (snapshot_metrics c value) nothing_sent.
Proof.
  assert (Hvisit : forall A (metrics : A -> list Metric) items output,
    for_each (Some (fun item output => send_all NewConstMetric (metrics item) output)) items output =
    send_all NewConstMetric (flat_map metrics items) output).
  { intros A metrics items. cbn. induction items as [|item items IH]; intros output; cbn [fold_left flat_map]; [done|].
    by rewrite IH, send_all_app. }
  unfold CostCollector_Collect, snapshot_metrics, ForEachCost, ForEachForecast, ForEachAccount, ForEachBudget,
    ForEachTagCost, ForEachCommitment, ForEachAnomaly.
  by rewrite !Hvisit, <- !send_all_app.
Qed.

(** ** Shape of the emitted metrics *)

Abbreviation collector := NewCostCollector.

Definition window_known (w : Window) : Prop := w = WindowDaily \/ w = WindowMonthToDate.

(** What the readers establish of the records they publish. *)
Record publishable (s : Snapshot) : Prop := {
  pub_costs : forall c, c ∈ costs s ->
    window_known (CostWindow c) /\ Dimension_wf (CostDimension c);
  pub_forecasts : forall f, f ∈ forecasts s ->
    currency (LowerBound f) = currency (Mean f) /\ currency (UpperBound f) = currency (Mean f);
  pub_tags : forall t, t ∈ tagCosts s -> window_known (TagWindow t)
}.

Lemma indexed_lookup w k d :
  cc_indexed collector !! (w, k) = Some d <->
  mkCostDefinition w k d ∈ cost_definitions.
Proof.
  unfold cc_indexed, NewCostCollector, cost_definitions. simpl.
  rewrite !lookup_insert_Some, lookup_empty, !elem_of_cons, elem_of_nil.
  split.
  - intros H. repeat (destruct H as [[[= <- <-] <-]|[_ H]]; [tauto|]). done.
  - intros H. repeat (destruct H as [[= -> -> ->]|H];
      [repeat first [left; split; [reflexivity|reflexivity] | right; split; [vm_compute; congruence|]]|]).
    done.
Qed.

(** A definition is known by its description, and by its window and kind. *)
Lemma definition_inj d1 d2 :
  d1 ∈ cost_definitions -> d2 ∈ cost_definitions -> def_desc d1 = def_desc d2 -> d1 = d2.
Proof.
  intros H1 H2. apply (NoDup_map_inj def_desc cost_definitions); [|done|done].
  apply (bool_decide_unpack _). vm_compute. exact I.
Qed.

(** The family a description belongs to, by its position in [Describe]. *)
Definition family_of (d : Desc) : nat :=
  let names := map fqName (CostCollector_Describe collector) in
  match list_find (fun n => n = fqName d) names with
  | Some (i, _) =>
      if decide (i < 8) then 0 else if decide (i < 11) then 1 else if decide (i < 12) then 2
      else if decide (i < 15) then 3 else if decide (i < 17) then 4
      else if decide (i < 23) then 5 else 6
  | None => 7
  end.

Definition in_family (n : nat) (ms : list Metric) : Prop :=
  forall m, m ∈ ms -> family_of (m_desc m) = n.

(** Lists of distinct series from pairwise different families have distinct series. *)
Lemma NoDup_families n m ms ms' :
  in_family n ms -> (forall x, x ∈ ms' -> m <= family_of (m_desc x)) -> n < m ->
  NoDup (map series_of ms) -> NoDup (map series_of ms') -> NoDup (map series_of (ms ++ ms')).
Proof.
  intros Hn Hm Hlt H1 H2. rewrite map_app. apply NoDup_app. split; [done|]. split; [|done].
  intros s (x & Hx & Hxs)%elem_of_map (y & Hy & Hys)%elem_of_map.
  assert (Hd : m_desc x = m_desc y) by (unfold series_of in *; congruence).
  specialize (Hn x Hx). specialize (Hm y Hy). rewrite Hd in Hn. lia.
Qed.

Lemma in_family_flat_map {A} n (f : A -> list Metric) l :
  (forall a, in_family n (f a)) -> in_family n (flat_map f l).
Proof. intros H m (a & _ & Hm)%elem_of_flat_map. by apply (H a). Qed.

(** Goes through the literal list a family emits for one record. *)
Ltac emitted H :=
  unfold collect_forecast, collect_account, collect_budget, collect_tag, collectCommitment,
    collect_anomaly in H; cbn in H;
  repeat match type of H with
  | _ ∈ _ ++ _ => apply elem_of_app in H as [H|H]
  | _ ∈ _ :: _ => apply elem_of_cons in H as [H|H]
  | _ ∈ [] => by apply not_elem_of_nil in H
  | _ ∈ opt_metric ?o _ => destruct o eqn:?; simpl in H
  | _ ∈ (if ?b then _ else _) => destruct b eqn:?
  end.

Lemma cost_family item : in_family 0 (collect_cost collector item).
Proof.
  intros m Hm. unfold collect_cost in Hm.
  destruct (cc_indexed collector !! _) as [d|] eqn:E; [|set_solver].
  apply list_elem_of_singleton in Hm as ->. cbn [m_desc].
  apply indexed_lookup in E. unfold cost_definitions in E. rewrite !elem_of_cons in E.
  repeat (destruct E as [[= -> -> ->]|E]; [vm_compute; reflexivity|]). set_solver.
Qed.

Lemma forecast_family item : in_family 1 (collect_forecast collector item).
Proof. intros m Hm. emitted Hm; subst; vm_compute; reflexivity. Qed.
Lemma account_family item : in_family 2 (collect_account collector item).
Proof. intros m Hm. emitted Hm; subst; vm_compute; reflexivity. Qed.
Lemma budget_family item : in_family 3 (collect_budget collector item).
Proof. intros m Hm. emitted Hm; subst; vm_compute; reflexivity. Qed.
Lemma tag_family item : in_family 4 (collect_tag collector item).
Proof.
  intros m Hm. emitted Hm; subst; cbn [m_desc].
  case_bool_decide; vm_compute; reflexivity.
Qed.
Lemma commitment_family item : in_family 5 (collectCommitment collector item).
Proof. intros m Hm. emitted Hm; subst; vm_compute; reflexivity. Qed.
Lemma anomaly_family item : in_family 6 (collect_anomaly collector item).
Proof. intros m Hm. emitted Hm; subst; vm_compute; reflexivity. Qed.

(** ** Distinct series *)

Lemma family_NoDup {A} (keys : A -> list string) (emit : A -> list Metric) l :
  NoDup (flat_map keys l) ->
  (forall x, x ∈ l -> NoDup (map series_of (emit x))) ->
  (forall x y m m', x ∈ l -> y ∈ l -> m ∈ emit x -> m' ∈ emit y -> series_of m = series_of m' ->
    exists k, k ∈ keys x /\ k ∈ keys y) ->
  NoDup (map series_of (flat_map emit l)).
Proof.
  intros Hk Hone Hmeet.
  replace (map series_of (flat_map emit l)) with (flat_map (fun x => map series_of (emit x)) l)
    by (clear; induction l; simpl; [done|]; by rewrite map_app, IHl).
  apply (NoDup_flat_map_transfer keys _ _ Hk Hone).
  intros x y c Hx Hy (m & Hm & Hmc)%elem_of_map (m' & Hm' & Hmc')%elem_of_map.
  apply (Hmeet x y m m'); congruence.
Qed.

Lemma costs_distinct l :
  NoDup (map cost_key l) -> (forall c, c ∈ l -> Dimension_wf (CostDimension c)) ->
  NoDup (map series_of (flat_map (collect_cost collector) l)).
Proof.
  rewrite <- flat_map_map_singleton. intros Hk Hwf. apply (family_NoDup _ _ _ Hk).
  { intros x _. unfold collect_cost. destruct (_ !! _); simpl; auto using NoDup_nil_2, NoDup_singleton. }
  intros x y m m' Hx Hy Hm Hm' Hs. exists (cost_key x). split; [by left|].
  apply list_elem_of_singleton. unfold collect_cost in Hm, Hm'.
  destruct (cc_indexed collector !! (CostWindow x, _)) as [d|] eqn:Ex; [|set_solver].
  destruct (cc_indexed collector !! (CostWindow y, _)) as [d'|] eqn:Ey; [|set_solver].
  apply list_elem_of_singleton in Hm as ->, Hm' as ->. unfold series_of in Hs. cbn in Hs.
  injection Hs as <- Hlab. apply indexed_lookup in Ex, Ey.
  pose proof (definition_inj _ _ Ex Ey eq_refl) as [= Hw Hkind]. rewrite <- Hkind in Hlab.
  destruct (Hwf x Hx) as [_ Hvx], (Hwf y Hy) as [_ Hvy]. rewrite <- Hkind in Hvy.
  unfold cost_key. rewrite <- Hkind, <- Hw. case_bool_decide as Ht.
  - destruct Hvx as [[_ Hvx]|[Hc _]]; [|rewrite Ht in Hc; by destruct Hc as [?|[?|?]]].
    destruct Hvy as [[_ Hvy]|[Hc _]]; [|rewrite Ht in Hc; by destruct Hc as [?|[?|?]]].
    congruence.
  - simpl in Hlab. congruence.
Qed.

Lemma forecasts_distinct l :
  NoDup (map forecast_key l) ->
  (forall f, f ∈ l ->
    currency (LowerBound f) = currency (Mean f) /\ currency (UpperBound f) = currency (Mean f)) ->
  NoDup (map series_of (flat_map (collect_forecast collector) l)).
Proof.
  rewrite <- flat_map_map_singleton. intros Hk Hwf. apply (family_NoDup _ _ _ Hk).
  { intros x _. unfold series_of. cbn. rewrite !NoDup_cons, !elem_of_cons, !elem_of_nil.
    repeat split; try (intros [[=]|[[=]|[]]] || intros [[=]|[]]); auto using NoDup_nil_2. }
  intros x y m m' Hx Hy Hm Hm' Hs. exists (forecast_key x). split; [by left|].
  apply list_elem_of_singleton. destruct (Hwf x Hx) as [? ?], (Hwf y Hy) as [? ?].
  emitted Hm; emitted Hm'; subst; unfold series_of in Hs; cbn in Hs; simplify_eq;
    unfold forecast_key; congruence.
Qed.

Lemma accounts_distinct l :
  NoDup (map account_key l) -> NoDup (map series_of (flat_map (collect_account collector) l)).
Proof.
  rewrite <- flat_map_map_singleton. intros Hk. apply (family_NoDup _ _ _ Hk).
  { intros x _. apply NoDup_singleton. }
  intros x y m m' Hx Hy Hm Hm' Hs. exists (account_key x). split; [by left|].
  apply list_elem_of_singleton. emitted Hm; emitted Hm'; subst; unfold series_of in Hs; cbn in Hs.
  unfold account_key. congruence.
Qed.

Lemma tags_distinct l :
  NoDup (map tag_key l) -> (forall t, t ∈ l -> window_known (TagWindow t)) ->
  NoDup (map series_of (flat_map (collect_tag collector) l)).
Proof.
  rewrite <- flat_map_map_singleton. intros Hk Hwf. apply (family_NoDup _ _ _ Hk).
  { intros x _. apply NoDup_singleton. }
  intros x y m m' Hx Hy Hm Hm' Hs. exists (tag_key x). split; [by left|].
  apply list_elem_of_singleton. emitted Hm; emitted Hm'; subst; unfold series_of in Hs; cbn in Hs.
  assert (TagWindow x = TagWindow y).
  { destruct (Hwf x Hx) as [Ew|Ew], (Hwf y Hy) as [Ew'|Ew']; rewrite Ew, Ew' in *;
      first [done|vm_compute in Hs; discriminate Hs]. }
  unfold tag_key. congruence.
Qed.

(** Families whose key is read off the series itself. *)
Lemma keyed_distinct {A} (keyof : Desc * list string -> string) (keys : A -> list string)
    (emit : A -> list Metric) l :
  NoDup (flat_map keys l) ->
  (forall x, map keyof (map series_of (emit x)) `sublist_of` keys x) ->
  NoDup (map series_of (flat_map emit l)).
Proof.
  intros Hk Hsub. apply (NoDup_fmap_1 keyof). eapply sublist_NoDup; [exact Hk|]. clear Hk.
  induction l as [|x l IH]; simpl; [done|]. rewrite !map_app. by apply sublist_app.
Qed.

Definition budget_series_key (s : Desc * list string) : string :=
  match snd s with
  | [t; n; c; ty; tu] =>
      String.app (String.app (pipe ["budget"; t; n; ty; tu]) "|")
        (String.app
          (if bool_decide (fst s = budgetDesc "limit_amount") then "limit|"
           else if bool_decide (fst s = budgetDesc "actual_amount") then "actual|"
           else "forecasted|") c)
  | _ => ""
  end.

Lemma budgets_distinct l :
  NoDup (flat_map budget_keys l) -> NoDup (map series_of (flat_map (collect_budget collector) l)).
Proof.
  intros Hk. apply (keyed_distinct budget_series_key budget_keys); [done|]. intros x.
  unfold collect_budget, budget_keys.
  destruct (Actual x), (Forecasted x); reflexivity.
Qed.

Definition commitment_series_key (s : Desc * list string) : string :=
  let suffix :=
    if bool_decide (fst s = commitmentDesc "utilization_ratio" false) then "utilization"
    else if bool_decide (fst s = commitmentDesc "coverage_ratio" false) then "coverage"
    else if bool_decide (fst s = commitmentDesc "unused_hours" false) then "unused_hours"
    else if bool_decide (fst s = commitmentDesc "covered_spend_amount" true) then "covered_spend|"
    else if bool_decide (fst s = commitmentDesc "on_demand_cost_amount" true) then "on_demand_cost|"
    else "net_savings|" in
  match snd s with
  | [t; ty; tu] => String.app (String.app (pipe ["commitment"; t; ty; tu]) "|") suffix
  | [t; ty; tu; c] =>
      String.app (String.app (pipe ["commitment"; t; ty; tu]) "|") (String.app suffix c)
  | _ => ""
  end.

Lemma commitments_distinct l :
  NoDup (flat_map commitment_keys l) ->
  NoDup (map series_of (flat_map (collectCommitment collector) l)).
Proof.
  intros Hk. apply (keyed_distinct commitment_series_key commitment_keys); [done|]. intros x.
  unfold collectCommitment, commitment_keys. cbn [cc_commitments NewCostCollector].
  rewrite !map_app. repeat apply sublist_app;
    match goal with |- context [opt_key ?o _] => destruct o; reflexivity end.
Qed.

Definition anomaly_series_key (s : Desc * list string) : string :=
  match snd s with
  | [t] =>
      String.app (String.app (pipe ["anomaly"; t]) "|")
        (if bool_decide (fst s = mkDesc "aws_cost_anomaly_active" ["target"]) then "active"
         else if bool_decide (fst s = mkDesc "aws_cost_anomaly_count" ["target"]) then "count"
         else "last_detected")
  | [t; c] => String.app (String.app (pipe ["anomaly"; t]) "|") (String.app "impact|" c)
  | _ => ""
  end.

(** The same keys, in the order of the metrics. *)
Definition anomaly_keys' (item : Anomaly) : list string :=
  map (String.app (anomaly_prefix item)) ["active"; "count"] ++
  opt_key (Impact item)
    (fun m => String.app (anomaly_prefix item) (String.app "impact|" (currency m))) ++
  [String.app (anomaly_prefix item) "last_detected"].

Lemma anomalies_distinct l :
  NoDup (flat_map anomaly_keys l) -> NoDup (map series_of (flat_map (collect_anomaly collector) l)).
Proof.
  intros Hk. apply (keyed_distinct anomaly_series_key anomaly_keys').
  - rewrite (flat_map_perm_ext _ anomaly_keys); [done|]. intros x.
    unfold anomaly_keys', anomaly_keys. simpl. by rewrite (comm (++)).
  - intros x. unfold collect_anomaly, anomaly_keys'. cbn [cc_anomalies NewCostCollector].
    rewrite !map_app. repeat apply sublist_app; [reflexivity| |].
    + destruct (Impact x); reflexivity.
    + destruct (IsZero _); simpl; [apply sublist_nil_l|reflexivity].
Qed.

Lemma publishable_dims s : publishable s -> forall c, c ∈ costs s -> Dimension_wf (CostDimension c).
Proof. intros [H _ _] c Hc. by apply H. Qed.

Lemma Collect_distinct s :
  NoDup (snapshot_keys s) -> publishable s ->
  NoDup (map series_of (snapshot_metrics collector s)).
Proof.
  intros (Hc & Hf & Hb & Ha & Ht & Hm & Han)%snapshot_keys_NoDup Hpub.
  unfold snapshot_metrics.
  apply (NoDup_families 0 1); [apply in_family_flat_map, cost_family| |lia| |].
  2: { apply costs_distinct; [done|by apply publishable_dims]. }
  2: apply (NoDup_families 1 2); [apply in_family_flat_map, forecast_family| |lia| |].
  3: { apply forecasts_distinct; [done|]. apply Hpub. }
  3: apply (NoDup_families 2 3); [apply in_family_flat_map, account_family| |lia| |].
  4: by apply accounts_distinct.
  4: apply (NoDup_families 3 4); [apply in_family_flat_map, budget_family| |lia| |].
  5: by apply budgets_distinct.
  5: apply (NoDup_families 4 5); [apply in_family_flat_map, tag_family| |lia| |].
  6: { apply tags_distinct; [done|]. apply Hpub. }
  6: apply (NoDup_families 5 6); [apply in_family_flat_map, commitment_family| |lia| |].
  7: by apply commitments_distinct.
  7: by apply anomalies_distinct.
  all: intros x Hx; repeat (apply elem_of_app in Hx as [Hx|Hx]).
  all: first
    [ rewrite (in_family_flat_map _ _ _ forecast_family x Hx); lia
    | rewrite (in_family_flat_map _ _ _ account_family x Hx); lia
    | rewrite (in_family_flat_map _ _ _ budget_family x Hx); lia
    | rewrite (in_family_flat_map _ _ _ tag_family x Hx); lia
    | rewrite (in_family_flat_map _ _ _ commitment_family x Hx); lia
    | rewrite (in_family_flat_map _ _ _ anomaly_family x Hx); lia ].
Qed.

Lemma length_flat_map_ext {A} (emit : A -> list Metric) (n : A -> nat) l :
  (forall x, x ∈ l -> length (emit x) = n x) -> length (flat_map emit l) = sum_list_with n l.
Proof.
  induction l as [|x l IH]; simpl; intros H; [done|]. rewrite length_app.
  rewrite (H x), IH by set_solver. done.
Qed.

Lemma sum_list_with_const {A} (n : nat) (l : list A) : sum_list_with (fun _ => n) l = n * length l.
Proof. induction l as [|x l IH]; simpl; lia. Qed.

Lemma collect_cost_length item :
  window_known (CostWindow item) -> Dimension_wf (CostDimension item) ->
  length (collect_cost collector item) = 1.
Proof.
  intros Hw [_ Hk]. unfold collect_cost.
  assert (exists d, cc_indexed collector !! (CostWindow item, Kind (CostDimension item)) = Some d)
    as [d ->]; [|done].
  destruct Hw as [-> | ->], Hk as [[-> _]|[[->|[->| ->]] _]]; vm_compute; eauto.
Qed.

(** a snapshot the store validated is exposed without duplicate time series: no two
    metrics [CostCollector.Collect] emits share both description and label values, so a
    scrape is consistent. *)
Theorem Collect_unique_series s :
  ValidateUnique s = Ok tt -> publishable s ->
  NoDup (map series_of (snapshot_metrics NewCostCollector s)).
Proof. intros [_ Hnd]%ValidateUnique_ok. by apply Collect_distinct. Qed.

(** [SeriesCount] counts exactly the metrics the snapshot is exposed as. *)
Theorem Collect_SeriesCount s :
  publishable s -> length (snapshot_metrics NewCostCollector s) = SeriesCount s.
Proof.
  intros [Hc _ _]. unfold snapshot_metrics. unfold SeriesCount. rewrite !length_app.
  rewrite (length_flat_map_ext (collect_cost collector) (fun _ => 1))
    by (intros x Hx; by apply collect_cost_length; apply Hc).
  rewrite (length_flat_map_ext (collect_forecast collector) (fun _ => 3)) by done.
  rewrite (length_flat_map_ext (collect_account collector) (fun _ => 1)) by done.
  rewrite (length_flat_map_ext (collect_tag collector) (fun _ => 1)) by done.
  rewrite (length_flat_map_ext (collect_budget collector) budget_series)
    by (intros x _; unfold budget_series; simpl; by destruct (Actual x), (Forecasted x)).
  rewrite (length_flat_map_ext (collectCommitment collector) commitment_series).
  2: { intros x _. unfold commitment_series, collectCommitment.
       cbn [cc_commitments NewCostCollector]. rewrite !length_app. unfold opt_metric, has.
       repeat case_match; reflexivity. }
  rewrite (length_flat_map_ext (collect_anomaly collector) anomaly_series).
  2: { intros x _. unfold anomaly_series, collect_anomaly.
       cbn [cc_anomalies NewCostCollector]. by destruct (Impact x), (IsZero _). }
  rewrite !sum_list_with_const. lia.
Qed.

Lemma indexed_described w k d :
  cc_indexed collector !! (w, k) = Some d ->
  d ∈ CostCollector_Describe collector /\
  length (variableLabels d) = if bool_decide (k = DimensionTotal) then 4 else 5.
Proof.
  rewrite indexed_lookup. unfold cost_definitions. rewrite !elem_of_cons. intros E.
  split; repeat (destruct E as [[= -> -> ->]|E];
    [first [reflexivity | apply list_elem_of_In; vm_compute; tauto]|]); set_solver.
Qed.

Definition described (m : Metric) : Prop :=
  m_desc m ∈ CostCollector_Describe collector /\
  length (m_labels m) = length (variableLabels (m_desc m)).

Ltac solve_described :=
  split; [apply list_elem_of_In; vm_compute; tauto|reflexivity].

Lemma cost_described item m : m ∈ collect_cost collector item -> described m.
Proof.
  unfold collect_cost. destruct (_ !! _) as [d|] eqn:E; [|set_solver].
  intros ->%list_elem_of_singleton. apply indexed_described in E as [Hd Hl].
  split; cbn [m_desc m_labels]; [done|]. rewrite Hl. by case_bool_decide.
Qed.

(** every metric [Collect] emits, for any snapshot, has a description announced by
    [Describe] and one label value per label name of it, so [MustNewConstMetric] does not panic
    on the label count; and the announced metric names are pairwise distinct. *)
Theorem Collect_described s m :
  m ∈ snapshot_metrics NewCostCollector s ->
  (m_desc m ∈ CostCollector_Describe NewCostCollector /\
   length (m_labels m) = length (variableLabels (m_desc m))) /\
  NoDup (map fqName (CostCollector_Describe NewCostCollector)).
Proof.
  intros Hm. split; [|apply (bool_decide_unpack _); vm_compute; exact I].
  change (described m). unfold snapshot_metrics in Hm.
  repeat (apply elem_of_app in Hm as [Hm|Hm]); apply elem_of_flat_map in Hm as (x & _ & Hm).
  1: by apply (cost_described x).
  all: emitted Hm; subst; try solve_described.
  all: try (case_bool_decide; solve_described).
Qed.

(** Whatever the snapshot, every metric has a valid description and a value for each label. *)
Lemma snapshot_well_labelled s : Forall well_labelled (snapshot_metrics NewCostCollector s).
Proof.
  assert (Hvalid : forallb Desc_valid (CostCollector_Describe NewCostCollector) = true) by (vm_compute; reflexivity).
  rewrite forallb_elem_of in Hvalid. apply Forall_forall. intros m Hm.
  destruct (Collect_described s m Hm) as [[Hd Hl] _]. split; [by apply Hvalid|done].
Qed.

(** [Collect] panics on a snapshot with a label that is not valid UTF-8, and on no other. *)
Lemma Collect_panics NewConstMetric s :
  ConstMetricLaws NewConstMetric ->
  panicked (CostCollector_Collect NewConstMetric NewCostCollector s) = true <->
  exists m label, m ∈ snapshot_metrics NewCostCollector s /\ label ∈ m_labels m /\ utf8_ValidString label = false.
Proof.
  intros Hlaws. rewrite Collect_sends, (send_all_panics _ Hlaws) by apply snapshot_well_labelled.
  rewrite negb_true_iff, forallb_not. unfold exposable. setoid_rewrite forallb_not. naive_solver.
Qed.

(** ** A concrete run *)

Definition sample_snapshot : Snapshot := Merge [sample_part1; sample_part2].

Lemma publishable_decide s :
  forallb (fun c => bool_decide (window_known (CostWindow c)) &&
    bool_decide (Dimension_wf (CostDimension c))) (costs s) &&
  forallb (fun f => bool_decide (currency (LowerBound f) = currency (Mean f)) &&
    bool_decide (currency (UpperBound f) = currency (Mean f))) (forecasts s) &&
  forallb (fun t => bool_decide (window_known (TagWindow t))) (tagCosts s) = true ->
  publishable s.
Proof.
  rewrite !andb_true_iff, !forallb_and, !andb_true_iff, !forallb_decide.
  intros [[[H1 H2] [H3 H4]] H5]. split; auto.
Qed.

Lemma sample_publishable : publishable sample_snapshot.
Proof. apply publishable_decide. vm_compute; reflexivity. Qed.

Lemma Collect_unique_series_witness :
  ValidateUnique sample_snapshot = Ok tt /\
  NoDup (map series_of (snapshot_metrics NewCostCollector sample_snapshot)).
Proof.
  assert (Hv : ValidateUnique sample_snapshot = Ok tt) by (vm_compute; reflexivity).
  split; [done|]. exact (Collect_unique_series _ Hv sample_publishable).
Defined.

Lemma Collect_SeriesCount_witness :
  length (snapshot_metrics NewCostCollector sample_snapshot) = 18.
Proof.
  rewrite (Collect_SeriesCount _ sample_publishable). vm_compute; reflexivity.
Defined.

Lemma Collect_described_witness :
  exists m, m ∈ snapshot_metrics NewCostCollector sample_snapshot /\
  m_desc m ∈ CostCollector_Describe NewCostCollector.
Proof.
  destruct (snapshot_metrics NewCostCollector sample_snapshot) as [|m ms] eqn:E;
    [by vm_compute in E|].
  assert (Hm : m ∈ snapshot_metrics NewCostCollector sample_snapshot) by (rewrite E; by left).
  exists m. split; [rewrite <- E; exact Hm|].
  exact (proj1 (proj1 (Collect_described sample_snapshot m Hm))).
Defined.

(** the key of [ValidateUnique] joins label values with a bar without escaping it:
    two tag costs whose exposed label values differ are refused as duplicates when a value
    holds a bar. *)
Theorem ValidateUnique_bar_collision :
  let s := NewWithData [] [] [] [] [] [] [sample_tag "a|b" "c"; sample_tag "a" "b|c"] in
  publishable s /\ NoDup (map series_of (snapshot_metrics NewCostCollector s)) /\
  ValidateUnique s = Err (Wrapped "duplicate metric label set" ErrInvalidSnapshot).
Proof.
  intros s. split; [apply publishable_decide; vm_compute; reflexivity|].
  split; [|vm_compute; reflexivity]. apply (NoDup_fmap_1 snd). vm_compute.
  repeat constructor; rewrite ?elem_of_cons, ?elem_of_nil; intuition discriminate.
Qed.
