(* ===== verification/Collectors.v ===== *)
(** * Collectors (internal/collector and its packages)

    A collector reads one family of data through a reader and answers with a partial snapshot of
    its target.  The readers are interfaces of the program: here records of calls, with the laws
    a client relies on; [CostExplorer] discharges them for the Cost Explorer adapters. *)

From S2P Require Import Prelude SliceStable GoStrings GoFloat GoTime Errors Effects Domain Snapshot Ports PromClient Metrics Cardinality.
Local Open Scope string_scope.
Local Open Scope list_scope.

(** [collector.Collector]. *)
Record Collector (W : Type) := mkCollector {
  ID : CollectorID;
  Collect : Time -> io W Snapshot
}.
Arguments mkCollector {W} _ _.
Arguments ID {W} _.
Arguments Collect {W} _ _ _.

(** ** Registry (registry.go) *)

Definition ErrInvalidRegistration : error := Sentinel "invalid collector registration".
Definition ErrDuplicateRegistration : error := Sentinel "duplicate collector registration".
Definition ErrUnknownCollector : error := Sentinel "unknown collector".

Section Registry.
Context {W : Type}.

(** A factory answers with a collector, possibly nil, or an error. *)
Definition Factory : Type := unit -> res (option (Collector W)).

Record Registry := mkRegistry { factories : gmap string Factory }.

Definition NewRegistry : Registry := mkRegistry ∅.

Definition Register (registry : Registry) (name : string) (factory : option Factory) :
    res unit * Registry :=
  let name := TrimSpace name in
  if bool_decide (name = "") then (Err ErrInvalidRegistration, registry) else
  match factory with
  | None => (Err ErrInvalidRegistration, registry)
  | Some factory =>
      match factories registry !! name with
      | Some _ => (Err (Wrapped name ErrDuplicateRegistration), registry)
      | None => (Ok tt, mkRegistry (<[ name := factory ]> (factories registry)))
      end
  end.

Fixpoint Build (registry : Registry) (names : list string) : res (list (Collector W)) :=
  match names with
  | [] => Ok []
  | name :: names =>
      match factories registry !! name with
      | None => Err (Wrapped name ErrUnknownCollector)
      | Some factory =>
          match factory tt with
          | Err err => Err (Wrapped "construct collector" err)
          | Ok None => Err (Wrapped "mismatched collector" ErrInvalidRegistration)
          | Ok (Some instance) =>
              fail_if negb (CollectorID_Valid (ID instance)) ||
                      negb (bool_decide (ID_Name (ID instance) = name))
                with_ Wrapped "mismatched collector" ErrInvalidRegistration ;;
              built ← Build registry names;
              Ok (instance :: built)
          end
      end
  end.
End Registry.
Arguments Registry W : clear implicits.
Arguments Factory W : clear implicits.

(** ** Queries (queries.go) *)

Definition daily_and_mtd (day month : Period) (groupBy : DimensionKind) : res (list CostQuery) :=
  match NewPeriod (Start month) (End_ day) with
  | Err err => Err (Wrapped "build month-to-date period" err)
  | Ok monthToDate =>
      Ok [mkCostQuery day WindowDaily "" groupBy [] [] [];
          mkCostQuery monthToDate WindowMonthToDate "" groupBy [] [] []]
  end.

Definition BuildDailyAndMTDQueries (reference : Time) (groupBy : DimensionKind) :
    res (list CostQuery) :=
  daily_and_mtd (DayContaining reference) (MonthContaining reference) groupBy.

(** ** Grouped collection (grouped.go) *)

Definition ValidateOverflowLabel (label : string) : res unit :=
  fail_if bool_decide (TrimSpace label = "") with_ ErrInvalidOverflowLabel ;; Ok tt.

Definition set_cost_target (target : TargetID) (c : Cost) : Cost :=
  mkCost target (CostProvider c) (CostBasis c) (CostWindow c) (CostPeriod c) (CostDimension c)
    (CostAmount c).

Section Grouped.
Context {W : Type} `{World W}.

(** [GroupedReader] has one method. *)
Definition GroupedReader : Type := CostQuery -> io W (list Cost).

(** A call that answers a result and reports overflow events on the way. *)
Definition with_events {A} (r : res A * events) : io W A :=
  _ ← observe_all (snd r); lift (fst r).

(** The body of the loop over the two queries. *)
Definition grouped_window (target : TargetID) (seriesLimit : Z) (overflowLabel : string)
    (reader : GroupedReader) (mutate : CostQuery -> CostQuery) (validate : list Cost -> res unit)
    (observers : nat) (query : CostQuery) : io W (list Cost) :=
  let query := mutate query in
  _ ← check_ctx;
  values ← io_map_err (Wrapped "collect cost") (reader query);
  _ ← lift (map_err (Wrapped "validate cost") (validate values));
  values ← io_map_err (Wrapped "limit cost")
    (with_events (LimitDimensions values seriesLimit overflowLabel observers));
  mret (map (set_cost_target target) values).

Definition CollectGrouped (reference : Time) (target : TargetID) (groupBy : DimensionKind)
    (seriesLimit : Z) (overflowLabel : string) (reader : GroupedReader)
    (mutate : CostQuery -> CostQuery) (validate : list Cost -> res unit) (observers : nat) :
    io W Snapshot :=
  _ ← lift (ValidateOverflowLabel overflowLabel);
  queries ← lift (BuildDailyAndMTDQueries reference groupBy);
  collected ← io_each
    (grouped_window target seriesLimit overflowLabel reader mutate validate observers) queries;
  mret (snapshot_New collected [] [] []).

(** *** Service and region collectors *)

Definition ErrNilReader_service : error := Sentinel "service cost reader must not be nil".
Definition ErrNilReader_region : error := Sentinel "region cost reader must not be nil".

(** The constructor both packages share but for the name and the message. *)
Definition grouped_NewForTarget (nil_reader : error) (name : string) (groupBy : DimensionKind)
    (target : TargetID) (reader : option GroupedReader) (seriesLimit : Z) (overflowLabel : string)
    (observers : nat) : res (Collector W) :=
  match reader with
  | None => Err nil_reader
  | Some reader =>
      fail_if (seriesLimit <=? 0)%Z with_ ErrInvalidSeriesLimit ;;
      match ValidateOverflowLabel overflowLabel with
      | Err _ => Err ErrInvalidOverflowLabel
      | Ok _ =>
          Ok (mkCollector (mkCollectorID target name) (fun reference =>
            CollectGrouped reference target groupBy seriesLimit overflowLabel reader
              (fun query => query) (fun _ => Ok tt) observers))
      end
  end.

Definition service_NewForTarget := grouped_NewForTarget ErrNilReader_service "service" DimensionService.
Definition region_NewForTarget := grouped_NewForTarget ErrNilReader_region "region" DimensionRegion.

(** *** Account collector *)

Definition ErrNilReader_account : error := Sentinel "account cost reader must not be nil".
Definition ErrInvalidAccountID : error := Sentinel "invalid linked account ID".

Definition validAccountID (value : string) : bool :=
  bool_decide (String.length value = 12) && forallb is_digit (bytes value).

Definition validateAccountCosts (values : list Cost) : res unit :=
  fail_if existsb (fun value =>
            negb (bool_decide (Kind (CostDimension value) = DimensionAccount)) ||
            negb (validAccountID (Value (CostDimension value)))) values
    with_ ErrInvalidAccountID ;; Ok tt.

Definition set_linked_accounts (accounts : list string) (q : CostQuery) : CostQuery :=
  mkCostQuery (q_Period q) (q_Window q) (q_Basis q) (q_GroupBy q) accounts (q_Services q)
    (q_Regions q).

Definition account_NewForTarget (target : TargetID) (reader : option GroupedReader)
    (linkedAccountIDs : list string) (seriesLimit : Z) (overflowLabel : string) (observers : nat) :
    res (Collector W) :=
  match reader with
  | None => Err ErrNilReader_account
  | Some reader =>
      fail_if (seriesLimit <=? 0)%Z with_ ErrInvalidSeriesLimit ;;
      match ValidateOverflowLabel overflowLabel with
      | Err _ => Err ErrInvalidOverflowLabel
      | Ok _ =>
          fail_if negb (forallb validAccountID linkedAccountIDs) with_ ErrInvalidAccountID ;;
          Ok (mkCollector (mkCollectorID target "account") (fun reference =>
            CollectGrouped reference target DimensionAccount seriesLimit overflowLabel reader
              (set_linked_accounts linkedAccountIDs) validateAccountCosts observers))
      end
  end.

(** *** Total collector *)

Definition ErrNilReader_total : error := Sentinel "total cost reader must not be nil".

Definition total_window (target : TargetID) (reader : GroupedReader) (query : CostQuery) :
    io W (list Cost) :=
  _ ← check_ctx;
  values ← io_map_err (Wrapped "collect total cost") (reader query);
  mret (map (set_cost_target target) values).

Definition total_Collect (target : TargetID) (reader : GroupedReader) (reference : Time) :
    io W Snapshot :=
  queries ← lift (BuildDailyAndMTDQueries reference DimensionTotal);
  collected ← io_each (total_window target reader) queries;
  mret (snapshot_New collected [] [] []).

Definition total_NewForTarget (target : TargetID) (reader : option GroupedReader) :
    res (Collector W) :=
  match reader with
  | None => Err ErrNilReader_total
  | Some reader =>
      let id := mkCollectorID target "total" in
      fail_if negb (CollectorID_Valid id) with_ ErrorString "invalid total collector target" ;;
      Ok (mkCollector id (total_Collect target reader))
  end.

(** *** Forecast collector *)

Definition ErrNilReader_forecast : error := Sentinel "forecast reader must not be nil".
Definition ErrInvalidPredictionInterval : error :=
  Sentinel "prediction interval must be between 80 and 99".

Definition set_forecast_target (target : TargetID) (f : Forecast) : Forecast :=
  mkForecast target (ForecastProvider f) (ForecastBasis f) (ForecastPeriod f) (Mean f)
    (LowerBound f) (UpperBound f).

Definition forecast_Collect (target : TargetID) (reader : ForecastQuery -> io W Forecast)
    (predictionInterval : Z) (reference : Time) : io W Snapshot :=
  let day := DayContaining reference in
  let month := MonthContaining reference in
  period ← lift (map_err (Wrapped "build forecast period") (NewPeriod (Start day) (End_ month)));
  value ← io_map_err (Wrapped "collect forecast")
    (reader (mkForecastQuery period "" predictionInterval [] [] []));
  mret (snapshot_New [] [set_forecast_target target value] [] []).

Definition forecast_NewForTarget (target : TargetID)
    (reader : option (ForecastQuery -> io W Forecast)) (predictionInterval : Z) :
    res (Collector W) :=
  match reader with
  | None => Err ErrNilReader_forecast
  | Some reader =>
      fail_if (predictionInterval <? 80)%Z || (99 <? predictionInterval)%Z
        with_ ErrInvalidPredictionInterval ;;
      Ok (mkCollector (mkCollectorID target "forecast")
            (forecast_Collect target reader predictionInterval))
  end.

(** *** The constructors for the target of a single-target program *)

Definition service_New := service_NewForTarget "default".
Definition region_New := region_NewForTarget "default".
Definition account_New := account_NewForTarget "default".
Definition total_New := total_NewForTarget "default".
Definition forecast_New := forecast_NewForTarget "default".
End Grouped.
Arguments GroupedReader W : clear implicits.

(** Conversion unfolds the collectors' own steps before the calendar. *)
#[global] Strategy expand [total_Collect forecast_Collect CollectGrouped].
#[global] Strategy 1000 [DayContaining MonthContaining BuildDailyAndMTDQueries daily_and_mtd].

(** ** Queries *)

(** The queries never fail: the day of the reference lies in its month. *)
Lemma daily_and_mtd_ok day month groupBy :
  (Start month < End_ day)%Z ->
  exists q1 q2, daily_and_mtd day month groupBy = Ok [q1; q2] /\
    q_Window q1 = WindowDaily /\ q_Window q2 = WindowMonthToDate /\
    q_GroupBy q1 = groupBy /\ q_GroupBy q2 = groupBy /\
    q_Period q1 = day /\ Start (q_Period q2) = Start month /\ End_ (q_Period q2) = End_ day.
Proof.
  intros Hlt. unfold daily_and_mtd, NewPeriod, Before. rewrite (proj2 (Z.ltb_lt _ _) Hlt). simpl.
  eexists _, _. split; [reflexivity|]. done.
Qed.

Lemma BuildQueries_periods reference groupBy :
  exists q1 q2, BuildDailyAndMTDQueries reference groupBy = Ok [q1; q2] /\
    q_Window q1 = WindowDaily /\ q_Window q2 = WindowMonthToDate /\
    q_GroupBy q1 = groupBy /\ q_GroupBy q2 = groupBy /\
    q_Period q1 = DayContaining reference /\
    Start (q_Period q2) = Start (MonthContaining reference) /\
    End_ (q_Period q2) = End_ (DayContaining reference).
Proof.
  apply daily_and_mtd_ok. pose proof (periods_nested reference) as (? & [? ?] & _ & _). lia.
Qed.

Lemma BuildQueries_two reference groupBy :
  exists q1 q2, BuildDailyAndMTDQueries reference groupBy = Ok [q1; q2] /\
    q_Window q1 = WindowDaily /\ q_Window q2 = WindowMonthToDate /\
    q_GroupBy q1 = groupBy /\ q_GroupBy q2 = groupBy.
Proof.
  destruct (BuildQueries_periods reference groupBy) as (q1 & q2 & HB & ? & ? & ? & ? & _).
  exists q1, q2. done.
Qed.

Lemma NewPeriod_ok start end_ : (start < end_)%Z -> NewPeriod start end_ = Ok (mkPeriod start end_).
Proof. intros Hlt. unfold NewPeriod, Before. by rewrite (proj2 (Z.ltb_lt _ _) Hlt). Qed.

Lemma forecast_period_some reference :
  exists period,
    NewPeriod (Start (DayContaining reference)) (End_ (MonthContaining reference)) = Ok period.
Proof.
  eexists. apply NewPeriod_ok. pose proof (periods_nested reference) as (? & [? ?] & ? & _). lia.
Qed.

(** ** Contracts *)

(** What a cost reader promises of the answer to a query. *)
Definition cost_ok (q : CostQuery) (v : Cost) : Prop :=
  Provider_Valid (CostProvider v) = true /\ Basis_Valid (CostBasis v) = true /\
  CostWindow v = q_Window q /\ Kind (CostDimension v) = q_GroupBy q /\
  Dimension_wf (CostDimension v) /\ Money_wf (CostAmount v).

Class CostReaderLaws {W} (reader : GroupedReader W) : Prop :=
  reader_costs_ok q w vs w' : reader q w = (Ok vs, w') -> Forall (cost_ok q) vs.

(** What a forecast reader promises. *)
Definition forecast_ok (f : Forecast) : Prop :=
  identity_valid (ForecastProvider f) (ForecastBasis f) = true /\
  currency (LowerBound f) = currency (Mean f) /\ currency (UpperBound f) = currency (Mean f) /\
  fleb (amount (LowerBound f)) (amount (Mean f)) = true /\
  fleb (amount (Mean f)) (amount (UpperBound f)) = true.

Class ForecastReaderLaws {W} (reader : ForecastQuery -> io W Forecast) : Prop :=
  reader_forecast_ok q w f w' : reader q w = (Ok f, w') -> forecast_ok f.

(** What every collector promises the store of a partial it answers with: it passes
    [ValidatePartial] for the collector's target, and it can be published and exposed. *)
Definition publishes {W} (c : Collector W) : Prop :=
  forall reference w p w', Collect c reference w = (Ok p, w') ->
    ValidatePartial p (ID_Target (ID c)) = Ok tt /\ publishable p /\ snapshot_sorted p.

Class CollectorContract {W} (c : Collector W) : Prop := collector_publishes : publishes c.

(** A cost fit to be published for a target. *)
Definition cost_publishable (target : TargetID) (v : Cost) : Prop :=
  CostTarget v = target /\ identity_valid (CostProvider v) (CostBasis v) = true /\
  window_known (CostWindow v) /\ Dimension_wf (CostDimension v).

(** Partials that hold costs only. *)
Lemma snapshot_costs_publishes target cs :
  Forall (cost_publishable target) cs ->
  let p := snapshot_New cs [] [] [] in
  ValidatePartial p target = Ok tt /\ publishable p /\ snapshot_sorted p.
Proof.
  intros Hcs p. rewrite Forall_forall in Hcs.
  assert (Hin : forall v, v ∈ costs p <-> v ∈ cs) by (intros v; apply elem_of_SliceStable).
  split; [|split; [|apply NewWithData_sorted]].
  - apply ValidatePartial_ok. repeat split; try (intros i Hi; by apply not_elem_of_nil in Hi).
    + unfold valid_identities. rewrite !andb_true_iff. repeat split; try done.
      apply forallb_elem_of. intros v Hv%Hin. by apply Hcs.
    + intros v Hv%Hin. by apply Hcs.
  - split; [|intros f Hf; by apply not_elem_of_nil in Hf|intros t Ht; by apply not_elem_of_nil in Ht].
    intros c Hc%Hin. split; by apply Hcs.
Qed.

Lemma cost_ok_publishable target q v :
  window_known (q_Window q) -> cost_ok q v -> cost_publishable target (set_cost_target target v).
Proof.
  intros Hw (Hp & Hb & Hwin & _ & Hd & _). unfold cost_publishable, identity_valid. simpl.
  rewrite Hp, Hb, Hwin. done.
Qed.

(** A limited answer is still an answer to the query. *)
Lemma limited_ok q values r limit other :
  q_GroupBy q <> DimensionTotal -> TrimSpace other = other -> other <> "" ->
  bounded_dimensions values r limit other -> Forall (cost_ok q) values -> Forall (cost_ok q) r.
Proof.
  intros Hk Ht Hne [_ Hb] Hok. apply Forall_forall. intros v Hv.
  assert (Hall : Forall (cost_ok q) (group_values (group_of v) r)).
  { eapply bounded_group_forall; [|apply Hb|].
    - unfold cost_ok. simpl. intros c t (Hp & Hba & Hw & Hkind & [_ Hd] & (_ & Hcur)) Hfin.
      repeat (split; [done|]). split; [|by split].
      split; [done|]. simpl. right. split; [|done].
      destruct Hd as [[Hc _]|[Hc _]]; [congruence|exact Hc].
    - rewrite Forall_forall in Hok |- *. intros w [Hw _]%group_values_elem. auto. }
  rewrite Forall_forall in Hall. apply Hall. by apply group_values_elem.
Qed.

Lemma io_each_two {W A B} (f : A -> io W (list B)) a1 a2 w r w' :
  io_each f [a1; a2] w = (Ok r, w') ->
  exists r1 r2 w1, f a1 w = (Ok r1, w1) /\ f a2 w1 = (Ok r2, w') /\ r = r1 ++ r2.
Proof.
  simpl. intros H. inv_io. eexists _, _, _. split; [eassumption|]. split; [eassumption|].
  by rewrite app_nil_r.
Qed.

Section Contracts.
Context {W : Type} `{World W}.

Lemma with_events_ok {A} (r : res A * events) (w : W) a w' :
  with_events r w = (Ok a, w') -> fst r = Ok a.
Proof. unfold with_events. intros Hr. inv_io. done. Qed.

Lemma ValidateOverflowLabel_ok label : ValidateOverflowLabel label = Ok tt -> TrimSpace label <> "".
Proof. unfold ValidateOverflowLabel. intros Hr. inv_ok. by inv_bool. Qed.

(** One query of a grouped collection: a limited answer to the query. *)
Lemma grouped_window_ok target limit label (reader : GroupedReader W) mutate validate observers
    `{!CostReaderLaws reader} q w r w' :
  q_GroupBy (mutate q) <> DimensionTotal ->
  grouped_window target limit label reader mutate validate observers q w = (Ok r, w') ->
  exists r0 vs, r = map (set_cost_target target) r0 /\ validate vs = Ok tt /\
    Forall (cost_ok (mutate q)) r0 /\ bounded_dimensions vs r0 limit (TrimSpace label).
Proof.
  intros Hk Hr. unfold grouped_window in Hr.
  apply io_bind_ok in Hr as ([] & w1 & _ & Hr).
  apply io_bind_ok in Hr as (vs & w2 & Hvs%io_map_err_ok & Hr).
  apply io_bind_ok in Hr as ([] & w3 & [Hval%map_err_ok ->]%lift_ok & Hr).
  apply io_bind_ok in Hr as (r0 & w4 & Hlim%io_map_err_ok%with_events_ok & [-> ->]%io_ret_ok).
  apply reader_costs_ok in Hvs.
  destruct (LimitDimensions vs limit label observers) as [lim evs] eqn:E. simpl in Hlim. subst lim.
  exists r0, vs. split; [done|]. split; [done|].
  apply LimitDimensions_bounded in E as (_ & Hne & _ & Hb).
  - split; [|done]. eapply limited_ok; [done|apply TrimSpace_idemp|exact Hne|exact Hb|exact Hvs].
  - eapply Forall_impl; [exact Hvs|]. by intros v (_ & _ & _ & _ & _ & Hm).
Qed.

(** Each of the two answers a grouped collection is made of. *)
Lemma CollectGrouped_ok reference target groupBy limit label (reader : GroupedReader W) mutate
    validate observers `{!CostReaderLaws reader} w p w' :
  groupBy <> DimensionTotal ->
  (forall q, q_GroupBy (mutate q) = q_GroupBy q /\ q_Window (mutate q) = q_Window q) ->
  CollectGrouped reference target groupBy limit label reader mutate validate observers w = (Ok p, w') ->
  exists q1 q2 r1 r2 vs1 vs2,
    q_Window q1 = WindowDaily /\ q_Window q2 = WindowMonthToDate /\
    p = snapshot_New (map (set_cost_target target) (r1 ++ r2)) [] [] [] /\
    Forall (cost_ok q1) r1 /\ Forall (cost_ok q2) r2 /\
    bounded_dimensions vs1 r1 limit (TrimSpace label) /\
    bounded_dimensions vs2 r2 limit (TrimSpace label) /\
    validate vs1 = Ok tt /\ validate vs2 = Ok tt.
Proof.
  intros Hk Hmut Hc. unfold CollectGrouped in Hc.
  destruct (BuildQueries_two reference groupBy) as (q1 & q2 & HB & Hw1 & Hw2 & Hg1 & Hg2).
  rewrite HB in Hc. apply io_bind_ok in Hc as ([] & w1 & _ & Hc).
  apply io_bind_ok in Hc as (qs & w2 & [<-%Ok_inj ->]%lift_ok & Hc).
  apply io_bind_ok in Hc as (cs & w3 & (c1 & c2 & w4 & H1 & H2 & ->)%io_each_two & [-> ->]%io_ret_ok).
  apply grouped_window_ok in H1 as (r1 & vs1 & -> & Hv1 & Hok1 & Hb1); [|done|by rewrite (proj1 (Hmut _)), Hg1].
  apply grouped_window_ok in H2 as (r2 & vs2 & -> & Hv2 & Hok2 & Hb2); [|done|by rewrite (proj1 (Hmut _)), Hg2].
  eexists _, _, r1, r2, vs1, vs2. rewrite map_app.
  split; [|split; [|split; [reflexivity|split; [exact Hok1|split; [exact Hok2|done]]]]];
    by rewrite (proj2 (Hmut _)), ?Hw1, ?Hw2.
Qed.

(** The same for every grouped collector, with the promise to the store. *)
Lemma CollectGrouped_publishes reference target groupBy limit label (reader : GroupedReader W) mutate
    validate observers `{!CostReaderLaws reader} w p w' :
  groupBy <> DimensionTotal ->
  (forall q, q_GroupBy (mutate q) = q_GroupBy q /\ q_Window (mutate q) = q_Window q) ->
  CollectGrouped reference target groupBy limit label reader mutate validate observers w = (Ok p, w') ->
  ValidatePartial p target = Ok tt /\ publishable p /\ snapshot_sorted p.
Proof.
  intros Hk Hmut Hc. apply CollectGrouped_ok in Hc as
    (q1 & q2 & r1 & r2 & _ & _ & Hw1 & Hw2 & -> & H1 & H2 & _); [|done|done|done].
  apply snapshot_costs_publishes. rewrite map_app, Forall_app. rewrite Forall_forall in H1, H2.
  split; apply Forall_forall; intros v (u & Hu & <-)%elem_of_map.
  - apply (cost_ok_publishable _ q1); [by left|auto].
  - apply (cost_ok_publishable _ q2); [by right|auto].
Qed.

#[export] Instance grouped_contract nil_reader name groupBy target (reader : GroupedReader W) limit label
    observers c `{!CostReaderLaws reader} :
  groupBy <> DimensionTotal ->
  grouped_NewForTarget nil_reader name groupBy target (Some reader) limit label observers = Ok c ->
  CollectorContract c.
Proof.
  intros Hk Hc reference w p w' Hp. unfold grouped_NewForTarget in Hc.
  apply guard_ok in Hc as [_ Hc]. destruct (ValidateOverflowLabel label); [|done].
  injection Hc as <-. simpl in *. by eapply CollectGrouped_publishes in Hp.
Qed.

Lemma account_contract target (reader : GroupedReader W) accounts limit label observers c
    `{!CostReaderLaws reader} :
  account_NewForTarget target (Some reader) accounts limit label observers = Ok c ->
  CollectorContract c.
Proof.
  intros Hc reference w p w' Hp. unfold account_NewForTarget in Hc.
  apply guard_ok in Hc as [_ Hc]. destruct (ValidateOverflowLabel label); [|done].
  apply guard_ok in Hc as [_ [= <-]]. simpl in *. by eapply CollectGrouped_publishes in Hp.
Qed.

Lemma total_window_ok target (reader : GroupedReader W) `{!CostReaderLaws reader} q w r w' :
  window_known (q_Window q) -> total_window target reader q w = (Ok r, w') ->
  Forall (cost_publishable target) r.
Proof.
  intros Hw Hr. unfold total_window in Hr. apply io_bind_ok in Hr as ([] & w5 & _ & Hr).
  apply io_bind_ok in Hr as (vs & w6 & Hvs%io_map_err_ok & [-> ->]%io_ret_ok).
  apply reader_costs_ok in Hvs. rewrite Forall_forall in Hvs.
  apply Forall_forall. intros v (u & Hu & <-)%elem_of_map.
  by apply (cost_ok_publishable _ q); [|apply Hvs].
Qed.

Lemma total_Collect_publishes target (reader : GroupedReader W) `{!CostReaderLaws reader}
    reference w p w' :
  total_Collect target reader reference w = (Ok p, w') ->
  ValidatePartial p target = Ok tt /\ publishable p /\ snapshot_sorted p.
Proof.
  destruct (BuildQueries_two reference DimensionTotal) as (q1 & q2 & HB & Hw1 & Hw2 & _).
  unfold total_Collect. rewrite HB. clear HB. intros Hp.
  apply io_bind_ok in Hp as (qs & w2 & [<-%Ok_inj ->]%lift_ok & Hp).
  apply io_bind_ok in Hp as (cs & w3 & (c1 & c2 & w4 & H1 & H2 & ->)%io_each_two & [-> ->]%io_ret_ok).
  apply snapshot_costs_publishes, Forall_app. split.
  - apply (total_window_ok target reader q1 w c1 w4); [by left|done].
  - apply (total_window_ok target reader q2 w4 c2 w3); [by right|done].
Qed.

Lemma total_contract target (reader : GroupedReader W) c `{!CostReaderLaws reader} :
  total_NewForTarget target (Some reader) = Ok c -> CollectorContract c.
Proof.
  intros [_ [= <-]]%guard_ok reference w p w' Hp. by eapply total_Collect_publishes.
Qed.

Lemma forecast_Collect_publishes target reader interval `{!ForecastReaderLaws (W:=W) reader}
    reference w p w' :
  forecast_Collect target reader interval reference w = (Ok p, w') ->
  ValidatePartial p target = Ok tt /\ publishable p /\ snapshot_sorted p.
Proof.
  destruct (forecast_period_some reference) as [period Hperiod].
  unfold forecast_Collect. rewrite Hperiod. clear Hperiod. intros Hp.
  apply io_bind_ok in Hp as (pd & w2 & [<-%Ok_inj ->]%lift_ok & Hp).
  apply io_bind_ok in Hp as (f & w3 & Hf%io_map_err_ok & [-> ->]%io_ret_ok).
  apply reader_forecast_ok in Hf as (Hid & Hl & Hu & _). split; [|split; [|apply NewWithData_sorted]].
  - apply ValidatePartial_ok. unfold valid_identities. simpl. rewrite Hid.
    split; [done|]. repeat split; try (intros i Hi; by apply not_elem_of_nil in Hi).
    by intros i ->%list_elem_of_singleton.
  - split; [intros i Hi; by apply not_elem_of_nil in Hi| |intros i Hi; by apply not_elem_of_nil in Hi].
    by intros i ->%list_elem_of_singleton.
Qed.

Lemma forecast_contract target reader interval c `{!ForecastReaderLaws (W:=W) reader} :
  forecast_NewForTarget target (Some reader) interval = Ok c -> CollectorContract c.
Proof.
  intros [_ [= <-]]%guard_ok reference w p w' Hp. by eapply forecast_Collect_publishes.
Qed.
End Contracts.

(** ** Properties *)

Definition in_window (w : Window) (key : string) (v : Cost) : bool :=
  bool_decide (CostWindow v = w) && bool_decide (group_of v = key).

Lemma window_group_length w key l :
  length (List.filter (in_window w key) l) <= length (group_values key l).
Proof.
  induction l as [|v l IH]; simpl; [done|]. unfold in_window, group_values in *. simpl.
  destruct (bool_decide (CostWindow v = w)), (bool_decide (group_of v = key)); simpl; lia.
Qed.

Lemma window_none w w' key l :
  (forall v, v ∈ l -> CostWindow v = w') -> w <> w' -> List.filter (in_window w key) l = [].
Proof.
  intros Hl Hne. apply filter_none. intros v Hv. unfold in_window.
  rewrite bool_decide_false; [done|]. rewrite (Hl v Hv). congruence.
Qed.

Lemma filter_map_target w key target l :
  length (List.filter (in_window w key) (map (set_cost_target target) l)) =
  length (List.filter (in_window w key) l).
Proof.
  induction l as [|v l IH]; simpl; [done|].
  assert (in_window w key (set_cost_target target v) = in_window w key v) as -> by done.
  destruct (in_window w key v); simpl; lia.
Qed.

(** the two queries of every cost collector always exist: the UTC day of the reference
    and the month to the end of that day, both non-empty, the day being the end of the month to
    date, and the reference inside both. *)
Theorem BuildDailyAndMTDQueries_spec reference groupBy :
  exists daily mtd, BuildDailyAndMTDQueries reference groupBy = Ok [daily; mtd] /\
    q_Window daily = WindowDaily /\ q_Window mtd = WindowMonthToDate /\
    q_GroupBy daily = groupBy /\ q_GroupBy mtd = groupBy /\
    (Start (q_Period mtd) <= Start (q_Period daily) <= reference)%Z /\
    (reference < End_ (q_Period daily))%Z /\ End_ (q_Period mtd) = End_ (q_Period daily) /\
    End_ (q_Period daily) = (Start (q_Period daily) + day_ns)%Z /\
    Day (Start (q_Period mtd)) = 1%Z /\ Month (Start (q_Period mtd)) = Month reference.
Proof.
  destruct (BuildQueries_periods reference groupBy) as (q1 & q2 & HB & ? & ? & ? & ? & Hp1 & Hp2 & Hp3).
  exists q1, q2. rewrite Hp1, Hp2, Hp3.
  pose proof (periods_nested reference) as (? & [? ?] & _ & ?).
  pose proof (Month_start_fields reference) as [? ?]. tauto.
Qed.

(** given readers that keep their promises, whatever a service, region, account,
    total or forecast collector answers with passes the store's [ValidatePartial] for the
    collector's own target and can be exposed as metrics. *)
Theorem cost_collectors_publish {W} `{World W} target (reader : GroupedReader W)
    (freader : ForecastQuery -> io W Forecast) :
  CostReaderLaws reader -> ForecastReaderLaws freader ->
  (forall limit label obs c, service_NewForTarget target (Some reader) limit label obs = Ok c ->
     publishes c) /\
  (forall limit label obs c, region_NewForTarget target (Some reader) limit label obs = Ok c ->
     publishes c) /\
  (forall accounts limit label obs c,
     account_NewForTarget target (Some reader) accounts limit label obs = Ok c -> publishes c) /\
  (forall c, total_NewForTarget target (Some reader) = Ok c -> publishes c) /\
  (forall interval c, forecast_NewForTarget target (Some freader) interval = Ok c -> publishes c).
Proof.
  intros Hr Hf. split; [|split; [|split; [|split]]].
  - intros limit label obs c Hc.
    by apply (grouped_contract ErrNilReader_service "service" DimensionService target reader limit label obs c).
  - intros limit label obs c Hc.
    by apply (grouped_contract ErrNilReader_region "region" DimensionRegion target reader limit label obs c).
  - intros accounts limit label obs c Hc. by eapply account_contract.
  - intros c Hc. by eapply total_contract.
  - intros interval c Hc. by eapply forecast_contract.
Qed.

(** the account collector never publishes more than [seriesLimit] costs per window,
    provider and basis, and every account it names is a twelve-digit id, or the overflow label. *)
Theorem account_collector_bounded {W} `{World W} target (reader : GroupedReader W) accounts limit
    label observers c reference w p w' :
  CostReaderLaws reader ->
  account_NewForTarget target (Some reader) accounts limit label observers = Ok c ->
  Collect c reference w = (Ok p, w') ->
  (forall window key, (Z.of_nat (length (List.filter (in_window window key) (costs p))) <= limit)%Z) /\
  forall v, v ∈ costs p ->
    validAccountID (Value (CostDimension v)) = true \/ Value (CostDimension v) = TrimSpace label.
Proof.
  intros Hlaws Hc Hp. unfold account_NewForTarget in Hc.
  apply guard_ok in Hc as [Hlim Hc]. destruct (ValidateOverflowLabel label); [|done].
  apply guard_ok in Hc as [_ [= <-]]. cbn [Collect] in Hp. inv_bool.
  apply CollectGrouped_ok in Hp as
    (q1 & q2 & r1 & r2 & vs1 & vs2 & Hw1 & Hw2 & -> & H1 & H2 & [_ Hb1] & [_ Hb2] & Hv1 & Hv2);
    [|done|done|done].
  rewrite Forall_forall in H1, H2.
  assert (Hl : forall key vs r, bounded_group (group_values key vs) (group_values key r) limit
    (TrimSpace label) -> (Z.of_nat (length (group_values key r)) <= limit)%Z)
    by (intros; by eapply bounded_group_length).
  split.
  - intros window key.
    assert (Hperm : costs (snapshot_New (map (set_cost_target target) (r1 ++ r2)) [] [] []) ≡ₚ
      map (set_cost_target target) (r1 ++ r2)) by apply SliceStable_perm.
    rewrite (Permutation_length (Permutation_List_filter _ _ _ Hperm)), filter_map_target,
      List.filter_app, length_app.
    pose proof (window_group_length window key r1). pose proof (window_group_length window key r2).
    pose proof (Hl key _ _ (Hb1 key)). pose proof (Hl key _ _ (Hb2 key)).
    destruct (decide (window = WindowDaily)) as [->|Hne].
    + rewrite (window_none WindowDaily WindowMonthToDate key r2); [simpl; lia| |done].
      intros v Hv. rewrite <- Hw2. by apply H2.
    + rewrite (window_none window WindowDaily key r1); [simpl; lia| |done].
      intros v Hv. rewrite <- Hw1. by apply H1.
  - assert (Hvals : forall vs r, validateAccountCosts vs = Ok tt ->
      (forall key, bounded_group (group_values key vs) (group_values key r) limit (TrimSpace label)) ->
      forall v, v ∈ r -> validAccountID (Value (CostDimension v)) = true \/
                         Value (CostDimension v) = TrimSpace label).
    { intros vs r Hv Hb v Hin. unfold validateAccountCosts in Hv. apply guard_ok in Hv as [Hv _].
      assert (Hall : Forall (fun v => validAccountID (Value (CostDimension v)) = true \/
        Value (CostDimension v) = TrimSpace label) (group_values (group_of v) r)).
      { eapply bounded_group_forall; [|apply Hb|].
        - intros u t _ _. by right.
        - apply Forall_forall. intros u [Hu _]%group_values_elem. left.
          rewrite <- not_true_iff_false, existsb_exists in Hv.
          destruct (validAccountID _) eqn:E; [done|]. destruct Hv. exists u.
          rewrite <- list_elem_of_In, E, orb_true_r. done. }
      rewrite Forall_forall in Hall. apply Hall. by apply group_values_elem. }
    intros v Hv. change (v ∈ SliceStable aggregateCostLess (map (set_cost_target target) (r1 ++ r2)))
      in Hv. rewrite elem_of_SliceStable in Hv.
    apply elem_of_map in Hv as (u & [Hu|Hu]%elem_of_app & <-); simpl; eauto.
Qed.

(** [Build] answers with one collector per requested name, in the requested order,
    each with a valid identity of that very name; a name without a factory, a failing factory
    or a mismatched product is an error. *)
Theorem Registry_Build_spec {W} (registry : Registry W) names :
  (forall cs, Build registry names = Ok cs ->
    map (fun c => ID_Name (ID c)) cs = names /\
    Forall (fun c => CollectorID_Valid (ID c) = true) cs) /\
  (forall name, name ∈ names -> factories registry !! name = None ->
    exists e, Build registry names = Err e).
Proof.
  split.
  - induction names as [|name names IH]; simpl; intros cs Hb; [by inv_ok|].
    destruct (factories registry !! name) as [factory|]; [|done].
    destruct (factory tt) as [[instance|]|]; [|done..].
    apply guard_ok in Hb as [Hg Hb]. inv_bool. apply bind_ok in Hb as (rest & Hr & [= <-]).
    destruct (IH rest Hr) as [Hn Hv]. split; [|by constructor]. simpl. congruence.
  - induction names as [|n names IH]; intros name Hin Hnone; [set_solver|]. cbn [Build].
    unfold Factory in *.
    apply elem_of_cons in Hin as [<-|Hin]; [rewrite Hnone; eauto|].
    destruct (IH name Hin Hnone) as [e He]. rewrite He. unfold guard_err.
    repeat case_match; by eexists.
Qed.

(** ** A concrete run *)

(** A world without state: the context is never canceled. *)
#[export] Instance unit_world : World unit := {
  ctx_Err := fun w => (None, w);
  observe_overflow := fun _ _ w => w;
  observe_page := fun _ _ w => w;
  observe_request := fun _ _ _ w => w
}.

(** A reader that answers every supported query with one cost. *)
Definition sample_reader : GroupedReader unit := fun q w =>
  match NewDimension (q_GroupBy q)
          (if bool_decide (q_GroupBy q = DimensionTotal) then "" else "111122223333") with
  | Err e => (Err e, w)
  | Ok d => (Ok [mkCost "" ProviderCostExplorer BasisUnblended (q_Window q) (q_Period q) d
                   (mkMoney (f64_of_Z 12) "USD")], w)
  end.

Lemma NewDimension_Kind k v d : NewDimension k v = Ok d -> Kind d = k.
Proof.
  unfold NewDimension. intros Hd. repeat case_match; inv_ok; try done; by injection Hd as <-.
Qed.

#[export] Instance sample_reader_laws : CostReaderLaws sample_reader.
Proof.
  intros q w vs w' Hr. unfold sample_reader in Hr. destruct (NewDimension _ _) as [d|] eqn:E; [|done].
  injection Hr as <- <-. apply Forall_singleton. unfold cost_ok.
  repeat (split; [reflexivity|]). split; [by eapply NewDimension_Kind|].
  split; [by eapply NewDimension_wf|]. split; [reflexivity|]. split; [discriminate|reflexivity].
Qed.

Definition sample_forecast_reader : ForecastQuery -> io unit Forecast := fun q w =>
  (Ok (mkForecast "" ProviderCostExplorer BasisNet (fq_Period q) (mkMoney (f64_of_Z 20) "USD")
         (mkMoney (f64_of_Z 10) "USD") (mkMoney (f64_of_Z 30) "USD")), w).

#[export] Instance sample_forecast_laws : ForecastReaderLaws sample_forecast_reader.
Proof. intros q w f w' [= <- <-]. unfold forecast_ok. repeat split; vm_compute; reflexivity. Qed.

Definition sample_account_collector : Collector unit :=
  mkCollector (mkCollectorID "prod" "account") (fun reference =>
    CollectGrouped reference "prod" DimensionAccount 5 "__other__" sample_reader
      (set_linked_accounts ["111122223333"]) validateAccountCosts 0).

Lemma sample_account_new :
  account_NewForTarget "prod" (Some sample_reader) ["111122223333"] 5 "__other__" 0 =
  Ok sample_account_collector.
Proof. reflexivity. Qed.

Lemma cost_collectors_publish_witness :
  account_NewForTarget "prod" (Some sample_reader) ["111122223333"] 5 "__other__" 0 =
    Ok sample_account_collector /\ publishes sample_account_collector.
Proof.
  split; [exact sample_account_new|].
  exact (proj1 (proj2 (proj2 (cost_collectors_publish "prod" sample_reader sample_forecast_reader
    sample_reader_laws sample_forecast_laws))) _ _ _ _ _ sample_account_new).
Defined.

Lemma account_collector_bounded_witness :
  exists p, Collect sample_account_collector (Date 2026 7 20) tt = (Ok p, tt) /\
    length (costs p) = 2 /\
    forall v, v ∈ costs p -> validAccountID (Value (CostDimension v)) = true \/
                             Value (CostDimension v) = "__other__".
Proof.
  destruct (Collect sample_account_collector (Date 2026 7 20) tt) as [[p|e] []] eqn:E;
    [|by vm_compute in E].
  exists p. split; [reflexivity|]. split.
  - assert (Hp : Ok p = fst (Collect sample_account_collector (Date 2026 7 20) tt)) by (by rewrite E).
    vm_compute in Hp. injection Hp as ->. reflexivity.
  - exact (proj2 (account_collector_bounded "prod" sample_reader ["111122223333"] 5 "__other__" 0 _ _ _
      _ _ sample_reader_laws sample_account_new E)).
Defined.
