(* ===== verification/FamilyCollectors.v ===== *)
(** * Collectors of the optional families (internal/collector/tag, cur, commitment, budget,
    anomaly, organizationmeta)

    The same interface as [Collectors]: a constructor that checks its configuration and a
    [Collect] that calls a reader and answers with one partial snapshot. *)

From S2P Require Import Prelude SliceStable GoStrings GoFloat GoTime Errors Effects Domain Snapshot Ports PromClient Metrics Cardinality Collectors.
Local Open Scope string_scope.
Local Open Scope list_scope.

(** [config.TagKeyConfig]. *)
Record TagKeyConfig := mkTagKey { tk_Key : string; tk_MaxValues : Z }.

Definition set_tag_target (target : TargetID) (t : TagCost) : TagCost :=
  mkTagCost target (TagProvider t) (TagBasis t) (TagWindow t) (TagKey t) (TagValue t) (TagAmount t).

Definition set_query_basis (basis : Basis) (q : CostQuery) : CostQuery :=
  mkCostQuery (q_Period q) (q_Window q) basis (q_GroupBy q) (q_LinkedAccountIDs q) (q_Services q)
    (q_Regions q).

Definition snapshot_of_costs_tags (cs : list Cost) (tags : list TagCost) : Snapshot :=
  NewWithData cs [] [] [] [] [] tags.

(** ** CUR (cur/collector.go): the groups of tag values *)

(** The struct [groupKey]. *)
Record groupKey := mkGroupKey {
  gk_key : string; gk_provider : Provider; gk_basis : Basis; gk_window : Window;
  gk_currency : string
}.

#[export] Instance groupKey_eq_dec : EqDecision groupKey.
Proof. solve_decision. Defined.

Definition tag_group (item : TagCost) : groupKey :=
  mkGroupKey (TagKey item) (TagProvider item) (TagBasis item) (TagWindow item)
    (currency (TagAmount item)).

(** [limits[key.Key] = key.MaxValues] over the configured keys. *)
Definition tag_limits (keys : list TagKeyConfig) : gmap string Z :=
  fold_left (fun m k => <[ tk_Key k := tk_MaxValues k ]> m) keys ∅.

Definition currencyCount (cs : list Cost) (tags : list TagCost) : nat :=
  size (list_to_set (map (fun c => currency (CostAmount c)) cs ++
                     map (fun t => currency (TagAmount t)) tags) : gset string).

Definition group_tags (key : groupKey) (values : list TagCost) : list TagCost :=
  List.filter (fun t => bool_decide (tag_group t = key)) values.

(** The loop over the groups; [keys] lists the map's keys in the order ranged over. *)
Fixpoint limit_tag_groups (keys : list groupKey) (values : list TagCost) (limits : gmap string Z)
    (overflow : string) (observers : nat) : res (list TagCost) * events :=
  match keys with
  | [] => (Ok [], [])
  | key :: keys =>
      match LimitValues (group_tags key values) (default 0%Z (limits !! gk_key key)) overflow
              observers with
      | (Err err, evs) => (Err err, evs)
      | (Ok bounded, evs) =>
          match limit_tag_groups keys values limits overflow observers with
          | (Err err, evs') => (Err err, evs ++ evs')
          | (Ok rest, evs') => (Ok (bounded ++ rest), evs ++ evs')
          end
      end
  end.

(** [range] lists the distinct groups in the order Go ranges over them. *)
Definition limitTags (range : list groupKey -> list groupKey) (keys : list TagKeyConfig)
    (overflow : string) (observers : nat) (values : list TagCost) : res (list TagCost) * events :=
  let limits := tag_limits keys in
  if existsb (fun item => match limits !! TagKey item with
                          | None => true
                          | Some limit => (limit <=? 0)%Z
                          end) values
  then (Err (ErrorString "CUR returned a non-allowlisted tag key"), [])
  else
    let '(r, evs) := limit_tag_groups (range (remove_dups (map tag_group values))) values limits
                       overflow observers in
    (tagcost_Sort <$> r, evs).

(** ** Commitments: one summary from utilization and coverage *)

Definition mergeSummaries (target : TargetID) (commitmentType : string)
    (utilization coverage : Commitment) : res Commitment :=
  fail_if negb (bool_decide (CommitmentTarget utilization = target)) ||
          negb (bool_decide (CommitmentTarget coverage = target)) ||
          negb (bool_decide (CommitmentType utilization = commitmentType)) ||
          negb (bool_decide (CommitmentType coverage = commitmentType)) ||
          bool_decide (CommitmentTimeUnit utilization = "") ||
          negb (bool_decide (CommitmentTimeUnit utilization = CommitmentTimeUnit coverage))
    with_ ErrorString "commitment reader returned inconsistent summary identity" ;;
  Ok {| CommitmentTarget := target; CommitmentType := commitmentType;
        CommitmentTimeUnit := CommitmentTimeUnit utilization;
        UtilizationRatio := UtilizationRatio utilization;
        CoverageRatio := CoverageRatio coverage;
        UnusedHours := UnusedHours utilization;
        CoveredSpend := CoveredSpend coverage;
        OnDemandCost := OnDemandCost coverage;
        NetSavings := NetSavings utilization |}.

Section Families.
Context {W : Type} `{World W}.

(** *** Tags *)

Definition TagReader : Type := CostQuery -> string -> io W (list TagCost).

Definition tag_New (target : TargetID) (reader : option TagReader) (bases : list Basis)
    (keys : list TagKeyConfig) (seriesLimit : Z) (overflow : string) (observers : nat) :
    res (Collector W) :=
  match reader with
  | None => Err (ErrorString "invalid tag collector")
  | Some reader =>
      fail_if bool_decide (keys = []) || (seriesLimit <=? 0)%Z
        with_ ErrorString "invalid tag collector" ;;
      Ok (mkCollector (mkCollectorID target "tags") (fun reference =>
        queries ← lift (BuildDailyAndMTDQueries reference DimensionTotal);
        result ← io_each (fun basis => io_each (fun key => io_each (fun query =>
          rows ← reader (set_query_basis basis query) (tk_Key key);
          bounded ← with_events (LimitValues rows (tk_MaxValues key) overflow observers);
          mret (map (set_tag_target target) bounded)) queries) keys) bases;
        if (seriesLimit <? Z.of_nat (length result))%Z
        then lift (Err (ErrorString "tag series limit exceeded"))
        else mret (snapshot_of_costs_tags [] result)))
  end.

(** *** CUR *)

Record CURReader := mkCURReader {
  QueryCosts : Time -> list Basis -> io W (list Cost);
  QueryTagCosts : Time -> list Basis -> io W (list TagCost)
}.

Definition cur_New (range : list groupKey -> list groupKey) (target : TargetID)
    (reader : option CURReader) (bases : list Basis) (tags : bool)
    (seriesLimit tagSeriesLimit maxCurrencies : Z) (keys : list TagKeyConfig) (overflow : string)
    (observers : nat) : res (Collector W) :=
  match reader with
  | None => Err (ErrorString "CUR reader must not be nil")
  | Some reader =>
      fail_if (seriesLimit <=? 0)%Z || (tagSeriesLimit <=? 0)%Z || (maxCurrencies <=? 0)%Z
        with_ ErrorString "CUR series limits must be positive" ;;
      Ok (mkCollector (mkCollectorID target "cur") (fun reference =>
        cs ← QueryCosts reader reference bases;
        if (maxCurrencies <? Z.of_nat (currencyCount cs []))%Z
        then lift (Err (ErrorString "CUR currency limit exceeded")) else
        ts ← (if tags then
                ts ← QueryTagCosts reader reference bases;
                ts ← with_events (limitTags range keys overflow observers ts);
                if (tagSeriesLimit <? Z.of_nat (length ts))%Z
                then lift (Err (ErrorString "CUR tag series limit exceeded"))
                else mret ts
              else mret []);
        if (maxCurrencies <? Z.of_nat (currencyCount cs ts))%Z
        then lift (Err (ErrorString "CUR currency limit exceeded")) else
        if (seriesLimit <? Z.of_nat (length cs + length ts))%Z
        then lift (Err (ErrorString "CUR series limit exceeded"))
        else mret (snapshot_of_costs_tags cs ts)))
  end.

(** *** Commitments *)

Record CommitmentReader := mkCommitmentReader {
  ReadSavingsPlansUtilization : Time -> io W Commitment;
  ReadSavingsPlansCoverage : Time -> io W Commitment;
  ReadReservationUtilization : Time -> io W Commitment;
  ReadReservationCoverage : Time -> io W Commitment
}.

Definition commitment_New (target : TargetID) (reader : option CommitmentReader)
    (seriesLimit : Z) : res (Collector W) :=
  match reader with
  | None => Err (ErrorString "commitment reader must not be nil")
  | Some reader =>
      fail_if (seriesLimit <=? 0)%Z with_ ErrorString "commitment series limit must be positive" ;;
      Ok (mkCollector (mkCollectorID target "commitments") (fun reference =>
        spUtilization ← ReadSavingsPlansUtilization reader reference;
        spCoverage ← ReadSavingsPlansCoverage reader reference;
        sp ← lift (mergeSummaries target TypeSavingsPlan spUtilization spCoverage);
        riUtilization ← ReadReservationUtilization reader reference;
        riCoverage ← ReadReservationCoverage reader reference;
        ri ← lift (mergeSummaries target TypeReservation riUtilization riCoverage);
        let result := NewWithData [] [] [] [] [sp; ri] [] [] in
        if (seriesLimit <? Z.of_nat (SeriesCount result))%Z
        then lift (Err (ErrorString "commitment series limit exceeded"))
        else mret result))
  end.

(** *** Budgets, anomalies, organizations *)

Definition budget_New (target : TargetID) (reader : option (io W (list Budget))) :
    res (Collector W) :=
  match reader with
  | None => Err (ErrorString "invalid Budgets collector configuration")
  | Some ReadBudgets =>
      fail_if bool_decide (target = "") with_ ErrorString "invalid Budgets collector configuration" ;;
      Ok (mkCollector (mkCollectorID target "budgets") (fun _ =>
        values ← ReadBudgets; mret (snapshot_New [] [] values [])))
  end.

Definition anomaly_New (target : TargetID) (reader : option (Time -> io W Anomaly))
    (seriesLimit : Z) : res (Collector W) :=
  match reader with
  | None => Err (ErrorString "anomaly reader must not be nil")
  | Some ReadAnomalySummary =>
      fail_if (seriesLimit <=? 0)%Z with_ ErrorString "anomaly series limit must be positive" ;;
      Ok (mkCollector (mkCollectorID target "anomalies") (fun reference =>
        value ← ReadAnomalySummary reference;
        let result := NewWithData [] [] [] [] [] [value] [] in
        if (seriesLimit <? Z.of_nat (SeriesCount result))%Z
        then lift (Err (ErrorString "anomaly series limit exceeded"))
        else mret result))
  end.

Definition organizations_New (target : TargetID) (reader : option (io W (list Account))) :
    res (Collector W) :=
  match reader with
  | None => Err (ErrorString "invalid Organizations collector configuration")
  | Some ReadAccounts =>
      fail_if bool_decide (target = "")
        with_ ErrorString "invalid Organizations collector configuration" ;;
      Ok (mkCollector (mkCollectorID target "organizations") (fun _ =>
        values ← ReadAccounts; mret (snapshot_New [] [] [] values)))
  end.
End Families.
Arguments CURReader W : clear implicits.
Arguments CommitmentReader W : clear implicits.
Arguments TagReader W : clear implicits.

(** ** Limits of the tag groups *)

Lemma group_tags_elem key values v : v ∈ group_tags key values <-> v ∈ values /\ tag_group v = key.
Proof. unfold group_tags. by rewrite elem_of_filter_b, bool_decide_eq_true. Qed.

Lemma group_tags_app key l k : group_tags key (l ++ k) = group_tags key l ++ group_tags key k.
Proof. apply List.filter_app. Qed.

Lemma group_tags_all key values :
  (forall v, v ∈ values -> tag_group v = key) -> group_tags key values = values.
Proof. intros H. apply filter_all_true. intros v Hv. by apply bool_decide_eq_true, H. Qed.

Lemma group_tags_none key values :
  (forall v, v ∈ values -> tag_group v <> key) -> group_tags key values = [].
Proof. intros H. apply filter_none. intros v Hv. by apply bool_decide_eq_false, H. Qed.

Lemma bounded_tags_of key values r limit overflow :
  bounded_tags (group_tags key values) r limit overflow -> forall v, v ∈ r -> tag_group v = key.
Proof.
  intros Hb. apply Forall_forall. eapply bounded_tags_forall; [|exact Hb|].
  - by intros [] t ? _.
  - apply Forall_forall. by intros v [_ ?]%group_tags_elem.
Qed.

Lemma limit_tag_groups_spec keys values limits overflow observers r evs :
  tags_wf values -> NoDup keys ->
  limit_tag_groups keys values limits overflow observers = (Ok r, evs) ->
  (forall v, v ∈ r -> tag_group v ∈ keys) /\
  forall key, key ∈ keys ->
    bounded_tags (group_tags key values) (group_tags key r) (default 0%Z (limits !! gk_key key))
      overflow.
Proof.
  intros Hwf. revert r evs. induction keys as [|k keys IH]; intros r evs Hnd Hr; simpl in Hr.
  { injection Hr as <- <-. split; set_solver. }
  apply NoDup_cons in Hnd as [Hk Hnd].
  destruct (LimitValues _ _ _ _) as [[bounded|] e1] eqn:E; [|done].
  destruct (limit_tag_groups keys _ _ _ _) as [[rest|] e2] eqn:Erest; [|done].
  injection Hr as <- <-.
  apply LimitValues_bounded in E as Hb.
  2: { unfold tags_wf in *. rewrite Forall_forall in Hwf |- *. intros v [Hv _]%group_tags_elem. auto. }
  destruct (IH _ _ Hnd eq_refl) as [Hrest Hgroups].
  pose proof (bounded_tags_of k values bounded _ _ Hb) as Hof. split.
  - intros v [Hv|Hv]%elem_of_app; [rewrite (Hof v Hv); by left|right; auto].
  - intros key [->|Hkey]%elem_of_cons; rewrite group_tags_app.
    + rewrite (group_tags_all k bounded) by done.
      rewrite (group_tags_none k rest), app_nil_r; [done|]. intros v Hv <-. by apply Hk, Hrest.
    + rewrite (group_tags_none key bounded); [by apply Hgroups|].
      intros v Hv ->%eq_sym. by rewrite <- (Hof v Hv) in Hk.
Qed.

(** What [limitTags] answers: only allowlisted keys, every group within its key's limit. *)
Lemma limitTags_ok range keys overflow observers values r evs :
  (forall l, range l ≡ₚ l) -> tags_wf values ->
  limitTags range keys overflow observers values = (Ok r, evs) ->
  (forall v, v ∈ r -> exists u, u ∈ values /\ tag_group v = tag_group u) /\
  forall group, exists limit,
    (tag_limits keys !! gk_key group = Some limit /\ (0 < limit)%Z \/
     group_tags group values = []) /\
    (group_tags group values = [] /\ group_tags group r = [] \/
     exists r', bounded_tags (group_tags group values) r' limit overflow /\
       group_tags group r ≡ₚ r').
Proof.
  intros Hrange Hwf. unfold limitTags. destruct (existsb _ _) eqn:Eex; [done|].
  rewrite <- not_true_iff_false, existsb_exists in Eex.
  destruct (limit_tag_groups _ _ _ _ _) as [[r0|] evs0] eqn:E; [|done]. intros [= <- <-].
  apply limit_tag_groups_spec in E as [Hin Hb];
    [|done|rewrite Hrange; apply NoDup_remove_dups].
  assert (Hkeys : forall g, g ∈ range (remove_dups (map tag_group values)) <->
    exists u, u ∈ values /\ tag_group u = g).
  { intros g. by rewrite Hrange, elem_of_remove_dups, elem_of_map. }
  split.
  - intros v Hv. unfold tagcost_Sort in Hv. rewrite elem_of_SliceStable in Hv.
    apply Hin, Hkeys in Hv as (u & ? & ?). eauto.
  - intros group. exists (default 0%Z (tag_limits keys !! gk_key group)).
    destruct (decide (group ∈ range (remove_dups (map tag_group values)))) as [Hg|Hg].
    + apply Hkeys in Hg as Hg'. destruct Hg' as (u & Hu & <-). split.
      * left. destruct (tag_limits keys !! gk_key (tag_group u)) as [limit|] eqn:El.
        -- split; [done|]. simpl. destruct (decide (0 < limit)%Z) as [|Hn]; [done|]. destruct Eex.
           exists u. split; [by apply list_elem_of_In|]. simpl in El. rewrite El. lia.
        -- destruct Eex. exists u. split; [by apply list_elem_of_In|]. simpl in El. by rewrite El.
      * right. exists (group_tags (tag_group u) r0). split; [by apply Hb|].
        apply Permutation_List_filter, SliceStable_perm.
    + assert (Hnone : group_tags group values = []).
      { apply group_tags_none. intros v Hv Hg'. apply Hg, Hkeys. eauto. }
      split; [by right|]. left. split; [done|]. apply group_tags_none. intros v Hv Hg'.
      unfold tagcost_Sort in Hv. rewrite elem_of_SliceStable in Hv. apply Hg. rewrite <- Hg'. by apply Hin.
Qed.

(** ** Contracts *)

Definition tag_publishable (target : TargetID) (t : TagCost) : Prop :=
  TagTarget t = target /\ identity_valid (TagProvider t) (TagBasis t) = true /\
  window_known (TagWindow t).

Lemma partial_publishes target cs bs accs cms ans tags :
  Forall (cost_publishable target) cs ->
  (forall b, b ∈ bs -> BudgetTarget b = target) -> (forall a, a ∈ accs -> AccountTarget a = target) ->
  (forall c, c ∈ cms -> CommitmentTarget c = target) ->
  (forall a, a ∈ ans -> AnomalyTarget a = target) -> Forall (tag_publishable target) tags ->
  let p := NewWithData cs [] bs accs cms ans tags in
  ValidatePartial p target = Ok tt /\ publishable p /\ snapshot_sorted p.
Proof.
  intros Hcs Hbs Haccs Hcms Hans Htags p. rewrite Forall_forall in Hcs. rewrite Forall_forall in Htags.
  destruct (NewWithData_perm cs [] bs accs cms ans tags) as (Pc & _ & Pb & Pa & Pm & Pn & Pt).
  fold p in Pc, Pb, Pa, Pm, Pn, Pt. split; [|split; [|apply NewWithData_sorted]].
  - apply ValidatePartial_ok. unfold valid_identities. rewrite !andb_true_iff.
    setoid_rewrite Pb. setoid_rewrite Pa. setoid_rewrite Pm. setoid_rewrite Pn.
    repeat split; try done; try apply forallb_elem_of; intros v.
    + rewrite Pc. intros Hv. by apply Hcs.
    + rewrite Pt. intros Hv. by apply Htags.
    + rewrite Pc. intros Hv. by apply Hcs.
    + intros Hv. by apply not_elem_of_nil in Hv.
    + rewrite Pt. intros Hv. by apply Htags.
  - split.
    + intros c. rewrite Pc. intros Hc. split; by apply Hcs.
    + intros f Hf. by apply not_elem_of_nil in Hf.
    + intros t. rewrite Pt. intros Ht. by apply Htags.
Qed.

Class TagReaderLaws {W} (reader : TagReader W) : Prop :=
  reader_tags_ok q key w vs w' : reader q key w = (Ok vs, w') ->
    Forall (fun t => identity_valid (TagProvider t) (TagBasis t) = true /\
                     TagWindow t = q_Window q /\ Money_wf (TagAmount t)) vs.

Class CURReaderLaws {W} (target : TargetID) (reader : CURReader W) : Prop := {
  cur_costs_ok t bases w vs w' : QueryCosts reader t bases w = (Ok vs, w') ->
    Forall (cost_publishable target) vs;
  cur_tags_ok t bases w vs w' : QueryTagCosts reader t bases w = (Ok vs, w') ->
    Forall (tag_publishable target) vs /\ tags_wf vs
}.

Lemma Forall_io_each {W A B} (P : B -> Prop) (f : A -> io W (list B)) l :
  (forall a w b w', a ∈ l -> f a w = (Ok b, w') -> Forall P b) ->
  forall w r w', io_each f l w = (Ok r, w') -> Forall P r.
Proof.
  induction l as [|a l IH]; intros Hf w r w' Hr; simpl in Hr; inv_io; [constructor|].
  apply Forall_app. split; [eapply Hf; [by left|eassumption]|].
  eapply IH; [|eassumption]. intros a' w1 b w2 Ha'. apply Hf. by right.
Qed.

Section Contracts.
Context {W : Type} `{World W}.

Lemma limited_tags_publishable target q rows limit overflow observers bounded evs :
  window_known (q_Window q) ->
  Forall (fun t => identity_valid (TagProvider t) (TagBasis t) = true /\
                   TagWindow t = q_Window q /\ Money_wf (TagAmount t)) rows ->
  LimitValues rows limit overflow observers = (Ok bounded, evs) ->
  Forall (tag_publishable target) (map (set_tag_target target) bounded).
Proof.
  intros Hw Hrows Hb. apply LimitValues_bounded in Hb.
  2: { eapply Forall_impl; [exact Hrows|]. by intros t (_ & _ & ?). }
  assert (Hall : Forall (fun t => identity_valid (TagProvider t) (TagBasis t) = true /\
    TagWindow t = q_Window q) bounded).
  { eapply bounded_tags_forall; [|exact Hb|].
    - by intros c t ? _.
    - eapply Forall_impl; [exact Hrows|]. by intros t (? & ? & _). }
  rewrite Forall_forall in Hall |- *. intros t (u & Hu & <-)%elem_of_map.
  destruct (Hall u Hu) as [Hid Hwin]. unfold tag_publishable. simpl. rewrite Hid, Hwin. done.
Qed.

Lemma tag_contract target (reader : TagReader W) bases keys limit overflow observers c
    `{!TagReaderLaws reader} :
  tag_New target (Some reader) bases keys limit overflow observers = Ok c -> publishes c.
Proof.
  intros [_ [= <-]]%guard_ok reference w p w' Hp. cbn [ID ID_Target Collect] in *.
  destruct (BuildQueries_two reference DimensionTotal) as (q1 & q2 & HB & Hw1 & Hw2 & _).
  rewrite HB in Hp. clear HB.
  apply io_bind_ok in Hp as (qs & w1 & [<-%Ok_inj ->]%lift_ok & Hp).
  apply io_bind_ok in Hp as (result & w2 & Hr & Hp). case_match; [inv_io; done|].
  apply io_ret_ok in Hp as [-> ->]. apply partial_publishes; try set_solver.
  revert Hr. apply Forall_io_each. intros basis wa la wb _. apply Forall_io_each.
  intros key wc lb wd _. apply Forall_io_each. intros q we lc wf Hq Hrun.
  apply io_bind_ok in Hrun as (rows & w4 & Hrows & Hrun).
  apply io_bind_ok in Hrun as (bounded & w5 & Hbounded%with_events_ok & [-> ->]%io_ret_ok).
  destruct (LimitValues _ _ _ _) as [lim evs] eqn:E. simpl in Hbounded. subst lim.
  eapply (limited_tags_publishable target (set_query_basis basis q)); [|by eapply reader_tags_ok|exact E].
  simpl. rewrite !elem_of_cons in Hq. destruct Hq as [->|[->|Hq]];
    [by left|by right|by apply not_elem_of_nil in Hq].
Qed.

(** A property of tag costs that the overflow cost inherits survives the limits. *)
Lemma limit_tag_groups_forall (P : TagCost -> Prop) keys values limits overflow observers r evs :
  (forall c t a, P t -> P (overflow_tag t c a)) -> tags_wf values -> Forall P values ->
  limit_tag_groups keys values limits overflow observers = (Ok r, evs) -> Forall P r.
Proof.
  intros HP Hwf Hv. revert r evs. induction keys as [|k keys IH]; intros r evs Hr; simpl in Hr.
  { injection Hr as <- <-. constructor. }
  destruct (LimitValues _ _ _ _) as [[bounded|] e1] eqn:E; [|done].
  destruct (limit_tag_groups keys _ _ _ _) as [[rest|] e2] eqn:Erest; [|done].
  injection Hr as <- <-. apply Forall_app. split; [|by eapply IH].
  unfold tags_wf in *. rewrite Forall_forall in Hwf, Hv.
  apply LimitValues_bounded in E.
  2: { apply Forall_forall. intros v [Hg _]%group_tags_elem. by apply Hwf. }
  eapply bounded_tags_forall; [|exact E|].
  - intros c t a Ht. by apply HP.
  - apply Forall_forall. intros v [Hg _]%group_tags_elem. by apply Hv.
Qed.

Lemma cur_contract range target (reader : CURReader W) bases tags seriesLimit tagSeriesLimit
    maxCurrencies keys overflow observers c `{!CURReaderLaws target reader} :
  cur_New range target (Some reader) bases tags seriesLimit tagSeriesLimit maxCurrencies keys
    overflow observers = Ok c -> publishes c.
Proof.
  intros [_ [= <-]]%guard_ok reference w p w' Hp. cbn [ID ID_Target Collect] in *.
  apply io_bind_ok in Hp as (cs & w1 & Hcs & Hp). case_match; [inv_io; done|].
  apply io_bind_ok in Hp as (ts & w2 & Hts & Hp).
  repeat (case_match; [inv_io; done|]). apply io_ret_ok in Hp as [-> ->].
  apply partial_publishes; try set_solver; [by eapply cur_costs_ok|].
  destruct tags; [|inv_io; constructor].
  apply io_bind_ok in Hts as (rows & w4 & Hrows & Hts).
  apply io_bind_ok in Hts as (ts' & w5 & Hlt%with_events_ok & Hts). case_match; inv_io; [done|].
  apply cur_tags_ok in Hrows as [Hpub Hwf].
  destruct (limitTags _ _ _ _ _) as [lt evs] eqn:E. simpl in Hlt. subst lt.
  unfold limitTags in E. case_match; [done|].
  destruct (limit_tag_groups _ _ _ _ _) as [[r0|] evs0] eqn:E0; [|done]. injection E as <- <-.
  apply limit_tag_groups_forall with (P := tag_publishable target) in E0; [|by intros c [] a|done..].
  rewrite Forall_forall in E0 |- *. intros t Ht. apply E0.
  unfold tagcost_Sort in Ht. by rewrite elem_of_SliceStable in Ht.
Qed.

Lemma mergeSummaries_ok target ty u v s :
  mergeSummaries target ty u v = Ok s ->
  CommitmentTarget s = target /\ CommitmentType s = ty /\ CommitmentTimeUnit s <> "" /\
  UtilizationRatio s = UtilizationRatio u /\ UnusedHours s = UnusedHours u /\
  NetSavings s = NetSavings u /\ CoverageRatio s = CoverageRatio v /\
  CoveredSpend s = CoveredSpend v /\ OnDemandCost s = OnDemandCost v.
Proof.
  intros [Hg <-%Ok_inj]%guard_ok. simpl. rewrite !orb_false_iff in Hg.
  destruct Hg as [[_ Hne] _]. by inv_bool.
Qed.

Lemma commitment_contract target (reader : CommitmentReader W) limit c :
  commitment_New target (Some reader) limit = Ok c ->
  forall reference w p w', Collect c reference w = (Ok p, w') ->
    (ValidatePartial p target = Ok tt /\ publishable p /\ snapshot_sorted p) /\
    (Z.of_nat (SeriesCount p) <= limit)%Z /\ ID c = mkCollectorID target "commitments".
Proof.
  intros [_ [= <-]]%guard_ok reference w p w' Hp. cbn [ID ID_Target Collect] in *. inv_io.
  case_match eqn:Hlim; inv_io; [done|]. apply Z.ltb_ge in Hlim. split; [|done].
  apply partial_publishes; try set_solver.
  repeat match goal with Hm : mergeSummaries _ _ _ _ = Ok _ |- _ =>
    apply mergeSummaries_ok in Hm as [Hm _] end.
  intros s Hs. rewrite !elem_of_cons, elem_of_nil in Hs. destruct_or?; by subst.
Qed.
End Contracts.

(** ** Properties *)

Lemma budget_contract {W} `{World W} target (r : io W (list Budget)) c :
  (forall w bs w', r w = (Ok bs, w') -> forall b, b ∈ bs -> BudgetTarget b = target) ->
  budget_New target (Some r) = Ok c -> publishes c.
Proof.
  intros Hr [_ [= <-]]%guard_ok reference w p w' Hp. cbn [ID ID_Target Collect] in *.
  apply io_bind_ok in Hp as (bs & w1 & Hbs & [-> ->]%io_ret_ok).
  apply partial_publishes; try set_solver.
Qed.

Lemma organizations_contract {W} `{World W} target (r : io W (list Account)) c :
  (forall w l w', r w = (Ok l, w') -> forall a, a ∈ l -> AccountTarget a = target) ->
  organizations_New target (Some r) = Ok c -> publishes c.
Proof.
  intros Hr [_ [= <-]]%guard_ok reference w p w' Hp. cbn [ID ID_Target Collect] in *.
  apply io_bind_ok in Hp as (l & w1 & Hl & [-> ->]%io_ret_ok).
  apply partial_publishes; try set_solver.
Qed.

Lemma anomaly_contract {W} `{World W} target (r : Time -> io W Anomaly) limit c :
  (forall t w a w', r t w = (Ok a, w') -> AnomalyTarget a = target) ->
  anomaly_New target (Some r) limit = Ok c -> publishes c.
Proof.
  intros Hr [_ [= <-]]%guard_ok reference w p w' Hp. cbn [ID ID_Target Collect] in *.
  apply io_bind_ok in Hp as (a & w1 & Ha & Hp). case_match; [inv_io; done|].
  apply io_ret_ok in Hp as [-> ->]. apply partial_publishes; try set_solver.
Qed.

(** whatever a commitment, budget, anomaly, organizations or tag collector
    answers with passes the store's validation of partials for its own target and can be exposed,
    when its reader attributes records to that target. *)
Theorem family_collectors_publish {W} `{World W} target :
  (forall (r : CommitmentReader W) limit c, commitment_New target (Some r) limit = Ok c ->
     publishes c) /\
  (forall (r : io W (list Budget)) c,
     (forall w bs w', r w = (Ok bs, w') -> forall b, b ∈ bs -> BudgetTarget b = target) ->
     budget_New target (Some r) = Ok c -> publishes c) /\
  (forall (r : io W (list Account)) c,
     (forall w l w', r w = (Ok l, w') -> forall a, a ∈ l -> AccountTarget a = target) ->
     organizations_New target (Some r) = Ok c -> publishes c) /\
  (forall (r : Time -> io W Anomaly) limit c,
     (forall t w a w', r t w = (Ok a, w') -> AnomalyTarget a = target) ->
     anomaly_New target (Some r) limit = Ok c -> publishes c) /\
  (forall (r : TagReader W) bases keys limit overflow obs c, TagReaderLaws r ->
     tag_New target (Some r) bases keys limit overflow obs = Ok c -> publishes c).
Proof.
  split; [|split; [|split; [|split]]].
  - intros r limit c Hc reference w p w' Hp.
    apply (commitment_contract target r limit c Hc) in Hp as (? & _ & ->). done.
  - intros r c Hr. by apply budget_contract.
  - intros r c Hr. by apply organizations_contract.
  - intros r limit c Hr. by apply anomaly_contract.
  - intros r bases keys limit overflow obs c Hr. by apply tag_contract.
Qed.

(** a commitment partial holds one savings-plan and one reservation summary, with
    each figure taken from the reader that owns it, and never more series than the limit. *)
Theorem commitment_collector_merges {W} `{World W} target (r : CommitmentReader W) limit c
    reference w p w' :
  commitment_New target (Some r) limit = Ok c -> Collect c reference w = (Ok p, w') ->
  (Z.of_nat (SeriesCount p) <= limit)%Z /\
  exists u v u' v' sp ri, commitments p = commitment_Sort [sp; ri] /\
    mergeSummaries target TypeSavingsPlan u v = Ok sp /\
    mergeSummaries target TypeReservation u' v' = Ok ri /\
    CommitmentType sp = TypeSavingsPlan /\ CommitmentType ri = TypeReservation /\
    UtilizationRatio sp = UtilizationRatio u /\ CoverageRatio sp = CoverageRatio v /\
    UtilizationRatio ri = UtilizationRatio u' /\ CoverageRatio ri = CoverageRatio v' /\
    (exists w1, ReadSavingsPlansUtilization r reference w = (Ok u, w1) /\
     exists w2, ReadSavingsPlansCoverage r reference w1 = (Ok v, w2) /\
     exists w3, ReadReservationUtilization r reference w2 = (Ok u', w3) /\
       ReadReservationCoverage r reference w3 = (Ok v', w')).
Proof.
  intros Hc Hp. split; [by apply (commitment_contract target r limit c Hc) in Hp as (_ & ? & _)|].
  apply guard_ok in Hc as [_ [= <-]]. cbn [Collect] in Hp.
  apply io_bind_ok in Hp as (u & w1 & Hu & Hp). apply io_bind_ok in Hp as (v & w2 & Hv & Hp).
  apply io_bind_ok in Hp as (sp & w2' & [Hsp ->]%lift_ok & Hp).
  apply io_bind_ok in Hp as (u' & w3 & Hu' & Hp). apply io_bind_ok in Hp as (v' & w4 & Hv' & Hp).
  apply io_bind_ok in Hp as (ri & w4' & [Hri ->]%lift_ok & Hp). case_match; [inv_io; done|].
  apply io_ret_ok in Hp as [-> ->].
  exists u, v, u', v', sp, ri. split; [done|]. split; [done|]. split; [done|].
  apply mergeSummaries_ok in Hsp as (_ & ? & _ & ? & _ & _ & ? & _),
    Hri as (_ & ? & _ & ? & _ & _ & ? & _).
  split; [done|]. split; [done|]. split; [done|]. split; [done|]. split; [done|]. split; [done|].
  exists w1. split; [done|]. exists w2. split; [done|]. by exists w3.
Qed.

(** a CUR partial never exceeds its limits: the series in total, the tag series, the
    distinct currencies, and the values of each allowlisted tag key per provider, basis, window
    and currency, in whatever order the groups are ranged over. *)
Theorem cur_collector_bounded {W} `{World W} range target (r : CURReader W) bases tags seriesLimit
    tagSeriesLimit maxCurrencies keys overflow observers c reference w p w' :
  (forall l, range l ≡ₚ l) -> CURReaderLaws target r ->
  cur_New range target (Some r) bases tags seriesLimit tagSeriesLimit maxCurrencies keys overflow
    observers = Ok c ->
  Collect c reference w = (Ok p, w') ->
  (Z.of_nat (length (costs p) + length (tagCosts p)) <= seriesLimit)%Z /\
  (Z.of_nat (length (tagCosts p)) <= tagSeriesLimit)%Z /\
  (Z.of_nat (currencyCount (costs p) (tagCosts p)) <= maxCurrencies)%Z /\
  forall t, t ∈ tagCosts p -> exists limit, tag_limits keys !! TagKey t = Some limit /\
    (Z.of_nat (length (group_tags (tag_group t) (tagCosts p))) <= limit)%Z.
Proof.
  intros Hrange Hlaws Hc Hp. apply guard_ok in Hc as [Hg [= <-]]. cbn [Collect] in Hp.
  inv_bool. apply io_bind_ok in Hp as (cs & w1 & Hcs & Hp). case_match; [inv_io; done|].
  apply io_bind_ok in Hp as (ts & w2 & Hts & Hp). case_match eqn:Hcur; [inv_io; done|].
  case_match eqn:Hlim; [inv_io; done|]. apply io_ret_ok in Hp as [-> ->].
  apply Z.ltb_ge in Hcur, Hlim. unfold snapshot_of_costs_tags, NewWithData. cbn [costs tagCosts].
  assert (Hperm : tagcost_Sort ts ≡ₚ ts) by apply SliceStable_perm.
  assert (Hcount : currencyCount (SliceStable aggregateCostLess cs) (tagcost_Sort ts) =
    currencyCount cs ts).
  { unfold currencyCount. f_equal. apply leibniz_equiv. intros x.
    rewrite !elem_of_list_to_set, !elem_of_app, !elem_of_map.
    setoid_rewrite Hperm. setoid_rewrite elem_of_SliceStable. done. }
  rewrite Hcount, Hperm, SliceStable_length. split; [lia|].
  assert (Htags : (Z.of_nat (length ts) <= tagSeriesLimit)%Z /\
    forall t, t ∈ ts -> exists limit, tag_limits keys !! TagKey t = Some limit /\
      (Z.of_nat (length (group_tags (tag_group t) ts)) <= limit)%Z).
  { destruct tags; [|inv_io; split; [simpl; lia|set_solver]].
    apply io_bind_ok in Hts as (rows & w4 & Hrows & Hts).
    apply io_bind_ok in Hts as (ts' & w5 & Hlt%with_events_ok & Hts).
    case_match eqn:Htl; inv_io; [done|]. apply Z.ltb_ge in Htl. split; [lia|].
    destruct (limitTags _ _ _ _ _) as [lt evs] eqn:E. simpl in Hlt. subst lt.
    apply limitTags_ok in E as [Hin Hgroups]; [|done|by apply (cur_tags_ok reference bases w1 rows w4)].
    intros t Ht. destruct (Hin t Ht) as (u & Hu & Htu).
    destruct (Hgroups (tag_group t)) as (limit & Hlimit & Hb). exists limit.
    assert (Hne : group_tags (tag_group t) rows <> []).
    { intros Hnil. assert (Hu' : u ∈ group_tags (tag_group t) rows) by (by apply group_tags_elem).
      rewrite Hnil in Hu'. by apply not_elem_of_nil in Hu'. }
    destruct Hlimit as [[Hl _]|Hl]; [|done]. split; [done|].
    destruct Hb as [[Hb _]|(r' & Hb & Hr')]; [done|].
    rewrite Hr'. by eapply bounded_tags_length. }
  destruct Htags as [Htl Htags]. split; [done|]. split; [lia|].
  intros t. rewrite Hperm. intros Ht. destruct (Htags t Ht) as (limit & Hk & Hle).
  exists limit. split; [done|]. unfold group_tags in Hle |- *.
  by rewrite (Permutation_length (Permutation_List_filter _ _ _ Hperm)).
Qed.

(** ** A concrete run *)

Definition sample_cur_costs : list Cost :=
  [mkCost "prod" ProviderCURAthena BasisNet WindowDaily (DayContaining 0%Z)
     (mkDimension DimensionTotal "") (mkMoney (f64_of_Z 9) "USD")].

Definition sample_cur_tags : list TagCost :=
  map (fun '(v, n) => mkTagCost "prod" ProviderCURAthena BasisNet WindowDaily "team" v
    (mkMoney (f64_of_Z n) "USD")) [("a", 1%Z); ("b", 5%Z); ("c", 3%Z)].

Definition sample_cur_reader : CURReader unit :=
  mkCURReader (fun _ _ w => (Ok sample_cur_costs, w)) (fun _ _ w => (Ok sample_cur_tags, w)).

#[export] Instance sample_cur_laws : CURReaderLaws "prod" sample_cur_reader.
Proof.
  split; intros t bases w vs w' [= <- <-].
  - apply Forall_singleton. split; [reflexivity|]. split; [reflexivity|]. split; [by left|].
    split; [reflexivity|]. left. done.
  - split; repeat (apply Forall_cons; split);
      first [apply Forall_nil; exact I
            | split; [reflexivity|split; [reflexivity|by left]]
            | split; [reflexivity|split; [discriminate|reflexivity]]].
Qed.

Lemma cur_collector_bounded_witness :
  exists c p, cur_New (fun l => l) "prod" (Some sample_cur_reader) [BasisNet] true 10 5 1
      [mkTagKey "team" 2] "__other__" 0 = Ok c /\
    Collect c 0%Z tt = (Ok p, tt) /\ length (tagCosts p) = 2 /\
    (Z.of_nat (currencyCount (costs p) (tagCosts p)) <= 1)%Z.
Proof.
  destruct (cur_New (fun l => l) "prod" (Some sample_cur_reader) [BasisNet] true 10 5 1
      [mkTagKey "team" 2] "__other__" 0) as [c|] eqn:Ec; [|discriminate Ec].
  assert (Hrun : exists p, Collect c 0%Z tt = (Ok p, tt) /\ length (tagCosts p) = 2).
  { injection Ec as <-. eexists. split; vm_compute; reflexivity. }
  destruct Hrun as (p & Hp & Hlen). exists c, p. split; [reflexivity|]. split; [exact Hp|].
  split; [exact Hlen|].
  exact (proj1 (proj2 (proj2 (cur_collector_bounded (fun l => l) "prod" sample_cur_reader _ _ _ _ _ _
    _ _ c 0%Z tt p tt (fun l => Permutation_refl l) sample_cur_laws Ec Hp)))).
Defined.

Definition sample_commitment (ty : string) : Commitment :=
  mkCommitment "prod" ty "DAILY" (Some (f64_of_Z 1)) None None None None None.

Definition sample_commitment_reader : CommitmentReader unit :=
  mkCommitmentReader
    (fun _ w => (Ok (sample_commitment TypeSavingsPlan), w))
    (fun _ w => (Ok (sample_commitment TypeSavingsPlan), w))
    (fun _ w => (Ok (sample_commitment TypeReservation), w))
    (fun _ w => (Ok (sample_commitment TypeReservation), w)).

Lemma commitment_collector_merges_witness :
  exists c p, commitment_New "prod" (Some sample_commitment_reader) 4 = Ok c /\
    Collect c 0%Z tt = (Ok p, tt) /\ (Z.of_nat (SeriesCount p) <= 4)%Z.
Proof.
  destruct (commitment_New "prod" (Some sample_commitment_reader) 4) as [c|] eqn:Ec;
    [|discriminate Ec].
  assert (Hrun : exists p, Collect c 0%Z tt = (Ok p, tt)).
  { injection Ec as <-. eexists. vm_compute; reflexivity. }
  destruct Hrun as (p & Hp). exists c, p. split; [reflexivity|]. split; [exact Hp|].
  exact (proj1 (commitment_collector_merges "prod" sample_commitment_reader 4 c 0%Z tt p tt Ec Hp)).
Defined.
