(* ===== verification/AccountReaders.v ===== *)
(** * Organizations and Budgets readers (internal/aws/organizations, internal/aws/budgets)

    Paged, all-or-nothing reads behind the organization metadata and budget collectors.  The SDK
    clients are arguments; their responses are records with an option for every pointer. *)

From S2P Require Import Prelude SliceStable GoStrings GoFloat GoTime Errors Effects Pagination Domain Snapshot Ports PromClient Metrics Cardinality Collectors FamilyCollectors.
Local Open Scope string_scope.
Local Open Scope list_scope.

(** ** Organizations (organizations/reader.go) *)

Definition ErrInvalidConfig_organizations : error :=
  Sentinel "invalid Organizations adapter configuration".
Definition ErrInvalidResponse_organizations : error := Sentinel "invalid Organizations response".
Definition ErrPageLimit_organizations : error := Sentinel "organizations page limit exceeded".
Definition ErrSeriesLimit_organizations : error := Sentinel "organizations account limit exceeded".

Record Policy := mkPolicy { pol_AccountIDs : list string; pol_SeriesLimit : Z }.

(** The SDK's account and page. *)
Record OrgAccount := mkOrgAccount {
  oa_Id : option string; oa_Name : option string; oa_State : string; oa_Status : string
}.
Record ListAccountsOutput := mkListAccounts {
  la_Accounts : list OrgAccount; la_NextToken : option string
}.

(** [range] over a string yields the code points of its UTF-8 decoding; a byte outside ASCII
    decodes to a code point that is no digit either way. *)
Definition org_accountID (value : string) : bool :=
  bool_decide (String.length value = 12) && forallb is_digit (bytes value).

Definition known_states : list string :=
  ["PENDING_ACTIVATION"; "ACTIVE"; "SUSPENDED"; "PENDING_CLOSURE"; "CLOSED"].
Definition known_statuses : list string := ["ACTIVE"; "SUSPENDED"; "PENDING_CLOSURE"].

Definition accountStatus (state status : string) : string :=
  if negb (bool_decide (state = "")) && bool_decide (state ∈ known_states) then state
  else if bool_decide (status ∈ known_statuses) then status
  else "UNKNOWN".

Section Organizations.
Context {W : Type} `{World W}.

(** [API]: the two operations; [DescribeOrganization] answers whether an organization is there. *)
Record OrgAPI := mkOrgAPI {
  DescribeOrganization : io W (option bool);
  ListAccounts : option string -> io W (option ListAccountsOutput)
}.

Record OrgReader := mkOrgReader {
  or_target : TargetID; or_api : OrgAPI; or_maxPages : Z;
  or_allowlist : gset string; or_seriesLimit : Z
}.

Fixpoint build_allowlist (ids : list string) (allowlist : gset string) : res (gset string) :=
  match ids with
  | [] => Ok allowlist
  | id :: ids =>
      fail_if negb (org_accountID id) with_ ErrInvalidConfig_organizations ;;
      fail_if bool_decide (id ∈ allowlist) with_ ErrInvalidConfig_organizations ;;
      build_allowlist ids ({[ id ]} ∪ allowlist)
  end.

(** [retryer] says whether the retryer factory is there. *)
Definition organizations_NewReader (target : TargetID) (api : option OrgAPI) (maxPages : Z)
    (policy : Policy) (retryer : bool) : res OrgReader :=
  match api with
  | None => Err ErrInvalidConfig_organizations
  | Some api =>
      fail_if bool_decide (target = "") || (maxPages <=? 0)%Z || (pol_SeriesLimit policy <=? 0)%Z ||
              (pol_SeriesLimit policy <? Z.of_nat (length (pol_AccountIDs policy)))%Z ||
              negb retryer
        with_ ErrInvalidConfig_organizations ;;
      allowlist ← build_allowlist (pol_AccountIDs policy) ∅;
      Ok (mkOrgReader target api maxPages allowlist (pol_SeriesLimit policy))
  end.

Definition map_account (target : TargetID) (account : OrgAccount) : Account :=
  mkAccount target (ToString (oa_Id account)) (ToString (oa_Name account))
    (accountStatus (oa_State account) (oa_Status account)).

(** The body of the loop over the accounts of a page. *)
Fixpoint add_accounts (reader : OrgReader) (l : list OrgAccount)
    (st : gset string * list Account) : res (gset string * list Account) :=
  match l with
  | [] => Ok st
  | account :: l =>
      let '(seen, values) := st in
      let id := ToString (oa_Id account) in
      fail_if negb (org_accountID id) || bool_decide (ToString (oa_Name account) = "")
        with_ Wrapped "malformed account" ErrInvalidResponse_organizations ;;
      fail_if bool_decide (id ∈ seen)
        with_ Wrapped "duplicate account" ErrInvalidResponse_organizations ;;
      let seen := {[ id ]} ∪ seen in
      if negb (bool_decide (or_allowlist reader = ∅)) && negb (bool_decide (id ∈ or_allowlist reader))
      then add_accounts reader l (seen, values)
      else
        fail_if (or_seriesLimit reader <=? Z.of_nat (length values))%Z
          with_ ErrSeriesLimit_organizations ;;
        add_accounts reader l (seen, values ++ [map_account (or_target reader) account])
  end.

Definition list_accounts (reader : OrgReader) : PagedCall W ListAccountsOutput :=
  mkPagedCall (ListAccounts (or_api reader)) (or_target reader) "ListAccounts" la_NextToken
    true true ErrPageLimit_organizations (Wrapped "nil page" ErrInvalidResponse_organizations)
    (Wrapped "duplicate page token" ErrInvalidResponse_organizations) (fun _ => Ok tt).

Definition ReadAccounts (reader : OrgReader) : io W (list Account) :=
  described ← aws_call (or_target reader) "DescribeOrganization"
                (DescribeOrganization (or_api reader));
  match described with
  | Some true =>
      st ← read_paged (list_accounts reader) (fun _ page => add_accounts reader (la_Accounts page))
             (Z.to_nat (or_maxPages reader)) true None ∅ (∅, []);
      mret (organization_Sort st.2)
  | _ => lift (Err (Wrapped "missing organization" ErrInvalidResponse_organizations))
  end.
End Organizations.
Arguments OrgAPI W : clear implicits.
Arguments OrgReader W : clear implicits.

(** ** Budgets (budgets/reader.go) *)

Definition ErrInvalidConfig_budgets : error := Sentinel "invalid Budgets adapter configuration".
Definition ErrInvalidResponse_budgets : error := Sentinel "invalid Budgets response".
Definition ErrPageLimit_budgets : error := Sentinel "budgets page limit exceeded".

(** The SDK's spend, budget and page; [CalculatedSpend] is an option of its two spends. *)
Record Spend := mkSpend { sp_Amount : option string; sp_Unit : option string }.
Record AwsBudget := mkAwsBudget {
  ab_BudgetName : option string;
  ab_BudgetType : string;
  ab_TimeUnit : string;
  ab_BudgetLimit : option Spend;
  ab_CalculatedSpend : option (option Spend * option Spend)  (** actual, forecasted *)
}.
Record DescribeBudgetsOutput := mkDescribeBudgets {
  db_Budgets : list AwsBudget; db_NextToken : option string
}.

Definition knownBudgetType (value : string) : bool := bool_decide (value = "COST").
Definition knownTimeUnit (value : string) : bool :=
  bool_decide (value ∈ ["DAILY"; "MONTHLY"; "QUARTERLY"; "ANNUALLY"; "CUSTOM"]).

Definition parseSpend (value : option Spend) : res Money :=
  match value with
  | None => Err (Wrapped "spend missing" ErrInvalidResponse_budgets)
  | Some value =>
      match ParseMoney (ToString (sp_Amount value)) (ToString (sp_Unit value)) with
      | Err _ => Err (Wrapped "invalid spend" ErrInvalidResponse_budgets)
      | Ok money => Ok money
      end
  end.

(** A calculated spend: absent, or parsed and in the currency of the limit. *)
Definition calculated_spend (limit : Money) (spend : option Spend) : res (option Money) :=
  match spend with
  | None => Ok None
  | Some _ =>
      money ← parseSpend spend;
      fail_if negb (bool_decide (currency money = currency limit))
        with_ Wrapped "budget units differ" ErrInvalidResponse_budgets ;;
      Ok (Some money)
  end.

Definition mapBudget (target : TargetID) (value : AwsBudget) : res Budget :=
  fail_if bool_decide (ab_BudgetLimit value = None)
    with_ Wrapped "budget limit missing" ErrInvalidResponse_budgets ;;
  limit ← parseSpend (ab_BudgetLimit value);
  let name := ToString (ab_BudgetName value) in
  fail_if bool_decide (name = "") || bool_decide (ab_BudgetType value = "") ||
          bool_decide (ab_TimeUnit value = "")
    with_ Wrapped "required budget metadata missing" ErrInvalidResponse_budgets ;;
  fail_if negb (knownBudgetType (ab_BudgetType value)) || negb (knownTimeUnit (ab_TimeUnit value))
    with_ Wrapped "unknown budget enum" ErrInvalidResponse_budgets ;;
  match ab_CalculatedSpend value with
  | None => Ok (mkBudget target name (ab_BudgetType value) (ab_TimeUnit value) limit None None)
  | Some (actual, forecasted) =>
      actual ← calculated_spend limit actual;
      forecasted ← calculated_spend limit forecasted;
      Ok (mkBudget target name (ab_BudgetType value) (ab_TimeUnit value) limit actual forecasted)
  end.

Section Budgets.
Context {W : Type} `{World W}.

(** [DescribeBudgets] of an account, under a page token. *)
Definition BudgetAPI : Type := string -> option string -> io W (option DescribeBudgetsOutput).

Record BudgetReader := mkBudgetReader {
  br_target : TargetID; br_accountID : string; br_api : BudgetAPI; br_maxPages : Z;
  br_allowlist : gset string
}.

Definition budgets_NewReader (target : TargetID) (account : string) (api : option BudgetAPI)
    (maxPages : Z) (names : list string) (retryer : bool) : res BudgetReader :=
  match api with
  | None => Err ErrInvalidConfig_budgets
  | Some api =>
      fail_if bool_decide (target = "") || negb (bool_decide (String.length account = 12)) ||
              (maxPages <=? 0)%Z || bool_decide (names = []) || negb retryer
        with_ ErrInvalidConfig_budgets ;;
      fail_if existsb (fun name => bool_decide (name = "")) names with_ ErrInvalidConfig_budgets ;;
      let allowlist : gset string := list_to_set names in
      fail_if negb (bool_decide (size allowlist = length names)) with_ ErrInvalidConfig_budgets ;;
      Ok (mkBudgetReader target account api maxPages allowlist)
  end.

(** The body of the loop over the budgets of a page. *)
Fixpoint add_budgets (reader : BudgetReader) (l : list AwsBudget)
    (st : gset string * list Budget) : res (gset string * list Budget) :=
  match l with
  | [] => Ok st
  | value :: l =>
      let '(found, values) := st in
      let name := ToString (ab_BudgetName value) in
      if negb (bool_decide (name ∈ br_allowlist reader)) then add_budgets reader l st
      else
        fail_if bool_decide (name ∈ found)
          with_ Wrapped "duplicate allowlisted budget" ErrInvalidResponse_budgets ;;
        mapped ← mapBudget (br_target reader) value;
        add_budgets reader l ({[ name ]} ∪ found, values ++ [mapped])
  end.

Definition describe_budgets (reader : BudgetReader) : PagedCall W DescribeBudgetsOutput :=
  mkPagedCall (br_api reader (br_accountID reader)) (br_target reader) "DescribeBudgets"
    db_NextToken true true ErrPageLimit_budgets
    (Wrapped "nil page" ErrInvalidResponse_budgets)
    (Wrapped "duplicate page token" ErrInvalidResponse_budgets) (fun _ => Ok tt).

Definition ReadBudgets (reader : BudgetReader) : io W (list Budget) :=
  st ← read_paged (describe_budgets reader) (fun _ page => add_budgets reader (db_Budgets page))
         (Z.to_nat (br_maxPages reader)) true None ∅ (∅, []);
  let '(found, values) := st in
  if negb (bool_decide (size found = size (br_allowlist reader)))
  then lift (Err (Wrapped "allowlisted budget missing" ErrInvalidResponse_budgets))
  else mret (budget_Sort values).
End Budgets.
Arguments BudgetAPI W : clear implicits.
Arguments BudgetReader W : clear implicits.

(** ** Organizations: what a read answers *)

Section OrganizationLemmas.
Context {W : Type} `{World W} (reader : OrgReader W).

(** The accounts a reader keeps: all of them, or those of its allowlist. *)
Definition org_selected (account : OrgAccount) : bool :=
  bool_decide (or_allowlist reader = ∅) ||
  bool_decide (ToString (oa_Id account) ∈ or_allowlist reader).

Definition org_wf (account : OrgAccount) : Prop :=
  org_accountID (ToString (oa_Id account)) = true /\ ToString (oa_Name account) <> "".

Lemma add_accounts_app l k st :
  add_accounts reader (l ++ k) st = (st ← add_accounts reader l st; add_accounts reader k st).
Proof.
  revert st. induction l as [|account l IH]; intros st; simpl; [done|].
  destruct st as [seen values]. unfold guard_err. repeat case_match; simpl; done || apply IH.
Qed.

Lemma add_accounts_ok l seen values seen' values' :
  add_accounts reader l (seen, values) = Ok (seen', values') ->
  values' = values ++ map (map_account (or_target reader)) (List.filter org_selected l) /\
  Forall org_wf l /\ NoDup (map (fun a => ToString (oa_Id a)) l) /\
  (forall a, a ∈ l -> ToString (oa_Id a) ∉ seen) /\
  (Z.of_nat (length values) <= Z.max 0 (or_seriesLimit reader) ->
   Z.of_nat (length values') <= Z.max 0 (or_seriesLimit reader))%Z.
Proof.
  revert seen values. induction l as [|a l IH]; intros seen values; cbn [add_accounts].
  - intros Ha%Ok_inj. injection Ha as <- <-. rewrite app_nil_r.
    repeat split; [constructor|constructor|set_solver|lia].
  - intros [Hbad [Hseen Ha]%guard_ok]%guard_ok. inv_bool.
    assert (Hrest : forall values1, add_accounts reader l ({[ToString (oa_Id a)]} ∪ seen, values1) =
      Ok (seen', values') -> values1 = values ++ map (map_account (or_target reader))
        (List.filter org_selected [a]) ->
      (Z.of_nat (length values) <= Z.max 0 (or_seriesLimit reader) ->
       Z.of_nat (length values1) <= Z.max 0 (or_seriesLimit reader))%Z ->
      values' = values ++ map (map_account (or_target reader)) (List.filter org_selected (a :: l)) /\
      Forall org_wf (a :: l) /\ NoDup (map (fun a => ToString (oa_Id a)) (a :: l)) /\
      (forall b, b ∈ a :: l -> ToString (oa_Id b) ∉ seen) /\
      (Z.of_nat (length values) <= Z.max 0 (or_seriesLimit reader) ->
       Z.of_nat (length values') <= Z.max 0 (or_seriesLimit reader))%Z).
    { intros values1 Hv1 Hv Hl. apply IH in Hv1 as (-> & Hwf & Hnd & Hnew & Hlen).
      split; [rewrite Hv, <-(assoc_L (++)), <-map_app; f_equal; f_equal; simpl; by destruct (org_selected a)|].
      split; [by constructor|]. split; [|split; [set_solver|by eauto]].
      constructor; [|done]. intros (b & Hb & Heq)%elem_of_map. apply (Hnew b Hb). set_solver. }
    assert (Hsel : org_selected a = bool_decide (or_allowlist reader = ∅) ||
      bool_decide (ToString (oa_Id a) ∈ or_allowlist reader)) by done.
    destruct (bool_decide (or_allowlist reader = ∅)), (bool_decide (ToString (oa_Id a) ∈ or_allowlist reader));
      simpl in Ha, Hsel;
      try (apply guard_ok in Ha as [Hlim Ha]; inv_bool; eapply Hrest; [exact Ha|simpl; by rewrite Hsel|
        rewrite length_app; simpl; lia]);
      eapply Hrest; [exact Ha|simpl; by rewrite Hsel, app_nil_r|done].
Qed.

Lemma build_allowlist_ok ids acc r :
  build_allowlist ids acc = Ok r ->
  r = list_to_set ids ∪ acc /\ NoDup ids /\ forallb org_accountID ids = true.
Proof.
  revert acc. induction ids as [|id ids IH]; intros acc; simpl.
  - intros <-%Ok_inj. split; [set_solver|]. split; [constructor|done].
  - intros [Hv [Hn Hr]%guard_ok]%guard_ok. inv_bool. pose proof Hr as Hr'.
    apply IH in Hr as (-> & Hnd & Hval). split; [set_solver|]. rewrite Hv, Hval.
    split; [|done]. constructor; [|done]. intros Hin.
    assert (Hno : forall ids acc r, build_allowlist ids acc = Ok r -> forall i, i ∈ ids -> i ∉ acc).
    { clear. induction ids as [|i ids IH]; simpl; [set_solver|].
      intros acc r [_ [Hn%bool_decide_eq_false Hr]%guard_ok]%guard_ok j.
      specialize (IH _ _ Hr). set_solver. }
    by apply (Hno _ _ _ Hr' id Hin), elem_of_union_l, elem_of_singleton.
Qed.

(** An answer of [ReadAccounts], before the policy is looked at. *)
Lemma ReadAccounts_ok w vs w' :
  ReadAccounts reader w = (Ok vs, w') ->
  exists pages, paged_chain (list_accounts reader) None pages /\
    length pages <= Z.to_nat (or_maxPages reader) /\
    vs = organization_Sort (map (map_account (or_target reader))
           (List.filter org_selected (flat_map la_Accounts pages))) /\
    Forall org_wf (flat_map la_Accounts pages) /\
    NoDup (map (fun a => ToString (oa_Id a)) (flat_map la_Accounts pages)) /\
    (Z.of_nat (length vs) <= Z.max 0 (or_seriesLimit reader))%Z.
Proof.
  intros ([[]|] & w1 & _ & Hr)%io_bind_ok; try by inv_io.
  apply io_bind_ok in Hr as ([seen values] & w2 & Hr & [-> ->]%io_ret_ok).
  apply read_paged_ok in Hr as (pages & Hchain & Hf & Hlen & _).
  rewrite (fold_pages_flat la_Accounts (add_accounts reader)) in Hf
    by (done || apply add_accounts_app).
  apply add_accounts_ok in Hf as (-> & Hwf & Hnd & _ & Hlim). simpl in *.
  exists pages. unfold organization_Sort. rewrite SliceStable_length.
  repeat split; try done. apply Hlim. lia.
Qed.
End OrganizationLemmas.

Lemma ReadAccounts_target {W} `{World W} (reader : OrgReader W) w vs w' :
  ReadAccounts reader w = (Ok vs, w') -> forall v, v ∈ vs -> AccountTarget v = or_target reader.
Proof.
  intros (pages & _ & _ & -> & _)%ReadAccounts_ok v Hv. unfold organization_Sort in Hv.
  rewrite elem_of_SliceStable in Hv. by apply elem_of_map in Hv as (a & _ & <-).
Qed.

(** C36: reading the accounts of an organization is all or nothing.  A successful read has
    followed a complete chain of at most [maxPages] pages; it answers, sorted, with exactly the
    listed accounts the policy selects (all of them without an allowlist), attributed to the
    target, with valid twelve-digit ids that never repeat and names that are not empty, and never
    with more than [SeriesLimit] of them. *)
Theorem ReadAccounts_spec {W} `{World W} target (api : OrgAPI W) maxPages policy retryer reader
    w vs w' :
  organizations_NewReader target (Some api) maxPages policy retryer = Ok reader ->
  ReadAccounts reader w = (Ok vs, w') ->
  exists pages, paged_chain (list_accounts reader) None pages /\
    (Z.of_nat (length pages) <= maxPages)%Z /\
    vs = organization_Sort (map (map_account target) (List.filter
           (fun a => bool_decide (pol_AccountIDs policy = []) ||
                     bool_decide (ToString (oa_Id a) ∈ pol_AccountIDs policy))
           (flat_map la_Accounts pages))) /\
    (forall v, v ∈ vs -> AccountTarget v = target /\ org_accountID (AccountID v) = true /\
       AccountName v <> "") /\
    NoDup (map AccountID vs) /\ (Z.of_nat (length vs) <= pol_SeriesLimit policy)%Z.
Proof.
  intros [Hg (allowlist & Hal & <-%Ok_inj)%bind_ok]%guard_ok Hr. inv_bool.
  apply build_allowlist_ok in Hal as (-> & _ & _). rewrite (right_id_L ∅ (∪)) in *.
  apply ReadAccounts_ok in Hr as (pages & Hchain & Hlen & -> & Hwf & Hnd & Hlim). simpl in *.
  exists pages. split; [done|]. split; [lia|].
  assert (Hsel : forall a, org_selected (mkOrgReader target api maxPages
      (list_to_set (pol_AccountIDs policy)) (pol_SeriesLimit policy)) a =
    bool_decide (pol_AccountIDs policy = []) ||
    bool_decide (ToString (oa_Id a) ∈ pol_AccountIDs policy)).
  { intros a. unfold org_selected. simpl. f_equal; apply bool_decide_ext.
    - destruct (pol_AccountIDs policy); simpl; [done|set_solver].
    - apply elem_of_list_to_set. }
  rewrite (filter_ext _ _ Hsel) in *. clear Hsel.
  split; [done|]. split; [|split].
  - intros v Hv. unfold organization_Sort in Hv. rewrite SliceStable_perm in Hv.
    apply elem_of_map in Hv as (a & [Ha _]%elem_of_filter_b & <-).
    rewrite Forall_forall in Hwf. by destruct (Hwf a Ha).
  - unfold organization_Sort. rewrite SliceStable_perm, map_map. simpl.
    revert Hnd. generalize (flat_map la_Accounts pages). clear.
    intros l. induction l as [|a l IH]; simpl; [done|]. intros [Ha Hl]%NoDup_cons.
    case_match; simpl; [|by apply IH]. constructor; [|by apply IH].
    intros (b & [Hb _]%elem_of_filter_b & Heq)%elem_of_map. apply Ha, elem_of_map. eauto.
  - lia.
Qed.

(** ** Budgets: what a read answers *)

(** A budget as the reader publishes it: of the target, a cost budget with a known time unit,
    a well-formed limit, and calculated spends in the currency of the limit. *)
Definition budget_ok (target : TargetID) (b : Budget) : Prop :=
  BudgetTarget b = target /\ BudgetName b <> "" /\ BudgetType b = "COST" /\
  knownTimeUnit (BudgetTimeUnit b) = true /\ Money_wf (Limit b) /\
  forall m, Actual b = Some m \/ Forecasted b = Some m ->
    Money_wf m /\ currency m = currency (Limit b).

Lemma parseSpend_ok s m : parseSpend s = Ok m -> Money_wf m.
Proof.
  unfold parseSpend. destruct s as [s|]; [|done]. destruct (ParseMoney _ _) eqn:E; [|done].
  intros <-%Ok_inj. by eapply ParseMoney_wf.
Qed.

Lemma calculated_spend_ok limit s r m :
  calculated_spend limit s = Ok r -> r = Some m -> Money_wf m /\ currency m = currency limit.
Proof.
  unfold calculated_spend. destruct s as [s|]; [|by intros [= <-]].
  intros (money & Hm%parseSpend_ok & [Hc <-%Ok_inj]%guard_ok)%bind_ok [= <-]. by inv_bool.
Qed.

Lemma mapBudget_ok target value b :
  mapBudget target value = Ok b ->
  BudgetName b = ToString (ab_BudgetName value) /\ budget_ok target b.
Proof.
  intros [_ (limit & Hl%parseSpend_ok & [Hn [Hk Hb]%guard_ok]%guard_ok)%bind_ok]%guard_ok.
  inv_bool. unfold knownBudgetType in *. inv_bool.
  destruct (ab_CalculatedSpend value) as [[a f]|].
  - apply bind_ok in Hb as (actual & Ha & (forecasted & Hf & <-%Ok_inj)%bind_ok).
    split; [done|]. do 5 (split; [done|]). simpl.
    intros m [Hm|Hm]; [by eapply (calculated_spend_ok _ a)|by eapply (calculated_spend_ok _ f)].
  - apply Ok_inj in Hb as <-. split; [done|]. do 5 (split; [done|]). intros m [Hm|Hm]; discriminate Hm.
Qed.

Section BudgetLemmas.
Context {W : Type} `{World W} (reader : BudgetReader W).

Lemma add_budgets_app l k st :
  add_budgets reader (l ++ k) st = (st ← add_budgets reader l st; add_budgets reader k st).
Proof.
  revert st. induction l as [|value l IH]; intros st; simpl; [done|].
  destruct st as [found values]. destruct (negb _); [apply IH|]. unfold guard_err.
  case_match; [done|]. destruct (mapBudget _ _); simpl; [apply IH|done].
Qed.

(** Every budget kept is the mapping of a listed one, and the names kept are new, allowlisted
    and distinct. *)
Lemma add_budgets_ok l found values found' values' :
  add_budgets reader l (found, values) = Ok (found', values') ->
  exists bs, values' = values ++ bs /\ found' = list_to_set (map BudgetName bs) ∪ found /\
    Forall (fun b => (exists value, value ∈ l /\ mapBudget (br_target reader) value = Ok b) /\
                     BudgetName b ∈ br_allowlist reader /\ BudgetName b ∉ found) bs /\
    NoDup (map BudgetName bs).
Proof.
  revert found values. induction l as [|value l IH]; intros found values; simpl.
  - intros [= <- <-]. exists []. rewrite app_nil_r. split; [done|]. split; [set_solver|].
    split; constructor.
  - case_bool_decide as Hsel; simpl.
    + intros [Hnew (b & Hb & Ha)%bind_ok]%guard_ok. inv_bool.
      destruct (mapBudget_ok _ _ _ Hb) as [Hname _].
      apply IH in Ha as (bs & -> & -> & Hall & Hnd). exists (b :: bs).
      split; [by rewrite <-(assoc_L (++))|]. split; [simpl; rewrite Hname; set_solver|].
      rewrite Forall_forall in Hall. split.
      * constructor; [rewrite Hname; split; [exists value; split; [by left|done]|done]|].
        apply Forall_forall. intros c Hc. destruct (Hall c Hc) as ((v & ? & ?) & ? & ?).
        split; [exists v; split; [by right|done]|]. set_solver.
      * simpl. constructor; [|done]. intros (c & Hc & Heq)%elem_of_map.
        destruct (Hall c Hc) as (_ & _ & Hnot). rewrite Heq, Hname in Hnot. set_solver.
    + intros (bs & -> & -> & Hall & Hnd)%IH. exists bs. split; [done|]. split; [done|].
      split; [|done]. eapply Forall_impl; [exact Hall|]. intros c ((v & ? & ?) & ? & ?).
      split; [exists v; split; [by right|done]|done].
Qed.
End BudgetLemmas.

Lemma ReadBudgets_target {W} `{World W} (reader : BudgetReader W) w vs w' :
  ReadBudgets reader w = (Ok vs, w') -> forall b, b ∈ vs -> BudgetTarget b = br_target reader.
Proof.
  intros ([found values] & w1 & Hr & Hend)%io_bind_ok b Hb.
  apply read_paged_ok in Hr as (pages & _ & Hf & _).
  rewrite (fold_pages_flat db_Budgets (add_budgets _)) in Hf by (done || apply add_budgets_app).
  apply add_budgets_ok in Hf as (bs & -> & _ & Hall & _).
  destruct (negb _); [by inv_io|]. apply io_ret_ok in Hend as [-> _]. unfold budget_Sort in Hb.
  rewrite elem_of_SliceStable in Hb. rewrite Forall_forall in Hall.
  destruct (Hall b Hb) as ((value & _ & Hm) & _). by apply mapBudget_ok in Hm as (_ & Ht & _).
Qed.

(** reading budgets is all or nothing.  A successful read has followed a complete
    chain of at most [maxPages] pages and answers, sorted, with exactly the configured budgets:
    each configured name once and no other; each is the mapping of a listed budget of that name,
    a cost budget of the target with a known time unit whose calculated spends are in the
    currency of its limit. *)
Theorem ReadBudgets_spec {W} `{World W} target account (api : BudgetAPI W) maxPages names retryer
    reader w vs w' :
  budgets_NewReader target account (Some api) maxPages names retryer = Ok reader ->
  ReadBudgets reader w = (Ok vs, w') ->
  exists pages, paged_chain (describe_budgets reader) None pages /\
    (Z.of_nat (length pages) <= maxPages)%Z /\
    map BudgetName vs ≡ₚ names /\
    forall b, b ∈ vs -> budget_ok target b /\
      exists value, value ∈ flat_map db_Budgets pages /\ mapBudget target value = Ok b.
Proof.
  intros [Hg [_ [Hsize <-%Ok_inj]%guard_ok]%guard_ok]%guard_ok Hr. inv_bool.
  apply io_bind_ok in Hr as ([found values] & w1 & Hr & Hend).
  apply read_paged_ok in Hr as (pages & Hchain & Hf & Hlen & _).
  rewrite (fold_pages_flat db_Budgets (add_budgets _)) in Hf by (done || apply add_budgets_app).
  apply add_budgets_ok in Hf as (bs & -> & -> & Hall & Hnd). simpl in *.
  destruct (bool_decide _) eqn:Hfound; simpl in Hend; [|by inv_io].
  apply bool_decide_eq_true in Hfound. apply io_ret_ok in Hend as [-> ->].
  exists pages. split; [done|]. split; [lia|]. rewrite (right_id_L ∅ (∪)) in Hfound.
  rewrite Forall_forall in Hall. unfold budget_Sort.
  assert (Hnames : NoDup names) by (by apply NoDup_of_size).
  split.
  - rewrite SliceStable_perm. apply NoDup_Permutation; [done|done|].
    assert (Hsub : list_to_set (map BudgetName bs) ⊆@{gset string} list_to_set names).
    { intros n (b & Hb & <-)%elem_of_list_to_set%elem_of_map. by destruct (Hall b Hb) as (_ & ? & _). }
    apply (set_subseteq_size_eq) in Hsub; [|lia]. set_solver.
  - intros b Hb. rewrite SliceStable_perm in Hb.
    destruct (Hall b Hb) as ((value & Hv & Hm) & _). split; [by eapply mapBudget_ok|eauto].
Qed.

(** ** Two concrete reads *)

Definition sample_org_account (id name : string) : OrgAccount :=
  mkOrgAccount (Some id) (Some name) "ACTIVE" "".

(** Two pages of accounts. *)
Definition sample_org_api : OrgAPI unit :=
  mkOrgAPI (fun w => (Ok (Some true), w))
    (fun token w => match token with
       | None => (Ok (Some (mkListAccounts [sample_org_account "222233334444" "staging"] (Some "next"))), w)
       | Some _ => (Ok (Some (mkListAccounts [sample_org_account "111122223333" "production"] None)), w)
       end).

Definition sample_org_reader : OrgReader unit :=
  mkOrgReader "management" sample_org_api 20 ∅ 1000.

Definition sample_org_result : list Account :=
  [mkAccount "management" "111122223333" "production" "ACTIVE";
   mkAccount "management" "222233334444" "staging" "ACTIVE"].

Lemma ReadAccounts_spec_witness :
  ReadAccounts sample_org_reader tt = (Ok sample_org_result, tt) /\
  NoDup (map AccountID sample_org_result).
Proof.
  assert (Hr : ReadAccounts sample_org_reader tt = (Ok sample_org_result, tt)) by reflexivity.
  split; [exact Hr|].
  destruct (ReadAccounts_spec "management" sample_org_api 20 (mkPolicy [] 1000) true
    sample_org_reader tt sample_org_result tt eq_refl Hr) as (pages & _ & _ & _ & _ & Hnd & _).
  exact Hnd.
Defined.

Definition sample_budget_api : BudgetAPI unit := fun _ _ w =>
  (Ok (Some (mkDescribeBudgets
     [mkAwsBudget (Some "other") "USAGE" "MONTHLY" None None;
      mkAwsBudget (Some "monthly") "COST" "MONTHLY" (Some (mkSpend (Some "100") (Some "USD")))
        (Some (Some (mkSpend (Some "12.5") (Some "USD")), None))] None)), w).

Definition sample_budget_reader : BudgetReader unit :=
  mkBudgetReader "management" "111122223333" sample_budget_api 20 {["monthly"]}.

Lemma ReadBudgets_spec_witness :
  exists vs, ReadBudgets sample_budget_reader tt = (Ok vs, tt) /\ map BudgetName vs ≡ₚ ["monthly"].
Proof.
  eexists. assert (Hr : ReadBudgets sample_budget_reader tt = (Ok _, tt)) by (vm_compute; reflexivity).
  split; [exact Hr|].
  destruct (ReadBudgets_spec "management" "111122223333" sample_budget_api 20 ["monthly"] true
    sample_budget_reader tt _ tt eq_refl Hr) as (pages & _ & _ & Hn & _). exact Hn.
Defined.
