(* ===== verification/CostExplorer.v ===== *)
(** * The Cost Explorer adapters (internal/aws/costexplorer)

    Pagination, the mapping of usage, tag and forecast responses to domain records, and the
    adapters that put them behind the readers the collectors use.  The response types are the
    SDK's: a pointer is an option, a string map a [gmap].  The calls of the SDK client are
    arguments. *)

From S2P Require Import Prelude SliceStable GoStrings GoFloat GoTime Errors Effects Pagination Domain Snapshot Ports PromClient Metrics Cardinality Collectors FamilyCollectors.
Local Open Scope string_scope.
Local Open Scope list_scope.

(** ** SDK types *)

Record DateInterval := mkDateInterval { di_Start : option string; di_End : option string }.
Record MetricValue := mkMetricValue { mv_Amount : option string; mv_Unit : option string }.
Record Group := mkGroup { Keys : list string; Metrics : gmap string MetricValue }.
Record ResultByTime := mkResult {
  TimePeriod : option DateInterval;
  Total : gmap string MetricValue;
  Groups : list Group
}.

(** A filter expression: one dimension, or a conjunction. *)
Inductive Expression :=
| Dimensions (key : string) (values : list string)
| And (expressions : list Expression).

Record GetCostAndUsageInput := mkUsageInput {
  in_TimePeriod : DateInterval;
  in_Granularity : string;
  in_Metrics : list string;
  in_Filter : option Expression;
  in_GroupBy : list (string * string);   (** key and type *)
  in_NextPageToken : option string
}.

Record GetCostAndUsageOutput := mkUsageOutput {
  ResultsByTime : list ResultByTime;
  NextPageToken : option string
}.

(** ** Pagination (pagination.go) *)

Definition ErrDuplicatePageToken : error := Sentinel "duplicate Cost Explorer page token".
Definition ErrInvalidPage : error := Sentinel "invalid Cost Explorer page".
Definition ErrPageLimitExceeded : error := Sentinel "cost explorer page limit exceeded".
Definition ErrInvalidPageLimit : error := Sentinel "cost explorer page limit must be positive".

Definition with_token (request : GetCostAndUsageInput) (token : string) : GetCostAndUsageInput :=
  mkUsageInput (in_TimePeriod request) (in_Granularity request) (in_Metrics request)
    (in_Filter request) (in_GroupBy request) (Some token).

Section Paginator.
Context {W : Type} `{World W}.

(** [api.GetCostAndUsage]: an error, or an output that may be nil. *)
Definition UsageAPI : Type := GetCostAndUsageInput -> io W (option GetCostAndUsageOutput).

Record UsagePaginator := mkPaginator { pg_api : UsageAPI; pg_maxPages : Z; pg_target : TargetID }.

Definition NewUsagePaginatorForTarget (target : TargetID) (api : UsageAPI) (maxPages : Z) :
    res UsagePaginator :=
  fail_if (maxPages <=? 0)%Z with_ Wrapped "got" ErrInvalidPageLimit ;;
  Ok (mkPaginator api maxPages target).

Definition NewUsagePaginator : UsageAPI -> Z -> res UsagePaginator := NewUsagePaginatorForTarget "default".

(** The loop: [remaining] is [maxPages - (page - 1)], so the test [page > maxPages] is that no
    page remains. *)
Fixpoint read_pages (paginator : UsagePaginator) (remaining : nat) (request : GetCostAndUsageInput)
    (seen : gset string) (results : list ResultByTime) : io W (list ResultByTime) :=
  _ ← check_ctx;
  match remaining with
  | O => lift (Err (Wrapped "limit" ErrPageLimitExceeded))
  | S remaining =>
      output ← io_map_err (Wrapped "read Cost Explorer page") (pg_api paginator request);
      match output with
      | None => lift (Err (Wrapped "page is nil" ErrInvalidPage))
      | Some output =>
          let results := results ++ ResultsByTime output in
          _ ← observe_pagination (pg_target paginator) "GetCostAndUsage";
          let token := ToString (NextPageToken output) in
          if bool_decide (token = "") then mret results
          else if bool_decide (token ∈ seen)
          then lift (Err (Wrapped "at page" ErrDuplicatePageToken))
          else read_pages paginator remaining (with_token request token) ({[ token ]} ∪ seen) results
      end
  end.

Definition UsagePaginator_Read (paginator : UsagePaginator) (input : option GetCostAndUsageInput) :
    io W (list ResultByTime) :=
  match input with
  | None => lift (Err (Wrapped "input must not be nil" ErrInvalidPage))
  | Some request =>
      let token := ToString (in_NextPageToken request) in
      let seen : gset string := if bool_decide (token = "") then ∅ else {[ token ]} in
      read_pages paginator (Z.to_nat (pg_maxPages paginator)) request seen []
  end.
End Paginator.
Arguments UsageAPI W : clear implicits.
Arguments UsagePaginator W : clear implicits.

(** ** Mapping usage (mapping.go) *)

Definition ErrInvalidResponse : error := Sentinel "invalid Cost Explorer response".

Definition mapPeriod (interval : option DateInterval) : res Period :=
  match interval with
  | None => Err ErrInvalidResponse
  | Some interval =>
      match di_Start interval, di_End interval with
      | Some start, Some end_ =>
          match Parse_DateOnly start, Parse_DateOnly end_ with
          | Some start, Some end_ =>
              match NewPeriod start end_ with
              | Ok period => Ok period
              | Err _ => Err (Wrapped "invalid period" ErrInvalidResponse)
              end
          | _, _ => Err (Wrapped "invalid date interval" ErrInvalidResponse)
          end
      | _, _ => Err ErrInvalidResponse
      end
  end.

Definition metricBasis (metric : string) : Basis :=
  if bool_decide (metric = "AmortizedCost") then BasisAmortized
  else if bool_decide (metric = "NetUnblendedCost") then BasisNet
  else BasisUnblended.

Definition mapCost (period : Period) (window : Window) (dimension : Dimension)
    (metrics : gmap string MetricValue) (costMetric : string) : res Cost :=
  match metrics !! costMetric with
  | None => Err (Wrapped "missing metric" ErrInvalidResponse)
  | Some metric =>
      amount ← ParseMoney (ToString (mv_Amount metric)) (ToString (mv_Unit metric));
      Ok (mkCost "" ProviderCostExplorer (metricBasis costMetric) window period dimension amount)
  end.

(** The struct [aggregateKey]. *)
Record aggregateKey := mkAggregateKey {
  ak_kind : DimensionKind; ak_value : string; ak_currency : string; ak_provider : Provider;
  ak_basis : Basis
}.

#[export] Instance aggregateKey_eq_dec : EqDecision aggregateKey.
Proof. solve_decision. Defined.
#[export] Instance aggregateKey_countable : Countable aggregateKey.
Proof.
  apply (inj_countable'
    (fun k => (ak_kind k, ak_value k, ak_currency k, ak_provider k, ak_basis k))
    (fun '(a, b, c, d, e) => mkAggregateKey a b c d e)).
  by intros [].
Defined.

Definition key_of (entry : Cost) : aggregateKey :=
  mkAggregateKey (Kind (CostDimension entry)) (Value (CostDimension entry))
    (currency (CostAmount entry)) (CostProvider entry) (CostBasis entry).

Definition set_amount (c : Cost) (m : Money) : Cost :=
  mkCost (CostTarget c) (CostProvider c) (CostBasis c) (CostWindow c) (CostPeriod c)
    (CostDimension c) m.

Fixpoint add_totals (entries : list Cost) (period : Period) (totals : gmap aggregateKey Cost) :
    res (gmap aggregateKey Cost) :=
  match entries with
  | [] => Ok totals
  | entry :: entries =>
      match totals !! key_of entry with
      | None =>
          add_totals entries period
            (<[ key_of entry := mkCost "" (CostProvider entry) (CostBasis entry)
                 WindowMonthToDate period (CostDimension entry) (CostAmount entry) ]> totals)
      | Some existing =>
          sum ← Money_Add (CostAmount existing) (CostAmount entry);
          add_totals entries period (<[ key_of entry := set_amount existing sum ]> totals)
      end
  end.

Definition keyLess : aggregateKey -> aggregateKey -> bool :=
  by_string ak_kind (by_string ak_value (by_string ak_currency no_key)).

(** The keys are listed in the map's order; the sort makes the result independent of it. *)
Definition aggregateMonthToDate (entries : list Cost) (period : Period) : res (list Cost) :=
  if bool_decide (length entries = 0) then Ok [] else
  totals ← add_totals entries period ∅;
  let keys := SliceStable keyLess (map_to_list totals).*1 in
  Ok (omap (fun key => totals !! key) keys).

(** [for _, x := range l { ... }] gathering the values of steps that can fail. *)
Fixpoint each {A B} (f : A -> res (list B)) (l : list A) : res (list B) :=
  match l with
  | [] => Ok []
  | a :: l => bs ← f a; rest ← each f l; Ok (bs ++ rest)
  end.

Definition map_group (period : Period) (query : CostQuery) (costMetric : string) (group : Group) :
    res (list Cost) :=
  match Keys group with
  | [key] =>
      dimension ← map_err (Wrapped "map result group") (NewDimension (q_GroupBy query) key);
      entry ← map_err (Wrapped "map result group")
                (mapCost period (q_Window query) dimension (Metrics group) costMetric);
      Ok [entry]
  | _ => Err (Wrapped "group must have one key" ErrInvalidResponse)
  end.

Definition map_result (query : CostQuery) (costMetric : string) (result : ResultByTime) :
    res (list Cost) :=
  period ← map_err (Wrapped "map result") (mapPeriod (TimePeriod result));
  if bool_decide (q_GroupBy query = DimensionTotal) then
    let dimension := mkDimension DimensionTotal "" in
    entry ← map_err (Wrapped "map result")
              (mapCost period (q_Window query) dimension (Total result) costMetric);
    Ok [entry]
  else each (map_group period query costMetric) (Groups result).

Definition MapUsage (results : list ResultByTime) (query : CostQuery) (costMetric : string) :
    res (list Cost) :=
  fail_if bool_decide (costMetric = "")
    with_ Wrapped "cost metric must not be empty" ErrInvalidResponse ;;
  fail_if negb (bool_decide (q_GroupBy query = DimensionTotal)) &&
          negb (bool_decide (q_GroupBy query = DimensionService)) &&
          negb (bool_decide (q_GroupBy query = DimensionRegion)) &&
          negb (bool_decide (q_GroupBy query = DimensionAccount))
    with_ Wrapped "unsupported group" ErrInvalidResponse ;;
  mapped ← each (map_result query costMetric) results;
  if negb (bool_decide (q_Window query = WindowMonthToDate)) then Ok mapped
  else aggregateMonthToDate mapped (q_Period query).

(** ** Mapping tags (tag_mapping.go) *)

(** The local struct [key]. *)
Record tagTotalKey := mkTagTotalKey { tt_value : string; tt_currency : string }.

#[export] Instance tagTotalKey_eq_dec : EqDecision tagTotalKey.
Proof. solve_decision. Defined.
#[export] Instance tagTotalKey_countable : Countable tagTotalKey.
Proof.
  apply (inj_countable' (fun k => (tt_value k, tt_currency k)) (fun '(a, b) => mkTagTotalKey a b)).
  by intros [].
Defined.

Definition tag_key_of (item : TagCost) : tagTotalKey :=
  mkTagTotalKey (TagValue item) (currency (TagAmount item)).

Definition set_tag_amount (t : TagCost) (m : Money) : TagCost :=
  mkTagCost (TagTarget t) (TagProvider t) (TagBasis t) (TagWindow t) (TagKey t) (TagValue t) m.

Fixpoint add_tag_totals (items : list TagCost) (totals : gmap tagTotalKey TagCost) :
    res (gmap tagTotalKey TagCost) :=
  match items with
  | [] => Ok totals
  | item :: items =>
      match totals !! tag_key_of item with
      | None => add_tag_totals items (<[ tag_key_of item := item ]> totals)
      | Some existing =>
          sum ← Money_Add (TagAmount existing) (TagAmount item);
          add_tag_totals items (<[ tag_key_of item := set_tag_amount existing sum ]> totals)
      end
  end.

Definition tagKeyLess : tagTotalKey -> tagTotalKey -> bool :=
  by_string tt_value (by_string tt_currency no_key).

Definition map_tag_group (query : CostQuery) (metric tagKey : string) (group : Group) :
    res (list TagCost) :=
  match Keys group with
  | [key] =>
      match Metrics group !! metric with
      | None => Err (Wrapped "missing metric" ErrInvalidResponse)
      | Some metricValue =>
          money ← ParseMoney (ToString (mv_Amount metricValue)) (ToString (mv_Unit metricValue));
          let value := TrimPrefix key (String.app tagKey "$") in
          let value := if bool_decide (value = "") then "__untagged__" else value in
          Ok [mkTagCost "" ProviderCostExplorer (q_Basis query) (q_Window query) tagKey value money]
      end
  | _ => Err (Wrapped "tag group must have one key" ErrInvalidResponse)
  end.

Definition map_tag_result (query : CostQuery) (metric tagKey : string) (result : ResultByTime) :
    res (list TagCost) :=
  _ ← map_err (Wrapped "map tag result") (mapPeriod (TimePeriod result));
  each (map_tag_group query metric tagKey) (Groups result).

Definition mapTagUsage (results : list ResultByTime) (query : CostQuery) (metric tagKey : string) :
    res (list TagCost) :=
  fail_if negb (Basis_Valid (q_Basis query))
    with_ Wrapped "unsupported tag cost basis" ErrInvalidResponse ;;
  values ← each (map_tag_result query metric tagKey) results;
  if negb (bool_decide (q_Window query = WindowMonthToDate)) then Ok values
  else
    totals ← add_tag_totals values ∅;
    let keys := SliceStable tagKeyLess (map_to_list totals).*1 in
    Ok (omap (fun k => totals !! k) keys).

(** ** Adapters (usage.go, forecast.go) *)

Definition ErrNilUsageAPI : error := Sentinel "cost explorer usage API must not be nil".
Definition ErrNilForecastAPI : error := Sentinel "cost explorer forecast API must not be nil".

Definition metricForBasis (basis : Basis) (fallback : string) : res string :=
  if bool_decide (basis = BasisUnblended) then Ok fallback
  else if bool_decide (basis = BasisAmortized) then Ok "AmortizedCost"
  else if bool_decide (basis = BasisNet) then Ok "NetUnblendedCost"
  else Err (Wrapped "unsupported cost basis" ErrInvalidResponse).

(** The SDK's dimension names. *)
Definition usageDimension (kind : DimensionKind) : res string :=
  if bool_decide (kind = DimensionService) then Ok "SERVICE"
  else if bool_decide (kind = DimensionRegion) then Ok "REGION"
  else if bool_decide (kind = DimensionAccount) then Ok "LINKED_ACCOUNT"
  else Err (Wrapped "unsupported group" ErrInvalidResponse).

Definition dimensionFilter (linkedAccountIDs services regions : list string) : option Expression :=
  let expressions := flat_map (fun '(key, values) =>
      if bool_decide (length values = 0) then [] else [Dimensions key values])
    [("LINKED_ACCOUNT", linkedAccountIDs); ("SERVICE", services); ("REGION", regions)] in
  match expressions with
  | [] => None
  | [expression] => Some expression
  | _ => Some (And expressions)
  end.

Definition usageFilter (query : CostQuery) : option Expression :=
  dimensionFilter (q_LinkedAccountIDs query) (q_Services query) (q_Regions query).

Definition date_interval (period : Period) : DateInterval :=
  mkDateInterval (Some (Format_DateOnly (Start period))) (Some (Format_DateOnly (End_ period))).

(** [ClassifyError] around the error of a call. *)
Definition classified {W A} (m : io W A) : io W A := io_map_err ClassifyError m.

(** *** Forecasts *)

Record ForecastResult := mkForecastResult {
  fr_TimePeriod : option DateInterval;
  MeanValue : option string;
  PredictionIntervalLowerBound : option string;
  PredictionIntervalUpperBound : option string
}.

Record GetCostForecastInput := mkForecastInput {
  fi_Granularity : string;
  fi_Metric : string;
  fi_PredictionIntervalLevel : Z;
  fi_Filter : option Expression;
  fi_TimePeriod : DateInterval
}.

Record GetCostForecastOutput := mkForecastOutput {
  ForecastResultsByTime : list ForecastResult;
  fo_Total : option MetricValue
}.

Definition forecastMetric (basis : Basis) : res string :=
  if bool_decide (basis = BasisUnblended) then Ok "UNBLENDED_COST"
  else if bool_decide (basis = BasisAmortized) then Ok "AMORTIZED_COST"
  else if bool_decide (basis = BasisNet) then Ok "NET_UNBLENDED_COST"
  else Err (Wrapped "unsupported forecast cost basis" ErrInvalidResponse).

Definition MapForecast (output : option GetCostForecastOutput) (query : ForecastQuery) :
    res Forecast :=
  fail_if negb (Basis_Valid (fq_Basis query))
    with_ Wrapped "unsupported forecast cost basis" ErrInvalidResponse ;;
  let mismatch := Err (Wrapped "expected one forecast result" ErrInvalidResponse) in
  match output with
  | None => mismatch
  | Some output =>
      match fo_Total output, ForecastResultsByTime output with
      | Some total, [result] =>
          period ← mapPeriod (fr_TimePeriod result);
          let month := MonthContaining (Start (fq_Period query)) in
          let validStart := Time_Equal (Start period) (Start (fq_Period query)) ||
                            Time_Equal (Start period) (Start month) in
          fail_if negb validStart || negb (Time_Equal (End_ period) (End_ (fq_Period query)))
            with_ Wrapped "forecast period mismatch" ErrInvalidResponse ;;
          let cur := ToString (mv_Unit total) in
          mean ← map_err (Wrapped "map forecast mean")
                   (ParseMoney (ToString (MeanValue result)) cur);
          lower ← map_err (Wrapped "map forecast lower bound")
                    (ParseMoney (ToString (PredictionIntervalLowerBound result)) cur);
          upper ← map_err (Wrapped "map forecast upper bound")
                    (ParseMoney (ToString (PredictionIntervalUpperBound result)) cur);
          fail_if fltb (amount mean) (amount lower) || fltb (amount upper) (amount mean)
            with_ Wrapped "prediction bounds are unordered" ErrInvalidResponse ;;
          Ok (mkForecast "" ProviderCostExplorer (fq_Basis query) (fq_Period query) mean lower upper)
      | _, _ => mismatch
      end
  end.

Section Adapters.
Context {W : Type} `{World W}.

Record UsageAdapter := mkUsageAdapter { ua_paginator : UsagePaginator W; ua_costMetric : string }.

Definition NewUsageAdapterForTarget (target : TargetID) (api : option (UsageAPI W)) (maxPages : Z)
    (costMetric : string) : res UsageAdapter :=
  match api with
  | None => Err ErrNilUsageAPI
  | Some api =>
      fail_if bool_decide (costMetric = "")
        with_ Wrapped "cost metric must not be empty" ErrInvalidResponse ;;
      paginator ← NewUsagePaginatorForTarget target api maxPages;
      Ok (mkUsageAdapter paginator costMetric)
  end.

Definition NewUsageAdapter : option (UsageAPI W) -> Z -> string -> res UsageAdapter := NewUsageAdapterForTarget "default".

Definition UsageAdapter_ReadCosts (adapter : UsageAdapter) (query : CostQuery) :
    io W (list Cost) :=
  costMetric ← lift (metricForBasis (q_Basis query) (ua_costMetric adapter));
  groupBy ← lift (if bool_decide (q_GroupBy query = DimensionTotal) then Ok []
                  else dimension ← usageDimension (q_GroupBy query); Ok [(dimension, "DIMENSION")]);
  let input := mkUsageInput (date_interval (q_Period query)) "DAILY" [costMetric]
                 (usageFilter query) groupBy None in
  results ← classified (UsagePaginator_Read (ua_paginator adapter) (Some input));
  lift (MapUsage results query costMetric).

Definition UsageAdapter_ReadTagCosts (adapter : UsageAdapter) (query : CostQuery) (tagKey : string) :
    io W (list TagCost) :=
  costMetric ← lift (metricForBasis (q_Basis query) (ua_costMetric adapter));
  let input := mkUsageInput (date_interval (q_Period query)) "DAILY" [costMetric]
                 (usageFilter query) [(tagKey, "TAG")] None in
  results ← classified (UsagePaginator_Read (ua_paginator adapter) (Some input));
  lift (mapTagUsage results query costMetric tagKey).

Definition ForecastAPI : Type := GetCostForecastInput -> io W (option GetCostForecastOutput).

Definition NewForecastAdapter (api : option ForecastAPI) : res ForecastAPI :=
  match api with None => Err ErrNilForecastAPI | Some api => Ok api end.

Definition int32 (z : Z) : Z := ((z + 2 ^ 31) mod 2 ^ 32 - 2 ^ 31)%Z.

Definition ForecastAdapter_ReadForecast (api : ForecastAPI) (query : ForecastQuery) :
    io W Forecast :=
  metric ← lift (forecastMetric (fq_Basis query));
  output ← classified (api (mkForecastInput "MONTHLY" metric (int32 (fq_PredictionInterval query))
    (dimensionFilter (fq_LinkedAccountIDs query) (fq_Services query) (fq_Regions query))
    (date_interval (fq_Period query))));
  lift (MapForecast output query).
End Adapters.
Arguments UsageAdapter W : clear implicits.
Arguments ForecastAPI W : clear implicits.

(** ** Pagination *)

Section PaginationLemmas.
Context {W : Type} `{World W}.

(** A chain of pages: each is the client's answer to the request with the token of the page
    before it, and only the last page has no token. *)
Inductive page_chain (paginator : UsagePaginator W) :
    GetCostAndUsageInput -> W -> list GetCostAndUsageOutput -> W -> Prop :=
| chain_last request w w1 w2 w3 output :
    check_ctx w = (Ok tt, w1) -> pg_api paginator request w1 = (Ok (Some output), w2) ->
    observe_pagination (pg_target paginator) "GetCostAndUsage" w2 = (Ok tt, w3) ->
    ToString (NextPageToken output) = "" ->
    page_chain paginator request w [output] w3
| chain_more request w w1 w2 w3 output outputs w4 :
    check_ctx w = (Ok tt, w1) -> pg_api paginator request w1 = (Ok (Some output), w2) ->
    observe_pagination (pg_target paginator) "GetCostAndUsage" w2 = (Ok tt, w3) ->
    ToString (NextPageToken output) <> "" ->
    page_chain paginator (with_token request (ToString (NextPageToken output))) w3 outputs w4 ->
    page_chain paginator request w (output :: outputs) w4.

(** The tokens the pages hand on, the last page aside. *)
Definition page_tokens (outputs : list GetCostAndUsageOutput) : list string :=
  List.filter (fun t => negb (bool_decide (t = ""))) (map (fun o => ToString (NextPageToken o)) outputs).

Lemma read_pages_ok paginator remaining request seen results w r w' :
  read_pages paginator remaining request seen results w = (Ok r, w') ->
  exists outputs, page_chain paginator request w outputs w' /\
    r = results ++ flat_map ResultsByTime outputs /\ length outputs <= remaining /\
    NoDup (page_tokens outputs) /\ forall t, t ∈ page_tokens outputs -> t ∉ seen.
Proof.
  revert request seen results w. induction remaining as [|remaining IH];
    intros request seen results w Hr; simpl in Hr;
    apply io_bind_ok in Hr as ([] & w1 & Hctx & Hr); [by inv_io|].
  apply io_bind_ok in Hr as ([output|] & w2 & Hapi%io_map_err_ok & Hr); [|by inv_io].
  apply io_bind_ok in Hr as ([] & w3 & Hobs & Hr).
  case_bool_decide as Htok.
  - apply io_ret_ok in Hr as [-> ->]. exists [output].
    split; [by econstructor|]. unfold page_tokens. simpl. rewrite Htok. simpl.
    split; [by rewrite app_nil_r|]. split; [lia|]. split; [constructor|set_solver].
  - case_bool_decide as Hseen; [by inv_io|].
    apply IH in Hr as (outputs & Hchain & -> & Hlen & Hnd & Hnew). exists (output :: outputs).
    split; [by econstructor|]. unfold page_tokens in *. simpl.
    rewrite bool_decide_false by done. simpl.
    split; [by rewrite <- (assoc_L (++))|]. split; [lia|].
    split; [constructor; [|done]; intros Hin; apply Hnew in Hin; set_solver|].
    intros t [->|Ht]%elem_of_cons; [done|]. apply Hnew in Ht. set_solver.
Qed.

End PaginationLemmas.

(** ** Usage *)

Section EachLemmas.
Context {A B : Type}.

Lemma each_ok (f : A -> res (list B)) l bs :
  each f l = Ok bs -> forall b, b ∈ bs -> exists a r, a ∈ l /\ f a = Ok r /\ b ∈ r.
Proof.
  revert bs. induction l as [|a l IH]; simpl; intros bs Hb.
  - inv_ok. set_solver.
  - apply bind_ok in Hb as (b1 & Hb1 & Hb). apply bind_ok in Hb as (rest & Hrest & <-%Ok_inj).
    intros b [Hin|Hin]%elem_of_app; [exists a, b1; set_solver|].
    destruct (IH rest Hrest b Hin) as (a' & r & ? & ? & ?). exists a', r. set_solver.
Qed.
End EachLemmas.

(** Mapped costs answer the query, under the basis of the metric. *)
Definition mapped_ok (query : CostQuery) (costMetric : string) (v : Cost) : Prop :=
  CostProvider v = ProviderCostExplorer /\ CostBasis v = metricBasis costMetric /\
  CostWindow v = q_Window query /\ Kind (CostDimension v) = q_GroupBy query /\
  Dimension_wf (CostDimension v) /\ Money_wf (CostAmount v).

Lemma mapCost_ok period window dimension metrics costMetric v :
  mapCost period window dimension metrics costMetric = Ok v ->
  CostProvider v = ProviderCostExplorer /\ CostBasis v = metricBasis costMetric /\
  CostWindow v = window /\ CostDimension v = dimension /\ CostPeriod v = period /\
  Money_wf (CostAmount v).
Proof.
  unfold mapCost. destruct (metrics !! costMetric); [|done].
  intros (amt & Hamt & <-%Ok_inj)%bind_ok. simpl. repeat (split; [done|]). by eapply ParseMoney_wf.
Qed.

Lemma map_result_ok query costMetric result vs :
  map_result query costMetric result = Ok vs -> forall v, v ∈ vs -> mapped_ok query costMetric v.
Proof.
  unfold map_result. intros (period & _ & Hr)%bind_ok. case_bool_decide as Htotal.
  - apply bind_ok in Hr as (entry & Hentry%map_err_ok & <-%Ok_inj).
    intros v ->%list_elem_of_singleton. apply mapCost_ok in Hentry as (? & ? & ? & Hd & _ & ?).
    unfold mapped_ok. rewrite Hd, Htotal. repeat (split; [done|]). split; [|done].
    split; [reflexivity|by left].
  - intros v Hv. destruct (each_ok _ _ _ Hr v Hv) as (group & r & _ & Hg & Hvr).
    unfold map_group in Hg. destruct (Keys group) as [|key []]; [done| |done].
    apply bind_ok in Hg as (dimension & Hdim%map_err_ok & Hg).
    apply bind_ok in Hg as (entry & Hentry%map_err_ok & <-%Ok_inj).
    apply list_elem_of_singleton in Hvr as ->.
    apply mapCost_ok in Hentry as (? & ? & ? & Hd & _ & ?). unfold mapped_ok. rewrite Hd.
    repeat (split; [done|]). split; [by eapply NewDimension_Kind|]. split; [|done].
    by eapply NewDimension_wf.
Qed.

(** *** Month-to-date aggregation *)

Definition totals_step (period : Period) (acc : option Cost) (entry : Cost) : option Cost :=
  match acc with
  | None => Some (mkCost "" (CostProvider entry) (CostBasis entry) WindowMonthToDate period
                    (CostDimension entry) (CostAmount entry))
  | Some c => Some (set_amount c (mkMoney (fadd (amount (CostAmount c)) (amount (CostAmount entry)))
                                    (currency (CostAmount c))))
  end.

Definition entries_of (key : aggregateKey) (entries : list Cost) : list Cost :=
  List.filter (fun e => bool_decide (key_of e = key)) entries.

(** Every total is the sum, in order, of the entries of its key. *)
Lemma add_totals_ok entries period totals r :
  add_totals entries period totals = Ok r ->
  forall key, r !! key = fold_left (totals_step period) (entries_of key entries) (totals !! key).
Proof.
  revert totals. induction entries as [|e entries IH]; intros totals Hr key; simpl in Hr |- *.
  - by inv_ok.
  - unfold entries_of in *. simpl.
    destruct (totals !! key_of e) as [existing|] eqn:E.
    + apply bind_ok in Hr as (sum & (-> & _ & _)%Money_Add_ok & Hr). rewrite (IH _ Hr key).
      case_bool_decide as Hk; simpl.
      * subst key. by rewrite lookup_insert_eq, E.
      * by rewrite lookup_insert_ne.
    + rewrite (IH _ Hr key). case_bool_decide as Hk; simpl.
      * subst key. by rewrite lookup_insert_eq, E.
      * by rewrite lookup_insert_ne.
Qed.

(** What a total holds of its key, whatever the entries. *)
Definition total_ok (period : Period) (key : aggregateKey) (c : Cost) : Prop :=
  key_of c = key /\ CostWindow c = WindowMonthToDate /\ CostPeriod c = period /\
  Money_wf (CostAmount c) /\ Dimension_wf (CostDimension c).

Lemma add_totals_inv entries period totals r :
  (forall e, e ∈ entries -> Dimension_wf (CostDimension e) /\ Money_wf (CostAmount e)) ->
  (forall key c, totals !! key = Some c -> total_ok period key c) ->
  add_totals entries period totals = Ok r ->
  forall key c, r !! key = Some c -> total_ok period key c.
Proof.
  revert totals. induction entries as [|e entries IH]; intros totals Hwf Hinv Hr; simpl in Hr.
  { by inv_ok. }
  assert (Hwf' : forall e, e ∈ entries -> Dimension_wf (CostDimension e) /\ Money_wf (CostAmount e))
    by (intros; apply Hwf; by right).
  destruct (Hwf e ltac:(by left)) as [Hd Hm].
  destruct (totals !! key_of e) as [existing|] eqn:E.
  - apply bind_ok in Hr as (sum & Hsum & Hr). revert Hr. apply IH; [done|].
    intros key c [[<- <-]|[_ Hc]]%lookup_insert_Some; [|by apply Hinv].
    apply Hinv in E as (Hk & Hw & Hp & Hmw & Hdw). unfold total_ok. simpl.
    split; [|split; [done|split; [done|split; [by apply (Money_Add_wf (CostAmount existing) (CostAmount e))|done]]]].
    apply Money_Add_ok in Hsum as (-> & _). rewrite <- Hk. done.
  - revert Hr. apply IH; [done|].
    intros key c [[<- <-]|[_ Hc]]%lookup_insert_Some; [|by apply Hinv]. done.
Qed.

(** The totals of a month to date: one per key, each the sum of its entries. *)
Lemma aggregate_ok entries period r :
  (forall e, e ∈ entries -> Dimension_wf (CostDimension e) /\ Money_wf (CostAmount e)) ->
  aggregateMonthToDate entries period = Ok r ->
  NoDup (map key_of r) /\
  forall c, c ∈ r <->
    fold_left (totals_step period) (entries_of (key_of c) entries) None = Some c /\
    total_ok period (key_of c) c.
Proof.
  intros Hwf. unfold aggregateMonthToDate. case_bool_decide as Hlen.
  { intros <-%Ok_inj. apply nil_length_inv in Hlen as ->.
    split; [constructor|]. intros c. split; [by intros ?%not_elem_of_nil|by intros [? _]]. }
  intros (totals & Htot & <-%Ok_inj)%bind_ok.
  pose proof (add_totals_ok _ _ _ _ Htot) as Hsum. setoid_rewrite lookup_empty in Hsum.
  assert (Hinv : forall key c, totals !! key = Some c -> total_ok period key c).
  { eapply add_totals_inv; [exact Hwf| |exact Htot]. intros key c. by rewrite lookup_empty. }
  set (keys := SliceStable keyLess (map_to_list totals).*1).
  assert (Hkeys : keys ≡ₚ (map_to_list totals).*1) by apply SliceStable_perm.
  assert (Hin : forall key, key ∈ keys -> is_Some (totals !! key)).
  { intros key. rewrite Hkeys. intros ([k c] & -> & Hkc)%list_elem_of_fmap. eexists.
    by apply elem_of_map_to_list. }
  assert (Hmap : map key_of (omap (fun key => totals !! key) keys) = keys).
  { clear -Hin Hinv. induction keys as [|k keys IH]; [done|]. simpl.
    destruct (Hin k) as [c Hc]; [by left|]. rewrite Hc. simpl.
    destruct (Hinv k c Hc) as [-> _]. f_equal. apply IH. intros; apply Hin; by right. }
  split.
  - rewrite Hmap, Hkeys. apply NoDup_fst_map_to_list.
  - intros c. rewrite list_elem_of_omap. split.
    + intros (k & Hk & Hc). destruct (Hinv k c Hc) as (Hkc & Hok). rewrite Hkc.
      split; [by rewrite <- Hsum|]. by split.
    + intros [Hc Hok]. rewrite <- Hsum in Hc. exists (key_of c). split; [|done].
      rewrite Hkeys. apply list_elem_of_fmap. exists (key_of c, c).
      split; [done|]. by apply elem_of_map_to_list.
Qed.

Lemma MapUsage_ok results query costMetric r :
  MapUsage results query costMetric = Ok r ->
  (forall v, v ∈ r -> mapped_ok query costMetric v) /\
  (q_Window query = WindowMonthToDate -> NoDup (map key_of r)).
Proof.
  unfold MapUsage. intros Hm. apply guard_ok in Hm as [_ Hm]. apply guard_ok in Hm as [_ Hm].
  apply bind_ok in Hm as (mapped & Hmapped & Hm).
  assert (Hok : forall v, v ∈ mapped -> mapped_ok query costMetric v).
  { intros v Hv. destruct (each_ok _ _ _ Hmapped v Hv) as (result & vs & _ & Hres & Hvs).
    by eapply map_result_ok. }
  case_bool_decide as Hw; simpl in Hm; [|by inv_ok].
  apply aggregate_ok in Hm as [Hnd Hr].
  2: { intros e He. by apply Hok in He as (_ & _ & _ & _ & ? & ?). }
  split; [|done]. intros v Hv. apply Hr in Hv as [Hfold (_ & Hwin & _ & Hm & Hd)].
  unfold mapped_ok. rewrite Hw.
  assert (Hsrc : forall l acc, fold_left (totals_step (q_Period query)) l acc = Some v ->
    (exists a, acc = Some a /\ CostProvider a = CostProvider v /\ CostBasis a = CostBasis v /\
       Kind (CostDimension a) = Kind (CostDimension v)) \/
    (exists e, e ∈ l /\ CostProvider e = CostProvider v /\ CostBasis e = CostBasis v /\
       Kind (CostDimension e) = Kind (CostDimension v))).
  { clear. induction l as [|e l IH]; simpl; intros acc Hf; [left; eauto|].
    apply IH in Hf as [(a & Ha & ?)|(e' & ? & ?)]; [|right; exists e'; set_solver].
    destruct acc as [c|]; simpl in Ha; injection Ha as <-; simpl in *; [left; eauto|].
    right. exists e. set_solver. }
  destruct (Hsrc _ _ Hfold) as [(a & Ha & _)|(e & He & Hp & Hb & Hk)]; [done|].
  unfold entries_of in He. apply elem_of_filter_b in He as [He _].
  apply Hok in He as (Hp' & Hb' & _ & Hk' & _). rewrite <- Hp, <- Hb, <- Hk. done.
Qed.

(** ** Tags *)

Definition tag_mapped_ok (query : CostQuery) (tagKey : string) (t : TagCost) : Prop :=
  TagProvider t = ProviderCostExplorer /\ TagBasis t = q_Basis query /\
  TagWindow t = q_Window query /\ TagKey t = tagKey /\ TagValue t <> "" /\ Money_wf (TagAmount t).

Lemma map_tag_result_ok query metric tagKey result ts :
  map_tag_result query metric tagKey result = Ok ts ->
  forall t, t ∈ ts -> tag_mapped_ok query tagKey t.
Proof.
  unfold map_tag_result. intros (period & _ & Hr)%bind_ok t Ht.
  destruct (each_ok _ _ _ Hr t Ht) as (group & r & _ & Hg & Htr). unfold map_tag_group in Hg.
  destruct (Keys group) as [|key []]; [done| |done].
  destruct (Metrics group !! metric) as [mv|]; [|done].
  apply bind_ok in Hg as (money & Hm & <-%Ok_inj). apply list_elem_of_singleton in Htr as ->.
  unfold tag_mapped_ok. simpl. repeat (split; [done|]).
  split; [by case_bool_decide|]. by eapply ParseMoney_wf.
Qed.

(** The same totals as for costs, per value and currency. *)
Lemma add_tag_totals_inv query tagKey items totals r :
  (forall t, t ∈ items -> tag_mapped_ok query tagKey t) ->
  (forall key t, totals !! key = Some t -> tag_key_of t = key /\ tag_mapped_ok query tagKey t) ->
  add_tag_totals items totals = Ok r ->
  forall key t, r !! key = Some t -> tag_key_of t = key /\ tag_mapped_ok query tagKey t.
Proof.
  revert totals. induction items as [|i items IH]; intros totals Hok Hinv Hr; simpl in Hr.
  { by inv_ok. }
  assert (Hok' : forall t, t ∈ items -> tag_mapped_ok query tagKey t) by (intros; apply Hok; by right).
  destruct (totals !! tag_key_of i) as [existing|] eqn:E.
  - apply bind_ok in Hr as (sum & Hsum & Hr). revert Hr. apply IH; [done|].
    intros key t [[<- <-]|[_ Hc]]%lookup_insert_Some; [|by apply Hinv].
    apply Hinv in E as (Hk & ? & ? & ? & ? & ? & Hm).
    split; [|unfold tag_mapped_ok; simpl; repeat (split; [done|]);
             by apply (Money_Add_wf (TagAmount existing) (TagAmount i))].
    apply Money_Add_ok in Hsum as (-> & _). by rewrite <- Hk.
  - revert Hr. apply IH; [done|].
    intros key t [[<- <-]|[_ Hc]]%lookup_insert_Some; [|by apply Hinv].
    split; [done|]. apply Hok. by left.
Qed.

Lemma mapTagUsage_ok results query metric tagKey r :
  mapTagUsage results query metric tagKey = Ok r ->
  Basis_Valid (q_Basis query) = true /\ (forall t, t ∈ r -> tag_mapped_ok query tagKey t) /\
  (q_Window query = WindowMonthToDate -> NoDup (map tag_key_of r)).
Proof.
  unfold mapTagUsage. intros Hm. apply guard_ok in Hm as [Hb Hm]. apply negb_false_iff in Hb.
  split; [done|]. apply bind_ok in Hm as (values & Hvalues & Hm).
  assert (Hok : forall t, t ∈ values -> tag_mapped_ok query tagKey t).
  { intros t Ht. destruct (each_ok _ _ _ Hvalues t Ht) as (result & ts & _ & Hres & Hts).
    by eapply map_tag_result_ok. }
  case_bool_decide as Hw; simpl in Hm; [|by inv_ok].
  apply bind_ok in Hm as (totals & Htot & <-%Ok_inj).
  assert (Hinv : forall key t, totals !! key = Some t ->
    tag_key_of t = key /\ tag_mapped_ok query tagKey t).
  { eapply add_tag_totals_inv; [exact Hok| |exact Htot]. intros key t. by rewrite lookup_empty. }
  set (keys := SliceStable tagKeyLess (map_to_list totals).*1).
  assert (Hkeys : keys ≡ₚ (map_to_list totals).*1) by apply SliceStable_perm.
  assert (Hin : forall key, key ∈ keys -> is_Some (totals !! key)).
  { intros key. rewrite Hkeys. intros ([k t] & -> & Hkt)%list_elem_of_fmap. eexists.
    by apply elem_of_map_to_list. }
  assert (Hmap : map tag_key_of (omap (fun key => totals !! key) keys) = keys).
  { clear -Hin Hinv. induction keys as [|k keys IH]; [done|]. simpl.
    destruct (Hin k) as [t Ht]; [by left|]. rewrite Ht. simpl.
    destruct (Hinv k t Ht) as [-> _]. f_equal. apply IH. intros; apply Hin; by right. }
  split.
  - intros t (k & _ & Hk)%list_elem_of_omap. by apply (Hinv k).
  - intros _. rewrite Hmap, Hkeys. apply NoDup_fst_map_to_list.
Qed.

(** ** Forecasts *)

Lemma fleb_of_fltb x y : nonFinite x = false -> nonFinite y = false -> fltb y x = false -> fleb x y = true.
Proof.
  intros [Hx _]%nonFinite_false [Hy _]%nonFinite_false Hf. rewrite fleb_rank by done.
  rewrite <- fltb_rank by done. by rewrite Hf.
Qed.

Lemma MapForecast_ok output query f :
  MapForecast output query = Ok f ->
  forecast_ok f /\ ForecastPeriod f = fq_Period query /\ ForecastBasis f = fq_Basis query /\
  Money_wf (Mean f) /\ Money_wf (LowerBound f) /\ Money_wf (UpperBound f).
Proof.
  unfold MapForecast. intros Hm. apply guard_ok in Hm as [Hb Hm]. apply negb_false_iff in Hb.
  destruct output as [output|]; [|done]. destruct (fo_Total output) as [total|]; [|done].
  destruct (ForecastResultsByTime output) as [|result []]; [done| |done].
  apply bind_ok in Hm as (period & _ & Hm). apply guard_ok in Hm as [_ Hm].
  apply bind_ok in Hm as (mean & Hmean%map_err_ok & Hm).
  apply bind_ok in Hm as (lower & Hlower%map_err_ok & Hm).
  apply bind_ok in Hm as (upper & Hupper%map_err_ok & Hm).
  apply guard_ok in Hm as [[Hlm Hmu]%orb_false_elim <-%Ok_inj].
  assert (Hcur : forall s c m, ParseMoney s c = Ok m -> currency m = TrimSpace c).
  { intros s c m. unfold ParseMoney. destruct (ParseFloat _); [|done].
    by intros (-> & _)%NewMoney_ok. }
  pose proof (Hcur _ _ _ Hmean) as C1. pose proof (Hcur _ _ _ Hlower) as C2.
  pose proof (Hcur _ _ _ Hupper) as C3.
  apply ParseMoney_wf in Hmean as Wm, Hlower as Wl, Hupper as Wu.
  split; [|done]. unfold forecast_ok, identity_valid. cbn [ForecastProvider ForecastBasis Mean LowerBound UpperBound].
  rewrite Hb. split; [done|]. split; [congruence|]. split; [congruence|].
  destruct Wm as [? _], Wl as [? _], Wu as [? _]. split; by apply fleb_of_fltb.
Qed.

(** ** The adapters keep the readers' promises *)

Lemma metricBasis_valid metric : Basis_Valid (metricBasis metric) = true.
Proof. unfold metricBasis. by repeat case_bool_decide. Qed.

Section AdapterLemmas.
Context {W : Type} `{World W}.

Lemma ReadCosts_mapped (adapter : UsageAdapter W) q w vs w' :
  UsageAdapter_ReadCosts adapter q w = (Ok vs, w') ->
  exists costMetric results, metricForBasis (q_Basis q) (ua_costMetric adapter) = Ok costMetric /\
    MapUsage results q costMetric = Ok vs.
Proof.
  unfold UsageAdapter_ReadCosts. intros Hr.
  apply io_bind_ok in Hr as (m & w1 & [Hmet ->]%lift_ok & Hr).
  apply io_bind_ok in Hr as (g & w2 & [_ ->]%lift_ok & Hr).
  apply io_bind_ok in Hr as (results & w3 & _ & [Hmap ->]%lift_ok). eauto.
Qed.

#[export] Instance UsageAdapter_laws (adapter : UsageAdapter W) :
  CostReaderLaws (UsageAdapter_ReadCosts adapter).
Proof.
  intros q w vs w' (costMetric & results & _ & [Hok _]%MapUsage_ok)%ReadCosts_mapped.
  apply Forall_forall. intros v Hv. destruct (Hok v Hv) as (Hp & Hb & ? & ? & ? & ?).
  unfold cost_ok. rewrite Hp, Hb. split; [reflexivity|]. split; [apply metricBasis_valid|]. done.
Qed.

#[export] Instance UsageAdapter_tag_laws (adapter : UsageAdapter W) :
  TagReaderLaws (UsageAdapter_ReadTagCosts adapter).
Proof.
  intros q key w vs w' Hr. unfold UsageAdapter_ReadTagCosts in Hr.
  apply io_bind_ok in Hr as (m & w1 & [Hmet ->]%lift_ok & Hr).
  apply io_bind_ok in Hr as (results & w3 & _ & [(Hb & Hok & _)%mapTagUsage_ok ->]%lift_ok).
  apply Forall_forall. intros t Ht. destruct (Hok t Ht) as (Hp & Hbasis & ? & _ & _ & ?).
  unfold identity_valid. by rewrite Hp, Hbasis, Hb.
Qed.

#[export] Instance ForecastAdapter_laws (api : ForecastAPI W) :
  ForecastReaderLaws (ForecastAdapter_ReadForecast api).
Proof.
  intros q w f w' Hr. unfold ForecastAdapter_ReadForecast in Hr.
  apply io_bind_ok in Hr as (m & w1 & _ & Hr).
  apply io_bind_ok in Hr as (output & w2 & _ & [[Hok _]%MapForecast_ok ->]%lift_ok). done.
Qed.
End AdapterLemmas.

(** ** Properties *)

(** C27: reading usage is all or nothing: a successful [Read] returns exactly the results of
    a complete chain of pages, each answered to the request with the previous page's token, the
    last one without a token; it never follows a token twice and never makes more than
    [maxPages] requests. *)
Theorem UsagePaginator_Read_complete {W} `{World W} (paginator : UsagePaginator W) request w r w' :
  UsagePaginator_Read paginator (Some request) w = (Ok r, w') ->
  exists outputs, page_chain paginator request w outputs w' /\
    r = flat_map ResultsByTime outputs /\
    length outputs <= Z.to_nat (pg_maxPages paginator) /\ NoDup (page_tokens outputs) /\
    ToString (in_NextPageToken request) ∉ page_tokens outputs.
Proof.
  intros Hr. apply read_pages_ok in Hr as (outputs & Hchain & -> & Hlen & Hnd & Hnew).
  exists outputs. split; [done|]. split; [done|]. split; [done|]. split; [done|].
  intros Hin. pose proof (Hnew _ Hin) as Hs. revert Hs Hin. case_bool_decide as Ht; [|set_solver].
  intros _ Hin. rewrite Ht in Hin. unfold page_tokens in Hin.
  by apply elem_of_filter_b in Hin as [_ Hin].
Qed.

(** C38: month-to-date aggregation answers with one cost per dimension, currency, provider and
    basis, each the in-order sum of its daily entries over the query's period. *)
Theorem aggregateMonthToDate_spec entries period r :
  (forall e, e ∈ entries -> Dimension_wf (CostDimension e) /\ Money_wf (CostAmount e)) ->
  aggregateMonthToDate entries period = Ok r ->
  NoDup (map key_of r) /\
  forall c, c ∈ r <->
    fold_left (totals_step period) (entries_of (key_of c) entries) None = Some c /\
    total_ok period (key_of c) c.
Proof. apply aggregate_ok. Qed.

(** C37: mapped usage carries the Cost Explorer provider, the basis of the metric asked
    for, the window and dimension kind of the query, well-formed dimensions and amounts; and a
    month to date has one cost per key. *)
Theorem MapUsage_spec results query costMetric r :
  MapUsage results query costMetric = Ok r ->
  (forall v, v ∈ r -> mapped_ok query costMetric v) /\
  (q_Window query = WindowMonthToDate -> NoDup (map key_of r)).
Proof. apply MapUsage_ok. Qed.

(** with the metric the application configures, the costs read for a basis are labelled
    with that basis: the translation to an AWS metric and back loses nothing. *)
Theorem ReadCosts_basis {W} `{World W} (adapter : UsageAdapter W) q w vs w' :
  ua_costMetric adapter = "UnblendedCost" ->
  UsageAdapter_ReadCosts adapter q w = (Ok vs, w') ->
  Basis_Valid (q_Basis q) = true /\ forall v, v ∈ vs -> CostBasis v = q_Basis q.
Proof.
  intros Hfb (m & results & Hmet & [Hok _]%MapUsage_ok)%ReadCosts_mapped. rewrite Hfb in Hmet.
  assert (Hb : metricBasis m = q_Basis q /\ Basis_Valid (q_Basis q) = true).
  { unfold metricForBasis in Hmet. repeat case_bool_decide; try done; injection Hmet as <-;
      match goal with He : q_Basis q = _ |- _ => rewrite He end; done. }
  destruct Hb as [Hb Hv]. split; [done|]. intros v Hin. rewrite <- Hb. by apply Hok.
Qed.

(** a mapped forecast keeps the requested period and basis, its three amounts are
    well-formed and share one currency, and lower bound, mean and upper bound are ordered. *)
Theorem MapForecast_spec output query f :
  MapForecast output query = Ok f ->
  forecast_ok f /\ ForecastPeriod f = fq_Period query /\ ForecastBasis f = fq_Basis query /\
  Money_wf (Mean f) /\ Money_wf (LowerBound f) /\ Money_wf (UpperBound f).
Proof. apply MapForecast_ok. Qed.

(** mapped tag costs carry the query's basis and window and the key asked for, never
    an empty value, and a month to date has one cost per value and currency. *)
Theorem mapTagUsage_spec results query metric tagKey r :
  mapTagUsage results query metric tagKey = Ok r ->
  Basis_Valid (q_Basis query) = true /\ (forall t, t ∈ r -> tag_mapped_ok query tagKey t) /\
  (q_Window query = WindowMonthToDate -> NoDup (map tag_key_of r)).
Proof. apply mapTagUsage_ok. Qed.

(** the dates sent for a period of whole UTC days map back to the same period. *)
Theorem mapPeriod_roundtrip period :
  (0 <= Year (Start period) <= 9999)%Z -> (0 <= Year (End_ period) <= 9999)%Z ->
  (Start period mod day_ns = 0)%Z -> (End_ period mod day_ns = 0)%Z ->
  (Start period < End_ period)%Z ->
  mapPeriod (Some (date_interval period)) = Ok period.
Proof.
  intros Hy1 Hy2 Hm1 Hm2 Hlt. unfold mapPeriod, date_interval. cbn [di_Start di_End].
  rewrite !Parse_Format by done. rewrite NewPeriod_ok by done. by destruct period.
Qed.

(** ** A concrete run *)

Definition sample_metrics (a : string) : gmap string MetricValue :=
  {[ "UnblendedCost" := mkMetricValue (Some a) (Some "USD") ]}.

Definition sample_interval (d1 d2 : string) : option DateInterval :=
  Some (mkDateInterval (Some d1) (Some d2)).

Definition sample_results : list ResultByTime :=
  [mkResult (sample_interval "2026-07-01" "2026-07-02") ∅
     [mkGroup ["Amazon S3"] (sample_metrics "1.5"); mkGroup ["Amazon EC2"] (sample_metrics "4")];
   mkResult (sample_interval "2026-07-02" "2026-07-03") ∅
     [mkGroup ["Amazon S3"] (sample_metrics "2.25")]].

Definition sample_query : CostQuery :=
  mkCostQuery (mkPeriod (Date 2026 7 1) (Date 2026 7 3)) WindowMonthToDate BasisUnblended
    DimensionService [] [] [].

(** Two pages: the first hands on a token. *)
Definition sample_api : UsageAPI unit := fun request w =>
  match in_NextPageToken request with
  | None => (Ok (Some (mkUsageOutput (take 1 sample_results) (Some "next"))), w)
  | Some _ => (Ok (Some (mkUsageOutput (drop 1 sample_results) None)), w)
  end.

Definition sample_adapter : UsageAdapter unit :=
  mkUsageAdapter (mkPaginator sample_api 3 "prod") "UnblendedCost".

Definition sample_request : GetCostAndUsageInput :=
  mkUsageInput (date_interval (q_Period sample_query)) "DAILY" ["UnblendedCost"] None
    [("SERVICE", "DIMENSION")] None.

Lemma UsagePaginator_Read_complete_witness :
  exists r, UsagePaginator_Read (ua_paginator sample_adapter) (Some sample_request) tt = (Ok r, tt) /\
    exists outputs, length outputs <= 3 /\ NoDup (page_tokens outputs) /\
      r = flat_map ResultsByTime outputs.
Proof.
  destruct (UsagePaginator_Read (ua_paginator sample_adapter) (Some sample_request) tt)
    as [[r|e] []] eqn:E; [|by vm_compute in E].
  exists r. split; [reflexivity|].
  destruct (UsagePaginator_Read_complete _ _ _ _ _ E) as (outputs & _ & Hr & Hlen & Hnd & _).
  exists outputs. split; [exact Hlen|]. split; [exact Hnd|exact Hr].
Defined.

Lemma MapUsage_spec_witness :
  exists r, MapUsage sample_results sample_query "UnblendedCost" = Ok r /\ length r = 2 /\
    NoDup (map key_of r).
Proof.
  assert (Hlen : (length <$> MapUsage sample_results sample_query "UnblendedCost") = Ok 2)
    by (vm_compute; reflexivity).
  destruct (MapUsage sample_results sample_query "UnblendedCost") as [r|e] eqn:E; [|discriminate].
  exists r. split; [reflexivity|]. split; [by injection Hlen|].
  exact (proj2 (MapUsage_spec _ _ _ _ E) eq_refl).
Defined.

Lemma ReadCosts_basis_witness :
  exists vs, UsageAdapter_ReadCosts sample_adapter sample_query tt = (Ok vs, tt) /\ length vs = 2 /\
    forall v, v ∈ vs -> CostBasis v = BasisUnblended.
Proof.
  assert (Hlen : (length <$> fst (UsageAdapter_ReadCosts sample_adapter sample_query tt)) = Ok 2)
    by (vm_compute; reflexivity).
  destruct (UsageAdapter_ReadCosts sample_adapter sample_query tt) as [[vs|e] []] eqn:E; [|discriminate].
  exists vs. split; [reflexivity|]. split; [by injection Hlen|].
  exact (proj2 (ReadCosts_basis sample_adapter sample_query tt vs tt eq_refl E)).
Defined.

Definition sample_entries : list Cost :=
  [mkCost "" ProviderCostExplorer BasisNet WindowDaily (DayContaining 0%Z)
     (mkDimension DimensionTotal "") (mkMoney (f64_of_Z 1) "USD");
   mkCost "" ProviderCostExplorer BasisNet WindowDaily (DayContaining day_ns)
     (mkDimension DimensionTotal "") (mkMoney (f64_of_Z 2) "USD")].

Lemma aggregateMonthToDate_spec_witness :
  exists r, aggregateMonthToDate sample_entries (DayContaining 0%Z) = Ok r /\ length r = 1 /\
    NoDup (map key_of r).
Proof.
  assert (Hlen : (length <$> aggregateMonthToDate sample_entries (DayContaining 0%Z)) = Ok 1)
    by (vm_compute; reflexivity).
  destruct (aggregateMonthToDate sample_entries (DayContaining 0%Z)) as [r|e] eqn:E; [|discriminate].
  exists r. split; [reflexivity|]. split; [by injection Hlen|].
  refine (proj1 (aggregateMonthToDate_spec sample_entries _ _ _ E)).
  assert (Hd : Dimension_wf (mkDimension DimensionTotal ""))
    by (split; [reflexivity|left; split; reflexivity]).
  intros e. unfold sample_entries. rewrite !elem_of_cons, elem_of_nil.
  intros [->|[->|[]]]; (split; [exact Hd|split; [reflexivity|split; [discriminate|reflexivity]]]).
Defined.

Definition sample_forecast_output : GetCostForecastOutput :=
  mkForecastOutput [mkForecastResult (sample_interval "2026-07-20" "2026-08-01") (Some "20")
    (Some "15.5") (Some "31")] (Some (mkMetricValue None (Some "USD"))).

Definition sample_forecast_query : ForecastQuery :=
  mkForecastQuery (mkPeriod (Date 2026 7 20) (Date 2026 8 1)) BasisNet 80 [] [] [].

Lemma MapForecast_spec_witness :
  exists f, MapForecast (Some sample_forecast_output) sample_forecast_query = Ok f /\ forecast_ok f.
Proof.
  destruct (MapForecast (Some sample_forecast_output) sample_forecast_query) as [f|e] eqn:E;
    [|by vm_compute in E].
  exists f. split; [reflexivity|]. exact (proj1 (MapForecast_spec _ _ _ E)).
Defined.

Definition sample_tag_results : list ResultByTime :=
  [mkResult (sample_interval "2026-07-01" "2026-07-02") ∅
     [mkGroup ["team$core"] (sample_metrics "1"); mkGroup ["team$"] (sample_metrics "2")]].

Lemma mapTagUsage_spec_witness :
  exists r, mapTagUsage sample_tag_results sample_query "UnblendedCost" "team" = Ok r /\
    map TagValue r = ["__untagged__"; "core"] /\ NoDup (map tag_key_of r).
Proof.
  assert (Hv : (map TagValue <$> mapTagUsage sample_tag_results sample_query "UnblendedCost" "team")
    = Ok ["__untagged__"; "core"]) by (vm_compute; reflexivity).
  destruct (mapTagUsage sample_tag_results sample_query "UnblendedCost" "team") as [r|e] eqn:E;
    [|discriminate].
  exists r. split; [reflexivity|]. split; [by injection Hv|].
  exact (proj2 (proj2 (mapTagUsage_spec _ _ _ _ _ E)) eq_refl).
Defined.

Lemma mapPeriod_roundtrip_witness :
  mapPeriod (Some (date_interval (mkPeriod (Date 2026 7 1) (Date 2026 8 1)))) =
  Ok (mkPeriod (Date 2026 7 1) (Date 2026 8 1)).
Proof. apply mapPeriod_roundtrip; vm_compute; first [reflexivity|split; discriminate]. Defined.
