(* ===== verification/SummaryReaders.v ===== *)
(** * Commitment and anomaly readers (internal/aws/costexplorer: commitments.go, anomalies.go)

    The readers of summaries over Cost Explorer: savings plans and reservations (utilization and
    coverage), and cost anomalies.  The SDK clients are arguments; a pointer is an option. *)

From S2P Require Import Prelude SliceStable GoStrings GoFloat GoTime Errors Effects Pagination Domain Snapshot Ports PromClient Metrics Cardinality Collectors FamilyCollectors CostExplorer.
Local Open Scope string_scope.
Local Open Scope list_scope.

(** ** Anomalies *)

Record AnomalyItem := mkAnomalyItem {
  ai_EndDate : option string;
  ai_Impact : option (float64 * float64)   (** total and maximal impact *)
}.
Record GetAnomaliesOutput := mkGetAnomalies {
  ga_Anomalies : list AnomalyItem; ga_NextPageToken : option string
}.

Definition anomalyEndIsActive (item : AnomalyItem) (reference : Time) : bool :=
  match ai_EndDate item with
  | None => true
  | Some text =>
      match Parse_DateOnly text with
      | None => true
      | Some date => negb (Before date (Truncate reference (24 * Hour)%Z))
      end
  end.

(** The total impact so far with one more; a sum that is not finite is left out. *)
Definition add_impact (impact : option Money) (value : Money) : option Money :=
  match impact with
  | None => Some value
  | Some current =>
      match Money_Add current value with Ok sum => Some sum | Err _ => Some current end
  end.

Definition raise_max (current : option Money) (maxImpact : float64) : option Money :=
  match NewMoney maxImpact "USD" with
  | Err _ => current
  | Ok maxValue =>
      match current with
      | None => Some maxValue
      | Some m => if fltb (amount m) (amount maxValue) then Some maxValue else current
      end
  end.

Definition later_end (last : Time) (item : AnomalyItem) : Time :=
  match ai_EndDate item with
  | None => last
  | Some text =>
      match Parse_DateOnly text with
      | Some instant => if After instant last then instant else last
      | None => last
      end
  end.

(** The body of the loop over the anomalies of a page. *)
Definition count_anomaly (reference : Time) (item : AnomalyItem) (result : Anomaly) : res Anomaly :=
  let active := Active result || anomalyEndIsActive item reference in
  '(impact, maxImpact) ← match ai_Impact item with
    | None => Ok (Impact result, MaxImpact result)
    | Some (totalImpact, maximal) =>
        value ← NewMoney totalImpact "USD";
        Ok (add_impact (Impact result) value, raise_max (MaxImpact result) maximal)
    end;
  Ok (mkAnomaly (AnomalyTarget result) active (Count result + 1)%Z impact maxImpact
        (later_end (LastDetected result) item)).

Fixpoint add_anomalies (reference : Time) (items : list AnomalyItem) (result : Anomaly) :
    res Anomaly :=
  match items with
  | [] => Ok result
  | item :: items => result ← count_anomaly reference item result; add_anomalies reference items result
  end.

(** [parsePercent] and [addDecimal] (commitments.go). *)
Definition parsePercent (value : string) : res float64 :=
  match ParseFloat value with
  | None => Err (ErrorString "strconv.ParseFloat")
  | Some parsed =>
      fail_if fltb parsed f0 || fltb (f64_of_Z 100) parsed
        with_ ErrorString "percentage out of range" ;;
      Ok (fdiv parsed (f64_of_Z 100))
  end.

Definition addDecimal (total : float64) (value : option string) : res float64 :=
  match value with
  | None => Ok total
  | Some value =>
      match ParseFloat value with
      | None => Err (ErrorString "strconv.ParseFloat")
      | Some parsed => Ok (fadd total parsed)
      end
  end.

(** ** The SDK's commitment responses *)

Record SPCoverage := mkSPCoverage {
  spc_Covered : option string; spc_OnDemand : option string; spc_Total : option string
}.
Record SPCoverageOutput := mkSPCoverageOutput {
  spco_Coverages : list (option SPCoverage); spco_NextToken : option string
}.
(** [Total]: the utilization percentage of its utilization, and its savings' net savings. *)
Record SPTotal := mkSPTotal {
  spt_Utilization : option (option string); spt_Savings : option (option string)
}.
Record RITotal := mkRITotal {
  rit_Percentage : option string; rit_UnusedHours : option string; rit_NetSavings : option string
}.
Record RIUtilizationOutput := mkRIUtilization {
  riu_Total : option RITotal; riu_NextPageToken : option string
}.
(** [Total]: the percentage of its covered hours, and the on-demand cost of its covered cost. *)
Record RICoverageTotal := mkRICoverageTotal {
  ric_Hours : option (option string); ric_Cost : option (option string)
}.
Record RICoverageOutput := mkRICoverage {
  rico_Total : option RICoverageTotal; rico_NextPageToken : option string
}.

Definition commitmentPeriod (reference : Time) : DateInterval :=
  mkDateInterval (Some (Format_DateOnly (Start (MonthContaining reference))))
    (Some (Format_DateOnly (End_ (DayContaining reference)))).

(** A parsed optional field: absent, or parsed. *)
Definition parsed_field {A} (parse : string -> res A) (field : option string) : res (option A) :=
  match field with None => Ok None | Some text => v ← parse text; Ok (Some v) end.

Definition parse_hours (text : string) : res float64 :=
  match ParseFloat text with
  | None => Err (ErrorString "strconv.ParseFloat")
  | Some value => Ok value
  end.

Definition usd (text : string) : res Money := ParseMoney text "USD".

(** A fresh summary: [commitment.Summary{Target, TimeUnit, Type}]. *)
Definition empty_summary (target : TargetID) (type : string) : Commitment :=
  mkCommitment target type "MONTHLY" None None None None None None.

(** The totals of the savings plans coverage: covered, on demand, total. *)
Definition coverage_totals : Type := float64 * float64 * float64.

Fixpoint add_coverages (items : list (option SPCoverage)) (st : coverage_totals) :
    res coverage_totals :=
  match items with
  | [] => Ok st
  | None :: items => add_coverages items st
  | Some item :: items =>
      let '(covered, onDemand, total) := st in
      covered ← addDecimal covered (spc_Covered item);
      onDemand ← addDecimal onDemand (spc_OnDemand item);
      total ← addDecimal total (spc_Total item);
      add_coverages items (covered, onDemand, total)
  end.

Definition ok_of {A} (r : res A) : option A := match r with Ok a => Some a | Err _ => None end.

(** The summary of the totals. *)
Definition coverage_summary (target : TargetID) (st : coverage_totals) : Commitment :=
  let '(covered, onDemand, total) := st in
  mkCommitment target TypeSavingsPlan "MONTHLY" None
    (if fltb f0 total then Some (fdiv covered total) else None) None
    (ok_of (NewMoney covered "USD")) (ok_of (NewMoney onDemand "USD")) None.

(** What the first page of the reservation utilization sets. *)
Definition set_ri_utilization (first : bool) (output : RIUtilizationOutput) (result : Commitment) :
    res Commitment :=
  match first, riu_Total output with
  | true, Some total =>
      ratio ← parsed_field parsePercent (rit_Percentage total);
      hours ← parsed_field parse_hours (rit_UnusedHours total);
      savings ← parsed_field usd (rit_NetSavings total);
      Ok (mkCommitment (CommitmentTarget result) (CommitmentType result)
            (CommitmentTimeUnit result) ratio (CoverageRatio result) hours
            (CoveredSpend result) (OnDemandCost result) savings)
  | _, _ => Ok result
  end.

(** What the first page of the reservation coverage sets. *)
Definition set_ri_coverage (first : bool) (output : RICoverageOutput) (result : Commitment) :
    res Commitment :=
  match first, rico_Total output with
  | true, Some total =>
      ratio ← parsed_field parsePercent (default None (ric_Hours total));
      onDemand ← parsed_field usd (default None (ric_Cost total));
      Ok (mkCommitment (CommitmentTarget result) (CommitmentType result)
            (CommitmentTimeUnit result) (UtilizationRatio result) ratio (UnusedHours result)
            (CoveredSpend result) onDemand (NetSavings result))
  | _, _ => Ok result
  end.

Section Readers.
Context {W : Type} `{World W}.

(** [GetAnomalies] of a date interval, under a page token. *)
Definition AnomalyAPI : Type :=
  string -> string -> option string -> io W (option GetAnomaliesOutput).

Record AnomalyReader := mkAnomalyReader {
  anr_target : TargetID; anr_api : AnomalyAPI; anr_maxPages : Z
}.

Definition NewAnomalyReader (target : TargetID) (api : option AnomalyAPI) (maxPages : Z) :
    res AnomalyReader :=
  match api with
  | None => Err (ErrorString "anomaly API must not be nil")
  | Some api =>
      fail_if (maxPages <=? 0)%Z with_ ErrorString "anomaly max pages must be positive" ;;
      Ok (mkAnomalyReader target api maxPages)
  end.

Definition get_anomalies (reader : AnomalyReader) (reference : Time) :
    PagedCall W GetAnomaliesOutput :=
  mkPagedCall
    (anr_api reader (Format_DateOnly (AddDate reference 0 0 (-90))) (Format_DateOnly reference))
    (anr_target reader) "GetAnomalies" ga_NextPageToken false false
    (ErrorString "anomaly page limit exceeded") (ErrorString "invalid anomaly response")
    (ErrorString "") (fun _ => Ok tt).

Definition empty_anomaly (target : TargetID) : Anomaly := mkAnomaly target false 0 None None 0%Z.

Definition ReadAnomalySummary (reader : AnomalyReader) (reference : Time) : io W Anomaly :=
  let result := empty_anomaly (anr_target reader) in
  if (anr_maxPages reader <=? 0)%Z then mret result
  else read_paged (get_anomalies reader reference)
         (fun _ page => add_anomalies reference (ga_Anomalies page))
         (Z.to_nat (anr_maxPages reader)) true None ∅ result.

(** [CommitmentAPI]. *)
Record CommitmentAPI := mkCommitmentAPI {
  GetSavingsPlansUtilization : DateInterval -> io W (option (option SPTotal));
  GetSavingsPlansCoverage : DateInterval -> option string -> io W (option SPCoverageOutput);
  GetReservationUtilization : DateInterval -> option string -> io W (option RIUtilizationOutput);
  GetReservationCoverage : DateInterval -> option string -> io W (option RICoverageOutput)
}.

Record CEReader := mkCEReader { cer_target : TargetID; cer_api : CommitmentAPI; cer_maxPages : Z }.

Definition NewCommitmentReader (target : TargetID) (api : option CommitmentAPI) (maxPages : Z) :
    res CEReader :=
  match api with
  | None => Err (ErrorString "commitment API must not be nil")
  | Some api =>
      fail_if (maxPages <=? 0)%Z with_ ErrorString "commitment max pages must be positive" ;;
      Ok (mkCEReader target api maxPages)
  end.

Definition readSavingsPlans (reader : CEReader) (period : DateInterval) : io W Commitment :=
  output ← aws_call (cer_target reader) "GetSavingsPlansUtilization"
             (GetSavingsPlansUtilization (cer_api reader) period);
  _ ← observe_pagination (cer_target reader) "GetSavingsPlansUtilization";
  lift (match output with
        | Some (Some (mkSPTotal (Some percentage) savings)) =>
            ratio ← parsed_field parsePercent percentage;
            net ← parsed_field usd (default None savings);
            Ok (mkCommitment (cer_target reader) TypeSavingsPlan "MONTHLY" ratio None None None None net)
        | _ => Err (ErrorString "invalid Savings Plans utilization response")
        end).

Definition get_sp_coverage (reader : CEReader) (period : DateInterval) :
    PagedCall W SPCoverageOutput :=
  mkPagedCall (GetSavingsPlansCoverage (cer_api reader) period) (cer_target reader)
    "GetSavingsPlansCoverage" spco_NextToken false false
    (ErrorString "savings plans coverage page limit exceeded")
    (ErrorString "invalid Savings Plans coverage response") (ErrorString "") (fun _ => Ok tt).

Definition readSavingsCoverage (reader : CEReader) (period : DateInterval) : io W Commitment :=
  st ← (if (cer_maxPages reader <=? 0)%Z then mret (f0, f0, f0)
        else read_paged (get_sp_coverage reader period)
               (fun _ page => add_coverages (spco_Coverages page))
               (Z.to_nat (cer_maxPages reader)) true None ∅ (f0, f0, f0));
  mret (coverage_summary (cer_target reader) st).

Definition get_ri_utilization (reader : CEReader) (period : DateInterval) :
    PagedCall W RIUtilizationOutput :=
  mkPagedCall (GetReservationUtilization (cer_api reader) period) (cer_target reader)
    "GetReservationUtilization" riu_NextPageToken false false
    (ErrorString "reserved instance utilization page limit exceeded")
    (ErrorString "invalid Reserved Instance utilization response") (ErrorString "") (fun _ => Ok tt).

Definition readReservations (reader : CEReader) (period : DateInterval) : io W Commitment :=
  read_paged (get_ri_utilization reader period) set_ri_utilization
    (Z.to_nat (cer_maxPages reader)) true None ∅ (empty_summary (cer_target reader) TypeReservation).

Definition get_ri_coverage (reader : CEReader) (period : DateInterval) :
    PagedCall W RICoverageOutput :=
  mkPagedCall (GetReservationCoverage (cer_api reader) period) (cer_target reader)
    "GetReservationCoverage" rico_NextPageToken false false
    (ErrorString "reserved instance coverage page limit exceeded")
    (ErrorString "invalid Reserved Instance coverage response") (ErrorString "") (fun _ => Ok tt).

Definition readReservationCoverage (reader : CEReader) (period : DateInterval) : io W Commitment :=
  read_paged (get_ri_coverage reader period) set_ri_coverage
    (Z.to_nat (cer_maxPages reader)) true None ∅ (empty_summary (cer_target reader) TypeReservation).

(** The reader as the commitment collector uses it. *)
Definition ce_commitments (reader : CEReader) : CommitmentReader W :=
  mkCommitmentReader
    (fun reference => readSavingsPlans reader (commitmentPeriod reference))
    (fun reference => readSavingsCoverage reader (commitmentPeriod reference))
    (fun reference => readReservations reader (commitmentPeriod reference))
    (fun reference => readReservationCoverage reader (commitmentPeriod reference)).
End Readers.
Arguments AnomalyAPI W : clear implicits.
Arguments AnomalyReader W : clear implicits.
Arguments CommitmentAPI W : clear implicits.
Arguments CEReader W : clear implicits.

(** ** Anomalies: what a summary says *)

(** The parsed end date of an anomaly. *)
Definition end_of (item : AnomalyItem) : option Time := ai_EndDate item ≫= Parse_DateOnly.

(** The impact of a list of anomalies, summed in order. *)
Definition total_impact (items : list AnomalyItem) (impact : option Money) : option Money :=
  fold_left (fun acc '(total, _) => add_impact acc (mkMoney total "USD")) (omap ai_Impact items) impact.

(** The latest of the parsed end dates. *)
Definition latest_end (items : list AnomalyItem) (last : Time) : Time :=
  fold_left Z.max (omap end_of items) last.

(** [m] is at least every finite maximal impact of the items, and one of them (or [m0]). *)
Definition max_of (items : list AnomalyItem) (m0 m : option Money) : Prop :=
  (forall v, m = Some v -> m0 = Some v \/
     exists item total, item ∈ items /\ ai_Impact item = Some (total, amount v)) /\
  (forall v0, m0 = Some v0 -> exists v, m = Some v /\ fltb (amount v) (amount v0) = false) /\
  (forall item total maximal, item ∈ items -> ai_Impact item = Some (total, maximal) ->
     nonFinite maximal = false -> exists v, m = Some v /\ fltb (amount v) maximal = false).

Definition opt_finite (m : option Money) : Prop := forall v, m = Some v -> nonFinite (amount v) = false.

Lemma fltb_false_trans x y z :
  nonFinite x = false -> nonFinite y = false -> nonFinite z = false ->
  fltb y x = false -> fltb z y = false -> fltb z x = false.
Proof.
  intros [Hx _]%nonFinite_false [Hy _]%nonFinite_false [Hz _]%nonFinite_false.
  rewrite <-!not_true_iff_false, !fltb_rank by done. unfold rank_lt.
  destruct (float_rank x) as [[]], (float_rank y) as [[]], (float_rank z) as [[]]. simpl. lia.
Qed.

Lemma later_end_max last item : later_end last item = default last (Z.max last <$> end_of item).
Proof.
  unfold later_end, end_of. destruct (ai_EndDate item) as [text|]; simpl; [|done].
  destruct (Parse_DateOnly text) as [t|]; simpl; [|done]. unfold After.
  destruct (Z.ltb_spec last t); lia.
Qed.

Lemma raise_max_spec m0 maximal :
  opt_finite m0 ->
  opt_finite (raise_max m0 maximal) /\
  (forall v, raise_max m0 maximal = Some v -> m0 = Some v \/ v = mkMoney maximal "USD") /\
  (forall v0, m0 = Some v0 ->
     exists v, raise_max m0 maximal = Some v /\ fltb (amount v) (amount v0) = false) /\
  (nonFinite maximal = false ->
     exists v, raise_max m0 maximal = Some v /\ fltb (amount v) maximal = false).
Proof.
  intros H0. unfold raise_max. change (NewMoney maximal "USD") with
    (guard_err (nonFinite maximal) ErrInvalidAmount (Ok (mkMoney maximal "USD"))).
  destruct (nonFinite maximal) eqn:Hn; simpl.
  { split; [done|]. split; [by left|]. split; [|done].
    intros v0 ->. exists v0. by rewrite fltb_irrefl. }
  destruct m0 as [m|].
  - destruct (fltb (amount m) maximal) eqn:Hlt.
    + split; [by intros v [= <-]|]. split; [intros v [= <-]; by right|].
      split; [|intros _; exists (mkMoney maximal "USD"); split; [done|apply fltb_irrefl]].
      intros v0 [= <-]. eexists. split; [done|]. simpl. pose proof (H0 m eq_refl) as Hm.
      apply not_true_iff_false. apply nonFinite_false in Hm as [Hm _], Hn as [Hn _].
      rewrite fltb_rank in Hlt |- * by done. unfold rank_lt in *.
      destruct (float_rank (amount m)) as [[]], (float_rank maximal) as [[]]. simpl in *. lia.
    + split; [done|]. split; [by left|]. split; [|intros _; by exists m].
      intros v0 [= <-]. exists m. by rewrite fltb_irrefl.
  - split; [by intros v [= <-]|]. split; [intros v [= <-]; by right|]. split; [done|].
    intros _. exists (mkMoney maximal "USD"). split; [done|apply fltb_irrefl].
Qed.

Lemma count_anomaly_ok reference item r r' :
  opt_finite (MaxImpact r) -> count_anomaly reference item r = Ok r' ->
  AnomalyTarget r' = AnomalyTarget r /\ Count r' = (Count r + 1)%Z /\
  Active r' = Active r || anomalyEndIsActive item reference /\
  LastDetected r' = default (LastDetected r) (Z.max (LastDetected r) <$> end_of item) /\
  Impact r' = total_impact [item] (Impact r) /\
  opt_finite (MaxImpact r') /\ max_of [item] (MaxImpact r) (MaxImpact r').
Proof.
  intros Hfin ([impact maxImpact] & Hi & <-%Ok_inj)%bind_ok. simpl. rewrite later_end_max.
  do 4 (split; [done|]). unfold total_impact. simpl.
  destruct (ai_Impact item) as [[total maximal]|] eqn:Himp; simpl.
  - apply bind_ok in Hi as (value & (-> & _ & _)%NewMoney_ok & Hi%Ok_inj). injection Hi as <- <-.
    split; [done|]. destruct (raise_max_spec (MaxImpact r) maximal Hfin) as (Hf & Hin & Hup & Hge).
    split; [done|]. split; [|split; [done|]].
    + intros v [Hv|Hv]%Hin; [by left|right]. exists item, total. subst v. split; [by left|done].
    + intros i t m ->%list_elem_of_singleton. rewrite Himp. intros [= <- <-]. exact Hge.
  - apply Ok_inj in Hi. injection Hi as <- <-. split; [done|]. split; [done|].
    split; [by left|split].
    + intros v0 ->. exists v0. by rewrite fltb_irrefl.
    + intros i t m ->%list_elem_of_singleton. by rewrite Himp.
Qed.

Lemma max_of_app items items' m0 m1 m2 :
  opt_finite m0 -> opt_finite m1 -> opt_finite m2 ->
  max_of items m0 m1 -> max_of items' m1 m2 -> max_of (items ++ items') m0 m2.
Proof.
  intros F0 F1 F2 (Hin & Hup & Hge) (Hin' & Hup' & Hge'). split; [|split].
  - intros v [Hv|(i & t & Hi & Ht)]%Hin'.
    + apply Hin in Hv as [|(i & t & Hi & Ht)]; [by left|right]. exists i, t. set_solver.
    + right. exists i, t. set_solver.
  - intros v0 H0. destruct (Hup v0 H0) as (v1 & H1 & Hlt1). destruct (Hup' v1 H1) as (v2 & H2 & Hlt2).
    exists v2. split; [done|]. eapply (fltb_false_trans _ (amount v1)); eauto.
  - intros i t m [Hi|Hi]%elem_of_app Ht Hm; [|by eapply Hge'].
    destruct (Hge i t m Hi Ht Hm) as (v1 & H1 & Hlt1). destruct (Hup' v1 H1) as (v2 & H2 & Hlt2).
    exists v2. split; [done|]. eapply (fltb_false_trans _ (amount v1)); eauto.
Qed.

Lemma add_anomalies_app reference l k r :
  add_anomalies reference (l ++ k) r =
  (r1 ← add_anomalies reference l r; add_anomalies reference k r1).
Proof.
  revert r. induction l as [|item l IH]; intros r; simpl; [done|].
  destruct (count_anomaly reference item r); simpl; [apply IH|done].
Qed.

Lemma add_anomalies_ok reference items r r' :
  opt_finite (MaxImpact r) -> add_anomalies reference items r = Ok r' ->
  AnomalyTarget r' = AnomalyTarget r /\ Count r' = (Count r + Z.of_nat (length items))%Z /\
  Active r' = Active r || existsb (fun i => anomalyEndIsActive i reference) items /\
  LastDetected r' = latest_end items (LastDetected r) /\
  Impact r' = total_impact items (Impact r) /\
  opt_finite (MaxImpact r') /\ max_of items (MaxImpact r) (MaxImpact r').
Proof.
  revert r. induction items as [|item items IH]; intros r Hfin; simpl.
  - intros <-%Ok_inj. rewrite orb_false_r. split; [done|]. split; [lia|]. do 3 (split; [done|]).
    split; [done|]. split; [by left|split; [|by intros ? ? ? ?%elem_of_nil]].
    intros v0 ->. exists v0. by rewrite fltb_irrefl.
  - intros (r1 & H1 & H2)%bind_ok.
    apply count_anomaly_ok in H1 as (Ht & Hc & Ha & Hl & Hi & Hf & Hm); [|done].
    apply IH in H2 as (Ht' & Hc' & Ha' & Hl' & Hi' & Hf' & Hm'); [|done].
    split; [congruence|]. split; [lia|]. split; [rewrite Ha', Ha; by rewrite <-orb_assoc|].
    split; [rewrite Hl', Hl; unfold latest_end; simpl; by destruct (end_of item)|].
    split; [rewrite Hi', Hi; unfold total_impact; simpl; by destruct (ai_Impact item)|].
    split; [done|]. exact (max_of_app [item] items _ _ _ Hfin Hf Hf' Hm Hm').
Qed.

Lemma ReadAnomalySummary_target {W} `{World W} (reader : AnomalyReader W) reference w a w' :
  ReadAnomalySummary reader reference w = (Ok a, w') -> AnomalyTarget a = anr_target reader.
Proof.
  unfold ReadAnomalySummary. case_match; [by intros [-> _]%io_ret_ok|].
  intros (pages & _ & Hf & _)%read_paged_ok.
  rewrite (fold_pages_flat ga_Anomalies (add_anomalies reference)) in Hf
    by (done || apply add_anomalies_app).
  by apply add_anomalies_ok in Hf as (Ht & _).
Qed.

(** an anomaly summary is computed from a complete chain of at most [maxPages]
    pages: it counts every anomaly listed, is active when one of them has no end date, one that
    does not parse or one that is not before the reference day, carries the latest end date, the
    in-order sum of the total impacts and the greatest of the finite maximal impacts, and is
    attributed to the target. *)
Theorem ReadAnomalySummary_spec {W} `{World W} target (api : AnomalyAPI W) maxPages reader
    reference w a w' :
  NewAnomalyReader target (Some api) maxPages = Ok reader ->
  ReadAnomalySummary reader reference w = (Ok a, w') ->
  exists pages, paged_chain (get_anomalies reader reference) None pages /\
    (Z.of_nat (length pages) <= maxPages)%Z /\
    let items := flat_map ga_Anomalies pages in
    AnomalyTarget a = target /\ Count a = Z.of_nat (length items) /\
    Active a = existsb (fun i => anomalyEndIsActive i reference) items /\
    LastDetected a = latest_end items 0%Z /\ Impact a = total_impact items None /\
    max_of items None (MaxImpact a).
Proof.
  intros [Hpos <-%Ok_inj]%guard_ok. unfold ReadAnomalySummary. cbn [anr_maxPages anr_target].
  rewrite Hpos. intros Hr. inv_bool.
  apply read_paged_ok in Hr as (pages & Hchain & Hf & Hlen & _).
  rewrite (fold_pages_flat ga_Anomalies (add_anomalies reference)) in Hf
    by (done || apply add_anomalies_app).
  apply add_anomalies_ok in Hf as (Ht & Hc & Ha & Hl & Hi & _ & Hm); [|done].
  exists pages. split; [done|]. split; [lia|]. simpl in *. do 5 (split; [done|]). done.
Qed.

(** ** Commitments: what the four summaries say *)

(** The parsed values of one field, in order. *)
Definition field_values (field : SPCoverage -> option string) (items : list (option SPCoverage)) :
    list float64 :=
  omap (fun item : option SPCoverage => (item ≫= field) ≫= ParseFloat) items.

Definition sum_field (field : SPCoverage -> option string) (items : list (option SPCoverage)) :
    float64 :=
  fold_left fadd (field_values field items) f0.

Lemma addDecimal_ok total value r :
  addDecimal total value = Ok r -> r = fold_left fadd (option_list (value ≫= ParseFloat)) total.
Proof.
  unfold addDecimal. destruct value as [text|]; simpl; [|by intros <-%Ok_inj].
  destruct (ParseFloat text); [|done]. by intros <-%Ok_inj.
Qed.

Lemma add_coverages_ok items c o t c' o' t' :
  add_coverages items (c, o, t) = Ok (c', o', t') ->
  c' = fold_left fadd (field_values spc_Covered items) c /\
  o' = fold_left fadd (field_values spc_OnDemand items) o /\
  t' = fold_left fadd (field_values spc_Total items) t.
Proof.
  revert c o t. induction items as [|[item|] items IH]; intros c o t; simpl.
  - intros H%Ok_inj. by injection H as <- <- <-.
  - intros (c1 & ->%addDecimal_ok & (o1 & ->%addDecimal_ok & (t1 & ->%addDecimal_ok & Hr)%bind_ok)%bind_ok)%bind_ok.
    apply IH in Hr as (-> & -> & ->). unfold field_values. simpl.
    by destruct (spc_Covered item ≫= ParseFloat), (spc_OnDemand item ≫= ParseFloat),
      (spc_Total item ≫= ParseFloat).
  - apply IH.
Qed.

Lemma add_coverages_app l k st :
  add_coverages (l ++ k) st = (s ← add_coverages l st; add_coverages k s).
Proof.
  revert st. induction l as [|[item|] l IH]; intros st; simpl; [done| |apply IH].
  destruct st as [[c o] t]. destruct (addDecimal c _); simpl; [|done].
  destruct (addDecimal o _); simpl; [|done]. destruct (addDecimal t _); simpl; [apply IH|done].
Qed.

Section CommitmentLemmas.
Context {W : Type} `{World W} (reader : CEReader W) (period : DateInterval).

Lemma readSavingsPlans_shape w s w' :
  readSavingsPlans reader period w = (Ok s, w') ->
  s = mkCommitment (cer_target reader) TypeSavingsPlan "MONTHLY" (UtilizationRatio s) None None None
        None (NetSavings s).
Proof.
  intros (output & w1 & _ & (u & w2 & _ & [Hs _]%lift_ok)%io_bind_ok)%io_bind_ok.
  destruct output as [[[[percentage|] savings]|]|]; try done.
  apply bind_ok in Hs as (ratio & _ & (net & _ & <-%Ok_inj)%bind_ok). done.
Qed.

Lemma readReservations_shape w s w' :
  readReservations reader period w = (Ok s, w') ->
  s = mkCommitment (cer_target reader) TypeReservation "MONTHLY" (UtilizationRatio s) None
        (UnusedHours s) None None (NetSavings s).
Proof.
  intros (pages & _ & Hf & _)%read_paged_ok.
  refine (fold_pages_inv set_ri_utilization (fun s => s = mkCommitment (cer_target reader)
    TypeReservation "MONTHLY" (UtilizationRatio s) None (UnusedHours s) None None (NetSavings s))
    _ _ _ _ _ _ Hf); [|done].
  intros first output r r' _ ->. unfold set_ri_utilization.
  destruct first, (riu_Total output); try by intros <-%Ok_inj.
  intros (? & _ & (? & _ & (? & _ & <-%Ok_inj)%bind_ok)%bind_ok)%bind_ok. done.
Qed.

Lemma readReservationCoverage_shape w s w' :
  readReservationCoverage reader period w = (Ok s, w') ->
  s = mkCommitment (cer_target reader) TypeReservation "MONTHLY" None (CoverageRatio s) None None
        (OnDemandCost s) None.
Proof.
  intros (pages & _ & Hf & _)%read_paged_ok.
  refine (fold_pages_inv set_ri_coverage (fun s => s = mkCommitment (cer_target reader)
    TypeReservation "MONTHLY" None (CoverageRatio s) None None (OnDemandCost s) None)
    _ _ _ _ _ _ Hf); [|done].
  intros first output r r' _ ->. unfold set_ri_coverage.
  destruct first, (rico_Total output); try by intros <-%Ok_inj.
  intros (? & _ & (? & _ & <-%Ok_inj)%bind_ok)%bind_ok. done.
Qed.

Lemma readSavingsCoverage_shape w s w' :
  readSavingsCoverage reader period w = (Ok s, w') ->
  s = mkCommitment (cer_target reader) TypeSavingsPlan "MONTHLY" None (CoverageRatio s) None
        (CoveredSpend s) (OnDemandCost s) None.
Proof. by intros ([[c o] t] & w1 & _ & [-> ->]%io_ret_ok)%io_bind_ok. Qed.
End CommitmentLemmas.

(** the savings plans coverage is computed from a complete chain of at most
    [maxPages] pages: the covered spend and the on-demand cost are the in-order sums of their
    fields over all pages (absent when not finite), and the ratio is their quotient by the total
    cost when that is positive, absent otherwise. *)
Theorem readSavingsCoverage_spec {W} `{World W} target (api : CommitmentAPI W) maxPages reader
    period w s w' :
  NewCommitmentReader target (Some api) maxPages = Ok reader ->
  readSavingsCoverage reader period w = (Ok s, w') ->
  exists pages, paged_chain (get_sp_coverage reader period) None pages /\
    (Z.of_nat (length pages) <= maxPages)%Z /\
    let items := flat_map spco_Coverages pages in
    let total := sum_field spc_Total items in
    CoverageRatio s =
      (if fltb f0 total then Some (fdiv (sum_field spc_Covered items) total) else None) /\
    CoveredSpend s = ok_of (NewMoney (sum_field spc_Covered items) "USD") /\
    OnDemandCost s = ok_of (NewMoney (sum_field spc_OnDemand items) "USD").
Proof.
  intros [Hpos <-%Ok_inj]%guard_ok. unfold readSavingsCoverage. cbn [cer_maxPages cer_target].
  rewrite Hpos. inv_bool. intros ([[c o] t] & w1 & Hr & [-> ->]%io_ret_ok)%io_bind_ok.
  apply read_paged_ok in Hr as (pages & Hchain & Hf & Hlen & _).
  rewrite (fold_pages_flat spco_Coverages add_coverages) in Hf
    by (done || apply add_coverages_app).
  apply add_coverages_ok in Hf as (-> & -> & ->).
  exists pages. split; [done|]. split; [lia|]. simpl. done.
Qed.

(** over the Cost Explorer reader the commitment collector never rejects the
    summaries of its own reader: when its four reads succeed one after the other and its limit is
    at least ten, it publishes one savings-plan and one reservation summary that put the figures
    of each utilization and coverage read side by side. *)
Theorem ce_commitments_collect {W} `{World W} target (api : CommitmentAPI W) maxPages reader limit c
    reference w w1 w2 w3 w4 u v u' v' :
  NewCommitmentReader target (Some api) maxPages = Ok reader ->
  commitment_New target (Some (ce_commitments reader)) limit = Ok c -> (10 <= limit)%Z ->
  readSavingsPlans reader (commitmentPeriod reference) w = (Ok u, w1) ->
  readSavingsCoverage reader (commitmentPeriod reference) w1 = (Ok v, w2) ->
  readReservations reader (commitmentPeriod reference) w2 = (Ok u', w3) ->
  readReservationCoverage reader (commitmentPeriod reference) w3 = (Ok v', w4) ->
  Collect c reference w = (Ok (NewWithData [] [] [] []
    [mkCommitment target TypeSavingsPlan "MONTHLY" (UtilizationRatio u) (CoverageRatio v) None
       (CoveredSpend v) (OnDemandCost v) (NetSavings u);
     mkCommitment target TypeReservation "MONTHLY" (UtilizationRatio u') (CoverageRatio v')
       (UnusedHours u') None (OnDemandCost v') (NetSavings u')] [] []), w4).
Proof.
  intros [_ <-%Ok_inj]%guard_ok [_ <-%Ok_inj]%guard_ok Hlim Hu Hv Hu' Hv'. cbn [Collect].
  pose proof (readSavingsPlans_shape _ _ _ _ _ Hu) as Eu.
  pose proof (readSavingsCoverage_shape _ _ _ _ _ Hv) as Ev.
  pose proof (readReservations_shape _ _ _ _ _ Hu') as Eu'.
  pose proof (readReservationCoverage_shape _ _ _ _ _ Hv') as Ev'.
  cbn [cer_target] in *. cbn [ce_commitments].
  erewrite io_bind_run by exact Hu. erewrite io_bind_run by exact Hv.
  assert (Hsp : mergeSummaries target TypeSavingsPlan u v = Ok (mkCommitment target TypeSavingsPlan
    "MONTHLY" (UtilizationRatio u) (CoverageRatio v) None (CoveredSpend v) (OnDemandCost v)
    (NetSavings u))).
  { rewrite Eu, Ev. unfold mergeSummaries. simpl. by rewrite !bool_decide_true. }
  assert (Hri : mergeSummaries target TypeReservation u' v' = Ok (mkCommitment target TypeReservation
    "MONTHLY" (UtilizationRatio u') (CoverageRatio v') (UnusedHours u') None (OnDemandCost v')
    (NetSavings u'))).
  { rewrite Eu', Ev'. unfold mergeSummaries. simpl. by rewrite !bool_decide_true. }
  rewrite Hsp. erewrite io_bind_run by reflexivity. erewrite io_bind_run by exact Hu'.
  erewrite io_bind_run by exact Hv'. rewrite Hri. erewrite io_bind_run by reflexivity.
  set (p := NewWithData _ _ _ _ _ _ _).
  assert (Hle : (Z.of_nat (SeriesCount p) <= 10)%Z).
  { unfold p, SeriesCount, NewWithData, commitment_Sort. cbn [costs forecasts accounts tagCosts
      commitments anomalies budgets].
    rewrite (sum_list_with_perm _ _ _ (SliceStable_perm _ _)). simpl.
    unfold commitment_series. simpl.
    assert (Hhas : forall A (o : option A), has o <= 1) by (intros A []; simpl; lia).
    pose proof (Hhas _ (UtilizationRatio u)). pose proof (Hhas _ (CoverageRatio v)).
    pose proof (Hhas _ (CoveredSpend v)). pose proof (Hhas _ (OnDemandCost v)).
    pose proof (Hhas _ (NetSavings u)). pose proof (Hhas _ (UtilizationRatio u')).
    pose proof (Hhas _ (CoverageRatio v')). pose proof (Hhas _ (UnusedHours u')).
    pose proof (Hhas _ (OnDemandCost v')). pose proof (Hhas _ (NetSavings u')). lia. }
  destruct (Z.ltb_spec limit (Z.of_nat (SeriesCount p))); [lia|done].
Qed.

(** a percentage that is not a NaN is accepted exactly when it parses to a value
    between 0 and 100, and yields its hundredth; a NaN passes the range check, so a ratio read
    from the text NaN is a NaN. *)
Theorem parsePercent_range value :
  (forall parsed, ParseFloat value = Some parsed -> IsNaN parsed = false ->
     if fleb f0 parsed && fleb parsed (f64_of_Z 100)
     then parsePercent value = Ok (fdiv parsed (f64_of_Z 100))
     else exists e, parsePercent value = Err e) /\
  (ParseFloat value = None -> exists e, parsePercent value = Err e) /\
  parsePercent "NaN" = Ok S754_nan.
Proof.
  split; [|split; [|reflexivity]].
  - intros parsed Hp Hn. unfold parsePercent. rewrite Hp. unfold guard_err.
    assert (Hflip : forall x y, IsNaN x = false -> IsNaN y = false -> fltb x y = negb (fleb y x)).
    { intros x y Hx Hy. apply eq_true_iff_eq. rewrite fltb_rank, negb_true_iff by done.
      rewrite <-not_true_iff_false, fleb_rank by done.
      split; [tauto|]. unfold rank_lt. destruct (float_rank x) as [[]], (float_rank y) as [[]].
      simpl. lia. }
    rewrite !Hflip by done. destruct (fleb f0 parsed), (fleb parsed (f64_of_Z 100)); simpl; eauto.
  - intros Hp. unfold parsePercent. rewrite Hp. eauto.
Qed.

(** ** Concrete reads *)

Definition sample_anomaly_api : AnomalyAPI unit := fun _ _ token w =>
  match token with
  | None => (Ok (Some (mkGetAnomalies
      [mkAnomalyItem (Some "2024-03-01") (Some (f64_of_Z 10, f64_of_Z 4))] (Some "next"))), w)
  | Some _ => (Ok (Some (mkGetAnomalies
      [mkAnomalyItem None (Some (f64_of_Z 5, f64_of_Z 9)); mkAnomalyItem (Some "2024-02-01") None]
      None)), w)
  end.

Definition sample_anomaly_reader : AnomalyReader unit :=
  mkAnomalyReader "management" sample_anomaly_api 20.

Lemma ReadAnomalySummary_spec_witness :
  exists a, ReadAnomalySummary sample_anomaly_reader (Date 2024 3 2) tt = (Ok a, tt) /\
    Count a = 3%Z /\
    exists pages, paged_chain (get_anomalies sample_anomaly_reader (Date 2024 3 2)) None pages.
Proof.
  eexists.
  assert (Hr : ReadAnomalySummary sample_anomaly_reader (Date 2024 3 2) tt = (Ok _, tt))
    by (vm_compute; reflexivity).
  split; [exact Hr|]. split; [reflexivity|].
  destruct (ReadAnomalySummary_spec "management" sample_anomaly_api 20 sample_anomaly_reader
    (Date 2024 3 2) tt _ tt eq_refl Hr) as (pages & Hchain & _). exists pages. exact Hchain.
Defined.

Definition sample_commitment_api : CommitmentAPI unit :=
  mkCommitmentAPI
    (fun _ w => (Ok (Some (Some (mkSPTotal (Some (Some "87.5")) (Some (Some "12"))))), w))
    (fun _ token w =>
       (Ok (Some (mkSPCoverageOutput
          [Some (mkSPCoverage (Some "30") (Some "10") (Some "40")); None]
          (match token with None => Some "next" | Some _ => None end))), w))
    (fun _ _ w => (Ok (Some (mkRIUtilization (Some (mkRITotal (Some "50") (Some "3.5") None)) None)), w))
    (fun _ _ w => (Ok (Some (mkRICoverage (Some (mkRICoverageTotal (Some (Some "25")) None)) None)), w)).

Definition sample_ce_reader : CEReader unit := mkCEReader "management" sample_commitment_api 20.

Lemma readSavingsCoverage_spec_witness :
  exists s, readSavingsCoverage sample_ce_reader (commitmentPeriod (Date 2024 3 2)) tt = (Ok s, tt) /\
    exists pages, paged_chain (get_sp_coverage sample_ce_reader (commitmentPeriod (Date 2024 3 2)))
      None pages.
Proof.
  eexists.
  assert (Hr : readSavingsCoverage sample_ce_reader (commitmentPeriod (Date 2024 3 2)) tt = (Ok _, tt))
    by (vm_compute; reflexivity).
  split; [exact Hr|].
  destruct (readSavingsCoverage_spec "management" sample_commitment_api 20 sample_ce_reader _ tt _ tt
    eq_refl Hr) as (pages & Hchain & _). exists pages. exact Hchain.
Defined.

Lemma ce_commitments_collect_witness :
  exists c p, commitment_New "management" (Some (ce_commitments sample_ce_reader)) 20 = Ok c /\
    Collect c (Date 2024 3 2) tt = (Ok p, tt).
Proof.
  eexists _, _. split; [reflexivity|].
  eapply (ce_commitments_collect "management" sample_commitment_api 20 sample_ce_reader 20 _
    (Date 2024 3 2) tt tt tt tt tt); [reflexivity|reflexivity|lia| | | |];
    vm_compute; reflexivity.
Defined.
