(* ===== verification/Exporter.v ===== *)
(** * The exporter's own metrics (internal/metrics/exporter.go, internal/version)

    The status metrics of the configured collectors, and the events the scheduler and the AWS
    clients report, with label values bounded to what the configuration and the source fix.  The
    vectors that count the events are the client library's: [VectorLibrary] is an argument, and
    [VectorLaws] is what its documentation says. *)

From S2P Require Import Prelude SliceStable GoStrings GoFloat GoTime Errors Domain Snapshot Ports PromClient Metrics.
Local Open Scope string_scope.
Local Open Scope list_scope.

Definition ErrInvalidExporter : error := Sentinel "invalid exporter metrics configuration".

(** [version.Info]. *)
Record Info := mkInfo { Version : string; Revision : string; BuildDate : string; GoVersion : string }.

Definition Info_String (info : Info) : string :=
  foldr String.app "" ["aws-cost-exporter version="; Version info; " revision="; Revision info;
    " build_date="; BuildDate info; " go_version="; GoVersion info].

Definition selfDesc (name : string) (labels : list string) : Desc :=
  mkDesc (String.app "aws_cost_exporter_" name) labels.

(** A counter vector or a histogram: its description. *)
Definition counter (name : string) (labels : list string) : Desc :=
  mkDesc (String.app "aws_cost_exporter_" name) labels.
Definition histogram (name : string) (labels : list string) : Desc :=
  mkDesc (String.app "aws_cost_exporter_" name) labels.

Definition targetCollector : list string := ["target"; "collector"].

(** The event vectors, in the order of [events]; [prometheus.NewCounter] takes the whole name. *)
Definition event_vectors : list Desc :=
  [counter "refresh_total" ["target"; "collector"; "status"];
   counter "aws_api_requests_total" ["target"; "operation"; "status"];
   counter "aws_api_retries_total" ["target"; "operation"; "reason"];
   counter "scheduler_skipped_runs_total" ["target"; "collector"; "reason"];
   counter "dimension_overflow_values_total" ["target"; "dimension"];
   counter "pagination_pages_total" ["target"; "operation"];
   counter "cache_publish_errors_total" ["target"; "collector"; "operation"];
   mkDesc "aws_cost_exporter_scheduler_shutdown_timeouts_total" [];
   histogram "refresh_duration_seconds" ["target"; "collector"];
   histogram "aws_api_request_duration_seconds" ["target"; "operation"]].

Record Exporter := mkExporter {
  ids : list CollectorID;
  known : gset CollectorID;
  build : Info;
  exp_up : Desc;
  exp_success : Desc;
  exp_attempt : Desc;
  exp_age : Desc;
  exp_series : Desc;
  exp_buildInfo : Desc;
  exp_events : list Desc
}.

Definition idLess : CollectorID -> CollectorID -> bool :=
  by_string ID_Target (by_string ID_Name no_key).

(** The loop over [ids] that fills [known] and refuses invalid or repeated identities. *)
Fixpoint known_ids (l : list CollectorID) (acc : gset CollectorID) : res (gset CollectorID) :=
  match l with
  | [] => Ok acc
  | id :: l =>
      fail_if negb (CollectorID_Valid id) with_ ErrInvalidExporter ;;
      fail_if bool_decide (id ∈ acc) with_ ErrInvalidExporter ;;
      known_ids l ({[ id ]} ∪ acc)
  end.

(** The reader and the clock are not nil: they are built by the caller. *)
Definition NewExporter (info : Info) (l : list CollectorID) : res Exporter :=
  fail_if bool_decide (l = []) with_ ErrInvalidExporter ;;
  acc ← known_ids l ∅;
  Ok {| ids := SliceStable idLess l; known := acc; build := info;
        exp_up := selfDesc "collector_up" targetCollector;
        exp_success := selfDesc "last_success_timestamp_seconds" targetCollector;
        exp_attempt := selfDesc "last_attempt_timestamp_seconds" targetCollector;
        exp_age := selfDesc "cache_age_seconds" targetCollector;
        exp_series := selfDesc "snapshot_series" targetCollector;
        exp_buildInfo := selfDesc "build_info" ["version"; "revision"; "go_version"];
        exp_events := event_vectors |}.

(** [Describe]; a vector describes itself. *)
Definition Exporter_Describe (e : Exporter) : list Desc :=
  [exp_up e; exp_success e; exp_attempt e; exp_age e; exp_series e; exp_buildInfo e] ++ exp_events e.

(** [Duration.Seconds]. *)
Definition Seconds (d : Duration) : float64 :=
  fadd (f64_of_Z (Z.quot d Second)) (fdiv (f64_of_Z (Z.rem d Second)) (f64_of_Z 1000000000)).

Definition seconds (d : Duration) : float64 := fmax f0 (Seconds d).

Definition boolFloat (value : bool) : float64 := if value then f64_of_Z 1 else f64_of_Z 0.

Definition status_metrics (e : Exporter) (view : SnapshotView) (now : Time) (id : CollectorID) :
    list Metric :=
  let status := default CollectorStatus_zero (view_Collectors view !! id) in
  let labels := [ID_Target id; ID_Name id] in
  [mkMetric (exp_up e) (boolFloat (Up status)) labels;
   mkMetric (exp_series e) (f64_of_Z (Series status)) labels] ++
  (if IsZero (LastAttempt status) then []
   else [mkMetric (exp_attempt e) (f64_of_Z (Unix (LastAttempt status))) labels]) ++
  (if IsZero (LastSuccess status) then []
   else [mkMetric (exp_success e) (f64_of_Z (Unix (LastSuccess status))) labels;
         mkMetric (exp_age e) (fmax f0 (Seconds (Sub now (LastSuccess status)))) labels]).

(** What [Collect] hands to [MustNewConstMetric]. *)
Definition own_metrics (e : Exporter) (view : SnapshotView) (now : Time) : list Metric :=
  flat_map (status_metrics e view now) (ids e) ++
  [mkMetric (exp_buildInfo e) (f64_of_Z 1)
    [Version (build e); Revision (build e); GoVersion (build e)]].

(** *** Events: the vector, its label values and the amount added or observed *)

Record Event := mkEvent { ev_vector : string; ev_labels : list string; ev_amount : float64 }.

(** The counters and histograms of the client library: their state, [WithLabelValues] with the
    change that follows it, and [Collect] of the vector with a description. *)
Record VectorLibrary := mkVectorLibrary {
  Vectors : Type;
  vec_new : list Desc -> Vectors;
  vec_record : Event -> Vectors -> Vectors;
  vec_collect : Vectors -> Desc -> list Metric
}.

(** [Collect]; the vectors are collected one after the other, and [vectors] has the state each is in
    when it is its turn. *)
Definition Exporter_Collect (NewConstMetric : Desc -> float64 -> list string -> res Metric)
    (library : VectorLibrary) (vectors : Desc -> Vectors library)
    (e : Exporter) (view : SnapshotView) (now : Time) : Sent :=
  let output := fold_left (fun output id => send_all NewConstMetric (status_metrics e view now id) output)
                  (ids e) nothing_sent in
  let output := send_metric NewConstMetric output
    (mkMetric (exp_buildInfo e) (f64_of_Z 1) [Version (build e); Revision (build e); GoVersion (build e)]) in
  if panicked output then output
  else mkSent (sent output ++ flat_map (fun event => vec_collect library (vectors event) event) (exp_events e)) false.

Definition boundedDefault (value fallback : string) (allowed : list string) : string :=
  if existsb (fun candidate => bool_decide (value = candidate)) allowed then value else fallback.

Definition bounded (value : string) (allowed : list string) : string :=
  boundedDefault value "unknown" allowed.

Definition operations : list string :=
  ["AssumeRole"; "GetCallerIdentity"; "GetCostAndUsage"; "GetCostForecast"; "ListAccounts";
   "DescribeOrganization"; "DescribeBudgets"; "GetSavingsPlansUtilization";
   "GetSavingsPlansCoverage"; "GetReservationUtilization"; "GetReservationCoverage";
   "GetAnomalies"; "StartQueryExecution"; "GetQueryExecution"; "GetQueryResults";
   "StopQueryExecution"].

Definition boundedOperation (value : string) : string := bounded value operations.

Definition isKnown (e : Exporter) (id : CollectorID) : bool := bool_decide (id ∈ known e).

Definition ObserveRefresh (e : Exporter) (id : CollectorID) (status : string) (d : Duration) :
    list Event :=
  if negb (isKnown e id) then [] else
  [mkEvent "refresh_total"
     [ID_Target id; ID_Name id; bounded status ["success"; "error"; "canceled"]] (f64_of_Z 1);
   mkEvent "refresh_duration_seconds" [ID_Target id; ID_Name id] (seconds d)].

Definition ObserveRequest (target : TargetID) (operation status : string) (d : Duration) :
    list Event :=
  let operation := boundedOperation operation in
  [mkEvent "aws_api_requests_total"
     [target; operation; bounded status ["success"; "error"; "canceled"; "throttle"]] (f64_of_Z 1);
   mkEvent "aws_api_request_duration_seconds" [target; operation] (seconds d)].

Definition ObserveRetry (target : TargetID) (operation reason : string) : list Event :=
  [mkEvent "aws_api_retries_total"
     [target; boundedOperation operation;
      boundedDefault reason "other" ["throttle"; "timeout"; "other"]] (f64_of_Z 1)].

Definition ObserveSkipped (e : Exporter) (id : CollectorID) (reason : string) : list Event :=
  if isKnown e id then
    [mkEvent "scheduler_skipped_runs_total"
       [ID_Target id; ID_Name id; bounded reason ["single_flight"]] (f64_of_Z 1)]
  else [].

Definition ObserveOverflow (target : TargetID) (dimension : string) (count : Z) : list Event :=
  if (0 <? count)%Z then
    [mkEvent "dimension_overflow_values_total"
       [target; bounded dimension ["service"; "region"; "account"; "tag"]] (f64_of_Z count)]
  else [].

Definition ObservePaginationPage (target : TargetID) (operation : string) : list Event :=
  [mkEvent "pagination_pages_total" [target; boundedOperation operation] (f64_of_Z 1)].

Definition ObserveCachePublishError (e : Exporter) (id : CollectorID) (operation : string) :
    list Event :=
  if isKnown e id then
    [mkEvent "cache_publish_errors_total"
       [ID_Target id; ID_Name id; bounded operation ["publish"; "record_failure"]] (f64_of_Z 1)]
  else [].

Definition ObserveSchedulerShutdownTimeout : list Event :=
  [mkEvent "scheduler_shutdown_timeouts_total" [] (f64_of_Z 1)].

(** ** Construction *)

Lemma known_ids_ok l acc k :
  known_ids l acc = Ok k <->
  k = list_to_set l ∪ acc /\ (forall id, id ∈ l -> CollectorID_Valid id = true /\ id ∉ acc) /\
  NoDup l.
Proof.
  revert acc. induction l as [|id l IH]; intros acc; simpl.
  - split; [intros [= ->]|intros [-> _]]; [|f_equal; set_solver].
    split; [set_solver|]. split; [set_solver|constructor].
  - rewrite !guard_ok, negb_false_iff, bool_decide_eq_false, IH, NoDup_cons. split.
    + intros (Hv & Hin & -> & Hall & Hnd). split; [set_solver|]. split; [|set_solver].
      intros id' [->|Hid']%elem_of_cons; [done|]. specialize (Hall id' Hid'). set_solver.
    + intros (-> & Hall & Hid & Hnd). split; [apply Hall; by left|].
      split; [apply Hall; by left|]. split; [set_solver|]. split; [|done].
      intros id' Hid'. destruct (Hall id'); [by right|]. set_solver.
Qed.

Lemma NewExporter_ok info l e :
  NewExporter info l = Ok e ->
  l <> [] /\ NoDup l /\ (forall id, id ∈ l -> CollectorID_Valid id = true) /\
  ids e ≡ₚ l /\ known e = list_to_set l /\ build e = info /\
  [exp_up e; exp_series e; exp_attempt e; exp_success e; exp_age e; exp_buildInfo e] =
  [selfDesc "collector_up" targetCollector; selfDesc "snapshot_series" targetCollector;
   selfDesc "last_attempt_timestamp_seconds" targetCollector;
   selfDesc "last_success_timestamp_seconds" targetCollector;
   selfDesc "cache_age_seconds" targetCollector;
   selfDesc "build_info" ["version"; "revision"; "go_version"]] /\ exp_events e = event_vectors.
Proof.
  unfold NewExporter. intros H. inv_ok. inv_bool.
  match goal with H : known_ids _ _ = _ |- _ => apply known_ids_ok in H as (-> & Hall & Hnd) end.
  split; [done|]. split; [done|]. split; [intros id Hid; by apply Hall|].
  simpl. split; [apply SliceStable_perm|]. split; [set_solver|]. done.
Qed.

(** ** Status series *)

Lemma status_metrics_labels e view now id m :
  m ∈ status_metrics e view now id ->
  m_labels m = [ID_Target id; ID_Name id] /\
  m_desc m ∈ [exp_up e; exp_series e; exp_attempt e; exp_success e; exp_age e].
Proof.
  unfold status_metrics. intros Hm.
  repeat case_match; simpl in Hm; rewrite ?elem_of_cons, ?elem_of_nil in Hm;
    destruct_or?; subst; simpl; (split; [done|set_solver]) || done.
Qed.

(** Every metric of the exporter is described, with one value per label of its description. *)
Lemma own_metrics_described info l e view now m :
  NewExporter info l = Ok e -> m ∈ own_metrics e view now ->
  m_desc m ∈ Exporter_Describe e /\ length (m_labels m) = length (variableLabels (m_desc m)).
Proof.
  intros (_ & _ & _ & _ & _ & _ & Hdesc & _)%NewExporter_ok Hm.
  injection Hdesc as Hup Hser Hatt Hsuc Hage Hbuild. unfold Exporter_Describe.
  apply elem_of_app in Hm as [(id & _ & [Hl Hd]%status_metrics_labels)%elem_of_flat_map|Hm].
  - split; [rewrite elem_of_app; left; revert Hd; rewrite !elem_of_cons; tauto|]. rewrite Hl.
    apply list_elem_of_In in Hd. cbn [In] in Hd.
    destruct Hd as [<-|[<-|[<-|[<-|[<-|[]]]]]]; rewrite ?Hup, ?Hser, ?Hatt, ?Hsuc, ?Hage; reflexivity.
  - apply list_elem_of_singleton in Hm as ->. cbn [m_desc m_labels]. rewrite Hbuild.
    split; [rewrite elem_of_app; left; rewrite !elem_of_cons; tauto|reflexivity].
Qed.

Lemma status_metrics_distinct e view now id :
  NoDup [exp_up e; exp_series e; exp_attempt e; exp_success e; exp_age e] ->
  NoDup (map series_of (status_metrics e view now id)).
Proof.
  intros Hd. apply (NoDup_fmap_1 fst). unfold status_metrics.
  eapply sublist_NoDup; [exact Hd|].
  destruct (IsZero (LastAttempt _)), (IsZero (LastSuccess _)); cbn;
    repeat (apply sublist_skip || apply sublist_nil_l || apply sublist_cons).
Qed.

Lemma family_NoDup_ids e view now l :
  NoDup [exp_up e; exp_series e; exp_attempt e; exp_success e; exp_age e] -> NoDup l ->
  NoDup (map series_of (flat_map (status_metrics e view now) l)).
Proof.
  intros Hd. induction 1 as [|id l Hid Hnd IH]; [constructor|].
  cbn [flat_map]. rewrite map_app. apply NoDup_app. split; [by apply status_metrics_distinct|]. split; [|done].
  intros s (m & Hm & <-)%elem_of_map (m' & (id' & Hid' & Hm')%elem_of_flat_map & Hs)%elem_of_map.
  apply status_metrics_labels in Hm as [Hm _], Hm' as [Hm' _]. unfold series_of in Hs.
  rewrite Hm, Hm' in Hs. injection Hs as _ Ht Hn. destruct Hid.
  destruct id, id'; simpl in *; by subst.
Qed.

(** an exporter that could be built reports, for any view of the store, each
    configured collector exactly once and nothing twice: the status series are pairwise
    distinct, and there is a [collector_up] series precisely for every configured identity. *)
Theorem own_metrics_unique info l e view now :
  NewExporter info l = Ok e ->
  NoDup (map series_of (own_metrics e view now)) /\
  forall id, id ∈ l <->
    (exp_up e, [ID_Target id; ID_Name id]) ∈ map series_of (own_metrics e view now).
Proof.
  intros (_ & Hnd & _ & Hids & _ & _ & Hdesc & _)%NewExporter_ok.
  injection Hdesc as Hup Hser Hatt Hsuc Hage Hbuild.
  assert (Hdist : NoDup [exp_up e; exp_series e; exp_attempt e; exp_success e; exp_age e;
    exp_buildInfo e]).
  { rewrite Hup, Hser, Hatt, Hsuc, Hage, Hbuild. apply (bool_decide_unpack _). vm_compute. exact I. }
  apply (NoDup_app_l [_; _; _; _; _] [_]) in Hdist as Hd5.
  assert (Hb : exp_buildInfo e ∉ [exp_up e; exp_series e; exp_attempt e; exp_success e; exp_age e]).
  { apply (NoDup_app [exp_up e; exp_series e; exp_attempt e; exp_success e; exp_age e]) in Hdist
      as (_ & Hdis & _). intros Hin. apply (Hdis _ Hin). by left. }
  unfold own_metrics. rewrite map_app. split.
  - apply NoDup_app. split; [|split; [|apply NoDup_singleton]].
    + apply (family_NoDup_ids e view now (ids e)); [done|by rewrite Hids].
    + intros s (m & (id & _ & Hm)%elem_of_flat_map & <-)%elem_of_map Hs.
      apply list_elem_of_singleton in Hs. apply status_metrics_labels in Hm as [_ Hm].
      apply (f_equal fst) in Hs. simpl in Hs. by rewrite Hs in Hm.
  - intros id. rewrite elem_of_app, elem_of_map. split.
    + intros Hid. left. eexists. split; [apply elem_of_flat_map; exists id|].
      * split; [by rewrite Hids|]. by left.
      * done.
    + intros [(m & (id' & Hid' & Hm)%elem_of_flat_map & Hs)|Hs].
      * apply status_metrics_labels in Hm as [Hlab _]. unfold series_of in Hs.
        rewrite Hlab in Hs. injection Hs as _ Ht Hn. rewrite Hids in Hid'.
        destruct id, id'; simpl in *; by subst.
      * apply list_elem_of_singleton in Hs. apply (f_equal fst) in Hs. simpl in Hs.
        destruct Hb. rewrite <- Hs. by left.
Qed.

(** ** Bounded labels *)

Lemma boundedDefault_in value fallback allowed :
  boundedDefault value fallback allowed ∈ fallback :: allowed.
Proof.
  unfold boundedDefault. destruct (existsb _ _) eqn:E; [|by left].
  apply existsb_exists in E as (c & Hc & ->%bool_decide_eq_true). right. by apply list_elem_of_In.
Qed.

Lemma boundedDefault_id value fallback allowed :
  value ∈ allowed -> boundedDefault value fallback allowed = value.
Proof.
  intros Hin. unfold boundedDefault. destruct (existsb _ _) eqn:E; [done|].
  rewrite <- not_true_iff_false, existsb_exists in E. destruct E. exists value.
  split; [by apply list_elem_of_In|by apply bool_decide_eq_true].
Qed.

Lemma isKnown_configured info l e id :
  NewExporter info l = Ok e -> isKnown e id = true <-> id ∈ l.
Proof.
  intros (_ & _ & _ & _ & Hk & _)%NewExporter_ok. unfold isKnown.
  rewrite bool_decide_eq_true, Hk. apply elem_of_list_to_set.
Qed.

(** What the scheduler reports of a collector. *)
Inductive collector_event (e : Exporter) (id : CollectorID) : Event -> Prop :=
| event_refresh status d ev : ev ∈ ObserveRefresh e id status d -> collector_event e id ev
| event_skipped reason ev : ev ∈ ObserveSkipped e id reason -> collector_event e id ev
| event_cache operation ev : ev ∈ ObserveCachePublishError e id operation -> collector_event e id ev.

(** What the AWS clients report of a target. *)
Inductive request_event (target : TargetID) : Event -> Prop :=
| event_request op status d ev : ev ∈ ObserveRequest target op status d -> request_event target ev
| event_retry op reason ev : ev ∈ ObserveRetry target op reason -> request_event target ev
| event_page op ev : ev ∈ ObservePaginationPage target op -> request_event target ev.

(** Every event: those, the overflow of a dimension, and a scheduler that stopped too late. *)
Inductive observed (e : Exporter) (ev : Event) : Prop :=
| observed_collector id : collector_event e id ev -> observed e ev
| observed_aws target : request_event target ev -> observed e ev
| observed_overflow target dimension count : ev ∈ ObserveOverflow target dimension count -> observed e ev
| observed_timeout : ev ∈ ObserveSchedulerShutdownTimeout -> observed e ev.

(** The event belongs to a vector that is described, with one value per label of it. *)
Definition recordable (e : Exporter) (ev : Event) : Prop :=
  exists d, d ∈ exp_events e /\ fqName d = String.app "aws_cost_exporter_" (ev_vector ev) /\
    length (variableLabels d) = length (ev_labels ev).

Lemma event_recordable e ev : exp_events e = event_vectors -> observed e ev -> recordable e ev.
Proof.
  intros Hev Hobs. unfold recordable. rewrite Hev.
  assert (Hfind : forall name labels n, nth_error event_vectors n =
      Some (mkDesc (String.app "aws_cost_exporter_" name) labels) ->
    forall ev, ev_vector ev = name -> length (ev_labels ev) = length labels ->
    exists d, d ∈ event_vectors /\ fqName d = String.app "aws_cost_exporter_" (ev_vector ev) /\
      length (variableLabels d) = length (ev_labels ev)).
  { intros name labels n Hn ev' <- Hlen. exists (mkDesc (String.app "aws_cost_exporter_" (ev_vector ev')) labels).
    split; [apply list_elem_of_In; by eapply nth_error_In|by split]. }
  destruct Hobs as [id [? ? ? H|? ? H|? ? H]|target [? ? ? ? H|? ? ? H|? ? H]|target dim count H|H];
    unfold ObserveRefresh, ObserveSkipped, ObserveCachePublishError, ObserveRequest, ObserveRetry,
      ObservePaginationPage, ObserveOverflow, ObserveSchedulerShutdownTimeout in H;
    try destruct (isKnown e id); try destruct (0 <? count)%Z; cbn [negb] in H;
    rewrite ?elem_of_cons, ?elem_of_nil in H; destruct_or?; try done; subst.
  all: [> eapply (Hfind _ _ 0)|eapply (Hfind _ _ 8)|eapply (Hfind _ _ 3)|eapply (Hfind _ _ 6)|eapply (Hfind _ _ 1)
    |eapply (Hfind _ _ 9)|eapply (Hfind _ _ 2)|eapply (Hfind _ _ 5)|eapply (Hfind _ _ 4)|eapply (Hfind _ _ 7)]; reflexivity.
Qed.

(** ** The vectors *)

(** The label values a vector has been used with, by [children]: none at first, but for a counter
    without labels; [WithLabelValues] adds its own; and each has one metric. *)
Record VectorLaws (library : VectorLibrary) (children : Vectors library -> Desc -> list (list string)) : Prop :=
  mkVectorLaws {
  vec_collected : forall vectors d, map series_of (vec_collect library vectors d) ≡ₚ map (pair d) (children vectors d);
  vec_distinct : forall vectors d, NoDup (children vectors d);
  vec_first : forall l d labels, NoDup (map fqName l) -> d ∈ l ->
    labels ∈ children (vec_new library l) d <-> labels = [] /\ variableLabels d = [];
  vec_recorded : forall event vectors d labels, labels ∈ children (vec_record library event vectors) d <->
    labels ∈ children vectors d \/
    (fqName d = String.app "aws_cost_exporter_" (ev_vector event) /\ labels = ev_labels event)
}.

Section VectorFacts.
Context (library : VectorLibrary) (children : Vectors library -> Desc -> list (list string)).
Context (Hlaws : VectorLaws library children).

(** The states of the vectors: new, and changed by the events of the exporter. *)
Definition vector_step (e : Exporter) (vectors vectors' : Vectors library) : Prop :=
  exists event, observed e event /\ vectors' = vec_record library event vectors.
Definition vectors_running (e : Exporter) (vectors : Vectors library) : Prop :=
  rtc (vector_step e) (vec_new library (exp_events e)) vectors.

Lemma vectors_labels e vectors d labels :
  exp_events e = event_vectors -> vectors_running e vectors -> d ∈ exp_events e -> labels ∈ children vectors d ->
  length labels = length (variableLabels d).
Proof using Hlaws.
  intros Hev Hrun Hd. assert (Hnames : NoDup (map fqName (exp_events e)))
    by (rewrite Hev; apply (bool_decide_unpack _); vm_compute; exact I).
  assert (Hfirst : forall labels, labels ∈ children (vec_new library (exp_events e)) d -> length labels = length (variableLabels d))
    by (intros l [-> ->]%(vec_first _ _ Hlaws _ _ _ Hnames Hd); done).
  unfold vectors_running in Hrun. revert labels Hfirst.
  induction Hrun as [|v1 v2 v3 (event & Hobs & ->) _ IH]; intros labels Hfirst; [apply Hfirst|].
  apply IH. intros l [Hl|[Hname ->]]%(vec_recorded _ _ Hlaws); [by apply Hfirst|].
  destruct (event_recordable e event Hev Hobs) as (d' & Hd' & Hname' & Hlen).
  assert (d' = d) as -> by (apply (NoDup_map_inj fqName (exp_events e)); [done|done|done|congruence]). done.
Qed.

(** What [Exporter.Collect] sends. *)
Lemma Exporter_Collect_sends NewConstMetric vectors e view now :
  let own := send_all NewConstMetric (own_metrics e view now) nothing_sent in
  Exporter_Collect NewConstMetric library vectors e view now =
    if panicked own then own
    else mkSent (sent own ++ flat_map (fun d => vec_collect library (vectors d) d) (exp_events e)) false.
Proof using.
  intros own. unfold Exporter_Collect. cbv zeta.
  assert (Hown : forall l output, send_metric NewConstMetric
    (fold_left (fun output id => send_all NewConstMetric (status_metrics e view now id) output) l output)
    (mkMetric (exp_buildInfo e) (f64_of_Z 1) [Version (build e); Revision (build e); GoVersion (build e)]) =
    send_all NewConstMetric (flat_map (status_metrics e view now) l ++
      [mkMetric (exp_buildInfo e) (f64_of_Z 1) [Version (build e); Revision (build e); GoVersion (build e)]]) output).
  { induction l as [|id l IH]; intros output; [reflexivity|]. cbn [fold_left flat_map].
    rewrite IH, <- app_assoc. symmetry. apply send_all_app. }
  by rewrite Hown.
Qed.

(** The series of the vectors: of their descriptions, each once. *)
Lemma vector_series vectors l :
  NoDup l -> NoDup (map series_of (flat_map (fun d => vec_collect library (vectors d) d) l)).
Proof using Hlaws.
  assert (Hof : forall d x, x ∈ map series_of (vec_collect library (vectors d) d) -> x.1 = d)
    by (intros d x; rewrite (vec_collected _ _ Hlaws); intros (labels & _ & <-)%elem_of_map; done).
  induction 1 as [|d l Hd Hnd IH]; [constructor|]. cbn [flat_map]. rewrite map_app. apply NoDup_app. split; [|split; [|done]].
  - rewrite (vec_collected _ _ Hlaws). apply NoDup_fmap_2; [by intros ? ? [= ->]|]. apply (vec_distinct _ _ Hlaws).
  - intros x Hx (m & (d' & Hd' & Hm)%elem_of_flat_map & Hmx)%elem_of_map. apply Hof in Hx.
    assert (Hx' : x ∈ map series_of (vec_collect library (vectors d') d')) by (apply elem_of_map; by exists m).
    apply Hof in Hx'. congruence.
Qed.

Lemma vector_metric vectors d m :
  m ∈ vec_collect library vectors d -> m_desc m = d /\ m_labels m ∈ children vectors d.
Proof using Hlaws.
  intros Hm. assert (Hs : series_of m ∈ map series_of (vec_collect library vectors d)) by (apply elem_of_map; by exists m).
  rewrite (vec_collected _ _ Hlaws) in Hs. apply elem_of_map in Hs as (labels & Hl & Hs). by injection Hs as -> ->.
Qed.
End VectorFacts.

Definition event_values : list string :=
  ["success"; "error"; "canceled"; "throttle"; "timeout"; "other"; "single_flight"; "publish";
   "record_failure"; "unknown"].

(** metric cardinality is bounded whatever the callers pass: events of a collector
    are recorded only for configured identities, events of a request only under a known
    operation or [unknown], and any further label is one of ten fixed values.
    Every event belongs to a vector the exporter describes, with one value per label of it, so
    [WithLabelValues] does not panic. *)
Theorem events_bounded info l e :
  NewExporter info l = Ok e ->
  (forall id ev, collector_event e id ev ->
    id ∈ l /\ exists rest, ev_labels ev = ID_Target id :: ID_Name id :: rest /\
      (rest = [] \/ exists v, v ∈ event_values /\ rest = [v])) /\
  (forall target ev, request_event target ev ->
    exists op rest, ev_labels ev = target :: op :: rest /\ op ∈ "unknown" :: operations /\
      (rest = [] \/ exists v, v ∈ event_values /\ rest = [v])) /\
  (forall op, op ∈ operations -> boundedOperation op = op) /\
  (forall ev, observed e ev -> recordable e ev).
Proof.
  intros He.
  assert (Hv : forall v fb allowed,
    bool_decide (Forall (fun x => x ∈ event_values) (fb :: allowed)) = true ->
    boundedDefault v fb allowed ∈ event_values).
  { intros v fb allowed Hall%bool_decide_eq_true. rewrite Forall_forall in Hall.
    apply Hall, boundedDefault_in. }
  assert (Hsolve : forall (v : string) (rest : list string), v ∈ event_values -> rest = [v] ->
    rest = [] \/ exists v, v ∈ event_values /\ rest = [v]) by (intros; eauto).
  split; [|split; [|split; [intros op; apply boundedDefault_id|]]].
  3: { intros ev. apply event_recordable. by apply (NewExporter_ok info l). }
  - intros id ev Hev. destruct Hev as [status d ev Hev|reason ev Hev|operation ev Hev];
      unfold ObserveRefresh, ObserveSkipped, ObserveCachePublishError in Hev;
      destruct (isKnown e id) eqn:Hk; simpl in Hev; try (by apply not_elem_of_nil in Hev);
      (split; [by apply (isKnown_configured info l e id He)|]);
      rewrite ?elem_of_cons, ?elem_of_nil in Hev; destruct_or?; subst; try done;
      (eexists; split; [reflexivity|]);
      first [by left | eapply Hsolve; [|reflexivity]; apply Hv; vm_compute; reflexivity].
  - intros target ev Hev. destruct Hev as [op status d ev Hev|op reason ev Hev|op ev Hev];
      unfold ObserveRequest, ObserveRetry, ObservePaginationPage in Hev;
      rewrite ?elem_of_cons, ?elem_of_nil in Hev; destruct_or?; subst; try done;
      (eexists _, _; split; [reflexivity|]; split; [apply boundedDefault_in|]);
      first [by left | eapply Hsolve; [|reflexivity]; apply Hv; vm_compute; reflexivity].
Qed.

Definition sample_ids : list CollectorID :=
  [mkCollectorID "prod" "total"; mkCollectorID "dev" "total"; mkCollectorID "prod" "budget"].
Definition sample_info : Info := mkInfo "1.0.0" "abc" "today" "go1.25".

Lemma own_metrics_unique_witness :
  exists e, NewExporter sample_info sample_ids = Ok e /\
    NoDup (map series_of (own_metrics e (mkView Snapshot_empty ∅) 0%Z)).
Proof.
  destruct (NewExporter sample_info sample_ids) as [e|] eqn:E; [|by vm_compute in E].
  exists e. split; [done|]. exact (proj1 (own_metrics_unique _ _ e (mkView Snapshot_empty ∅) 0%Z E)).
Defined.

Lemma events_bounded_witness :
  exists e, NewExporter sample_info sample_ids = Ok e /\
    forall op, op ∈ operations -> boundedOperation op = op.
Proof.
  destruct (NewExporter sample_info sample_ids) as [e|] eqn:E; [|by vm_compute in E].
  exists e. split; [done|]. exact (proj1 (proj2 (proj2 (events_bounded _ _ e E)))).
Defined.

(** ** Vectors that follow their documentation *)

(** The sum of what was added or observed, by the name of the vector and the label values. *)
Definition reference_children (vectors : gmap (string * list string) float64) (d : Desc) : list (list string) :=
  map snd (List.filter (fun key => bool_decide (fst key = fqName d)) (map_to_list vectors).*1).

Definition reference_vectors : VectorLibrary := {|
  Vectors := gmap (string * list string) float64;
  vec_new l := list_to_map (map (fun d => (fqName d, [], f0))
    (List.filter (fun d => bool_decide (variableLabels d = [])) l));
  vec_record event vectors :=
    let key := (String.app "aws_cost_exporter_" (ev_vector event), ev_labels event) in
    <[ key := fadd (default f0 (vectors !! key)) (ev_amount event) ]> vectors;
  vec_collect vectors d :=
    map (fun labels => mkMetric d (default f0 (vectors !! (fqName d, labels))) labels) (reference_children vectors d)
|}.

Lemma reference_children_elem vectors d labels :
  labels ∈ reference_children vectors d <-> is_Some (vectors !! (fqName d, labels)).
Proof.
  unfold reference_children. rewrite elem_of_map. setoid_rewrite elem_of_filter_b. setoid_rewrite list_elem_of_fmap.
  split.
  - intros (key & [([[n l] v] & -> & Hk%elem_of_map_to_list) Hn%bool_decide_eq_true] & <-).
    cbn in *. subst n. by exists v.
  - intros [v Hv]. exists (fqName d, labels). split; [split|done].
    + exists ((fqName d, labels), v). split; [done|]. by apply elem_of_map_to_list.
    + by apply bool_decide_eq_true.
Qed.

Lemma reference_vector_laws : VectorLaws reference_vectors reference_children.
Proof.
  split.
  - intros vectors d. cbn [vec_collect reference_vectors]. by rewrite map_map.
  - intros vectors d. unfold reference_children.
    assert (Hnd : NoDup (List.filter (fun key => bool_decide (fst key = fqName d)) (map_to_list vectors).*1))
      by (eapply sublist_NoDup; [apply (NoDup_fst_map_to_list (vectors : gmap (string * list string) float64))|apply filter_sublist]).
    apply NoDup_fmap_2_strong; [|done]. intros [n l] [n' l'] [_ Hn%bool_decide_eq_true]%elem_of_filter_b
      [_ Hn'%bool_decide_eq_true]%elem_of_filter_b. cbn in *. congruence.
  - intros l d labels Hnd Hd. rewrite reference_children_elem. cbn [vec_new reference_vectors].
    split.
    + intros [v (d' & Hd' & [= Hname <- _])%elem_of_list_to_map_2%elem_of_map].
      apply elem_of_filter_b in Hd' as [Hd' Hlabels%bool_decide_eq_true].
      by rewrite <- (NoDup_map_inj fqName l d' d Hnd Hd' Hd Hname).
    + intros [-> Hlabels]. apply not_eq_None_Some. intros Hnone%not_elem_of_list_to_map_2. apply Hnone.
      apply list_elem_of_fmap. exists (fqName d, [], f0). split; [done|].
      apply elem_of_map. exists d. split; [|done]. apply elem_of_filter_b. by rewrite bool_decide_true.
  - intros event vectors d labels. rewrite !reference_children_elem. cbn [vec_record reference_vectors].
    cbv zeta. rewrite lookup_insert_is_Some'. split.
    + intros [[= Hname Hlabels]|Hold]; [by right|by left].
    + intros [Hold|[-> ->]]; [by right|by left].
Qed.
