(* ===== verification/Store.v ===== *)
(** * The snapshot cache (internal/cache/memory/store.go)

    A store keeps, per collector, the last published partial and its status, and the snapshot
    merged from all partials.  Writers hold [writeMu] and publish a new state with one atomic
    pointer store, so a call is one step on the state; the clock's answer is an argument.
    Go ranges over maps in an unspecified order: the order in which [mergeParts] sees the parts
    is the argument [range], any listing of the map's values. *)

From S2P Require Import Prelude SliceStable GoStrings GoFloat GoTime Errors Domain Snapshot Ports PromClient Metrics.
Local Open Scope string_scope.
Local Open Scope list_scope.

Definition ErrInvalidConfig : error := Sentinel "invalid memory cache configuration".
Definition ErrInvalidCollector : error := Sentinel "collector identity must be valid".
Definition ErrSeriesLimit : error := Sentinel "organization metadata series limit exceeded".

Record OrganizationPolicy := mkPolicy { AccountIDs : list string; SeriesLimit : Z }.

Record state := mkState {
  snapshot : Snapshot;
  parts : gmap CollectorID Snapshot;
  statuses : gmap CollectorID CollectorStatus
}.

Record Store := mkStore {
  freshnessTTL : Duration;
  staleAfter : Duration;
  organizationPolicies : gmap TargetID OrganizationPolicy;
  current : state
}.

Definition set_current (store : Store) (s : state) : Store :=
  mkStore (freshnessTTL store) (staleAfter store) (organizationPolicies store) s.

(** ** Construction *)

(** The type [Option]: a function that configures a store or fails. *)
Definition Option : Type := Store -> res Store.

Definition WithOrganizationPolicies (values : gmap TargetID OrganizationPolicy) : Option :=
  fun store =>
    fail_if existsb (fun '(target, policy) =>
              bool_decide (target = "") || (SeriesLimit policy <=? 0)%Z) (map_to_list values)
      with_ ErrInvalidConfig ;;
    Ok (mkStore (freshnessTTL store) (staleAfter store) values (current store)).

Fixpoint apply_options (options : list Option) (store : Store) : res Store :=
  match options with
  | [] => Ok store
  | option :: options =>
      match option store with
      | Err _ => Err ErrInvalidConfig
      | Ok store => apply_options options store
      end
  end.

Definition state_empty : state := mkState Snapshot_empty ∅ ∅.

Definition Store_New (ttl stale : Duration) (options : list Option) : res Store :=
  fail_if (ttl <=? 0)%Z || (stale <? ttl)%Z with_ ErrInvalidConfig ;;
  apply_options options (mkStore ttl stale ∅ state_empty).

(** ** mergeParts *)

Definition accountID (value : string) : bool :=
  bool_decide (String.length value = 12) && forallb is_digit (bytes value).

Definition observe (m : gmap TargetID (gset string)) (value : Cost) : gmap TargetID (gset string) :=
  if negb (bool_decide (Kind (CostDimension value) = DimensionAccount)) ||
     negb (accountID (Value (CostDimension value))) then m
  else <[ CostTarget value :=
            {[ Value (CostDimension value) ]} ∪ default ∅ (m !! CostTarget value) ]> m.

Definition allowed_accounts (policies : gmap TargetID OrganizationPolicy)
    (observed : gmap TargetID (gset string)) : gmap TargetID (gset string) :=
  map_imap (fun target policy =>
    Some (if bool_decide (AccountIDs policy = []) then default ∅ (observed !! target)
          else list_to_set (AccountIDs policy))) policies.

Definition account_selected (allowed : gmap TargetID (gset string)) (value : Account) : bool :=
  match allowed !! AccountTarget value with
  | None => false
  | Some set => bool_decide (AccountID value ∈ set)
  end.

(** [counts[value.Target]++; selected = append(selected, value)]. *)
Definition select_account (allowed : gmap TargetID (gset string))
    (acc : list Account * gmap TargetID Z) (value : Account) : list Account * gmap TargetID Z :=
  let '(selected, counts) := acc in
  if account_selected allowed value then
    (selected ++ [value],
     <[ AccountTarget value := (default 0 (counts !! AccountTarget value) + 1)%Z ]> counts)
  else acc.

Definition over_limit (policies : gmap TargetID OrganizationPolicy) (counts : gmap TargetID Z) :
    bool :=
  existsb (fun '(target, count) =>
    (default 0 (SeriesLimit <$> policies !! target) <? count)%Z) (map_to_list counts).

(** [values] lists the parts in the order the map was ranged over. *)
Definition mergeParts (policies : gmap TargetID OrganizationPolicy) (values : list Snapshot) :
    res Snapshot :=
  let merged := Merge values in
  _ ← ValidateUnique merged;
  if bool_decide (policies = ∅) then Ok merged else
  let observed := fold_left observe (costs merged) ∅ in
  let allowed := allowed_accounts policies observed in
  let '(selected, counts) := fold_left (select_account allowed) (accounts merged) ([], ∅) in
  fail_if over_limit policies counts with_ ErrSeriesLimit ;;
  let result := NewWithData (costs merged) (forecasts merged) (budgets merged) selected
                  (commitments merged) (anomalies merged) (tagCosts merged) in
  _ ← ValidateUnique result;
  Ok result.

Definition publishedSeries (target : TargetID) (partial merged : Snapshot) : Z :=
  let series := Z.of_nat (SeriesCount partial) in
  let rawAccounts := Z.of_nat (length (accounts partial)) in
  if (rawAccounts =? 0)%Z then series
  else
    let selectedAccounts := Z.of_nat (length
      (List.filter (fun value => bool_decide (AccountTarget value = target)) (accounts merged))) in
    (series - rawAccounts + selectedAccounts)%Z.

(** ** Operations *)

Definition set_series (status : CollectorStatus) (n : Z) : CollectorStatus :=
  mkStatus (LastAttempt status) (LastSuccess status) (Up status) (st_Freshness status) n.

(** The loop that refreshes [Series] of every collector with a part. *)
Definition refresh_series (parts : gmap CollectorID Snapshot) (merged : Snapshot)
    (statuses : gmap CollectorID CollectorStatus) : gmap CollectorID CollectorStatus :=
  map_imap (fun partID part =>
    Some (set_series (default CollectorStatus_zero (statuses !! partID))
            (publishedSeries (ID_Target partID) part merged))) parts ∪ statuses.

Definition Publish (range : gmap CollectorID Snapshot -> list Snapshot) (now : Time)
    (store : Store) (id : CollectorID) (partial : Snapshot) : res unit * Store :=
  if negb (CollectorID_Valid id) then (Err ErrInvalidCollector, store) else
  match ValidatePartial partial (ID_Target id) with
  | Err err => (Err err, store)
  | Ok _ =>
      let parts := <[ id := partial ]> (parts (current store)) in
      match mergeParts (organizationPolicies store) (range parts) with
      | Err err => (Err err, store)
      | Ok merged =>
          let statuses :=
            <[ id := mkStatus now now true FreshnessUnset 0 ]> (statuses (current store)) in
          (Ok tt, set_current store (mkState merged parts (refresh_series parts merged statuses)))
      end
  end.

Definition RecordFailure (now : Time) (store : Store) (id : CollectorID) : res unit * Store :=
  if negb (CollectorID_Valid id) then (Err ErrInvalidCollector, store) else
  let status := default CollectorStatus_zero (statuses (current store) !! id) in
  let status := mkStatus now (LastSuccess status) false (st_Freshness status) (Series status) in
  (Ok tt, set_current store (mkState (snapshot (current store)) (parts (current store))
            (<[ id := status ]> (statuses (current store))))).

Definition freshness (store : Store) (now success : Time) : Freshness :=
  if IsZero success then FreshnessMissing
  else
    let age := Sub now success in
    if (age <=? freshnessTTL store)%Z then FreshnessFresh
    else if (age <=? staleAfter store)%Z then FreshnessAging
    else FreshnessStale.

(** [Snapshot]. *)
Definition Store_Snapshot (store : Store) : Snapshot := snapshot (current store).

Definition Store_Load (now : Time) (store : Store) : SnapshotView :=
  mkView (snapshot (current store))
    ((fun status => mkStatus (LastAttempt status) (LastSuccess status) (Up status)
                      (freshness store now (LastSuccess status)) (Series status))
     <$> statuses (current store)).

(** ** Merging *)

Definition of_target (t : TargetID) (a : Account) : bool := bool_decide (AccountTarget a = t).

(** The counts agree with the accounts selected so far. *)
Definition counted (selected : list Account) (counts : gmap TargetID Z) : Prop :=
  forall t, default 0%Z (counts !! t) = Z.of_nat (length (List.filter (of_target t) selected)).

Lemma select_account_fold allowed l selected counts :
  counted selected counts ->
  exists counts',
    fold_left (select_account allowed) l (selected, counts) =
      (selected ++ List.filter (account_selected allowed) l, counts') /\
    counted (selected ++ List.filter (account_selected allowed) l) counts'.
Proof.
  revert selected counts. induction l as [|a l IH]; intros selected counts Hc; simpl.
  { rewrite app_nil_r. by exists counts. }
  destruct (account_selected allowed a) eqn:Ha; [|by apply IH].
  edestruct (IH (selected ++ [a])) as (counts' & Heq & Hc'); [|exists counts'].
  2: by rewrite <- (assoc_L (++)) in Heq, Hc'.
  intros t. rewrite List.filter_app, length_app. simpl. unfold of_target at 2.
  case_bool_decide as Ht; simpl.
  - subst t. rewrite lookup_insert_eq. simpl. rewrite Hc. unfold of_target. lia.
  - rewrite lookup_insert_ne by done. rewrite Hc. unfold of_target. lia.
Qed.

Lemma over_limit_false policies selected counts t p :
  counted selected counts -> over_limit policies counts = false -> policies !! t = Some p ->
  (0 < SeriesLimit p)%Z ->
  (Z.of_nat (length (List.filter (of_target t) selected)) <= SeriesLimit p)%Z.
Proof.
  intros Hc Hover Hp Hpos. rewrite <- Hc. destruct (counts !! t) as [c|] eqn:Ect; simpl; [|lia].
  unfold over_limit in Hover. rewrite <- not_true_iff_false, existsb_exists in Hover.
  destruct (decide (c <= SeriesLimit p)%Z) as [|Hgt]; [done|]. destruct Hover.
  exists (t, c). split; [by apply list_elem_of_In, elem_of_map_to_list|].
  rewrite Hp. simpl. lia.
Qed.

(** The accounts a policy lets through, given the merged snapshot. *)
Definition allowed_of (policies : gmap TargetID OrganizationPolicy) (merged : Snapshot) :=
  allowed_accounts policies (fold_left observe (costs merged) ∅).

Definition policy_accounts (policies : gmap TargetID OrganizationPolicy) (merged : Snapshot) :
    list Account :=
  if bool_decide (policies = ∅) then accounts merged
  else List.filter (account_selected (allowed_of policies merged)) (accounts merged).

(** Everything but the accounts comes from the merge of the parts unchanged. *)
Lemma mergeParts_ok policies values s :
  mergeParts policies values = Ok s ->
  ValidateUnique (Merge values) = Ok tt /\ ValidateUnique s = Ok tt /\
  s = NewWithData (costs (Merge values)) (forecasts (Merge values)) (budgets (Merge values))
        (policy_accounts policies (Merge values)) (commitments (Merge values))
        (anomalies (Merge values)) (tagCosts (Merge values)) /\
  forall t p, policies !! t = Some p -> (0 < SeriesLimit p)%Z ->
    (Z.of_nat (length (List.filter (of_target t) (policy_accounts policies (Merge values))))
       <= SeriesLimit p)%Z.
Proof.
  unfold mergeParts, policy_accounts. intros H. inv_ok. destruct x. split; [done|].
  case_bool_decide as Hpol.
  - inv_ok. split; [done|]. split; [apply NewWithData_sorted|]. subst. intros t p Ht.
    by rewrite lookup_empty in Ht.
  - destruct (select_account_fold (allowed_of policies (Merge values)) (accounts (Merge values)) [] ∅)
      as (counts & Hfold & Hc); [intros t; by rewrite lookup_empty|].
    fold (allowed_of policies (Merge values)) in *. rewrite Hfold in *. simpl in *.
    inv_ok. destruct x. split; [done|]. split; [done|].
    intros t p Hp Hpos. by apply (over_limit_false policies _ counts).
Qed.

Lemma mergeParts_nil policies : mergeParts policies [] = Ok Snapshot_empty.
Proof. unfold mergeParts. simpl. by case_bool_decide. Qed.

(** The result depends on the order of the values through their merge only. *)
Lemma mergeParts_Merge policies values values' :
  Merge values = Merge values' -> mergeParts policies values = mergeParts policies values'.
Proof. unfold mergeParts. by intros ->. Qed.

(** ** Steps and invariant *)

(** A range over the map visits every value once, in some order. *)
Definition range_ok (range : gmap CollectorID Snapshot -> list Snapshot) : Prop :=
  forall m, range m ≡ₚ (map_to_list m).*2.

Inductive store_step (store : Store) : Store -> Prop :=
| step_publish range now id partial r store' :
    range_ok range -> Publish range now store id partial = (r, store') -> store_step store store'
| step_failure now id r store' :
    RecordFailure now store id = (r, store') -> store_step store store'.

(** The stores the program can hold: built with organization policies, then updated. *)
Definition store_reachable (store : Store) : Prop :=
  exists ttl stale policies init,
    Store_New ttl stale (map WithOrganizationPolicies policies) = Ok init /\
    rtc store_step init store.

Record store_inv (store : Store) : Prop := {
  inv_parts : forall id p, parts (current store) !! id = Some p ->
    CollectorID_Valid id = true /\ ValidatePartial p (ID_Target id) = Ok tt;
  inv_snapshot : exists values, values ≡ₚ (map_to_list (parts (current store))).*2 /\
    mergeParts (organizationPolicies store) values = Ok (snapshot (current store));
  inv_policies : forall t p, organizationPolicies store !! t = Some p ->
    t <> "" /\ (0 < SeriesLimit p)%Z;
  inv_published : forall id p, parts (current store) !! id = Some p ->
    exists st, statuses (current store) !! id = Some st /\
      Series st = publishedSeries (ID_Target id) p (snapshot (current store));
  inv_unpublished : forall id st, statuses (current store) !! id = Some st ->
    parts (current store) !! id = None -> LastSuccess st = 0%Z /\ Up st = false /\ Series st = 0%Z;
  inv_ttl : (0 < freshnessTTL store <= staleAfter store)%Z
}.

Lemma apply_options_spec policies store store' :
  apply_options (map WithOrganizationPolicies policies) store = Ok store' ->
  (forall t p, organizationPolicies store !! t = Some p -> t <> "" /\ (0 < SeriesLimit p)%Z) ->
  freshnessTTL store' = freshnessTTL store /\ staleAfter store' = staleAfter store /\
  current store' = current store /\
  (forall t p, organizationPolicies store' !! t = Some p -> t <> "" /\ (0 < SeriesLimit p)%Z).
Proof.
  revert store. induction policies as [|values policies IH]; intros store H Hpol; simpl in H.
  { inv_ok. done. }
  destruct (WithOrganizationPolicies values store) as [s1|] eqn:E; [|done].
  unfold WithOrganizationPolicies in E. apply guard_ok in E as [Hex [= <-]].
  apply IH in H; [done|]. simpl. intros t p Hp.
  rewrite <- not_true_iff_false, existsb_exists in Hex. split.
  - intros ->. destruct Hex. exists ("", p).
    split; [by apply list_elem_of_In, elem_of_map_to_list|done].
  - destruct (decide (0 < SeriesLimit p)%Z) as [|Hn]; [done|]. destruct Hex. exists (t, p).
    split; [by apply list_elem_of_In, elem_of_map_to_list|]. apply orb_true_iff. right.
    apply Z.leb_le. lia.
Qed.

Lemma Store_New_empty ttl stale policies store :
  Store_New ttl stale (map WithOrganizationPolicies policies) = Ok store -> current store = state_empty.
Proof.
  unfold Store_New. intros [Hg H]%guard_ok. apply apply_options_spec in H as (_ & _ & Hcur & _); [done|].
  simpl. intros t p. by rewrite lookup_empty.
Qed.

Lemma Store_New_inv ttl stale policies store :
  Store_New ttl stale (map WithOrganizationPolicies policies) = Ok store -> store_inv store.
Proof.
  unfold Store_New. intros [Hg H]%guard_ok. inv_bool.
  apply apply_options_spec in H as (Httl & Hst & Hcur & Hpol).
  2: { simpl. intros t p. by rewrite lookup_empty. }
  simpl in *. split; rewrite ?Hcur, ?Httl, ?Hst; simpl.
  - intros id p. by rewrite lookup_empty.
  - exists []. split; [by rewrite map_to_list_empty|]. apply mergeParts_nil.
  - done.
  - intros id p. by rewrite lookup_empty.
  - intros id st. by rewrite lookup_empty.
  - lia.
Qed.

Lemma refresh_series_lookup parts merged sts id :
  refresh_series parts merged sts !! id =
  match parts !! id with
  | Some p => Some (set_series (default CollectorStatus_zero (sts !! id))
                     (publishedSeries (ID_Target id) p merged))
  | None => sts !! id
  end.
Proof.
  unfold refresh_series. destruct (parts !! id) as [p|] eqn:E.
  - apply lookup_union_Some_l. by rewrite map_lookup_imap, E.
  - rewrite lookup_union_r; [done|]. by rewrite map_lookup_imap, E.
Qed.

(** What a call to [Publish] leaves behind. *)
Lemma Publish_cases range now store id partial r store' :
  Publish range now store id partial = (r, store') ->
  (exists e, r = Err e /\ store' = store) \/
  (r = Ok tt /\ CollectorID_Valid id = true /\ ValidatePartial partial (ID_Target id) = Ok tt /\
   exists merged, let parts' := <[ id := partial ]> (parts (current store)) in
     mergeParts (organizationPolicies store) (range parts') = Ok merged /\
     store' = set_current store (mkState merged parts' (refresh_series parts' merged
       (<[ id := mkStatus now now true FreshnessUnset 0 ]> (statuses (current store)))))).
Proof.
  unfold Publish. destruct (CollectorID_Valid id); simpl; [|intros [= <- <-]; left; eauto].
  destruct (ValidatePartial _ _) as [[]|e]; [|intros [= <- <-]; left; eauto].
  destruct (mergeParts _ _) as [merged|e] eqn:E; [|intros [= <- <-]; left; eauto].
  intros [= <- <-]. right. eauto 10.
Qed.

Lemma Publish_inv range now store id partial r store' :
  range_ok range -> Publish range now store id partial = (r, store') ->
  store_inv store -> store_inv store'.
Proof.
  intros Hrange HP [Hparts Hsnap Hpol Hpub Hunp Httl].
  apply Publish_cases in HP as [(e & _ & ->)|(_ & Hid & Hval & merged & Hmerge & ->)]; [done|].
  split; simpl in *; try done.
  - intros id' p [[<- <-]|[_ Hp]]%lookup_insert_Some; eauto.
  - exists (range (<[id:=partial]> (parts (current store)))). by split.
  - intros id' p Hp. rewrite refresh_series_lookup, Hp. eauto.
  - intros id' st Hst Hp. rewrite refresh_series_lookup, Hp in Hst.
    apply lookup_insert_None in Hp as [Hp Hne]. rewrite lookup_insert_ne in Hst by done. eauto.
Qed.

Lemma RecordFailure_cases now store id r store' :
  RecordFailure now store id = (r, store') ->
  (r = Err ErrInvalidCollector /\ CollectorID_Valid id = false /\ store' = store) \/
  (r = Ok tt /\ CollectorID_Valid id = true /\
   let old := default CollectorStatus_zero (statuses (current store) !! id) in
   store' = set_current store (mkState (snapshot (current store)) (parts (current store))
     (<[ id := mkStatus now (LastSuccess old) false (st_Freshness old) (Series old) ]>
        (statuses (current store))))).
Proof.
  unfold RecordFailure. destruct (CollectorID_Valid id); simpl; intros [= <- <-]; [by right|by left].
Qed.

Lemma RecordFailure_inv now store id r store' :
  RecordFailure now store id = (r, store') -> store_inv store -> store_inv store'.
Proof.
  intros HR [Hparts Hsnap Hpol Hpub Hunp Httl].
  apply RecordFailure_cases in HR as [(_ & _ & ->)|(_ & Hid & ->)]; [done|].
  split; simpl in *; try done.
  - intros id' p Hp. destruct (Hpub id' p Hp) as (st & Hst & Hser).
    destruct (decide (id = id')) as [<-|Hne].
    + rewrite lookup_insert_eq. eexists. split; [done|]. simpl. by rewrite Hst.
    + rewrite lookup_insert_ne by done. eauto.
  - intros id' st [[<- <-]|[_ Hst]]%lookup_insert_Some Hp; [|eauto]. simpl.
    destruct (statuses (current store) !! id) as [old|] eqn:E; simpl; [|done].
    destruct (Hunp id old E Hp) as (? & ? & ?). done.
Qed.

Lemma store_step_inv store store' : store_step store store' -> store_inv store -> store_inv store'.
Proof. intros []; [by eapply Publish_inv|by eapply RecordFailure_inv]. Qed.

Lemma store_reachable_inv store : store_reachable store -> store_inv store.
Proof.
  intros (ttl & stale & policies & init & Hnew & Hsteps). apply Store_New_inv in Hnew.
  induction Hsteps; eauto using store_step_inv.
Qed.

(** ** Contents of the snapshot *)

Lemma observe_fold l m t v :
  v ∈ default ∅ (fold_left observe l m !! t) <->
  v ∈ default ∅ (m !! t) \/
  exists c, c ∈ l /\ CostTarget c = t /\ Kind (CostDimension c) = DimensionAccount /\
    Value (CostDimension c) = v /\ accountID v = true.
Proof.
  revert m. induction l as [|c l IH]; intros m; simpl; [set_solver|].
  rewrite IH. unfold observe at 1.
  destruct (bool_decide (Kind (CostDimension c) = DimensionAccount)) eqn:Hk; simpl;
    [apply bool_decide_eq_true in Hk|apply bool_decide_eq_false in Hk; set_solver].
  destruct (accountID (Value (CostDimension c))) eqn:Ha; simpl.
  2: { split; [set_solver|]. intros [?|(c' & [->|Hc]%elem_of_cons & ? & ? & <- & ?)]; [by left| |].
       - congruence.
       - right. exists c'. done. }
  destruct (decide (CostTarget c = t)) as [<-|Hne].
  - rewrite lookup_insert_eq. simpl. rewrite elem_of_union, elem_of_singleton. split.
    + intros [[->|?]|(c' & ? & ? & ? & ? & ?)]; [right; exists c; set_solver|by left|].
      right. exists c'. set_solver.
    + intros [?|(c' & [->|Hc]%elem_of_cons & ? & ? & <- & ?)]; [by left; right|by left; left|].
      right. exists c'. set_solver.
  - rewrite lookup_insert_ne by done. split.
    + intros [?|(c' & ? & ? & ? & ? & ?)]; [by left|]. right. exists c'. set_solver.
    + intros [?|(c' & [->|Hc]%elem_of_cons & ? & ? & <- & ?)]; [by left|done|].
      right. exists c'. done.
Qed.

(** The accounts a target may expose: its allowlist, or the account IDs of its cost records. *)
Definition account_allowed (policies : gmap TargetID OrganizationPolicy) (s : Snapshot)
    (a : Account) : Prop :=
  exists p, policies !! AccountTarget a = Some p /\
    (AccountIDs p <> [] /\ AccountID a ∈ AccountIDs p \/
     AccountIDs p = [] /\ accountID (AccountID a) = true /\
     exists c, c ∈ costs s /\ CostTarget c = AccountTarget a /\
       Kind (CostDimension c) = DimensionAccount /\ Value (CostDimension c) = AccountID a).

Lemma account_selected_allowed policies s a :
  account_selected (allowed_of policies s) a = true <-> account_allowed policies s a.
Proof.
  unfold account_selected, allowed_of, allowed_accounts, account_allowed.
  rewrite map_lookup_imap. destruct (policies !! AccountTarget a) as [p|]; simpl; [|naive_solver].
  rewrite bool_decide_eq_true. case_bool_decide as Hp.
  - rewrite observe_fold, lookup_empty. simpl. split.
    + intros [?|(c & ? & ? & ? & <- & ?)]; [set_solver|]. exists p. split; [done|]. right. eauto 10.
    + intros (p' & [= <-] & [[? _]|(_ & ? & c & ? & ? & ? & ?)]); [done|]. right. exists c. done.
  - rewrite elem_of_list_to_set. naive_solver.
Qed.

(** Only the costs of the snapshot matter. *)
Lemma account_allowed_costs policies s s' a :
  costs s ≡ₚ costs s' -> account_allowed policies s a <-> account_allowed policies s' a.
Proof.
  intros Hc. unfold account_allowed. split; intros (p & Hp & [?|(? & ? & c & Hin & ?)]); exists p; (split; [done|]);
    [by left|right|by left|right]; (split; [done|]); (split; [done|]); exists c; (split; [|done]); [by rewrite <- Hc|by rewrite Hc].
Qed.

(** Every record of the snapshot is a record of a published part of the same target. *)
Definition sourced {A} (family : Snapshot -> list A) (target : A -> TargetID) (store : Store) : Prop :=
  forall a, a ∈ family (snapshot (current store)) ->
    exists id p, parts (current store) !! id = Some p /\ a ∈ family p /\ target a = ID_Target id.

Lemma elem_of_parts (m : gmap CollectorID Snapshot) values p :
  values ≡ₚ (map_to_list m).*2 -> p ∈ values <-> exists id, m !! id = Some p.
Proof.
  intros Hv. rewrite Hv, list_elem_of_fmap. split.
  - intros ([id q] & -> & Hq). exists id. by apply elem_of_map_to_list.
  - intros [id Hid]. exists (id, p). by rewrite elem_of_map_to_list.
Qed.

Lemma sourced_intro {A} (family : Snapshot -> list A) (target : A -> TargetID) store values :
  store_inv store -> values ≡ₚ (map_to_list (parts (current store))).*2 ->
  (forall p t a, ValidatePartial p t = Ok tt -> a ∈ family p -> target a = t) ->
  (forall a, a ∈ family (snapshot (current store)) -> a ∈ flat_map family values) ->
  sourced family target store.
Proof.
  intros Hinv Hv Hown Hin a (p & Hp & Ha)%Hin%elem_of_flat_map.
  apply (elem_of_parts _ _ _ Hv) in Hp as [id Hid]. exists id, p.
  split; [done|]. split; [done|]. by eapply Hown; [apply (inv_parts store Hinv id p Hid)|].
Qed.

Lemma snapshot_families store values :
  mergeParts (organizationPolicies store) values = Ok (snapshot (current store)) ->
  costs (snapshot (current store)) ≡ₚ flat_map costs values /\
  forecasts (snapshot (current store)) ≡ₚ flat_map forecasts values /\
  budgets (snapshot (current store)) ≡ₚ flat_map budgets values /\
  accounts (snapshot (current store)) ≡ₚ
    policy_accounts (organizationPolicies store) (Merge values) /\
  commitments (snapshot (current store)) ≡ₚ flat_map commitments values /\
  anomalies (snapshot (current store)) ≡ₚ flat_map anomalies values /\
  tagCosts (snapshot (current store)) ≡ₚ flat_map tagCosts values.
Proof.
  intros (_ & _ & -> & _)%mergeParts_ok.
  destruct (Merge_perm values) as (Hc & Hf & Hb & _ & Hm & Ha & Ht).
  edestruct NewWithData_perm as (-> & -> & -> & -> & -> & -> & ->).
  done.
Qed.

Lemma policy_accounts_incl policies s a : a ∈ policy_accounts policies s -> a ∈ accounts s.
Proof.
  unfold policy_accounts. case_bool_decide; [done|]. by intros [? _]%elem_of_filter_b.
Qed.

(** An account of a part is in the snapshot exactly when the policies, if any, let it through. *)
Lemma part_accounts store values p a :
  mergeParts (organizationPolicies store) values = Ok (snapshot (current store)) ->
  p ∈ values -> a ∈ accounts p ->
  a ∈ accounts (snapshot (current store)) <->
    organizationPolicies store = ∅ \/
    account_allowed (organizationPolicies store) (snapshot (current store)) a.
Proof.
  intros Hm Hp Ha. destruct (snapshot_families store values Hm) as (Hc & _ & _ & Hacc & _).
  destruct (Merge_perm values) as (Hc' & _ & _ & Ha' & _).
  assert (Hin : a ∈ accounts (Merge values)) by (rewrite Ha'; apply elem_of_flat_map; by exists p).
  rewrite Hacc, (account_allowed_costs _ _ (Merge values)), <- account_selected_allowed by (by rewrite Hc, Hc').
  unfold policy_accounts. case_bool_decide as Hpol; [split; intros _; [left; exact Hpol|exact Hin]|].
  rewrite elem_of_filter_b. split; [intros [_ ?]; by right|]. by intros [?|?].
Qed.

(** ** Properties *)

Lemma reachable_sourced store :
  store_reachable store ->
  sourced costs CostTarget store /\ sourced forecasts ForecastTarget store /\
  sourced budgets BudgetTarget store /\ sourced accounts AccountTarget store /\
  sourced commitments CommitmentTarget store /\ sourced anomalies AnomalyTarget store /\
  sourced tagCosts TagTarget store.
Proof.
  intros Hinv%store_reachable_inv. destruct (inv_snapshot store Hinv) as (values & Hv & Hm).
  destruct (snapshot_families store values Hm) as (Hc & Hf & Hb & Ha & Hcm & Han & Ht).
  assert (Hacc : forall a, a ∈ accounts (snapshot (current store)) -> a ∈ flat_map accounts values).
  { intros a. rewrite Ha. intros Hin%policy_accounts_incl.
    destruct (Merge_perm values) as (_ & _ & _ & Hp & _). by rewrite <- Hp. }
  repeat split; eapply sourced_intro; try exact Hinv; try exact Hv;
    try (intros p t a (_ & ? & ? & ? & ? & ? & ? & ?)%ValidatePartial_ok Hin; by auto);
    try (intros a; by rewrite ?Hc, ?Hf, ?Hb, ?Hcm, ?Han, ?Ht); done.
Qed.

(** C1: in every state the program reaches, whatever the interleaving of publications
    and failures and whatever the order maps are ranged over, the snapshot readers get has no
    duplicate series key, and each of its records is a record of the part a collector of that
    same target published last. *)
Theorem store_snapshot_isolated store :
  store_reachable store ->
  ValidateUnique (snapshot (current store)) = Ok tt /\
  sourced costs CostTarget store /\ sourced forecasts ForecastTarget store /\
  sourced budgets BudgetTarget store /\ sourced accounts AccountTarget store /\
  sourced commitments CommitmentTarget store /\ sourced anomalies AnomalyTarget store /\
  sourced tagCosts TagTarget store.
Proof.
  intros Hr. split; [|by apply reachable_sourced]. apply store_reachable_inv in Hr.
  destruct (inv_snapshot store Hr) as (values & _ & Hm). by apply mergeParts_ok in Hm as (_ & ? & _).
Qed.

(** C35: once organization policies are installed, the snapshot exposes an account only
    when its target has a policy that allows it (the allowlist, or else an observed account cost
    of the target), and at most [SeriesLimit] accounts per target. *)
Theorem store_accounts_bounded store :
  store_reachable store -> organizationPolicies store <> ∅ ->
  (forall a, a ∈ accounts (snapshot (current store)) ->
     account_allowed (organizationPolicies store) (snapshot (current store)) a) /\
  forall t p, organizationPolicies store !! t = Some p ->
    (Z.of_nat (length (List.filter (of_target t) (accounts (snapshot (current store)))))
       <= SeriesLimit p)%Z.
Proof.
  intros Hinv%store_reachable_inv Hpol. destruct (inv_snapshot store Hinv) as (values & Hv & Hm).
  destruct (snapshot_families store values Hm) as (Hc & _ & _ & Ha & _).
  destruct (Merge_perm values) as (Hc' & _). split.
  - intros a. rewrite Ha. unfold policy_accounts. rewrite bool_decide_false by done.
    intros [_ (p & Hp & Hall)%account_selected_allowed]%elem_of_filter_b. exists p.
    split; [done|]. destruct Hall as [?|(? & ? & c & Hin & ?)]; [by left|].
    right. split; [done|]. split; [done|]. exists c. split; [|done]. by rewrite Hc, <- Hc'.
  - intros t p Hp. apply mergeParts_ok in Hm as (_ & _ & _ & Hb).
    rewrite (Permutation_length (Permutation_List_filter _ _ _ Ha)).
    apply Hb; [done|]. by apply (inv_policies store Hinv t p).
Qed.

(** C2: an operation of the store is all or nothing, and keeps what was published.  On an error
    (an invalid identity, a partial of another target, a duplicate key in the merge, too many
    accounts) [Publish] leaves the store unchanged; on success the partial is stored, the collector
    is up as of [now], and every other collector keeps its part, its attempt, its success and its
    [Up] flag.  [RecordFailure] marks one collector down at [now] and retains the snapshot, all
    parts, the collector's last success and series, and the status of every other collector. *)
Theorem operations_atomic now store id :
  (forall range partial r store', Publish range now store id partial = (r, store') ->
    (forall e, r = Err e -> store' = store) /\
    (r = Ok tt ->
      parts (current store') = <[ id := partial ]> (parts (current store)) /\
      (exists st, statuses (current store') !! id = Some st /\
        LastAttempt st = now /\ LastSuccess st = now /\ Up st = true /\
        Series st = publishedSeries (ID_Target id) partial (snapshot (current store'))) /\
      (forall id' p, id' <> id -> parts (current store) !! id' = Some p ->
        parts (current store') !! id' = Some p) /\
      forall id' st, id' <> id -> statuses (current store) !! id' = Some st ->
        exists st', statuses (current store') !! id' = Some st' /\
          LastAttempt st' = LastAttempt st /\ LastSuccess st' = LastSuccess st /\ Up st' = Up st)) /\
  (forall r store', RecordFailure now store id = (r, store') ->
    snapshot (current store') = snapshot (current store) /\
    parts (current store') = parts (current store) /\
    (forall id', id' <> id -> statuses (current store') !! id' = statuses (current store) !! id') /\
    (r = Ok tt ->
      let old := default CollectorStatus_zero (statuses (current store) !! id) in
      exists st, statuses (current store') !! id = Some st /\ LastAttempt st = now /\
        Up st = false /\ LastSuccess st = LastSuccess old /\ Series st = Series old) /\
    (CollectorID_Valid id = false -> r = Err ErrInvalidCollector /\ store' = store)).
Proof.
  split.
  - intros range partial r store' [(e & -> & ->)|(-> & _ & _ & merged & _ & ->)]%Publish_cases; [done|].
    split; [done|]. intros _. simpl. split; [done|]. split; [|split].
    + rewrite refresh_series_lookup, !lookup_insert_eq. eexists. split; [done|]. done.
    + intros id' p Hne Hp. by rewrite lookup_insert_ne.
    + intros id' st Hne Hst. rewrite refresh_series_lookup, !lookup_insert_ne, Hst by done.
      destruct (parts (current store) !! id') as [p|]; eexists; (split; [done|]; done).
  - intros r store' [(-> & Hid & ->)|(-> & Hid & ->)]%RecordFailure_cases; [done|]. simpl.
    split; [done|]. split; [done|]. split; [|split; [|congruence]].
    + intros id' Hne. by rewrite lookup_insert_ne.
    + intros _. rewrite lookup_insert_eq. eexists. split; [done|]. done.
Qed.

(** *** Freshness *)

Definition freshness_rank (f : Freshness) : nat :=
  match f with
  | FreshnessUnset | FreshnessMissing => 0
  | FreshnessFresh => 1
  | FreshnessAging => 2
  | FreshnessStale => 3
  end.

(** [freshness] answers missing exactly for a collector that never succeeded; for
    the others it is decided by the age of the last success against the two limits (at any age,
    the saturation of [Sub] included), and as time passes it only moves from fresh to aging to
    stale. *)
Theorem freshness_spec store now now' success :
  store_reachable store ->
  (freshness store now success = FreshnessMissing <-> IsZero success = true) /\
  (IsZero success = false -> (staleAfter store < int64_max)%Z ->
    (freshness store now success = FreshnessFresh <-> (now - success <= freshnessTTL store)%Z) /\
    (freshness store now success = FreshnessAging <->
      (freshnessTTL store < now - success <= staleAfter store)%Z) /\
    (freshness store now success = FreshnessStale <-> (staleAfter store < now - success)%Z)) /\
  ((now <= now')%Z ->
    freshness_rank (freshness store now success) <= freshness_rank (freshness store now' success)).
Proof.
  intros Hinv%store_reachable_inv. pose proof (inv_ttl store Hinv) as Httl.
  assert (Hmin : (int64_min < 0 < int64_max)%Z) by done.
  unfold freshness, Sub. split; [|split].
  - destruct (IsZero success); [done|]. split; [|done]. repeat case_match; done.
  - intros -> Hmax.
    destruct (Z.leb_spec (Z.max int64_min (Z.min int64_max (now - success))) (freshnessTTL store));
    [|destruct (Z.leb_spec (Z.max int64_min (Z.min int64_max (now - success))) (staleAfter store))];
    (split; [|split]); (split; [intros He; try discriminate He; lia|intros He; first [reflexivity|lia]]).
  - intros Hle. destruct (IsZero success); [done|].
    destruct (Z.leb_spec (Z.max int64_min (Z.min int64_max (now - success))) (freshnessTTL store)),
      (Z.leb_spec (Z.max int64_min (Z.min int64_max (now' - success))) (freshnessTTL store));
    try destruct (Z.leb_spec (Z.max int64_min (Z.min int64_max (now - success))) (staleAfter store));
    try destruct (Z.leb_spec (Z.max int64_min (Z.min int64_max (now' - success))) (staleAfter store));
    simpl; lia.
Qed.

(** the order Go ranges over the parts does not reach the readers: two publications of
    the same partial that see the parts in different orders give the same answer and leave the
    same store, when the budgets, accounts and commitments of a target come from one collector. *)
Theorem Publish_order_irrelevant range range' now store id partial :
  range_ok range -> range_ok range' ->
  let values := (map_to_list (<[ id := partial ]> (parts (current store)))).*2 in
  one_source budgets BudgetTarget values -> one_source accounts AccountTarget values ->
  one_source commitments CommitmentTarget values ->
  Publish range now store id partial = Publish range' now store id partial.
Proof.
  intros Hr Hr' values Hb Ha Hc.
  assert (Hmerge : forall range, range_ok range ->
    mergeParts (organizationPolicies store) (range (<[ id := partial ]> (parts (current store)))) =
    mergeParts (organizationPolicies store) values).
  { clear range range' Hr Hr'. intros range Hr. specialize (Hr (<[ id := partial ]> (parts (current store)))).
    fold values in Hr. symmetry. pose proof (ValidateUnique_parts _ _ Hr) as Hv.
    destruct (ValidateUnique (Merge values)) as [[]|e] eqn:E.
    - apply mergeParts_Merge, Merge_order_unique; done.
    - unfold mergeParts. by rewrite Hv, E. }
  unfold Publish. by rewrite (Hmerge range), (Hmerge range').
Qed.

(** *** The series per collector add up *)

Definition sum_Z (l : list Z) : Z := foldr Z.add 0%Z l.

Lemma sum_Z_app l k : sum_Z (l ++ k) = (sum_Z l + sum_Z k)%Z.
Proof. unfold sum_Z. induction l; simpl in *; lia. Qed.

Lemma sum_Z_nat {A} (f : A -> nat) l :
  sum_Z (map (fun a => Z.of_nat (f a)) l) = Z.of_nat (sum_list_with f l).
Proof. unfold sum_Z. induction l; simpl in *; lia. Qed.

(** Accounts counted per target, over distinct targets that cover them all. *)
Lemma count_by_target ts (l : list Account) :
  NoDup ts -> (forall a, a ∈ l -> AccountTarget a ∈ ts) ->
  sum_list_with (fun t => length (List.filter (of_target t) l)) ts = length l.
Proof.
  intros Hnd. induction l as [|a l IH]; intros Hin.
  - clear. induction ts; simpl in *; [done|]. exact IHts.
  - simpl. rewrite <- IH by set_solver. assert (Ha : AccountTarget a ∈ ts) by set_solver.
    clear IH Hin. induction Hnd as [|t ts Ht Hnd IHt]; [set_solver|]. simpl.
    assert (Hno : forall ts, AccountTarget a ∉ ts ->
      sum_list_with (fun t => length (if of_target t a then a :: List.filter (of_target t) l
                                      else List.filter (of_target t) l)) ts =
      sum_list_with (fun t => length (List.filter (of_target t) l)) ts).
    { clear. induction ts as [|t ts IH]; intros Ha; [done|]. simpl. rewrite IH by set_solver.
      unfold of_target at 1. rewrite bool_decide_false; [done|]. set_solver. }
    unfold of_target at 1. case_bool_decide as He; simpl.
    + rewrite Hno by (by rewrite He). lia.
    + rewrite IHt by set_solver. lia.
Qed.

(** The targets whose part holds accounts. *)
Definition account_targets (l : list (CollectorID * Snapshot)) : list TargetID :=
  map (fun ip => ID_Target ip.1) (List.filter (fun ip => negb (bool_decide (accounts ip.2 = []))) l).

Lemma account_targets_elem l t :
  t ∈ account_targets l <-> exists id p, (id, p) ∈ l /\ ID_Target id = t /\ accounts p <> [].
Proof.
  unfold account_targets. rewrite elem_of_map. setoid_rewrite elem_of_filter_b. split.
  - intros ([id p] & [Hin Hne] & <-). simpl in *. inv_bool. eauto.
  - intros (id & p & Hin & <- & Hne). exists (id, p). split; [|done]. split; [done|].
    simpl. by rewrite bool_decide_false.
Qed.

Lemma account_targets_NoDup l :
  (forall id p, (id, p) ∈ l -> forall a, a ∈ accounts p -> AccountTarget a = ID_Target id) ->
  one_source accounts AccountTarget l.*2 -> NoDup (account_targets l).
Proof.
  induction l as [|[id p] l IH]; intros Hown Hone; [constructor|].
  inversion Hone as [|? ? Hp Hone']; subst. unfold account_targets. simpl.
  assert (NoDup (account_targets l)) as Hl by (apply IH; [set_solver|done]).
  case_bool_decide as Hacc; simpl; [done|]. apply NoDup_cons. split; [|done].
  intros (id' & p' & Hin & Ht & Hne)%account_targets_elem.
  destruct (accounts p) as [|a acc] eqn:Ep; [done|].
  destruct (accounts p') as [|a' acc'] eqn:Ep'; [done|].
  rewrite Forall_forall in Hp. apply (Hp p') with (a := a) (b := a').
  - apply list_elem_of_fmap. by exists (id', p').
  - by left.
  - rewrite Ep'. by left.
  - rewrite (Hown id p ltac:(by left) a), (Hown id' p' ltac:(by right) a');
      [done|rewrite Ep'; by left|rewrite Ep; by left].
Qed.

(** The published series of a list of parts against the accounts finally selected. *)
Lemma publishedSeries_sum l merged :
  (sum_Z (map (fun ip => publishedSeries (ID_Target ip.1) ip.2 merged) l) =
   Z.of_nat (sum_list_with SeriesCount l.*2)
   - Z.of_nat (sum_list_with (fun p => length (accounts p)) l.*2)
   + Z.of_nat (sum_list_with (fun t => length (List.filter (of_target t) (accounts merged)))
       (account_targets l)))%Z.
Proof.
  induction l as [|[id p] l IH]; [done|]. unfold account_targets in *. cbn -[Z.add Z.sub].
  unfold sum_Z in *. rewrite IH. clear IH. unfold publishedSeries.
  case_bool_decide as E; cbn [negb map sum_list_with foldr].
  - rewrite E. cbn [length]. rewrite (proj2 (Z.eqb_eq _ _)) by done. lia.
  - destruct (accounts p) as [|a acc]; [done|]. rewrite (proj2 (Z.eqb_neq _ _)) by (simpl; lia).
    unfold of_target. cbn [sum_list_with fst]. lia.
Qed.

Lemma SeriesCount_accounts s s' :
  costs s ≡ₚ costs s' -> forecasts s ≡ₚ forecasts s' -> budgets s ≡ₚ budgets s' ->
  commitments s ≡ₚ commitments s' -> anomalies s ≡ₚ anomalies s' -> tagCosts s ≡ₚ tagCosts s' ->
  SeriesCount s + length (accounts s') = SeriesCount s' + length (accounts s).
Proof.
  intros Hc Hf Hb Hm Ha Ht. unfold SeriesCount. rewrite Hc, Hf, Ht.
  rewrite (sum_list_with_perm _ _ _ Hb), (sum_list_with_perm _ _ _ Hm), (sum_list_with_perm _ _ _ Ha).
  lia.
Qed.

Definition status_series (store : Store) (id : CollectorID) : Z :=
  Series (default CollectorStatus_zero (statuses (current store) !! id)).

(** in every reachable state the series reported for the collectors add up to the
    series of the snapshot, organization policies applied, when the accounts of a target come
    from one collector; a collector without a part reports none. *)
Theorem store_series_total store :
  store_reachable store ->
  one_source accounts AccountTarget (map_to_list (parts (current store))).*2 ->
  sum_Z (map (fun ip => status_series store ip.1) (map_to_list (parts (current store)))) =
    Z.of_nat (SeriesCount (snapshot (current store))) /\
  forall id, parts (current store) !! id = None -> status_series store id = 0%Z.
Proof.
  intros Hreach Hone. pose proof (reachable_sourced store Hreach) as (_ & _ & _ & Hsrc & _).
  apply store_reachable_inv in Hreach as Hinv. split.
  2: { intros id Hid. unfold status_series. destruct (statuses (current store) !! id) as [st|] eqn:E;
         [by apply (inv_unpublished store Hinv id st E)|done]. }
  destruct (inv_snapshot store Hinv) as (values & Hv & Hm).
  destruct (snapshot_families store values Hm) as (Hc & Hf & Hb & Ha & Hcm & Han & Ht).
  pose proof (Merge_perm values) as (Mc & Mf & Mb & Ma & Mcm & Man & Mt).
  set (l := map_to_list (parts (current store))) in *.
  assert (Hl : forall id p, (id, p) ∈ l <-> parts (current store) !! id = Some p)
    by (intros; apply elem_of_map_to_list).
  rewrite (map_ext_in _ (fun ip => publishedSeries (ID_Target ip.1) ip.2 (snapshot (current store)))).
  2: { intros [id p] Hin%list_elem_of_In%Hl. unfold status_series. simpl.
       by destruct (inv_published store Hinv id p Hin) as (st & -> & ?). }
  rewrite publishedSeries_sum, count_by_target.
  - assert (Hs : SeriesCount (snapshot (current store)) + length (accounts (Merge values)) =
      SeriesCount (Merge values) + length (accounts (snapshot (current store))))
      by (apply SeriesCount_accounts; by etrans; [|symmetry]).
    rewrite SeriesCount_Merge_sum, Ma, length_flat_map_sum in Hs.
    rewrite <- (sum_list_with_perm SeriesCount _ _ Hv), <- (sum_list_with_perm _ _ _ Hv). lia.
  - apply account_targets_NoDup; [|done]. intros id p Hp%Hl a Hin.
    apply (inv_parts store Hinv) in Hp as [_ (_ & _ & _ & _ & H & _)%ValidatePartial_ok]. auto.
  - intros a (id & p & Hp & Hin & ->)%Hsrc. apply account_targets_elem. exists id, p.
    split; [by apply Hl|]. split; [done|]. destruct (accounts p); [set_solver|done].
Qed.

Lemma store_publishable store :
  store_reachable store ->
  (forall id p, parts (current store) !! id = Some p -> publishable p) -> publishable (snapshot (current store)).
Proof.
  intros Hreach Hpub. destruct (reachable_sourced store Hreach) as (Hc & Hf & _ & _ & _ & _ & Ht). split.
  - intros c (id & p & Hp & Hin & _)%Hc. by apply (pub_costs p (Hpub id p Hp)).
  - intros f (id & p & Hp & Hin & _)%Hf. by apply (pub_forecasts p (Hpub id p Hp)).
  - intros t (id & p & Hp & Hin & _)%Ht. by apply (pub_tags p (Hpub id p Hp)).
Qed.

(** when every published part is publishable (what the collectors guarantee), a scrape
    of any reachable store sees no two metrics with the same description and label values. *)
Theorem store_scrape_unique store :
  store_reachable store ->
  (forall id p, parts (current store) !! id = Some p -> publishable p) ->
  NoDup (map series_of (snapshot_metrics NewCostCollector (snapshot (current store)))).
Proof.
  intros Hreach Hpub. pose proof (store_publishable store Hreach Hpub) as Hp.
  apply store_reachable_inv in Hreach as Hinv. destruct (inv_snapshot store Hinv) as (values & _ & Hm).
  apply mergeParts_ok in Hm as (_ & [_ Hnd]%ValidateUnique_ok & _). by apply Collect_distinct.
Qed.

(** ** A concrete run *)

Definition range_default (m : gmap CollectorID Snapshot) : list Snapshot := (map_to_list m).*2.

Definition sample_policies : gmap TargetID OrganizationPolicy :=
  {[ "prod" := mkPolicy [] 5 ]}.

Definition sample_store0 : Store :=
  mkStore (5 * Minute)%Z (10 * Minute)%Z sample_policies state_empty.

Definition sample_dev : Snapshot :=
  NewWithData [sample_cost "dev" DimensionTotal ""] [] [] [] [] [] [].
Definition sample_account : Snapshot :=
  NewWithData [] [] [] [mkAccount "prod" "111122223333" "main" "ACTIVE";
                        mkAccount "prod" "999988887777" "other" "ACTIVE"] [] [] [].

Definition id_total : CollectorID := mkCollectorID "prod" "total".
Definition id_dev : CollectorID := mkCollectorID "dev" "total".
Definition id_org : CollectorID := mkCollectorID "prod" "organization_metadata".

Definition sample_now : Time := Date 2026 7 20.

Definition sample_store : Store :=
  let publish store id p := snd (Publish range_default sample_now store id p) in
  snd (RecordFailure sample_now
    (publish (publish (publish sample_store0 id_total sample_part1) id_dev sample_dev)
       id_org sample_account) id_dev).

Lemma publish_reaches store id p :
  store_reachable store ->
  store_reachable (snd (Publish range_default sample_now store id p)).
Proof.
  intros (ttl & stale & pol & init & Hnew & Hrun). exists ttl, stale, pol, init. split; [done|].
  eapply rtc_r; [exact Hrun|]. eapply (step_publish _ range_default sample_now id p).
  - by intros m.
  - apply surjective_pairing.
Qed.

Lemma sample_store_reachable : store_reachable sample_store.
Proof.
  assert (Hr : store_reachable (snd (Publish range_default sample_now
    (snd (Publish range_default sample_now
       (snd (Publish range_default sample_now sample_store0 id_total sample_part1))
       id_dev sample_dev)) id_org sample_account))).
  { do 3 apply publish_reaches. exists (5 * Minute)%Z, (10 * Minute)%Z, [sample_policies], sample_store0.
    split; [vm_compute; reflexivity|apply rtc_refl]. }
  destruct Hr as (ttl & stale & pol & init & Hnew & Hrun). exists ttl, stale, pol, init.
  split; [done|]. eapply rtc_r; [exact Hrun|].
  eapply (step_failure _ sample_now id_dev). apply surjective_pairing.
Qed.

(** The parts of the run, one per collector. *)
Lemma sample_store_parts :
  parts (current sample_store) =
  {[ id_total := sample_part1; id_dev := sample_dev; id_org := sample_account ]}.
Proof. apply (bool_decide_unpack _). vm_compute. exact I. Qed.

Lemma sample_store_publishable id p :
  parts (current sample_store) !! id = Some p -> publishable p.
Proof.
  rewrite sample_store_parts, !lookup_insert_Some, lookup_singleton_Some.
  intros H. assert (p = sample_part1 \/ p = sample_dev \/ p = sample_account) as [->|[->| ->]]
    by naive_solver; apply publishable_decide; vm_compute; reflexivity.
Qed.

Lemma store_snapshot_isolated_witness :
  ValidateUnique (snapshot (current sample_store)) = Ok tt /\
  length (accounts (snapshot (current sample_store))) = 1.
Proof.
  split; [exact (proj1 (store_snapshot_isolated _ sample_store_reachable))|].
  vm_compute; reflexivity.
Defined.

Lemma store_accounts_bounded_witness :
  organizationPolicies sample_store <> ∅ /\
  forall a, a ∈ accounts (snapshot (current sample_store)) ->
    account_allowed sample_policies (snapshot (current sample_store)) a.
Proof.
  assert (Hne : organizationPolicies sample_store <> ∅) by (vm_compute; discriminate).
  split; [exact Hne|].
  exact (proj1 (store_accounts_bounded _ sample_store_reachable Hne)).
Defined.

Lemma store_scrape_unique_witness :
  NoDup (map series_of (snapshot_metrics NewCostCollector (snapshot (current sample_store)))).
Proof. exact (store_scrape_unique _ sample_store_reachable sample_store_publishable). Defined.

Lemma operations_atomic_witness :
  fst (Publish range_default sample_now sample_store id_dev sample_part1) =
    Err (Wrapped "target, provider, or cost basis mismatch" ErrInvalidSnapshot) /\
  snd (Publish range_default sample_now sample_store id_dev sample_part1) = sample_store.
Proof.
  destruct (Publish range_default sample_now sample_store id_dev sample_part1) as [r s] eqn:E.
  assert (Hr : r = Err (Wrapped "target, provider, or cost basis mismatch" ErrInvalidSnapshot))
    by (apply (f_equal fst) in E; vm_compute in E; exact (eq_sym E)).
  split; [exact Hr|]. exact (proj1 (proj1 (operations_atomic _ _ _) _ _ _ _ E) _ Hr).
Defined.

Lemma freshness_spec_witness :
  freshness_rank (freshness sample_store sample_now sample_now) <=
  freshness_rank (freshness sample_store (sample_now + 7 * Minute)%Z sample_now) /\
  freshness sample_store (sample_now + 7 * Minute)%Z sample_now = FreshnessAging.
Proof.
  split; [|vm_compute; reflexivity].
  apply (freshness_spec sample_store sample_now (sample_now + 7 * Minute)%Z sample_now
    sample_store_reachable). vm_compute; discriminate.
Defined.

Lemma at_most_one_source {A} (family : Snapshot -> list A) (target : A -> TargetID) l :
  length (List.filter (fun p => negb (bool_decide (length (family p) = 0))) l) <= 1 ->
  one_source family target l.
Proof.
  unfold one_source. induction l as [|p l IH]; simpl; intros Hl; constructor.
  - apply Forall_forall. intros q Hq a b Ha Hb.
    destruct (family p) as [|a' l'] eqn:E; [set_solver|]. simpl in Hl.
    assert (Hin : q ∈ List.filter (fun p => negb (bool_decide (length (family p) = 0))) l).
    { apply elem_of_filter_b. split; [done|]. destruct (family q); [set_solver|done]. }
    destruct (List.filter _ l); [set_solver|simpl in Hl; lia].
  - apply IH. case_bool_decide; simpl in Hl; lia.
Qed.

Definition sample_values : list Snapshot := (map_to_list (parts (current sample_store))).*2.

Lemma store_series_total_witness :
  sum_Z (map (fun ip => status_series sample_store ip.1)
    (map_to_list (parts (current sample_store)))) = 10%Z.
Proof.
  assert (Hone : one_source accounts AccountTarget sample_values)
    by (apply at_most_one_source; apply Nat.leb_le; vm_compute; reflexivity).
  rewrite (proj1 (store_series_total _ sample_store_reachable Hone)). vm_compute; reflexivity.
Defined.

Definition range_rev (m : gmap CollectorID Snapshot) : list Snapshot := rev (range_default m).

Lemma Publish_order_irrelevant_witness :
  Publish range_default sample_now sample_store id_dev sample_dev =
  Publish range_rev sample_now sample_store id_dev sample_dev.
Proof.
  apply Publish_order_irrelevant.
  - intros m. reflexivity.
  - intros m. symmetry. apply Permutation_rev.
  - apply at_most_one_source; apply Nat.leb_le; vm_compute; reflexivity.
  - apply at_most_one_source; apply Nat.leb_le; vm_compute; reflexivity.
  - apply at_most_one_source; apply Nat.leb_le; vm_compute; reflexivity.
Defined.
