(* ===== verification/Isolation.v ===== *)
(** * Targets do not interfere (internal/cache/memory/store.go)

    The store merges the parts of all targets into one snapshot and recounts the series of all
    collectors at each publication.  What it exposes of a target, what it says of the collectors
    of a target and what it answers to a publication of theirs depends on those collectors only. *)

From S2P Require Import Prelude SliceStable GoStrings GoFloat GoTime Errors Domain Snapshot Ports Store.
Local Open Scope string_scope.
Local Open Scope list_scope.

(** ** Parts of some collectors *)

Definition at_target (t : TargetID) (id : CollectorID) : bool := bool_decide (ID_Target id = t).

Definition agree (f : CollectorID -> bool) (m m' : gmap CollectorID Snapshot) : Prop :=
  forall id, f id = true -> m !! id = m' !! id.

Definition parts_of (f : CollectorID -> bool) (m : gmap CollectorID Snapshot) : list Snapshot :=
  (List.filter (fun kv => f kv.1) (map_to_list m)).*2.

Definition valid_parts (m : gmap CollectorID Snapshot) : Prop :=
  forall id p, m !! id = Some p -> ValidatePartial p (ID_Target id) = Ok tt.

Lemma elem_of_parts_of f m p : p ∈ parts_of f m <-> exists id, m !! id = Some p /\ f id = true.
Proof.
  unfold parts_of. rewrite list_elem_of_fmap. split.
  - intros ([id q] & -> & [Hin Hf]%elem_of_filter_b). exists id. by apply elem_of_map_to_list in Hin.
  - intros (id & Hm & Hf). exists (id, p). split; [done|]. by apply elem_of_filter_b; rewrite elem_of_map_to_list.
Qed.

Lemma parts_of_agree f m m' : agree f m m' -> parts_of f m ≡ₚ parts_of f m'.
Proof.
  intros Hagree. apply Permutation_map, NoDup_Permutation; [apply NoDup_filter_b, NoDup_map_to_list..|].
  intros [id p]. rewrite !elem_of_filter_b, !elem_of_map_to_list. cbn.
  split; intros [Hm Hf]; (split; [|done]); [rewrite <- Hagree|rewrite Hagree]; done.
Qed.

Lemma parts_of_split f m : (map_to_list m).*2 ≡ₚ parts_of f m ++ parts_of (fun id => negb (f id)) m.
Proof. unfold parts_of. rewrite <- fmap_app. apply Permutation_map, filter_split. Qed.

Lemma agree_insert f m m' id p : agree f m m' -> agree f (<[ id := p ]> m) (<[ id := p ]> m').
Proof. intros Hagree id' Hf. destruct (decide (id = id')) as [<-|]; [by rewrite !lookup_insert_eq|].
  rewrite !lookup_insert_ne by done. by apply Hagree. Qed.

Lemma agree_insert_other f m id p : f id = false -> agree f m (<[ id := p ]> m).
Proof. intros Hf id' Hf'. rewrite lookup_insert_ne by congruence. done. Qed.

Lemma valid_parts_insert m id p :
  valid_parts m -> ValidatePartial p (ID_Target id) = Ok tt -> valid_parts (<[ id := p ]> m).
Proof. intros Hm Hp id' q [[<- <-]|[_ Hq]]%lookup_insert_Some; [done|by apply Hm]. Qed.

(** ** Records of a target *)

Section Family.
Context {A : Type} (family : Snapshot -> list A) (target : A -> TargetID) (t : TargetID).

Definition records_of (l : list A) : list A := List.filter (fun a => bool_decide (target a = t)) l.

Lemma records_of_app l k : records_of (l ++ k) = records_of l ++ records_of k.
Proof. apply List.filter_app. Qed.

#[export] Instance records_of_perm : Proper ((≡ₚ) ==> (≡ₚ)) records_of.
Proof. intros l k Hp. by apply Permutation_List_filter. Qed.

Lemma elem_of_records a l : a ∈ records_of l <-> a ∈ l /\ target a = t.
Proof. unfold records_of. by rewrite elem_of_filter_b, bool_decide_eq_true. Qed.

Lemma records_of_none l : (forall a, a ∈ l -> target a <> t) -> records_of l = [].
Proof. intros Hl. apply filter_none. intros a Ha. by apply bool_decide_eq_false, Hl. Qed.

(** A family a valid partial owns. *)
Definition owned : Prop := forall p u a, ValidatePartial p u = Ok tt -> a ∈ family p -> target a = u.

(** What the parts of a target hold of a family is what their merge holds of the target. *)
Lemma target_records (m : gmap CollectorID Snapshot) values :
  owned -> valid_parts m -> values ≡ₚ (map_to_list m).*2 ->
  records_of (flat_map family values) ≡ₚ flat_map family (parts_of (at_target t) m).
Proof.
  intros Hown Hm ->. rewrite (flat_map_perm family _ _ (parts_of_split (at_target t) m)), flat_map_app, records_of_app.
  assert (Htarget : forall f a, a ∈ flat_map family (parts_of f m) -> exists id, f id = true /\ target a = ID_Target id).
  { intros f a (p & (id & Hid & Hf)%elem_of_parts_of & Ha)%elem_of_flat_map.
    exists id. split; [done|]. by apply (Hown p _ a (Hm id p Hid)). }
  rewrite (records_of_none (flat_map family (parts_of (fun id => negb (at_target t id)) m))), app_nil_r.
  - apply reflexive_eq, filter_all_true. intros a (id & Hf & ->)%Htarget. exact Hf.
  - intros a (id & Hf & ->)%Htarget. unfold at_target in Hf. by inv_bool.
Qed.

Lemma agree_records (m m' : gmap CollectorID Snapshot) values values' :
  owned -> valid_parts m -> valid_parts m' -> agree (at_target t) m m' ->
  values ≡ₚ (map_to_list m).*2 -> values' ≡ₚ (map_to_list m').*2 ->
  records_of (flat_map family values') ≡ₚ records_of (flat_map family values).
Proof.
  intros Hown Hm Hm' Hagree Hv Hv'. rewrite (target_records m values), (target_records m' values') by done.
  apply flat_map_perm. symmetry. by apply parts_of_agree.
Qed.
End Family.

(** The records of a target are the same, in each family. *)
Definition same_family {A} (family : Snapshot -> list A) (target : A -> TargetID) (t : TargetID) (s s' : Snapshot) : Prop :=
  records_of target t (family s') ≡ₚ records_of target t (family s).

Record same_records (t : TargetID) (s s' : Snapshot) : Prop := mkSame {
  same_costs : same_family costs CostTarget t s s';
  same_forecasts : same_family forecasts ForecastTarget t s s';
  same_budgets : same_family budgets BudgetTarget t s s';
  same_accounts : same_family accounts AccountTarget t s s';
  same_commitments : same_family commitments CommitmentTarget t s s';
  same_anomalies : same_family anomalies AnomalyTarget t s s';
  same_tagCosts : same_family tagCosts TagTarget t s s'
}.

#[export] Instance same_records_preorder t : PreOrder (same_records t).
Proof.
  split; [intros a; split; unfold same_family; reflexivity|]. intros a b c [] []. split; unfold same_family in *; by etrans.
Qed.

(** ** The account policies *)

(** What a target may expose depends on its costs only. *)
Lemma account_allowed_local policies t s s' a :
  same_family costs CostTarget t s s' -> AccountTarget a = t ->
  account_allowed policies s a -> account_allowed policies s' a.
Proof.
  intros Hc Ht (p & Hp & [Hlist|(Hnil & Hid & c & Hin & Hct & Hk & Hv)]); exists p; (split; [done|]); [by left|right].
  split; [done|]. split; [done|]. exists c. split; [|done].
  assert (Hr : c ∈ records_of CostTarget t (costs s)) by (apply elem_of_records; split; [done|congruence]).
  unfold same_family in Hc. rewrite <- Hc in Hr. by apply elem_of_records in Hr as [? _].
Qed.

Lemma policy_accounts_local policies t s s' :
  same_family costs CostTarget t s s' -> same_family accounts AccountTarget t s s' ->
  records_of AccountTarget t (policy_accounts policies s') ≡ₚ records_of AccountTarget t (policy_accounts policies s).
Proof.
  intros Hc Ha. unfold policy_accounts. case_bool_decide; [exact Ha|]. unfold records_of at 1 2.
  rewrite !(filter_filter _ (account_selected _)). fold (records_of AccountTarget t (accounts s)).
  fold (records_of AccountTarget t (accounts s')).
  rewrite (filter_ext_elem (account_selected (allowed_of policies s')) (account_selected (allowed_of policies s))).
  - by apply Permutation_List_filter.
  - intros a [_ Ht]%elem_of_records. apply eq_true_iff_eq. rewrite !account_selected_allowed.
    split; [apply (account_allowed_local _ t s' s)|apply (account_allowed_local _ t s s')]; try done.
    unfold same_family in *. by symmetry.
Qed.

(** Every family of a valid partial is owned. *)
Ltac solve_owned := intros ? ? ? (_ & ? & ? & ? & ? & ? & ? & ?)%ValidatePartial_ok; by auto.

(** What the account policies look at, in the merge of the parts. *)
Lemma agree_merged t m m' values values' :
  valid_parts m -> valid_parts m' -> agree (at_target t) m m' ->
  values ≡ₚ (map_to_list m).*2 -> values' ≡ₚ (map_to_list m').*2 ->
  same_family costs CostTarget t (Merge values) (Merge values') /\
  same_family accounts AccountTarget t (Merge values) (Merge values').
Proof.
  intros Hm Hm' Hagree Hv Hv'. destruct (Merge_perm values) as (Hc & _ & _ & Ha & _).
  destruct (Merge_perm values') as (Hc' & _ & _ & Ha' & _). unfold same_family. rewrite Hc, Hc', Ha, Ha'.
  split; apply (agree_records _ _ t m m'); try done; solve_owned.
Qed.

(** ** Steps of the other targets *)

Lemma Publish_same t range now store id partial store' :
  store_inv store -> range_ok range -> ID_Target id <> t ->
  Publish range now store id partial = (Ok tt, store') ->
  same_records t (snapshot (current store)) (snapshot (current store')).
Proof.
  intros Hinv Hrange Hne HP. destruct (inv_snapshot store Hinv) as (values & Hv & Hm).
  pose proof (snapshot_families store values Hm) as (Hc & Hf & Hb & Ha & Hcm & Han & Htg).
  apply Publish_cases in HP as [(e & [=] & _)|(_ & _ & Hval & merged & Hmerge & ->)].
  set (m := parts (current store)) in *. set (values' := range (<[ id := partial ]> m)) in *.
  pose proof (snapshot_families (set_current store (mkState merged (<[ id := partial ]> m)
    (refresh_series (<[ id := partial ]> m) merged
       (<[ id := mkStatus now now true FreshnessUnset 0 ]> (statuses (current store)))))) values' Hmerge)
    as (Hc' & Hf' & Hb' & Ha' & Hcm' & Han' & Htg').
  cbn [current set_current snapshot organizationPolicies] in *.
  assert (Hold : valid_parts m) by (intros id' p Hp; apply (inv_parts store Hinv id' p Hp)).
  pose proof (Hrange (<[ id := partial ]> m)) as Hv'. fold values' in Hv'.
  assert (Hsame : forall A (family : Snapshot -> list A) target l l', owned family target ->
    l ≡ₚ flat_map family values -> l' ≡ₚ flat_map family values' -> records_of target t l' ≡ₚ records_of target t l).
  { intros A family target l l' Hown -> ->. apply (agree_records _ _ _ m (<[ id := partial ]> m)); try done.
    - by apply valid_parts_insert.
    - apply agree_insert_other. by apply bool_decide_eq_false. }
  split; [apply (Hsame _ costs)|apply (Hsame _ forecasts)|apply (Hsame _ budgets)| |apply (Hsame _ commitments)
    |apply (Hsame _ anomalies)|apply (Hsame _ tagCosts)]; try done; try solve_owned.
  unfold same_family. rewrite Ha, Ha'. destruct (agree_merged t m (<[ id := partial ]> m) values values') as [??];
    [done|by apply valid_parts_insert|apply agree_insert_other; by apply bool_decide_eq_false|done..|].
  by apply policy_accounts_local.
Qed.

Lemma publishedSeries_local t p s s' :
  same_family accounts AccountTarget t s s' -> publishedSeries t p s' = publishedSeries t p s.
Proof.
  intros Ha%Permutation_length. unfold publishedSeries. case_match; [done|]. unfold records_of in Ha. by rewrite Ha.
Qed.

(** What the store says of a collector. *)
Definition collector_view (id : CollectorID) (store : Store) : option Snapshot * option CollectorStatus :=
  (parts (current store) !! id, statuses (current store) !! id).

Lemma Publish_view id' range now store id partial store' :
  store_inv store -> range_ok range -> ID_Target id <> ID_Target id' ->
  Publish range now store id partial = (Ok tt, store') -> collector_view id' store' = collector_view id' store.
Proof.
  intros Hinv Hrange Hne HP. pose proof (Publish_same _ _ _ _ _ _ _ Hinv Hrange Hne HP) as Hsame.
  apply Publish_cases in HP as [(e & [=] & _)|(_ & _ & _ & merged & _ & ->)]. unfold collector_view.
  cbn [current set_current parts statuses snapshot] in *. rewrite refresh_series_lookup, !lookup_insert_ne by congruence.
  destruct (parts (current store) !! id') as [p|] eqn:Hp; [|done]. f_equal.
  destruct (inv_published store Hinv id' p Hp) as (st & -> & Hseries). cbn.
  rewrite (publishedSeries_local _ _ _ _ (same_accounts _ _ _ Hsame)), <- Hseries. by destruct st.
Qed.

(** ** The keys of a target *)

Lemma snapshot_keys_Merge values : snapshot_keys (Merge values) ≡ₚ flat_map snapshot_keys values.
Proof.
  assert (Hmap : forall A (key : A -> string) (family : Snapshot -> list A),
    map key (flat_map family values) = flat_map (fun p => map key (family p)) values)
    by (intros A key family; clear; induction values as [|p l IH]; simpl; [done|by rewrite map_app, IH]).
  assert (Hflat : forall A (keys : A -> list string) (family : Snapshot -> list A),
    flat_map keys (flat_map family values) = flat_map (fun p => flat_map keys (family p)) values)
    by (intros A keys family; clear; induction values as [|p l IH]; simpl; [done|by rewrite flat_map_app, IH]).
  destruct (Merge_perm values) as (Hc & Hf & Hb & Ha & Hcm & Han & Ht). unfold snapshot_keys.
  rewrite !flat_map_split, <- !Hmap, <- !Hflat.
  repeat apply Permutation_app; first [by apply Permutation_map|by apply flat_map_perm].
Qed.

(** A key starts with its kind and its target. *)
Definition keyed_for (t : TargetID) (k : string) : Prop :=
  exists kind rest, no_byte "|"%char kind = true /\
    bytes k = bytes kind ++ "|"%char :: bytes t ++ "|"%char :: rest.

Lemma keyed_for_unique t t' k :
  no_byte "|"%char t = true -> no_byte "|"%char t' = true -> keyed_for t k -> keyed_for t' k -> t = t'.
Proof.
  intros Ht Ht' (kind & rest & Hk & Heq) (kind' & rest' & Hk' & Heq').
  rewrite Heq in Heq'. clear Heq. rename Heq' into Heq.
  apply split_at_sep in Heq as [_ Heq]; [|by apply no_byte_not_elem..].
  apply split_at_sep in Heq as [Heq _]; [|by apply no_byte_not_elem..]. by apply bytes_inj.
Qed.

Ltac key_kind kind :=
  exists kind; eexists; split; [reflexivity|]; unfold pipe; cbn [join]; rewrite !bytes_app; cbn; rewrite <- ?app_assoc;
  reflexivity.

Lemma keys_target t p k : ValidatePartial p t = Ok tt -> k ∈ snapshot_keys p -> keyed_for t k.
Proof.
  intros (_ & Hc & Hf & Hb & Ha & Hcm & Han & Ht)%ValidatePartial_ok. unfold snapshot_keys.
  rewrite !elem_of_app, !elem_of_map, !elem_of_flat_map.
  intros [(x & Hx & <-)|[(x & Hx & <-)|[(x & Hx & Hk)|[(x & Hx & <-)|[(x & Hx & <-)|[(x & Hx & Hk)|(x & Hx & Hk)]]]]]].
  - rewrite <- (Hc x Hx). unfold cost_key. key_kind "cost".
  - rewrite <- (Hf x Hx). unfold forecast_key. key_kind "forecast".
  - rewrite <- (Hb x Hx). unfold budget_keys, budget_prefix, opt_key in Hk.
    destruct (Actual x), (Forecasted x); cbn [app] in Hk; rewrite ?elem_of_cons, elem_of_nil in Hk;
      destruct_or? Hk; try done; subst k; key_kind "budget".
  - rewrite <- (Ha x Hx). unfold account_key. key_kind "account".
  - rewrite <- (Ht x Hx). unfold tag_key. key_kind "tag".
  - rewrite <- (Hcm x Hx). unfold commitment_keys, commitment_prefix, opt_key in Hk. rewrite !elem_of_app in Hk.
    destruct_or? Hk; case_match; rewrite ?elem_of_cons, elem_of_nil in Hk;
      destruct_or? Hk; try done; subst k; key_kind "commitment".
  - rewrite <- (Han x Hx). unfold anomaly_keys, anomaly_prefix, opt_key in Hk.
    destruct (Impact x); cbn [map app] in Hk; rewrite ?elem_of_cons, elem_of_nil in Hk;
      destruct_or? Hk; try done; subst k; key_kind "anomaly".
Qed.
(** Every target with a part has a name without a bar. *)
Definition bar_free (m : gmap CollectorID Snapshot) : Prop :=
  forall id, is_Some (m !! id) -> no_byte "|"%char (ID_Target id) = true.

Definition others (t : TargetID) (id : CollectorID) : bool := negb (at_target t id).

Lemma others_true t id : others t id = true <-> ID_Target id <> t.
Proof. unfold others, at_target. by rewrite negb_true_iff, bool_decide_eq_false. Qed.

Lemma merge_unique_local t m values :
  valid_parts m -> bar_free m -> no_byte "|"%char t = true -> values ≡ₚ (map_to_list m).*2 ->
  NoDup (flat_map snapshot_keys (parts_of (others t) m)) ->
  NoDup (snapshot_keys (Merge values)) <-> NoDup (flat_map snapshot_keys (parts_of (at_target t) m)).
Proof.
  intros Hm Hbar Ht Hv Hothers.
  rewrite snapshot_keys_Merge, (flat_map_perm _ _ _ Hv), (flat_map_perm _ _ _ (parts_of_split (at_target t) m)), flat_map_app.
  fold (others t). rewrite NoDup_app. split; [by intros []|]. intros Hat. split; [done|]. split; [|done].
  intros k (p & (id & Hid & Hf)%elem_of_parts_of & Hk)%elem_of_flat_map (q & (id' & Hid' & Hf')%elem_of_parts_of & Hk')%elem_of_flat_map.
  apply others_true in Hf'. apply Hf'. apply bool_decide_eq_true in Hf. rewrite <- Hf.
  apply (keyed_for_unique _ _ k); [apply Hbar; eauto..| |]; eapply keys_target; eauto.
Qed.

Lemma merge_unique_others t m values :
  values ≡ₚ (map_to_list m).*2 -> NoDup (snapshot_keys (Merge values)) ->
  NoDup (flat_map snapshot_keys (parts_of (others t) m)).
Proof.
  intros Hv. rewrite snapshot_keys_Merge, (flat_map_perm _ _ _ Hv), (flat_map_perm _ _ _ (parts_of_split (at_target t) m)), flat_map_app.
  apply NoDup_app_r.
Qed.

(** ** The verdict of a merge *)

Definition accounts_within (selected : list Account) (t : TargetID) (p : OrganizationPolicy) : Prop :=
  (Z.of_nat (length (List.filter (of_target t) selected)) <= SeriesLimit p)%Z.

#[export] Instance within_dec selected t p : Decision (accounts_within selected t p).
Proof. unfold accounts_within. apply _. Defined.

Definition within_policy (policies : gmap TargetID OrganizationPolicy) (selected : list Account) (t : TargetID) : Prop :=
  match policies !! t with Some p => accounts_within selected t p | None => True end.

#[export] Instance within_policy_dec policies selected t : Decision (within_policy policies selected t).
Proof. unfold within_policy. case_match; apply _. Defined.

Lemma over_limit_true policies selected counts :
  counted selected counts -> (forall t p, policies !! t = Some p -> (0 < SeriesLimit p)%Z) ->
  over_limit policies counts = true <->
  exists t, (default 0 (SeriesLimit <$> policies !! t) < Z.of_nat (length (List.filter (of_target t) selected)))%Z.
Proof.
  intros Hc Hpos. unfold over_limit. rewrite existsb_exists. split.
  - intros ([t c] & Hin & Hlt%Z.ltb_lt). apply list_elem_of_In, elem_of_map_to_list in Hin.
    exists t. specialize (Hc t). rewrite Hin in Hc. cbn in Hc. by rewrite <- Hc.
  - intros [t Hlt]. rewrite <- Hc in Hlt. destruct (counts !! t) as [c|] eqn:Ht; cbn in Hlt.
    + exists (t, c). split; [by apply list_elem_of_In, elem_of_map_to_list|by apply Z.ltb_lt].
    + destruct (policies !! t) as [p|] eqn:Hp; cbn in Hlt; [|lia]. apply Hpos in Hp. lia.
Qed.
(** A selection of the accounts keeps a snapshot unique. *)
Lemma ValidateUnique_selected s f :
  let selected := List.filter f (accounts s) in
  ValidateUnique s = Ok tt ->
  ValidateUnique (NewWithData (costs s) (forecasts s) (budgets s) selected (commitments s) (anomalies s) (tagCosts s)) = Ok tt.
Proof.
  cbv zeta. set (r := NewWithData _ _ _ _ _ _ _). intros [Hid Hnd]%ValidateUnique_ok. apply ValidateUnique_ok.
  destruct (NewWithData_perm (costs s) (forecasts s) (budgets s) (List.filter f (accounts s)) (commitments s) (anomalies s)
    (tagCosts s)) as (Hc & Hf & Hb & Ha & Hcm & Han & Ht). fold r in Hc, Hf, Hb, Ha, Hcm, Han, Ht. split.
  - unfold valid_identities in Hid |- *. by rewrite (forallb_perm _ _ _ Hc), (forallb_perm _ _ _ Hf), (forallb_perm _ _ _ Ht).
  - unfold snapshot_keys in Hnd |- *. rewrite Hc, Hf, (flat_map_perm _ _ _ Hb), Ha, Ht, (flat_map_perm _ _ _ Hcm), (flat_map_perm _ _ _ Han).
    eapply sublist_NoDup; [exact Hnd|]. repeat apply sublist_app; try reflexivity. apply fmap_sublist, filter_sublist.
Qed.

Lemma within_policies policies s :
  (forall t p, policies !! t = Some p -> (0 < SeriesLimit p)%Z) -> policies <> ∅ ->
  (exists t, (default 0 (SeriesLimit <$> policies !! t) < Z.of_nat (length (List.filter (of_target t) (policy_accounts policies s))))%Z) <->
  ~ map_Forall (accounts_within (policy_accounts policies s)) policies.
Proof.
  intros Hpos Hne. split.
  - intros [t Hlt] Hall. destruct (policies !! t) as [p|] eqn:Hp; cbn in Hlt; [specialize (Hall t p Hp); unfold accounts_within in Hall; lia|].
    rewrite filter_none in Hlt; [cbn in Hlt; lia|]. intros a Ha. apply bool_decide_eq_false. intros <-.
    unfold policy_accounts in Ha. case_bool_decide; [done|].
    apply elem_of_filter_b in Ha as [_ (p & Hp' & _)%account_selected_allowed]. congruence.
  - intros (t & p & Hp & Hw)%map_not_Forall; [|apply _]. exists t. rewrite Hp. cbn. unfold accounts_within in Hw. lia.
Qed.

Lemma mergeParts_verdict policies values :
  (forall t p, policies !! t = Some p -> (0 < SeriesLimit p)%Z) -> valid_identities (Merge values) = true ->
  (_ ← mergeParts policies values; Ok tt) =
  if decide (NoDup (snapshot_keys (Merge values))) then
    if decide (map_Forall (accounts_within (policy_accounts policies (Merge values))) policies) then Ok tt else Err ErrSeriesLimit
  else Err (Wrapped "duplicate metric label set" ErrInvalidSnapshot).
Proof.
  intros Hpos Hid. unfold mergeParts. rewrite (ValidateUnique_eq (Merge values)), Hid.
  destruct (decide (NoDup _)) as [Hnd|Hnd]; [rewrite (bool_decide_true (NoDup _)) by done|by rewrite (bool_decide_false (NoDup _))].
  cbn [mbind result_bind].
  case_bool_decide as Hempty; [subst policies; by rewrite decide_True by apply map_Forall_empty|].
  destruct (select_account_fold (allowed_of policies (Merge values)) (accounts (Merge values)) [] ∅)
    as (counts & Hfold & Hc); [intros t; by rewrite lookup_empty|]. cbn [app] in Hfold, Hc.
  fold (allowed_of policies (Merge values)). rewrite Hfold.
  assert (Hsel : policy_accounts policies (Merge values) =
    List.filter (account_selected (allowed_of policies (Merge values))) (accounts (Merge values)))
    by (unfold policy_accounts; by rewrite bool_decide_false).
  rewrite <- Hsel in Hc. pose proof (over_limit_true _ _ _ Hc Hpos) as Hover. rewrite within_policies in Hover by done.
  destruct (over_limit policies counts); [by rewrite decide_False by by apply Hover|].
  rewrite decide_True by (apply dec_stable; intros Hn; by apply Hover in Hn). cbn [mbind result_bind].
  rewrite ValidateUnique_selected; [done|]. by apply ValidateUnique_ok.
Qed.

Lemma Merge_valid m values :
  valid_parts m -> values ≡ₚ (map_to_list m).*2 -> valid_identities (Merge values) = true.
Proof.
  intros Hm Hv. destruct (Merge_perm values) as (Hc & Hf & _ & _ & _ & _ & Ht). unfold valid_identities.
  rewrite (forallb_perm _ _ _ Hc), (forallb_perm _ _ _ Hf), (forallb_perm _ _ _ Ht), !andb_true_iff, !forallb_elem_of.
  repeat split; intros x (p & Hp & Hx)%elem_of_flat_map; rewrite Hv in Hp; apply list_elem_of_fmap in Hp as ([id q] & -> & Hin);
    apply elem_of_map_to_list, Hm, ValidatePartial_ok in Hin as [Hid _]; unfold valid_identities in Hid;
    rewrite !andb_true_iff, !forallb_elem_of in Hid; naive_solver.
Qed.

Lemma within_local t m m' values values' policies p :
  valid_parts m -> valid_parts m' -> agree (at_target t) m m' ->
  values ≡ₚ (map_to_list m).*2 -> values' ≡ₚ (map_to_list m').*2 ->
  accounts_within (policy_accounts policies (Merge values)) t p <-> accounts_within (policy_accounts policies (Merge values')) t p.
Proof.
  intros Hm Hm' Hagree Hv Hv'. destruct (agree_merged t m m' values values') as [Hc Ha]; [done..|].
  pose proof (Permutation_length (policy_accounts_local policies t _ _ Hc Ha)) as Hlen.
  unfold accounts_within. change (List.filter (of_target t)) with (records_of AccountTarget t). lia.
Qed.

(** ** The answer of a publication *)

Lemma Publish_answer range now store id partial :
  (Publish range now store id partial).1 =
  if negb (CollectorID_Valid id) then Err ErrInvalidCollector else
  _ ← ValidatePartial partial (ID_Target id);
  _ ← mergeParts (organizationPolicies store) (range (<[ id := partial ]> (parts (current store)))); Ok tt.
Proof.
  unfold Publish. destruct (negb _); [done|]. destruct (ValidatePartial _ _); [|done]. by destruct (mergeParts _ _).
Qed.

Section Answer.
(** One more part of target [t] over a store that satisfies the invariant. *)
Context (range : gmap CollectorID Snapshot -> list Snapshot) (store : Store) (id : CollectorID) (partial : Snapshot).
Context (Hrange : range_ok range) (Hinv : store_inv store) (Hpartial : ValidatePartial partial (ID_Target id) = Ok tt).
Context (Hbar : bar_free (parts (current store))) (Ht : no_byte "|"%char (ID_Target id) = true).

Let m := parts (current store).
Let m1 := <[ id := partial ]> m.
Let policies := organizationPolicies store.

Lemma inv_valid_parts : valid_parts m.
Proof. intros id' p Hp. apply (inv_parts store Hinv id' p Hp). Qed.

Lemma answer_valid : valid_parts m1.
Proof. apply valid_parts_insert; [apply inv_valid_parts|done]. Qed.

Lemma agree_others : agree (others (ID_Target id)) m m1.
Proof. apply agree_insert_other. unfold others, at_target. by rewrite bool_decide_true. Qed.

Lemma answer_unique :
  NoDup (snapshot_keys (Merge (range m1))) <-> NoDup (flat_map snapshot_keys (parts_of (at_target (ID_Target id)) m1)).
Proof.
  destruct (inv_snapshot store Hinv) as (values & Hv & (Hok & _)%mergeParts_ok).
  apply merge_unique_local; [apply answer_valid| |done|apply Hrange|].
  - intros id' [<-|?]%lookup_insert_is_Some'; [done|by apply Hbar].
  - apply ValidateUnique_ok in Hok as [_ Hok]. apply (merge_unique_others (ID_Target id) m) in Hok; [|done].
    rewrite <- (flat_map_perm _ _ _ (parts_of_agree (others (ID_Target id)) m m1 agree_others)). done.
Qed.

(** The limits of the other targets hold as they did. *)
Lemma answer_within :
  map_Forall (accounts_within (policy_accounts policies (Merge (range m1)))) policies <->
  within_policy policies (policy_accounts policies (Merge (range m1))) (ID_Target id).
Proof.
  destruct (inv_snapshot store Hinv) as (values & Hv & (_ & _ & _ & Hlimits)%mergeParts_ok).
  unfold within_policy. split; [intros Hall; case_match; [by apply Hall|done]|]. intros Hid t p Hp.
  destruct (decide (ID_Target id = t)) as [<-|Hne]; [by rewrite Hp in Hid|].
  apply (within_local t m m1 values); [apply inv_valid_parts|apply answer_valid| |done|apply Hrange|].
  - apply agree_insert_other. by apply bool_decide_eq_false.
  - apply Hlimits; [done|]. by apply (inv_policies store Hinv t).
Qed.

Lemma answer_verdict :
  (_ ← mergeParts policies (range m1); Ok tt) =
  if decide (NoDup (flat_map snapshot_keys (parts_of (at_target (ID_Target id)) m1))) then
    if decide (within_policy policies (policy_accounts policies (Merge (range m1))) (ID_Target id)) then Ok tt else Err ErrSeriesLimit
  else Err (Wrapped "duplicate metric label set" ErrInvalidSnapshot).
Proof.
  rewrite mergeParts_verdict; [|intros t p Hp; by apply (inv_policies store Hinv t)|eapply Merge_valid; [apply answer_valid|apply Hrange]].
  rewrite (decide_ext _ _ _ _ answer_unique), (decide_ext _ _ _ _ answer_within). done.
Qed.
End Answer.

(** The answer depends on the parts of the target alone. *)
Lemma Publish_local range range' now now' store store' id partial :
  range_ok range -> range_ok range' -> store_inv store -> store_inv store' ->
  organizationPolicies store' = organizationPolicies store ->
  bar_free (parts (current store)) -> bar_free (parts (current store')) -> no_byte "|"%char (ID_Target id) = true ->
  agree (at_target (ID_Target id)) (parts (current store')) (parts (current store)) ->
  (Publish range' now' store' id partial).1 = (Publish range now store id partial).1.
Proof.
  intros Hr Hr' Hinv Hinv' Hpol Hbar Hbar' Ht Hagree. rewrite !Publish_answer.
  destruct (negb _); [done|]. destruct (ValidatePartial partial (ID_Target id)) as [[]|e] eqn:Hval; [|done]. cbn [mbind result_bind].
  rewrite !answer_verdict, Hpol by done. apply (agree_insert _ _ _ id partial) in Hagree.
  pose proof (flat_map_perm snapshot_keys _ _ (parts_of_agree _ _ _ Hagree)) as Hkeys.
  rewrite (decide_ext (NoDup (flat_map snapshot_keys (parts_of _ (<[id:=partial]> (parts (current store'))))))
    (NoDup (flat_map snapshot_keys (parts_of (at_target (ID_Target id)) (<[id:=partial]> (parts (current store))))))) by by rewrite Hkeys.
  destruct (decide _); [|done]. apply decide_ext. unfold within_policy. case_match; [|done].
  apply (within_local _ (<[id:=partial]> (parts (current store'))) (<[id:=partial]> (parts (current store)))); auto using answer_valid.
Qed.

(** A publication or a failure of a collector of another target. *)
Inductive foreign_step (t : TargetID) (store : Store) : Store -> Prop :=
| foreign_publish range now id partial r store' :
    range_ok range -> ID_Target id <> t -> Publish range now store id partial = (r, store') -> foreign_step t store store'
| foreign_failure now id r store' :
    ID_Target id <> t -> RecordFailure now store id = (r, store') -> foreign_step t store store'.

Lemma foreign_step_inv t store store' : foreign_step t store store' -> store_inv store -> store_inv store'.
Proof.
  intros Hstep. apply store_step_inv. destruct Hstep; [by eapply step_publish|by eapply step_failure].
Qed.

Lemma foreign_step_grows t store store' :
  foreign_step t store store' ->
  organizationPolicies store' = organizationPolicies store /\
  forall id, is_Some (parts (current store) !! id) -> is_Some (parts (current store') !! id).
Proof.
  intros [range now id partial r store1 _ _ HP|now id r store1 _ HR].
  - apply Publish_cases in HP as [(? & _ & ->)|(_ & _ & _ & merged & _ & ->)]; [done|].
    split; [done|]. intros id' Hid. apply lookup_insert_is_Some'. by right.
  - by apply RecordFailure_cases in HR as [(_ & _ & ->)|(_ & _ & ->)].
Qed.

Lemma foreign_steps_grow t store store' :
  rtc (foreign_step t) store store' ->
  organizationPolicies store' = organizationPolicies store /\
  forall id, is_Some (parts (current store) !! id) -> is_Some (parts (current store') !! id).
Proof.
  induction 1 as [|store store1 store' Hstep%foreign_step_grows _ [Hpol Hgrow]]; [done|].
  destruct Hstep as [<- Hstep]. split; [done|]. auto.
Qed.

Lemma foreign_step_isolated t store store' :
  store_inv store -> foreign_step t store store' ->
  same_records t (snapshot (current store)) (snapshot (current store')) /\
  forall id, ID_Target id = t -> collector_view id store' = collector_view id store.
Proof.
  intros Hinv [range now id partial [[]|e] store1 Hrange Hne HP|now id r store1 Hne HR].
  - split; [by eapply Publish_same|]. intros id' <-. by eapply Publish_view.
  - apply Publish_cases in HP as [(? & _ & ->)|([=] & _)]. split; [reflexivity|done].
  - apply RecordFailure_cases in HR as [(_ & _ & ->)|(_ & _ & ->)]; [by split|]. cbv zeta.
    cbn [current set_current snapshot]. split; [reflexivity|]. intros id' <-. unfold collector_view.
    cbn [current set_current parts statuses]. by rewrite lookup_insert_ne by congruence.
Qed.

Lemma foreign_steps_isolated t store store' :
  store_inv store -> rtc (foreign_step t) store store' ->
  store_inv store' /\ same_records t (snapshot (current store)) (snapshot (current store')) /\
  forall id, ID_Target id = t -> collector_view id store' = collector_view id store.
Proof.
  intros Hinv Hrun. induction Hrun as [|store store1 store' Hstep _ IH]; [by split|].
  destruct (foreign_step_isolated t store store1 Hinv Hstep) as [Hs Hv].
  destruct (IH (foreign_step_inv _ _ _ Hstep Hinv)) as (Hinv' & Hs' & Hv'). split; [done|]. split; [by etrans|].
  intros id Hid. by rewrite (Hv' id Hid), (Hv id Hid).
Qed.

(** C3: targets do not interfere.  Let the collectors of the other targets publish and fail as they
    may, in any order: the records readers get of a target are the same in every family (its
    accounts included, whose policy looks at the costs of all), and so are the parts and the
    statuses, series counts included, of its collectors.  When no name of a target holds a bar, a
    publication for the target is answered the same as well, with the same error if it is refused,
    although the keys and the limits it is checked against are those of all targets. *)
Theorem targets_isolated t store store' :
  store_reachable store -> rtc (foreign_step t) store store' ->
  same_records t (snapshot (current store)) (snapshot (current store')) /\
  (forall id, ID_Target id = t -> collector_view id store' = collector_view id store) /\
  (no_byte "|"%char t = true -> bar_free (parts (current store')) ->
   forall range range' now now' id partial, range_ok range -> range_ok range' -> ID_Target id = t ->
   (Publish range' now' store' id partial).1 = (Publish range now store id partial).1).
Proof.
  intros Hinv%store_reachable_inv Hrun. destruct (foreign_steps_isolated t store store' Hinv Hrun) as (Hinv' & Hs & Hv).
  destruct (foreign_steps_grow t store store' Hrun) as [Hpol Hgrow]. split; [done|]. split; [done|].
  intros Ht Hbar range range' now now' id partial Hr Hr' <-. apply Publish_local; try done.
  - intros id' Hid'. apply Hbar, Hgrow, Hid'.
  - intros id' Hid'%bool_decide_eq_true. by injection (Hv id' Hid').
Qed.

(** A third target publishes its first costs. *)
Definition id_new : CollectorID := mkCollectorID "new" "total".
Definition foreign_store : Store :=
  (Publish range_default sample_now sample_store id_new
     (NewWithData [sample_cost "new" DimensionTotal ""] [] [] [] [] [] [])).2.

Definition sample_service : Snapshot := NewWithData [sample_cost "prod" DimensionService "AmazonEC2"] [] [] [] [] [] [].
Definition id_service : CollectorID := mkCollectorID "prod" "service".

Lemma targets_isolated_witness :
  length (costs (snapshot (current foreign_store))) = S (length (costs (snapshot (current sample_store)))) /\
  same_records "prod" (snapshot (current sample_store)) (snapshot (current foreign_store)) /\
  (Publish range_default sample_now foreign_store id_service sample_service).1 =
    (Publish range_default sample_now sample_store id_service sample_service).1.
Proof.
  assert (Hrun : rtc (foreign_step "prod") sample_store foreign_store).
  { apply rtc_once. eapply (foreign_publish _ _ range_default sample_now id_new); [by intros m|discriminate|apply surjective_pairing]. }
  split; [vm_compute; reflexivity|].
  destruct (targets_isolated "prod" sample_store foreign_store sample_store_reachable Hrun) as (Hsame & _ & Hanswer).
  split; [exact Hsame|]. apply Hanswer; [reflexivity| |by intros m..|reflexivity].
  intros id Hid. assert (Hall : forallb (fun kv => no_byte "|"%char (ID_Target kv.1)) (map_to_list (parts (current foreign_store))) = true)
    by (vm_compute; reflexivity).
  destruct Hid as [p Hp]. rewrite forallb_elem_of in Hall. apply (Hall (id, p)). by apply elem_of_map_to_list.
Defined.
