(* ===== verification/Config.v ===== *)
(** * Configuration and its validation (internal/config: schema.go, validation.go)

    The configuration structs, [Default], and [Validate] with every rule of it.  A message that
    is formatted with an index or a path keeps its constant part.  The environment is an
    argument ([os.LookupEnv]), and so is the order a map of credential sources is ranged over,
    which decides which of several errors is reported. *)

From S2P Require Import Prelude GoStrings GoRegexp GoFloat GoTime Errors FamilyCollectors.
Local Open Scope string_scope.
Local Open Scope list_scope.

(** ** Schema (schema.go) *)

Definition CredentialSourceDefaultChain : string := "default_chain".
Definition CredentialSourceProfile : string := "profile".
Definition CredentialSourceStaticEnv : string := "static_env".

Record ServerConfig := mkServerConfig {
  ListenAddress : string; MetricsPath : string;
  ReadHeaderTimeout : Duration; ReadTimeout : Duration; WriteTimeout : Duration;
  IdleTimeout : Duration; ShutdownTimeout : Duration;
  MaxInFlight : Z; Debug_Enabled : bool
}.

Record LogConfig := mkLogConfig { Level : string; Format : string; AddSource : bool }.

Record CredentialSourceConfig := mkCredentialSource {
  src_Type : string; src_Profile : string; AccessKeyIDEnv : string; SecretAccessKeyEnv : string;
  SessionTokenEnv : string
}.

Record EndpointsConfig := mkEndpoints {
  ep_STS : string; ep_CostExplorer : string; ep_Organizations : string; ep_Budgets : string;
  ep_Athena : string
}.

Record RetryConfig := mkRetryConfig {
  retry_MaxAttempts : Z; BaseDelay : Duration; MaxBackoff : Duration
}.

Record RateLimitConfig := mkRateLimit {
  GlobalRequestsPerSecond : float64; GlobalBurst : Z;
  TargetRequestsPerSecond : float64; TargetBurst : Z
}.

(** [Credentials] has the one field [Sources]. *)
Record AWSConfig := mkAWSConfig {
  aws_Region : string;
  Sources : gmap string CredentialSourceConfig;
  RequestTimeout : Duration;
  Endpoints : EndpointsConfig;
  Retry : RetryConfig;
  RateLimit : RateLimitConfig
}.

Record AssumeRoleConfig := mkAssumeRole {
  RoleARN : string; ExternalIDEnv : string; SessionName : string
}.

Record FiltersConfig := mkFilters {
  flt_LinkedAccountIDs : list string; flt_Services : list string; flt_Regions : list string
}.

Record CURTagColumn := mkTagColumn { col_Key : string; col_Column : string }.

Record TargetCURConfig := mkTargetCUR {
  cur_Enabled : bool; cur_Region : string; cur_Database : string; cur_Table : string;
  cur_Workgroup : string; cur_OutputLocation : string; cur_QueryTimeout : Duration;
  cur_PollInterval : Duration; cur_TagColumns : list CURTagColumn
}.

(** The nested structs of a target, flattened: [Credentials], [CostExplorer],
    [Organizations], [Budgets], [Commitments], [Anomalies] and [Tags]. *)
Record TargetConfig := mkTarget {
  tgt_Name : string; tgt_AccountID : string; tgt_Required : bool;
  cred_Source : string; cred_AssumeRole : option AssumeRoleConfig;
  ce_Enabled : bool; ce_Filters : FiltersConfig;
  org_Enabled : bool; org_AccountIDs : list string;
  bud_Enabled : bool; bud_Names : list string;
  com_Enabled : bool; ano_Enabled : bool;
  tgt_CUR : TargetCURConfig;
  tags_Enabled : bool; tags_Keys : list TagKeyConfig
}.

(** The structs of Organizations, Budgets, Commitments, Anomalies and Tags have the same three
    fields. *)
Record FamilyConfig := mkFamily {
  fam_RefreshInterval : Duration; fam_MaxPages : Z; fam_SeriesLimit : Z
}.

Record CollectionCURConfig := mkCollectionCUR {
  ccur_RefreshInterval : Duration; ccur_MaxPages : Z; ccur_MaxRows : Z; ccur_MaxCurrencies : Z;
  ccur_SeriesLimit : Z
}.

Record CollectorsConfig := mkCollectors {
  en_Total : bool; en_Service : bool; en_Region : bool; en_Account : bool; en_Forecast : bool
}.

Record DimensionsConfig := mkDimensions {
  dim_SeriesLimit : Z; dim_Overflow : string; dim_OverflowLabel : string
}.

Record CollectionCostExplorerConfig := mkCollectionCE {
  CostBases : list string; cce_MaxPages : Z; cce_PredictionInterval : Z;
  cce_Collectors : CollectorsConfig; cce_Dimensions : DimensionsConfig
}.

Record FailureBackoffConfig := mkFailureBackoff {
  fb_MaxAttempts : Z; fb_Initial : Duration; fb_Max : Duration; fb_Multiplier : float64
}.

Record CollectionConfig := mkCollection {
  col_RefreshInterval : Duration; col_StartupRefresh : bool; col_JitterRatio : float64;
  col_MaxConcurrency : Z; FailureBackoff : FailureBackoffConfig;
  col_CostExplorer : CollectionCostExplorerConfig;
  col_Organizations : FamilyConfig; col_Budgets : FamilyConfig; col_Commitments : FamilyConfig;
  col_Anomalies : FamilyConfig; col_Tags : FamilyConfig; col_CUR : CollectionCURConfig
}.

Record CacheConfig := mkCache { cache_FreshnessTTL : Duration; cache_StaleAfter : Duration }.

Record TelemetryConfig := mkTelemetry {
  IncludeGoCollector : bool; IncludeProcessCollector : bool
}.

Record AppConfig := mkAppConfig {
  cfg_Server : ServerConfig; cfg_Log : LogConfig; cfg_AWS : AWSConfig;
  cfg_Targets : list TargetConfig; cfg_Collection : CollectionConfig; cfg_Cache : CacheConfig;
  cfg_Telemetry : TelemetryConfig
}.

Definition f64_ratio (num den : Z) : float64 := fdiv (f64_of_Z num) (f64_of_Z den).

Definition Default : AppConfig :=
  (mkAppConfig
    (mkServerConfig ":8080" "/metrics" (5 * Second) (15 * Second) (30 * Second) Minute (15 * Second)
       20 false)
    (mkLogConfig "info" "json" false)
    (mkAWSConfig "us-east-1" ∅ (30 * Second) (mkEndpoints "" "" "" "" "")
       (mkRetryConfig 5 Second (30 * Second)) (mkRateLimit (f64_of_Z 1) 2 (f64_ratio 1 2) 1))
    []
    (mkCollection (6 * Hour) true (f64_ratio 1 10) 4
       (mkFailureBackoff 3 Minute (30 * Minute) (f64_of_Z 2))
       (mkCollectionCE ["unblended"] 50 80 (mkCollectors true true true true true)
          (mkDimensions 1000 "aggregate" "__other__"))
       (mkFamily (24 * Hour) 20 1000) (mkFamily (6 * Hour) 20 100) (mkFamily (24 * Hour) 20 20)
       (mkFamily (6 * Hour) 20 10) (mkFamily (6 * Hour) 50 500)
       (mkCollectionCUR (24 * Hour) 50 5000 1 2000))
    (mkCache (12 * Hour) (24 * Hour)) (mkTelemetry true true))%Z.

(** ** Limits and patterns (validation.go) *)

Definition maxTargets : Z := 20.
Definition maxRetryAttempts : Z := 10.
Definition maxRateLimitBurst : Z := 5.
Definition maxRequestsPerSec : Z := 10.
Definition maxPages : Z := 200.
Definition maxCostSeries : Z := 2000.
Definition maxOrgSeries : Z := 2000.
Definition maxBudgetSeries : Z := 500.
Definition maxTagKeys : Z := 20.
Definition maxTagValues : Z := 500.
Definition maxServerInFlight : Z := 1000.
Definition maxConcurrency : Z := 100.
Definition minCURPollInterval : Duration := (100 * Millisecond)%Z.
Definition maxCURPollInterval : Duration := Minute.
Definition maxCURQueryTimeout : Duration := Hour.

Definition targetNamePattern : regexp :=
  Seq (Class [lower]) (between (Class [lower; digit; one "_"; one "-"]) 0 31).
Definition accountIDPattern : regexp := times (Class [digit]) 12.
Definition roleARNPattern : regexp :=
  seqs [lit "arn:"; one_of ["aws"; "aws-us-gov"; "aws-cn"]; lit ":iam::"; times (Class [digit]) 12;
        lit ":role/";
        between (Class [upper; lower; digit; one "+"; one "="; one ","; one "."; one "@"; one "_";
                        one "/"; one "-"]) 1 512].
Definition environmentPattern : regexp :=
  Seq (Class [upper; lower; one "_"]) (star (Class [upper; lower; digit; one "_"])).
Definition sessionNamePattern : regexp :=
  between (Class [upper; lower; digit; one "+"; one "="; one ","; one "."; one "@"; one "_";
                  one "-"]) 2 64.
Definition sqlIdentifierPattern : regexp :=
  Seq (Class [upper; lower; one "_"]) (between (Class [upper; lower; digit; one "_"]) 0 127).
Definition workgroupPattern : regexp :=
  between (Class [upper; lower; digit; one "."; one "_"; one "-"]) 1 128.
Definition s3BucketPattern : regexp :=
  seqs [Class [lower; digit]; between (Class [lower; digit; one "."; one "-"]) 1 61;
        Class [lower; digit]].
Definition awsRegionPattern : regexp :=
  seqs [times (Class [lower]) 2; plus (Seq (lit "-") (plus (Class [lower; digit]))); lit "-";
        plus (Class [digit])].

Example patterns_ex :
  map (fun p => MatchString p.1 p.2)
    [(targetNamePattern, "management"); (targetNamePattern, "Management"); (targetNamePattern, "");
     (accountIDPattern, "111122223333"); (accountIDPattern, "11112222333");
     (awsRegionPattern, "eu-west-1"); (awsRegionPattern, "us-gov-west-1"); (awsRegionPattern, "eu-1");
     (roleARNPattern, "arn:aws-cn:iam::111122223333:role/path/reader");
     (roleARNPattern, "arn:aws:iam::111122223333:role/*");
     (s3BucketPattern, "results.example"); (s3BucketPattern, "-results"); (s3BucketPattern, "ab")]
  = [true; false; false; true; false; true; true; false; true; false; true; false; false].
Proof. vm_compute. reflexivity. Qed.

(** ** Checks *)

Record validationCheck := mkCheck { invalid : bool; check_path : string; check_message : string }.

Definition config_error (path message : string) : error :=
  ErrorString (String.app path (String.app ": " message)).

Fixpoint firstValidationError (checks : list validationCheck) : res unit :=
  match checks with
  | [] => Ok tt
  | check :: checks =>
      fail_if invalid check with_ config_error (check_path check) (check_message check) ;;
      firstValidationError checks
  end.

Definition reservedMetricsPath (value : ServerConfig) : bool :=
  let path := MetricsPath value in
  bool_decide (path ∈ ["/"; "/healthz"; "/ready"; "/version"]) ||
  (Debug_Enabled value &&
   (bool_decide (path = "/debug") || bool_decide (path = "/debug/pprof") ||
    HasPrefix path "/debug/pprof/")).

Definition server_checks (value : ServerConfig) : list validationCheck :=
  [mkCheck (bool_decide (TrimSpace (ListenAddress value) = "")) "server.listen_address" "must not be empty";
   mkCheck (negb (HasPrefix (MetricsPath value) "/")) "server.metrics_path" "must start with /";
   mkCheck (reservedMetricsPath value) "server.metrics_path" "conflicts with a reserved HTTP route";
   mkCheck ((MaxInFlight value <=? 0)%Z || (maxServerInFlight <? MaxInFlight value)%Z) "server.max_in_flight" "must be between 1 and 1000";
   mkCheck (ReadHeaderTimeout value <=? 0)%Z "server.read_header_timeout" "must be positive";
   mkCheck (ReadTimeout value <=? 0)%Z "server.read_timeout" "must be positive";
   mkCheck (WriteTimeout value <=? 0)%Z "server.write_timeout" "must be positive";
   mkCheck (IdleTimeout value <=? 0)%Z "server.idle_timeout" "must be positive";
   mkCheck (ShutdownTimeout value <=? 0)%Z "server.shutdown_timeout" "must be positive"].

Definition ValidateServer (value : ServerConfig) : res unit :=
  firstValidationError (server_checks value).

Definition invalidRate (value : float64) : bool :=
  nonFinite value || fleb value f0 || fltb (f64_of_Z maxRequestsPerSec) value.

(** [value <= 0 || value > limit]. *)
Definition outside (value limit : Z) : bool := (value <=? 0)%Z || (limit <? value)%Z.

Definition base_checks (value : AppConfig) : list validationCheck :=
  let aws := cfg_AWS value in
  let collection := cfg_Collection value in
  let ce := col_CostExplorer collection in
  let collectors := cce_Collectors ce in
  let anyCollector := en_Total collectors || en_Service collectors || en_Region collectors ||
                      en_Account collectors || en_Forecast collectors in
  let label := dim_OverflowLabel (cce_Dimensions ce) in
  let timeout := RequestTimeout aws in
  let family (path : string) (f : FamilyConfig) (limit : Z) (limit_message : string) :=
    (mkCheck (fam_RefreshInterval f <=? timeout)%Z (String.app path ".refresh_interval") "must exceed aws.request_timeout",
     mkCheck (outside (fam_MaxPages f) maxPages) (String.app path ".max_pages") "must be between 1 and 200",
     mkCheck (outside (fam_SeriesLimit f) limit) (String.app path ".series_limit") limit_message) in
  let in_order (f : validationCheck * validationCheck * validationCheck) :=
    let '(interval, pages, series) := f in [interval; pages; series] in
  let pages_first (f : validationCheck * validationCheck * validationCheck) :=
    let '(interval, pages, series) := f in [pages; interval; series] in
  [mkCheck (negb (bool_decide (Level (cfg_Log value) ∈ ["debug"; "info"; "warn"; "error"]))) "log.level" "must be one of debug, info, warn, error";
   mkCheck (negb (bool_decide (Format (cfg_Log value) ∈ ["json"; "text"]))) "log.format" "must be json or text";
   mkCheck (negb (bool_decide (aws_Region aws = "us-east-1"))) "aws.region" "billing APIs require us-east-1";
   mkCheck (timeout <=? 0)%Z "aws.request_timeout" "must be positive";
   mkCheck (outside (retry_MaxAttempts (Retry aws)) maxRetryAttempts) "aws.retry.max_attempts" "must be between 1 and 10";
   mkCheck (BaseDelay (Retry aws) <=? 0)%Z "aws.retry.base_delay" "must be positive";
   mkCheck (MaxBackoff (Retry aws) <? BaseDelay (Retry aws))%Z "aws.retry.max_backoff" "must not be less than base_delay";
   mkCheck (invalidRate (GlobalRequestsPerSecond (RateLimit aws))) "aws.rate_limit.global_requests_per_second" "must be finite and between 0 and 10";
   mkCheck (outside (GlobalBurst (RateLimit aws)) maxRateLimitBurst) "aws.rate_limit.global_burst" "must be between 1 and 5";
   mkCheck (invalidRate (TargetRequestsPerSecond (RateLimit aws))) "aws.rate_limit.target_requests_per_second" "must be finite and between 0 and 10";
   mkCheck (outside (TargetBurst (RateLimit aws)) maxRateLimitBurst) "aws.rate_limit.target_burst" "must be between 1 and 5";
   mkCheck (outside (Z.of_nat (length (cfg_Targets value))) maxTargets) "targets" "must contain between 1 and 20 entries";
   mkCheck (col_RefreshInterval collection <=? timeout)%Z "collection.refresh_interval" "must exceed aws.request_timeout";
   mkCheck (nonFinite (col_JitterRatio collection)) "collection.jitter_ratio" "must be finite";
   mkCheck (fltb (col_JitterRatio collection) f0 || fltb (f64_ratio 1 2) (col_JitterRatio collection)) "collection.jitter_ratio" "must be between 0 and 0.5";
   mkCheck (outside (col_MaxConcurrency collection) maxConcurrency) "collection.max_concurrency" "must be between 1 and 100";
   mkCheck (outside (fb_MaxAttempts (FailureBackoff collection)) maxRetryAttempts) "collection.failure_backoff.max_attempts" "must be between 1 and 10";
   mkCheck (fb_Initial (FailureBackoff collection) <=? 0)%Z "collection.failure_backoff.initial" "must be positive";
   mkCheck (fb_Max (FailureBackoff collection) <? fb_Initial (FailureBackoff collection))%Z "collection.failure_backoff.max" "must not be less than initial";
   mkCheck (nonFinite (fb_Multiplier (FailureBackoff collection))) "collection.failure_backoff.multiplier" "must be finite";
   mkCheck (fleb (fb_Multiplier (FailureBackoff collection)) (f64_of_Z 1)) "collection.failure_backoff.multiplier" "must exceed 1";
   mkCheck (negb anyCollector) "collection.cost_explorer.collectors" "at least one collector must be enabled";
   mkCheck (bool_decide (length (CostBases ce) = 0)) "collection.cost_explorer.cost_bases" "must contain at least one basis";
   mkCheck (outside (cce_MaxPages ce) maxPages) "collection.cost_explorer.max_pages" "must be between 1 and 200";
   mkCheck (en_Forecast collectors && ((cce_PredictionInterval ce <? 80)%Z || (99 <? cce_PredictionInterval ce)%Z)) "collection.cost_explorer.prediction_interval" "must be between 80 and 99";
   mkCheck (outside (dim_SeriesLimit (cce_Dimensions ce)) maxCostSeries) "collection.cost_explorer.dimensions.series_limit" "must be between 1 and 2000";
   mkCheck (negb (bool_decide (dim_Overflow (cce_Dimensions ce) = "aggregate"))) "collection.cost_explorer.dimensions.overflow" "only aggregate is supported";
   mkCheck (bool_decide (TrimSpace label = "")) "collection.cost_explorer.dimensions.overflow_label" "must not be empty";
   mkCheck (negb (bool_decide (label = TrimSpace label))) "collection.cost_explorer.dimensions.overflow_label" "must not contain leading or trailing whitespace"] ++
  in_order (family "collection.organizations" (col_Organizations collection) maxOrgSeries "must be between 1 and 2000") ++
  in_order (family "collection.budgets" (col_Budgets collection) maxBudgetSeries "must be between 1 and 500") ++
  in_order (family "collection.commitments" (col_Commitments collection) maxCostSeries "must be between 1 and 2000") ++
  in_order (family "collection.anomalies" (col_Anomalies collection) 20%Z "must be between 1 and 20") ++
  pages_first (family "collection.tags" (col_Tags collection) maxBudgetSeries "must be between 1 and 500") ++
  [mkCheck (ccur_RefreshInterval (col_CUR collection) <=? timeout)%Z "collection.cur.refresh_interval" "must exceed aws.request_timeout";
   mkCheck (outside (ccur_MaxPages (col_CUR collection)) maxPages) "collection.cur.max_pages" "must be between 1 and 200";
   mkCheck (outside (ccur_MaxRows (col_CUR collection)) 100000%Z) "collection.cur.max_rows" "must be between 1 and 100000";
   mkCheck (outside (ccur_MaxCurrencies (col_CUR collection)) 10%Z) "collection.cur.max_currencies" "must be between 1 and 10";
   mkCheck (outside (ccur_SeriesLimit (col_CUR collection)) 20000%Z) "collection.cur.series_limit" "must be between 1 and 20000";
   mkCheck (cache_FreshnessTTL (cfg_Cache value) <? col_RefreshInterval collection)%Z "cache.freshness_ttl" "must not be less than collection.refresh_interval";
   mkCheck (cache_StaleAfter (cfg_Cache value) <? cache_FreshnessTTL (cfg_Cache value))%Z "cache.stale_after" "must not be less than freshness_ttl"].

Definition validateBase (value : AppConfig) : res unit := firstValidationError (base_checks value).
