(* ===== verification/Validation.v ===== *)
(** * Cross-field validation of the configuration (internal/config/validation.go)

    [Validate] and every rule below it: credential sources, targets, and per target the assumed
    role, the filters and the budgets of each family.  The environment ([os.LookupEnv]) and the
    order a map is ranged over are arguments.  What an accepted configuration is, without any order
    of checks, is ValidationSpec.

    The integers are Go's 64-bit [int]s: the products below multiply list lengths and values
    already checked to be small, so they do not overflow and are written without wrap-around. *)

From S2P Require Import Prelude GoStrings GoRegexp GoFloat GoTime GoUrl Errors FamilyCollectors Config.
From stdpp Require Import pretty.
Local Open Scope string_scope.
Local Open Scope list_scope.

(** [fmt.Errorf("%s<suffix>", path)] and the [%d] of an index. *)
Definition field_error (path suffix : string) : error := ErrorString (path +++ suffix).
Definition index_path (path : string) (index : nat) : string :=
  path +++ "[" +++ pretty index +++ "]".
Definition int_text (n : Z) : string := pretty n.

(** [value == "" || value != strings.TrimSpace(value)]. *)
Definition untrimmed (value : string) : bool :=
  bool_decide (value = "") || negb (bool_decide (value = TrimSpace value)).

Definition not_matching (pattern : option regexp) (value : string) : bool :=
  match pattern with None => false | Some pattern => negb (MatchString pattern value) end.

Fixpoint unique_from (path : string) (pattern : option regexp) (index : nat) (seen : gset string)
    (values : list string) : res unit :=
  match values with
  | [] => Ok tt
  | value :: values =>
      let at_index := index_path path index in
      fail_if untrimmed value with_ field_error at_index ": must be non-empty without surrounding whitespace" ;;
      fail_if not_matching pattern value with_ field_error at_index ": has invalid format" ;;
      fail_if bool_decide (value ∈ seen) with_ field_error at_index ": must be unique" ;;
      unique_from path pattern (S index) ({[value]} ∪ seen) values
  end.

Definition validateUniqueStrings (path : string) (values : list string) (pattern : option regexp) :
    res unit := unique_from path pattern 0 ∅ values.

Definition validateFilters (path : string) (filters : FiltersConfig) : res unit :=
  _ ← validateUniqueStrings (path +++ ".linked_account_ids") (flt_LinkedAccountIDs filters) (Some accountIDPattern);
  _ ← validateUniqueStrings (path +++ ".services") (flt_Services filters) None;
  validateUniqueStrings (path +++ ".regions") (flt_Regions filters) None.

Definition validateBudgets (path : string) (target : TargetConfig) (limit : Z) : res unit :=
  if negb (bud_Enabled target) then Ok tt else
  fail_if bool_decide (length (bud_Names target) = 0) with_ field_error path ".budgets.names: must not be empty when budgets is enabled" ;;
  fail_if (limit <? Z.of_nat (length (bud_Names target)) * 3)%Z with_ field_error path ".budgets.names: exceeds collection.budgets.series_limit" ;;
  validateUniqueStrings (path +++ ".budgets.names") (bud_Names target) None.

Definition validateOrganizations (path : string) (target : TargetConfig) (value : AppConfig) : res unit :=
  if negb (org_Enabled target) then Ok tt else
  let ids := org_AccountIDs target in
  let limit := fam_SeriesLimit (col_Organizations (cfg_Collection value)) in
  let ce := col_CostExplorer (cfg_Collection value) in
  if bool_decide (length ids = 0) then
    fail_if negb (ce_Enabled target) || negb (en_Account (cce_Collectors ce)) with_ field_error path ".organizations.account_ids: observed mode requires the account cost collector" ;;
    fail_if (limit <? dim_SeriesLimit (cce_Dimensions ce))%Z with_ ErrorString "collection.organizations.series_limit: must cover the account collector series limit in observed mode" ;;
    Ok tt
  else
    fail_if (limit <? Z.of_nat (length ids))%Z with_ field_error path ".organizations.account_ids: exceeds collection.organizations.series_limit" ;;
    validateUniqueStrings (path +++ ".organizations.account_ids") ids (Some accountIDPattern).

Definition tagSeriesBudget (target : TargetConfig) (basisCount currencyCount : Z) : Z :=
  (fold_left (fun values key => values + tk_MaxValues key) (tags_Keys target) 0 * 2 *
   Z.max 1 basisCount * Z.max 1 currencyCount)%Z.

(** The loop over [target.Tags.Keys]: it returns the set of keys seen. *)
Fixpoint tag_keys_from (path : string) (cur : bool) (columns : gset string) (index : nat)
    (seen : gset string) (keys : list TagKeyConfig) : res (gset string) :=
  match keys with
  | [] => Ok seen
  | key :: keys =>
      let at_index := index_path (path +++ ".tags.keys") index in
      fail_if untrimmed (tk_Key key) with_ field_error at_index ".key: invalid" ;;
      fail_if outside (tk_MaxValues key) maxTagValues with_ field_error at_index ".max_values: must be between 1 and 500" ;;
      fail_if bool_decide (tk_Key key ∈ seen) with_ field_error at_index ".key: must be unique" ;;
      let seen := {[tk_Key key]} ∪ seen in
      fail_if cur && negb (bool_decide (tk_Key key ∈ columns)) with_ field_error at_index ".key: requires a matching cur.tag_columns entry" ;;
      tag_keys_from path cur columns (S index) seen keys
  end.

Definition validateTags (path : string) (target : TargetConfig)
    (seriesLimit basisCount maxCurrencies : Z) : res unit :=
  if negb (tags_Enabled target) then Ok tt else
  let cur := cur_Enabled (tgt_CUR target) in
  fail_if negb cur && negb (ce_Enabled target) with_ field_error path ".tags.enabled: requires cur or cost_explorer" ;;
  fail_if outside (Z.of_nat (length (tags_Keys target))) maxTagKeys with_ field_error path ".tags.keys: must contain between 1 and 20 entries" ;;
  let columns : gset string := list_to_set (map col_Key (cur_TagColumns (tgt_CUR target))) in
  seen ← tag_keys_from path cur columns 0 ∅ (tags_Keys target);
  fail_if cur && negb (bool_decide (size columns = size seen)) with_ field_error path ".cur.tag_columns: must exactly match tags.keys" ;;
  let currencyCount := if cur then maxCurrencies else 1%Z in
  fail_if (seriesLimit <? tagSeriesBudget target basisCount currencyCount)%Z with_ field_error path ".tags.keys: exceeds collection.tags.series_limit" ;;
  Ok tt.

Definition curSeriesRequired (target : TargetConfig) (basisCount maxCurrencies : Z) : Z :=
  (2 * Z.max 1 basisCount * Z.max 1 maxCurrencies +
   (if tags_Enabled target then tagSeriesBudget target basisCount maxCurrencies else 0))%Z.

Definition validateCURSeriesBudget (path : string) (target : TargetConfig)
    (seriesLimit basisCount maxCurrencies : Z) : res unit :=
  if negb (cur_Enabled (tgt_CUR target)) then Ok tt else
  let required := curSeriesRequired target basisCount maxCurrencies in
  fail_if (seriesLimit <? required)%Z with_ ErrorString ("collection.cur.series_limit: must be at least " +++ int_text required +++ " for " +++ path +++ ".cur") ;;
  Ok tt.

Definition validS3Prefix (value : string) : bool :=
  match url_Parse value with
  | None => false
  | Some location =>
      if negb (bool_decide (Scheme location = "s3")) || HasUser location ||
         negb (bool_decide (RawQuery location = "")) || negb (bool_decide (Fragment location = ""))
      then false
      else
        let bucket := Host location in
        if negb (MatchString s3BucketPattern bucket) || ParseIPv4 bucket || Contains bucket ".." ||
           Contains bucket ".-" || Contains bucket "-."
        then false
        else existsb (fun c => negb (bool_decide (c = "/"%char))) (bytes (URLPath location))
  end.

Example validS3Prefix_ex :
  map validS3Prefix
    ["s3://results/prefix/"; "s3://results"; "s3://results/"; "s3://results//"; "https://results/p";
     "s3://user@results/p"; "s3://results/p?x"; "s3://results/p?"; "s3://10.0.0.1/p"; "s3://a..b/p";
     "s3://results/%2F"; "s3://Results/p"]
  = [true; false; false; false; false; false; false; true; false; false; false; false].
Proof. vm_compute. reflexivity. Qed.

(** The struct literals of [validateCUR]'s first loop. *)
Definition cur_fields (cur : TargetCURConfig) : list (string * string) :=
  [(cur_Region cur, "region"); (cur_Database cur, "database"); (cur_Table cur, "table");
   (cur_Workgroup cur, "workgroup"); (cur_OutputLocation cur, "output_location")].

Fixpoint check_cur_fields (path : string) (checks : list (string * string)) : res unit :=
  match checks with
  | [] => Ok tt
  | (value, field) :: checks =>
      fail_if bool_decide (TrimSpace value = "") || negb (bool_decide (value = TrimSpace value)) with_
        field_error path (".cur." +++ field +++ ": must be non-empty without surrounding whitespace") ;;
      check_cur_fields path checks
  end.

Fixpoint tag_columns_from (path : string) (index : nat) (seen seenColumns : gset string)
    (columns : list CURTagColumn) : res unit :=
  match columns with
  | [] => Ok tt
  | column :: columns =>
      let at_index := index_path (path +++ ".cur.tag_columns") index in
      fail_if untrimmed (col_Key column) with_ field_error at_index ".key: invalid" ;;
      fail_if negb (MatchString sqlIdentifierPattern (col_Column column)) with_ field_error at_index ".column: must be a safe SQL identifier" ;;
      fail_if bool_decide (col_Key column ∈ seen) with_ field_error at_index ".key: must be unique" ;;
      fail_if bool_decide (col_Column column ∈ seenColumns) with_ field_error at_index ".column: must be unique" ;;
      tag_columns_from path (S index) ({[col_Key column]} ∪ seen) ({[col_Column column]} ∪ seenColumns) columns
  end.

Definition validateCUR (path : string) (target : TargetConfig)
    (requestTimeout refreshInterval : Duration) : res unit :=
  let cur := tgt_CUR target in
  if negb (cur_Enabled cur) then Ok tt else
  _ ← check_cur_fields path (cur_fields cur);
  fail_if negb (MatchString awsRegionPattern (cur_Region cur)) with_ field_error path ".cur.region: must use a valid AWS region format" ;;
  fail_if negb (MatchString sqlIdentifierPattern (cur_Database cur)) with_ field_error path ".cur.database: must be a safe SQL identifier" ;;
  fail_if negb (MatchString sqlIdentifierPattern (cur_Table cur)) with_ field_error path ".cur.table: must be a safe SQL identifier" ;;
  fail_if negb (MatchString workgroupPattern (cur_Workgroup cur)) with_ field_error path ".cur.workgroup: has invalid format" ;;
  fail_if negb (validS3Prefix (cur_OutputLocation cur)) with_ field_error path ".cur.output_location: must be a valid s3:// bucket prefix" ;;
  fail_if (cur_QueryTimeout cur <=? 0)%Z with_ field_error path ".cur.query_timeout: must be positive" ;;
  fail_if (cur_QueryTimeout cur <=? requestTimeout)%Z with_ field_error path ".cur.query_timeout: must exceed aws.request_timeout" ;;
  fail_if (maxCURQueryTimeout <? cur_QueryTimeout cur)%Z with_ field_error path ".cur.query_timeout: must not exceed 1h0m0s" ;;
  fail_if (refreshInterval <=? cur_QueryTimeout cur)%Z with_ field_error path ".cur.query_timeout: must be less than collection.cur.refresh_interval" ;;
  fail_if (cur_PollInterval cur <? minCURPollInterval)%Z with_ field_error path ".cur.poll_interval: must be at least 100ms" ;;
  fail_if (maxCURPollInterval <? cur_PollInterval cur)%Z with_ field_error path ".cur.poll_interval: must not exceed 1m0s" ;;
  fail_if (cur_QueryTimeout cur <=? cur_PollInterval cur)%Z with_ field_error path ".cur.poll_interval: must be less than query_timeout" ;;
  fail_if (maxTagKeys <? Z.of_nat (length (cur_TagColumns cur)))%Z with_ field_error path ".cur.tag_columns: must contain at most 20 entries" ;;
  tag_columns_from path 0 ∅ ∅ (cur_TagColumns cur).

(** [match[2]] of a role ARN: the second group, which is the fifth field between colons. *)
Definition role_account (arn : string) : string :=
  of_bytes (nth 4 (Split ":"%char (bytes arn)) []).

Section Environment.
(** [os.LookupEnv]. *)
Context (LookupEnv : string -> option string).

Definition env_missing (name : string) : bool :=
  match LookupEnv name with None => true | Some value => bool_decide (TrimSpace value = "") end.

Definition validateSecretEnvironment (path name : string) (required : bool) : res unit :=
  if bool_decide (name = "") && negb required then Ok tt else
  fail_if negb (MatchString environmentPattern name) with_ field_error path ": must be a valid environment variable name" ;;
  fail_if env_missing name with_ field_error path ": referenced environment variable must be set and non-empty" ;;
  Ok tt.

(** The map of roles seen so far is returned. *)
Definition validateAssumeRole (path : string) (target : TargetConfig) (roles : gset string) :
    res (gset string) :=
  match cred_AssumeRole target with
  | None => Ok roles
  | Some role =>
      let arn := RoleARN role in
      fail_if negb (MatchString roleARNPattern arn) || Contains arn "*" with_ field_error path ".assume_role.role_arn: must be an exact IAM role ARN without wildcards" ;;
      fail_if negb (bool_decide (role_account arn = tgt_AccountID target)) with_ field_error path ".assume_role.role_arn: account must match account_id" ;;
      fail_if bool_decide (arn ∈ roles) with_ field_error path ".assume_role.role_arn: must be unique" ;;
      fail_if negb (MatchString environmentPattern (ExternalIDEnv role)) with_ field_error path ".assume_role.external_id_env: must be a valid environment variable name" ;;
      fail_if env_missing (ExternalIDEnv role) with_ field_error path ".assume_role.external_id_env: referenced environment variable must be set and non-empty" ;;
      fail_if negb (bool_decide (SessionName role = "")) && negb (MatchString sessionNamePattern (SessionName role)) with_ field_error path ".assume_role.session_name: must be 2..64 AWS STS session characters" ;;
      Ok ({[arn]} ∪ roles)
  end.

Definition no_static_fields (source : CredentialSourceConfig) : bool :=
  bool_decide (AccessKeyIDEnv source = "") && bool_decide (SecretAccessKeyEnv source = "") &&
  bool_decide (SessionTokenEnv source = "").

Definition validateSource (name : string) (source : CredentialSourceConfig) : res unit :=
  let path := "aws.credentials.sources." +++ name in
  fail_if negb (MatchString targetNamePattern name) with_ field_error path ": source name must match ^[a-z][a-z0-9_-]{0,31}$" ;;
  if bool_decide (src_Type source = CredentialSourceDefaultChain) then
    fail_if negb (bool_decide (src_Profile source = "")) || negb (no_static_fields source) with_ field_error path ": default_chain does not accept profile or static environment fields" ;;
    Ok tt
  else if bool_decide (src_Type source = CredentialSourceProfile) then
    fail_if untrimmed (src_Profile source) with_ field_error path ".profile: must be non-empty without surrounding whitespace" ;;
    fail_if negb (no_static_fields source) with_ field_error path ": profile does not accept static environment fields" ;;
    Ok tt
  else if bool_decide (src_Type source = CredentialSourceStaticEnv) then
    fail_if negb (bool_decide (src_Profile source = "")) with_ field_error path ".profile: static_env does not accept profile" ;;
    _ ← validateSecretEnvironment (path +++ ".access_key_id_env") (AccessKeyIDEnv source) true;
    _ ← validateSecretEnvironment (path +++ ".secret_access_key_env") (SecretAccessKeyEnv source) true;
    validateSecretEnvironment (path +++ ".session_token_env") (SessionTokenEnv source) false
  else Err (field_error path ".type: must be one of default_chain, profile, static_env").

(** [range value.Sources], in the order of this iteration. *)
Definition validateCredentialSources (range : list (string * CredentialSourceConfig)) : res unit :=
  fail_if outside (Z.of_nat (length range)) maxTargets with_ ErrorString "aws.credentials.sources: must contain between 1 and 20 entries" ;;
  fold_left (fun checked entry => _ ← checked; validateSource entry.1 entry.2) range (Ok tt).

(** The four sets of [validateTargets] and its counter. *)
Record TargetSets := mkTargetSets {
  seen_names : gset string; seen_accounts : gset string; seen_roles : gset string;
  seen_sources : gset string; requiredCostTargets : nat
}.

Definition any_integration (target : TargetConfig) : bool :=
  ce_Enabled target || org_Enabled target || bud_Enabled target || com_Enabled target ||
  ano_Enabled target || cur_Enabled (tgt_CUR target) || tags_Enabled target.

(** One iteration of the loop over the targets. *)
Definition validateTarget (value : AppConfig) (index : nat) (sets : TargetSets)
    (target : TargetConfig) : res TargetSets :=
  let path := index_path "targets" index in
  let collection := cfg_Collection value in
  let basisCount := Z.of_nat (length (CostBases (col_CostExplorer collection))) in
  let maxCurrencies := ccur_MaxCurrencies (col_CUR collection) in
  fail_if negb (MatchString targetNamePattern (tgt_Name target)) with_ field_error path ".name: must match ^[a-z][a-z0-9_-]{0,31}$" ;;
  fail_if bool_decide (tgt_Name target ∈ seen_names sets) with_ field_error path ".name: must be unique" ;;
  fail_if negb (MatchString accountIDPattern (tgt_AccountID target)) with_ field_error path ".account_id: must contain 12 digits" ;;
  fail_if bool_decide (tgt_AccountID target ∈ seen_accounts sets) with_ field_error path ".account_id: must be unique" ;;
  fail_if negb (MatchString targetNamePattern (cred_Source target)) with_ field_error path ".credentials.source: must reference a valid credential source" ;;
  fail_if bool_decide (Sources (cfg_AWS value) !! cred_Source target = None) with_ field_error path ".credentials.source: credential source does not exist" ;;
  fail_if negb (any_integration target) with_ field_error path ": at least one integration must be enabled" ;;
  fail_if tgt_Required target && negb (ce_Enabled target) with_ field_error path ".required: requires cost_explorer.enabled" ;;
  roles ← validateAssumeRole (path +++ ".credentials") target (seen_roles sets);
  let direct := bool_decide (cred_AssumeRole target = None) in
  fail_if direct && bool_decide (cred_Source target ∈ seen_sources sets) with_ field_error path ".credentials.source: a credential source may be used by at most one direct target" ;;
  _ ← validateFilters (path +++ ".cost_explorer.filters") (ce_Filters target);
  _ ← validateOrganizations path target value;
  _ ← validateBudgets path target (fam_SeriesLimit (col_Budgets collection));
  _ ← validateCUR path target (RequestTimeout (cfg_AWS value)) (ccur_RefreshInterval (col_CUR collection));
  _ ← validateTags path target (fam_SeriesLimit (col_Tags collection)) basisCount maxCurrencies;
  _ ← validateCURSeriesBudget path target (ccur_SeriesLimit (col_CUR collection)) basisCount maxCurrencies;
  Ok (mkTargetSets ({[tgt_Name target]} ∪ seen_names sets) ({[tgt_AccountID target]} ∪ seen_accounts sets)
        roles (if direct then {[cred_Source target]} ∪ seen_sources sets else seen_sources sets)
        ((if tgt_Required target then 1 else 0) + requiredCostTargets sets)).

Fixpoint validateTargets_from (value : AppConfig) (index : nat) (sets : TargetSets)
    (targets : list TargetConfig) : res TargetSets :=
  match targets with
  | [] => Ok sets
  | target :: targets =>
      sets ← validateTarget value index sets target;
      validateTargets_from value (S index) sets targets
  end.

Definition knownBases : list string := ["unblended"; "amortized"; "net"].

Fixpoint check_bases (index : nat) (bases : list string) : res unit :=
  match bases with
  | [] => Ok tt
  | basis :: bases =>
      fail_if negb (bool_decide (basis ∈ knownBases)) with_ field_error (index_path "collection.cost_explorer.cost_bases" index) ": must be unblended, amortized, or net" ;;
      check_bases (S index) bases
  end.

Definition validateTargets (value : AppConfig) : res unit :=
  let bases := CostBases (col_CostExplorer (cfg_Collection value)) in
  sets ← validateTargets_from value 0 (mkTargetSets ∅ ∅ ∅ ∅ 0) (cfg_Targets value);
  _ ← check_bases 0 bases;
  _ ← validateUniqueStrings "collection.cost_explorer.cost_bases" bases None;
  fail_if bool_decide (requiredCostTargets sets = 0) with_ ErrorString "targets: at least one required Cost Explorer target is required" ;;
  Ok tt.

(** [range] is the order in which this call ranges over the map of sources. *)
Definition Validate (range : gmap string CredentialSourceConfig -> list (string * CredentialSourceConfig))
    (value : AppConfig) : res unit :=
  _ ← ValidateServer (cfg_Server value);
  _ ← validateBase value;
  _ ← validateCredentialSources (range (Sources (cfg_AWS value)));
  validateTargets value.
End Environment.
