(* ===== verification/ValidationSpec.v ===== *)
(** * What an accepted configuration is

    [Valid] states the contract of internal/config without the order of the checks, the
    accumulated sets or the error texts, and [Validate_spec] says that [Validate] accepts
    exactly the valid configurations, whatever the order the map of credential sources is
    ranged over. *)

From S2P Require Import Prelude GoStrings GoRegexp GoFloat GoTime GoUrl Errors FamilyCollectors.
From S2P Require Import Config Validation.
Local Open Scope string_scope.
Local Open Scope list_scope.

(** ** The contract *)

Definition within (value limit : Z) : Prop := (0 < value <= limit)%Z.
Definition well_named (value : string) : Prop := value <> "" /\ TrimSpace value = value.
Definition has_format (pattern : regexp) (value : string) : Prop := Matches pattern (bytes value).

Definition ValidServer (value : ServerConfig) : Prop :=
  TrimSpace (ListenAddress value) <> "" /\ HasPrefix (MetricsPath value) "/" = true /\
  reservedMetricsPath value = false /\ within (MaxInFlight value) maxServerInFlight /\
  (0 < ReadHeaderTimeout value)%Z /\ (0 < ReadTimeout value)%Z /\ (0 < WriteTimeout value)%Z /\
  (0 < IdleTimeout value)%Z /\ (0 < ShutdownTimeout value)%Z.

Definition ValidAWS (value : AWSConfig) : Prop :=
  aws_Region value = "us-east-1" /\ (0 < RequestTimeout value)%Z /\
  within (retry_MaxAttempts (Retry value)) maxRetryAttempts /\
  (0 < BaseDelay (Retry value) <= MaxBackoff (Retry value))%Z /\
  invalidRate (GlobalRequestsPerSecond (RateLimit value)) = false /\
  within (GlobalBurst (RateLimit value)) maxRateLimitBurst /\
  invalidRate (TargetRequestsPerSecond (RateLimit value)) = false /\
  within (TargetBurst (RateLimit value)) maxRateLimitBurst.

Definition ValidBackoff (value : FailureBackoffConfig) : Prop :=
  within (fb_MaxAttempts value) maxRetryAttempts /\ (0 < fb_Initial value <= fb_Max value)%Z /\
  nonFinite (fb_Multiplier value) = false /\ fleb (fb_Multiplier value) (f64_of_Z 1) = false.

Definition ValidCostExplorer (value : CollectionCostExplorerConfig) : Prop :=
  let collectors := cce_Collectors value in
  let label := dim_OverflowLabel (cce_Dimensions value) in
  (en_Total collectors || en_Service collectors || en_Region collectors || en_Account collectors ||
   en_Forecast collectors = true) /\
  CostBases value <> [] /\ NoDup (CostBases value) /\
  (forall basis, basis ∈ CostBases value -> basis ∈ knownBases) /\
  within (cce_MaxPages value) maxPages /\
  (en_Forecast collectors = true -> (80 <= cce_PredictionInterval value <= 99)%Z) /\
  within (dim_SeriesLimit (cce_Dimensions value)) maxCostSeries /\
  dim_Overflow (cce_Dimensions value) = "aggregate" /\ well_named label.

Definition ValidFamily (timeout : Duration) (limit : Z) (value : FamilyConfig) : Prop :=
  (timeout < fam_RefreshInterval value)%Z /\ within (fam_MaxPages value) maxPages /\
  within (fam_SeriesLimit value) limit.

Definition ValidCURCollection (timeout : Duration) (value : CollectionCURConfig) : Prop :=
  (timeout < ccur_RefreshInterval value)%Z /\ within (ccur_MaxPages value) maxPages /\
  within (ccur_MaxRows value) 100000 /\ within (ccur_MaxCurrencies value) 10 /\
  within (ccur_SeriesLimit value) 20000.

Definition ValidCollection (timeout : Duration) (value : CollectionConfig) : Prop :=
  (timeout < col_RefreshInterval value)%Z /\ nonFinite (col_JitterRatio value) = false /\
  fltb (col_JitterRatio value) f0 = false /\ fltb (f64_ratio 1 2) (col_JitterRatio value) = false /\
  within (col_MaxConcurrency value) maxConcurrency /\ ValidBackoff (FailureBackoff value) /\
  ValidCostExplorer (col_CostExplorer value) /\
  ValidFamily timeout maxOrgSeries (col_Organizations value) /\
  ValidFamily timeout maxBudgetSeries (col_Budgets value) /\
  ValidFamily timeout maxCostSeries (col_Commitments value) /\
  ValidFamily timeout 20 (col_Anomalies value) /\
  ValidFamily timeout maxBudgetSeries (col_Tags value) /\ ValidCURCollection timeout (col_CUR value).

Section Contract.
Context (LookupEnv : string -> option string).

(** An environment variable that is set to something other than white space. *)
Definition env_present (name : string) : Prop :=
  exists value, LookupEnv name = Some value /\ TrimSpace value <> "".
Definition ValidSecret (name : string) : Prop := has_format environmentPattern name /\ env_present name.

Definition ValidSource (name : string) (source : CredentialSourceConfig) : Prop :=
  has_format targetNamePattern name /\
  ((src_Type source = CredentialSourceDefaultChain /\ src_Profile source = "" /\
    AccessKeyIDEnv source = "" /\ SecretAccessKeyEnv source = "" /\ SessionTokenEnv source = "") \/
   (src_Type source = CredentialSourceProfile /\ well_named (src_Profile source) /\
    AccessKeyIDEnv source = "" /\ SecretAccessKeyEnv source = "" /\ SessionTokenEnv source = "") \/
   (src_Type source = CredentialSourceStaticEnv /\ src_Profile source = "" /\
    ValidSecret (AccessKeyIDEnv source) /\ ValidSecret (SecretAccessKeyEnv source) /\
    (SessionTokenEnv source = "" \/ ValidSecret (SessionTokenEnv source)))).

Definition ValidRole (account : string) (role : AssumeRoleConfig) : Prop :=
  has_format roleARNPattern (RoleARN role) /\ role_account (RoleARN role) = account /\
  ValidSecret (ExternalIDEnv role) /\
  (SessionName role = "" \/ has_format sessionNamePattern (SessionName role)).

Definition ValidNames (pattern : option regexp) (values : list string) : Prop :=
  NoDup values /\
  forall v, v ∈ values -> well_named v /\ forall p, pattern = Some p -> has_format p v.

Definition ValidFilters (value : FiltersConfig) : Prop :=
  ValidNames (Some accountIDPattern) (flt_LinkedAccountIDs value) /\
  ValidNames None (flt_Services value) /\ ValidNames None (flt_Regions value).

Definition ValidOrganizations (value : AppConfig) (target : TargetConfig) : Prop :=
  let limit := fam_SeriesLimit (col_Organizations (cfg_Collection value)) in
  let ce := col_CostExplorer (cfg_Collection value) in
  if decide (org_AccountIDs target = []) then
    ce_Enabled target = true /\ en_Account (cce_Collectors ce) = true /\
    (dim_SeriesLimit (cce_Dimensions ce) <= limit)%Z
  else
    (Z.of_nat (length (org_AccountIDs target)) <= limit)%Z /\
    ValidNames (Some accountIDPattern) (org_AccountIDs target).

Definition ValidBudgets (limit : Z) (names : list string) : Prop :=
  names <> [] /\ (Z.of_nat (length names) * 3 <= limit)%Z /\ ValidNames None names.

Definition ValidCUR (requestTimeout refreshInterval : Duration) (cur : TargetCURConfig) : Prop :=
  has_format awsRegionPattern (cur_Region cur) /\
  has_format sqlIdentifierPattern (cur_Database cur) /\
  has_format sqlIdentifierPattern (cur_Table cur) /\
  has_format workgroupPattern (cur_Workgroup cur) /\
  well_named (cur_OutputLocation cur) /\ validS3Prefix (cur_OutputLocation cur) = true /\
  (0 < cur_QueryTimeout cur)%Z /\ (requestTimeout < cur_QueryTimeout cur <= maxCURQueryTimeout)%Z /\
  (cur_QueryTimeout cur < refreshInterval)%Z /\
  (minCURPollInterval <= cur_PollInterval cur <= maxCURPollInterval)%Z /\
  (cur_PollInterval cur < cur_QueryTimeout cur)%Z /\
  (Z.of_nat (length (cur_TagColumns cur)) <= maxTagKeys)%Z /\
  NoDup (map col_Key (cur_TagColumns cur)) /\ NoDup (map col_Column (cur_TagColumns cur)) /\
  (forall column, column ∈ cur_TagColumns cur ->
     well_named (col_Key column) /\ has_format sqlIdentifierPattern (col_Column column)).

(** The series the tag keys can need: two windows, every basis and every currency. *)
Definition tag_series (keys : list TagKeyConfig) (bases currencies : Z) : Z :=
  (foldr (fun key n => tk_MaxValues key + n) 0 keys * 2 * Z.max 1 bases * Z.max 1 currencies)%Z.

Definition ValidTags (limit bases maxCurrencies : Z) (target : TargetConfig) : Prop :=
  let cur := tgt_CUR target in
  (cur_Enabled cur = true \/ ce_Enabled target = true) /\
  within (Z.of_nat (length (tags_Keys target))) maxTagKeys /\ NoDup (map tk_Key (tags_Keys target)) /\
  (forall key, key ∈ tags_Keys target -> well_named (tk_Key key) /\ within (tk_MaxValues key) maxTagValues) /\
  (cur_Enabled cur = true ->
     forall k, k ∈ map tk_Key (tags_Keys target) <-> k ∈ map col_Key (cur_TagColumns cur)) /\
  (tag_series (tags_Keys target) bases (if cur_Enabled cur then maxCurrencies else 1) <= limit)%Z.

Record ValidTarget (value : AppConfig) (target : TargetConfig) : Prop := {
  vt_name : has_format targetNamePattern (tgt_Name target);
  vt_account : has_format accountIDPattern (tgt_AccountID target);
  vt_source : has_format targetNamePattern (cred_Source target);
  vt_known_source : is_Some (Sources (cfg_AWS value) !! cred_Source target);
  vt_enabled : any_integration target = true;
  vt_required : tgt_Required target = true -> ce_Enabled target = true;
  vt_role : forall role, cred_AssumeRole target = Some role -> ValidRole (tgt_AccountID target) role;
  vt_filters : ValidFilters (ce_Filters target);
  vt_organizations : org_Enabled target = true -> ValidOrganizations value target;
  vt_budgets : bud_Enabled target = true ->
    ValidBudgets (fam_SeriesLimit (col_Budgets (cfg_Collection value))) (bud_Names target);
  vt_cur : cur_Enabled (tgt_CUR target) = true ->
    ValidCUR (RequestTimeout (cfg_AWS value)) (ccur_RefreshInterval (col_CUR (cfg_Collection value))) (tgt_CUR target);
  vt_tags : tags_Enabled target = true ->
    ValidTags (fam_SeriesLimit (col_Tags (cfg_Collection value)))
      (Z.of_nat (length (CostBases (col_CostExplorer (cfg_Collection value)))))
      (ccur_MaxCurrencies (col_CUR (cfg_Collection value))) target;
  vt_cur_budget : cur_Enabled (tgt_CUR target) = true ->
    let bases := Z.of_nat (length (CostBases (col_CostExplorer (cfg_Collection value)))) in
    let currencies := ccur_MaxCurrencies (col_CUR (cfg_Collection value)) in
    (2 * Z.max 1 bases * Z.max 1 currencies +
     (if tags_Enabled target then tag_series (tags_Keys target) bases currencies else 0) <=
     ccur_SeriesLimit (col_CUR (cfg_Collection value)))%Z
}.

(** The role of a target, or its credential source when it has none. *)
Definition role_of (target : TargetConfig) : option string := RoleARN <$> cred_AssumeRole target.
Definition direct_source (target : TargetConfig) : option string :=
  match cred_AssumeRole target with None => Some (cred_Source target) | Some _ => None end.

Record Valid (value : AppConfig) : Prop := {
  v_server : ValidServer (cfg_Server value);
  v_log : Level (cfg_Log value) ∈ ["debug"; "info"; "warn"; "error"] /\
          Format (cfg_Log value) ∈ ["json"; "text"];
  v_aws : ValidAWS (cfg_AWS value);
  v_collection : ValidCollection (RequestTimeout (cfg_AWS value)) (cfg_Collection value);
  v_cache : (col_RefreshInterval (cfg_Collection value) <= cache_FreshnessTTL (cfg_Cache value) <=
             cache_StaleAfter (cfg_Cache value))%Z;
  v_source_count : within (Z.of_nat (size (Sources (cfg_AWS value)))) maxTargets;
  v_sources : forall name source, Sources (cfg_AWS value) !! name = Some source -> ValidSource name source;
  v_target_count : within (Z.of_nat (length (cfg_Targets value))) maxTargets;
  v_targets : forall target, target ∈ cfg_Targets value -> ValidTarget value target;
  v_names : NoDup (map tgt_Name (cfg_Targets value));
  v_accounts : NoDup (map tgt_AccountID (cfg_Targets value));
  v_roles : NoDup (omap role_of (cfg_Targets value));
  v_direct : NoDup (omap direct_source (cfg_Targets value));
  v_required : exists target, target ∈ cfg_Targets value /\ tgt_Required target = true
}.
End Contract.

(** ** Lists of checks *)

Fixpoint all_valid (checks : list validationCheck) : Prop :=
  match checks with [] => True | check :: checks => invalid check = false /\ all_valid checks end.

Lemma firstValidationError_ok checks : firstValidationError checks = Ok tt <-> all_valid checks.
Proof.
  induction checks as [|check checks IH]; simpl; [done|]. by rewrite guard_ok, IH.
Qed.

Lemma outside_within v limit : outside v limit = false <-> within v limit.
Proof. unfold outside, within. rewrite orb_false_iff, Z.leb_gt, Z.ltb_ge. done. Qed.

Lemma bool_decide_neg_false (P : Prop) `{Decision P} : negb (bool_decide P) = false <-> P.
Proof. by rewrite negb_false_iff, bool_decide_eq_true. Qed.

Lemma not_in_empty {A} `{Countable A} (x : A) : x ∉ (∅ : gset A).
Proof. set_solver. Qed.

(** ** Formats and names *)

Definition all_bytes : list ascii := map (fun n => Ascii.ascii_of_nat n) (seq 0 256).

Lemma all_bytes_full c : c ∈ all_bytes.
Proof.
  apply elem_of_map. exists (Ascii.nat_of_ascii c). split; [|apply Ascii.ascii_nat_embedding].
  apply elem_of_seq. pose proof (Ascii.nat_ascii_bounded c). lia.
Qed.

Definition plain_pattern (p : regexp) : bool :=
  negb (nullable p) && forallb (fun c => implb (alphabet p c) (plain_byte c)) all_bytes.

Lemma MatchString_format p v : MatchString p v = true <-> has_format p v.
Proof. apply matches_correct. Qed.

Lemma no_match_format p v : negb (MatchString p v) = false <-> has_format p v.
Proof. by rewrite negb_false_iff, MatchString_format. Qed.

(** A pattern without white space that does not match the empty string only accepts names. *)
Lemma format_well_named p v : plain_pattern p = true -> has_format p v -> well_named v.
Proof.
  intros [Hn Hp]%andb_prop Hm%MatchString_format. apply negb_true_iff in Hn. split.
  - by eapply MatchString_nonempty.
  - eapply MatchString_plain; [|exact Hm]. intros c Hc.
    pose proof (proj1 (forallb_elem_of _ _) Hp c (all_bytes_full c)) as Hi. simpl in Hi.
    by rewrite Hc in Hi.
Qed.

Lemma untrimmed_well_named v : untrimmed v = false <-> well_named v.
Proof.
  unfold untrimmed, well_named.
  rewrite orb_false_iff, bool_decide_eq_false, bool_decide_neg_false. naive_solver.
Qed.

Lemma blank_well_named v :
  bool_decide (TrimSpace v = "") || negb (bool_decide (v = TrimSpace v)) = false <-> well_named v.
Proof.
  unfold well_named. rewrite orb_false_iff, bool_decide_eq_false, bool_decide_neg_false.
  split; intros [Hv Ht]; split; congruence.
Qed.

(** [x] is new to [S], and so is every later element: the state of a uniqueness check. *)
Definition fresh (S : gset string) (l : list string) : Prop := NoDup l /\ forall x, x ∈ l -> x ∉ S.

Lemma fresh_nil S : fresh S [].
Proof. split; [constructor|set_solver]. Qed.

Lemma fresh_cons S x l : fresh S (x :: l) <-> x ∉ S /\ fresh ({[x]} ∪ S) l.
Proof.
  unfold fresh. rewrite NoDup_cons. split.
  - intros [[Hx Hl] Hf]. split; [apply Hf; by left|]. split; [done|]. intros y Hy.
    rewrite elem_of_union, elem_of_singleton. intros [->|Hs]; [done|]. apply (Hf y); [by right|done].
  - intros (Hx & Hl & Hf). split; [split; [|done]|].
    + intros Hin. apply (Hf x Hin). set_solver.
    + intros y [->|Hy]%elem_of_cons; [done|]. specialize (Hf y Hy). set_solver.
Qed.

Lemma fresh_empty l : fresh ∅ l <-> NoDup l.
Proof. unfold fresh. split; [tauto|]. intros H. split; [done|set_solver]. Qed.

Lemma unique_from_ok path pattern index seen values :
  unique_from path pattern index seen values = Ok tt <->
  fresh seen values /\
  forall v, v ∈ values -> well_named v /\ forall p, pattern = Some p -> has_format p v.
Proof.
  assert (Hpat : forall v, not_matching pattern v = false <-> forall p, pattern = Some p -> has_format p v).
  { intros v. destruct pattern as [p|]; simpl; [|by split].
    rewrite no_match_format. naive_solver. }
  revert index seen. induction values as [|v values IH]; intros index seen; simpl.
  - split; [intros _|done]. split; [apply fresh_nil|set_solver].
  - rewrite !guard_ok, untrimmed_well_named, Hpat, bool_decide_eq_false, IH, fresh_cons.
    setoid_rewrite elem_of_cons. naive_solver.
Qed.

Lemma validateUniqueStrings_ok path values pattern :
  validateUniqueStrings path values pattern = Ok tt <-> ValidNames pattern values.
Proof. unfold validateUniqueStrings, ValidNames. by rewrite unique_from_ok, fresh_empty. Qed.

Lemma bind_unit_ok (m : res unit) (k : res unit) :
  (_ ← m; k) = Ok tt <-> m = Ok tt /\ k = Ok tt.
Proof. rewrite bind_ok. split; [intros ([] & Hm & Hk); done|intros [Hm Hk]; by exists tt]. Qed.

Lemma ok_tt (m : res unit) u : m = Ok u <-> m = Ok tt.
Proof. by destruct u. Qed.

Lemma bind_skip_ok {A} (m : res unit) (k : res A) a :
  (_ ← m; k) = Ok a <-> m = Ok tt /\ k = Ok a.
Proof. rewrite bind_ok. split; [intros ([] & Hm & Hk); done|intros [Hm Hk]; by exists tt]. Qed.

Lemma imp_true (P : Prop) : (true = true -> P) <-> P.
Proof. split; [intros H; by apply H|done]. Qed.

Lemma and_ok_tt (P : Prop) : P /\ Ok (E:=error) tt = Ok tt <-> P.
Proof. by split; [intros [? _]|split]. Qed.

Lemma validateFilters_ok path filters : validateFilters path filters = Ok tt <-> ValidFilters filters.
Proof.
  unfold validateFilters, ValidFilters. by rewrite !bind_unit_ok, !validateUniqueStrings_ok.
Qed.

Lemma validateBudgets_ok path target limit :
  validateBudgets path target limit = Ok tt <->
  (bud_Enabled target = true -> ValidBudgets limit (bud_Names target)).
Proof.
  unfold validateBudgets, ValidBudgets. destruct (bud_Enabled target); simpl; [|by split].
  by rewrite !guard_ok, validateUniqueStrings_ok, bool_decide_eq_false, Z.ltb_ge,
    length_zero_iff_nil, imp_true.
Qed.

Lemma validateOrganizations_ok path target value :
  validateOrganizations path target value = Ok tt <->
  (org_Enabled target = true -> ValidOrganizations value target).
Proof.
  unfold validateOrganizations, ValidOrganizations. destruct (org_Enabled target); simpl; [|by split].
  rewrite imp_true. case_bool_decide as Hl; rewrite length_zero_iff_nil in Hl.
  - rewrite decide_True by done. rewrite !guard_ok, orb_false_iff, !negb_false_iff, Z.ltb_ge.
    rewrite and_ok_tt. tauto.
  - rewrite decide_False by done. by rewrite guard_ok, validateUniqueStrings_ok, Z.ltb_ge.
Qed.

(** ** Tags and CUR *)

Lemma fold_left_sum keys n :
  (fold_left (fun values key => values + tk_MaxValues key) keys n =
   foldr (fun key n => tk_MaxValues key + n) 0 keys + n)%Z.
Proof. revert n. induction keys as [|key keys IH]; intros n; simpl; [done|]. rewrite IH. lia. Qed.

Lemma tagSeriesBudget_eq target bases currencies :
  tagSeriesBudget target bases currencies = tag_series (tags_Keys target) bases currencies.
Proof. unfold tagSeriesBudget, tag_series. rewrite fold_left_sum. lia. Qed.

Lemma tag_keys_from_ok path cur columns index seen keys seen' :
  tag_keys_from path cur columns index seen keys = Ok seen' <->
  fresh seen (map tk_Key keys) /\
  (forall key, key ∈ keys -> well_named (tk_Key key) /\ within (tk_MaxValues key) maxTagValues) /\
  (cur = true -> forall k, k ∈ map tk_Key keys -> k ∈ columns) /\
  seen' = list_to_set (map tk_Key keys) ∪ seen.
Proof.
  revert index seen. induction keys as [|key keys IH]; intros index seen.
  - simpl. rewrite union_empty_l_L. split.
    + intros [= <-]. split; [apply fresh_nil|]. split; [set_solver|]. split; [set_solver|done].
    + by intros (_ & _ & _ & ->).
  - cbn [tag_keys_from map list_to_set].
    rewrite !guard_ok, untrimmed_well_named, outside_within, bool_decide_eq_false, IH, fresh_cons.
    assert (Hset : forall s : gset string, s = {[tk_Key key]} ∪ list_to_set (map tk_Key keys) ∪ seen <->
                   s = list_to_set (map tk_Key keys) ∪ ({[tk_Key key]} ∪ seen))
      by (intros s; split; intros ->; set_solver).
    rewrite Hset, andb_false_iff, bool_decide_neg_false. setoid_rewrite elem_of_cons. split.
    + intros (Hn & Hw & Hs & Hc & Hf & Hall & Hsub & ->). split; [done|].
      split; [by intros k [->|Hk]; auto|]. split; [|done].
      intros Hcur k [->|Hk]; [|by apply Hsub]. destruct Hc as [Hc|Hc]; [congruence|done].
    + intros ([Hs Hf] & Hall & Hsub & ->). destruct (Hall key (or_introl eq_refl)) as [Hn Hw].
      split; [done|]. split; [done|]. split; [done|].
      split; [destruct cur; [right; apply Hsub; auto|by left]|].
      split; [done|]. split; [intros k Hk; apply Hall; auto|]. split; [intros Hcur k Hk; apply Hsub; auto|done].
Qed.

Lemma same_size_same_set (c s : gset string) :
  s ⊆ c -> size c = size s <-> forall k, k ∈ s <-> k ∈ c.
Proof.
  intros Hsub. split.
  - intros Hs k. assert (s ≡ c) as Heq by (apply set_subseteq_size_equiv; [done|lia]). apply Heq.
  - intros Heq. f_equal. by apply leibniz_equiv, set_equiv; intros k; rewrite Heq.
Qed.

Lemma validateTags_ok path target limit bases currencies :
  validateTags path target limit bases currencies = Ok tt <->
  (tags_Enabled target = true -> ValidTags limit bases currencies target).
Proof.
  unfold validateTags, ValidTags. destruct (tags_Enabled target); simpl; [|by split].
  rewrite imp_true, !guard_ok, andb_false_iff, !negb_false_iff, outside_within, bind_ok.
  setoid_rewrite tag_keys_from_ok. setoid_rewrite fresh_empty.
  set (keys := tags_Keys target) in *. set (cur := cur_Enabled (tgt_CUR target)) in *.
  set (columns := map col_Key (cur_TagColumns (tgt_CUR target))).
  rewrite tagSeriesBudget_eq. fold keys. setoid_rewrite guard_ok. setoid_rewrite guard_ok.
  setoid_rewrite and_ok_tt. setoid_rewrite Z.ltb_ge.
  assert (Hcols : (cur = true -> forall k, k ∈ map tk_Key keys -> k ∈ (list_to_set columns : gset string)) ->
    forall D : Decision (size (list_to_set columns : gset string) =
                         size (list_to_set (map tk_Key keys) ∪ ∅ : gset string)),
    cur && negb (@bool_decide _ D) = false <->
    (cur = true -> forall k, k ∈ map tk_Key keys <-> k ∈ columns)).
  { intros Hsub D. rewrite andb_false_iff, bool_decide_neg_false. destruct cur; [|naive_solver].
    rewrite imp_true, same_size_same_set by (intros k; specialize (Hsub eq_refl k); set_solver).
    split; [intros [|H]; [done|]|intros H; right]; intros k; specialize (H k); set_solver. }
  split.
  - intros (Hor & Hlen & seen & (Hnd & Hkeys & Hsub & ->) & Hc & Hlim).
    pose proof (proj1 (Hcols Hsub _) Hc). done.
  - intros (Hor & Hlen & Hnd & Hkeys & Hc & Hlim).
    assert (Hsub : cur = true -> forall k, k ∈ map tk_Key keys -> k ∈ (list_to_set columns : gset string)).
    { intros Ht k Hk. apply elem_of_list_to_set. by apply Hc. }
    split; [done|]. split; [done|]. eexists. split; [by split|]. split; [|done]. by apply (proj2 (Hcols Hsub _)).
Qed.

Lemma validateCURSeriesBudget_ok path target limit bases currencies :
  validateCURSeriesBudget path target limit bases currencies = Ok tt <->
  (cur_Enabled (tgt_CUR target) = true ->
   2 * Z.max 1 bases * Z.max 1 currencies +
   (if tags_Enabled target then tag_series (tags_Keys target) bases currencies else 0) <= limit)%Z.
Proof.
  unfold validateCURSeriesBudget, curSeriesRequired.
  destruct (cur_Enabled (tgt_CUR target)); simpl; [|by split].
  by rewrite imp_true, guard_ok, and_ok_tt, Z.ltb_ge, tagSeriesBudget_eq.
Qed.

Lemma tag_columns_from_ok path index seen seenColumns columns :
  tag_columns_from path index seen seenColumns columns = Ok tt <->
  fresh seen (map col_Key columns) /\ fresh seenColumns (map col_Column columns) /\
  forall column, column ∈ columns ->
    well_named (col_Key column) /\ has_format sqlIdentifierPattern (col_Column column).
Proof.
  revert index seen seenColumns.
  induction columns as [|column columns IH]; intros index seen seenColumns; simpl.
  - split; [intros _|done]. split; [apply fresh_nil|]. split; [apply fresh_nil|set_solver].
  - rewrite !guard_ok, untrimmed_well_named, no_match_format, !bool_decide_eq_false, IH, !fresh_cons.
    setoid_rewrite elem_of_cons. naive_solver.
Qed.

Lemma check_cur_fields_ok path checks :
  check_cur_fields path checks = Ok tt <-> forall check, check ∈ checks -> well_named check.1.
Proof.
  induction checks as [|[value field] checks IH]; cbn [check_cur_fields].
  - split; [set_solver|done].
  - rewrite guard_ok, blank_well_named, IH. setoid_rewrite elem_of_cons. naive_solver.
Qed.

Lemma validateCUR_ok path target requestTimeout refreshInterval :
  validateCUR path target requestTimeout refreshInterval = Ok tt <->
  (cur_Enabled (tgt_CUR target) = true -> ValidCUR requestTimeout refreshInterval (tgt_CUR target)).
Proof.
  unfold validateCUR, ValidCUR. cbv zeta. destruct (cur_Enabled (tgt_CUR target)); cbn [negb]; [|by split].
  rewrite imp_true, bind_unit_ok, check_cur_fields_ok, !guard_ok, !no_match_format, tag_columns_from_ok,
    !fresh_empty, negb_false_iff, !Z.leb_gt, !Z.ltb_ge.
  set (cur := tgt_CUR target). unfold cur_fields. split.
  - intros (Hfields & H). assert (well_named (cur_OutputLocation cur)).
    { apply (Hfields (cur_OutputLocation cur, "output_location")). set_solver. }
    tauto.
  - intros (Hr & Hd & Ht & Hw & Ho & H). split; [|tauto].
    intros check Hc. repeat (apply elem_of_cons in Hc as [->|Hc]); [..|by apply elem_of_nil in Hc]; simpl.
    1-4: (eapply format_well_named; [|eassumption]; by vm_compute). done.
Qed.

(** ** Server, base and credential sources *)

Ltac checks_to_props :=
  rewrite ?outside_within, ?negb_false_iff, ?bool_decide_eq_false,
    ?orb_false_iff, ?Z.leb_gt, ?Z.ltb_ge, ?bool_decide_eq_true, ?andb_false_iff.

Lemma ValidateServer_ok value : ValidateServer value = Ok tt <-> ValidServer value.
Proof.
  unfold ValidateServer, ValidServer. rewrite firstValidationError_ok.
  unfold server_checks. cbn [all_valid invalid].
  change ((MaxInFlight value <=? 0)%Z || (maxServerInFlight <? MaxInFlight value)%Z)
    with (outside (MaxInFlight value) maxServerInFlight).
  checks_to_props. tauto.
Qed.

Lemma prediction_within (enabled : bool) v :
  enabled && ((v <? 80)%Z || (99 <? v)%Z) = false <-> (enabled = true -> (80 <= v <= 99)%Z).
Proof. destruct enabled; simpl; [|by split]. rewrite imp_true. checks_to_props. done. Qed.

Lemma bases_nonempty (l : list string) : length l <> 0 <-> l <> [].
Proof. by rewrite length_zero_iff_nil. Qed.

(** The checks of [validateBase], and the two rules on cost bases that [validateTargets] adds. *)
Lemma validateBase_ok value :
  let bases := CostBases (col_CostExplorer (cfg_Collection value)) in
  validateBase value = Ok tt /\ NoDup bases /\ (forall basis, basis ∈ bases -> basis ∈ knownBases) <->
  (Level (cfg_Log value) ∈ ["debug"; "info"; "warn"; "error"] /\
   Format (cfg_Log value) ∈ ["json"; "text"]) /\
  ValidAWS (cfg_AWS value) /\ within (Z.of_nat (length (cfg_Targets value))) maxTargets /\
  ValidCollection (RequestTimeout (cfg_AWS value)) (cfg_Collection value) /\
  (col_RefreshInterval (cfg_Collection value) <= cache_FreshnessTTL (cfg_Cache value) <=
   cache_StaleAfter (cfg_Cache value))%Z.
Proof.
  cbv zeta. unfold validateBase. rewrite firstValidationError_ok. unfold base_checks.
  cbv zeta beta iota. cbn [app all_valid invalid].
  unfold ValidAWS, ValidCollection, ValidBackoff, ValidCostExplorer, ValidFamily, ValidCURCollection, well_named.
  rewrite prediction_within. checks_to_props. rewrite bases_nonempty.
  split; intros H; decompose [and] H; clear H;
    repeat match goal with |- _ /\ _ => split end; exact I || assumption || congruence.
Qed.

Section Environment.
Context (LookupEnv : string -> option string).

Lemma env_missing_present name : env_missing LookupEnv name = false <-> env_present LookupEnv name.
Proof.
  unfold env_missing, env_present. destruct (LookupEnv name) as [v|]; [|naive_solver].
  rewrite bool_decide_eq_false. naive_solver.
Qed.

Lemma validateSecret_required path name :
  validateSecretEnvironment LookupEnv path name true = Ok tt <-> ValidSecret LookupEnv name.
Proof.
  unfold validateSecretEnvironment, ValidSecret. rewrite andb_false_r.
  by rewrite !guard_ok, no_match_format, env_missing_present, and_ok_tt.
Qed.

Lemma validateSecret_optional path name :
  validateSecretEnvironment LookupEnv path name false = Ok tt <->
  name = "" \/ ValidSecret LookupEnv name.
Proof.
  unfold validateSecretEnvironment, ValidSecret. rewrite andb_true_r.
  case_bool_decide as Hn; [naive_solver|].
  rewrite !guard_ok, no_match_format, env_missing_present, and_ok_tt. tauto.
Qed.

Lemma no_static_fields_eq source :
  no_static_fields source = true <->
  AccessKeyIDEnv source = "" /\ SecretAccessKeyEnv source = "" /\ SessionTokenEnv source = "".
Proof. unfold no_static_fields. rewrite !andb_true_iff, !bool_decide_eq_true. tauto. Qed.

Lemma validateSource_ok name source :
  validateSource LookupEnv name source = Ok tt <-> ValidSource LookupEnv name source.
Proof.
  unfold validateSource, ValidSource, CredentialSourceDefaultChain, CredentialSourceProfile,
    CredentialSourceStaticEnv. rewrite guard_ok, no_match_format.
  apply and_iff_compat_l.
  destruct (bool_decide_reflect (src_Type source = "default_chain")) as [H1|H1];
    [|destruct (bool_decide_reflect (src_Type source = "profile")) as [H2|H2];
      [|destruct (bool_decide_reflect (src_Type source = "static_env")) as [H3|H3]]];
    rewrite ?guard_ok, ?bind_unit_ok, ?orb_false_iff, ?bool_decide_neg_false, ?untrimmed_well_named,
      ?validateSecret_required, ?validateSecret_optional, ?negb_false_iff, ?no_static_fields_eq, ?and_ok_tt.
  - split; [tauto|]. intros [?|[[? ?]|[? ?]]]; [tauto|congruence|congruence].
  - split; [tauto|]. intros [[? ?]|[?|[? ?]]]; [congruence|tauto|congruence].
  - split; [tauto|]. intros [[? ?]|[[? ?]|?]]; [congruence|congruence|tauto].
  - split; [done|]. intros [[? ?]|[[? ?]|[? ?]]]; congruence.
Qed.

Lemma fold_sources_err l e :
  fold_left (fun checked entry => _ ← checked; validateSource LookupEnv entry.1 entry.2) l (Err e) = Err e.
Proof. induction l; simpl; done. Qed.

Lemma fold_sources_ok l :
  fold_left (fun checked entry => _ ← checked; validateSource LookupEnv entry.1 entry.2) l (Ok tt) = Ok tt <->
  forall name source, (name, source) ∈ l -> ValidSource LookupEnv name source.
Proof.
  induction l as [|[name source] l IH]; simpl; [split; [set_solver|done]|].
  setoid_rewrite elem_of_cons. destruct (validateSource LookupEnv name source) as [[]|e] eqn:Hs; simpl.
  - apply validateSource_ok in Hs. rewrite IH. naive_solver.
  - rewrite fold_sources_err. split; [done|]. intros H.
    assert (validateSource LookupEnv name source = Ok tt) by (apply validateSource_ok, H; by left).
    congruence.
Qed.

Lemma validateCredentialSources_ok range (sources : gmap string CredentialSourceConfig) :
  range ≡ₚ map_to_list sources ->
  validateCredentialSources LookupEnv range = Ok tt <->
  within (Z.of_nat (size sources)) maxTargets /\
  forall name source, sources !! name = Some source -> ValidSource LookupEnv name source.
Proof.
  intros Hp. unfold validateCredentialSources.
  rewrite guard_ok, outside_within, fold_sources_ok, (Permutation_length Hp), length_map_to_list.
  setoid_rewrite Hp. by setoid_rewrite elem_of_map_to_list.
Qed.

(** ** Roles and targets *)

Lemma Contains_star_no s :
  forallb (fun c => negb (bool_decide (c = "*"%char))) (bytes s) = true -> Contains s "*" = false.
Proof.
  induction s as [|c s IH]; [done|]. cbn [bytes String.list_ascii_of_string forallb Contains].
  intros [Hc Hs]%andb_prop. apply orb_false_iff. split; [|by apply IH].
  apply negb_true_iff, bool_decide_eq_false in Hc. cbn [String.prefix].
  destruct (Ascii.ascii_dec "*" c); [congruence|done].
Qed.

(** The second test of the ARN is implied by the pattern, which has no asterisk. *)
Lemma role_arn_exact arn :
  negb (MatchString roleARNPattern arn) || Contains arn "*" = false <-> has_format roleARNPattern arn.
Proof.
  rewrite orb_false_iff, no_match_format. split; [tauto|]. intros Hf. split; [done|].
  apply Contains_star_no. apply Matches_alphabet in Hf.
  rewrite forallb_elem_of in Hf |- *. intros c Hc. specialize (Hf c Hc).
  assert (Hall : forallb (fun c => implb (alphabet roleARNPattern c)
    (negb (bool_decide (c = "*"%char)))) all_bytes = true) by (by vm_compute).
  pose proof (proj1 (forallb_elem_of _ _) Hall c (all_bytes_full c)) as Hi. cbv beta in Hi.
  rewrite Hf in Hi. done.
Qed.

Lemma validateAssumeRole_ok path target roles roles' :
  validateAssumeRole LookupEnv path target roles = Ok roles' <->
  (forall role, cred_AssumeRole target = Some role -> ValidRole LookupEnv (tgt_AccountID target) role) /\
  (forall arn, role_of target = Some arn -> arn ∉ roles) /\
  roles' = match role_of target with Some arn => {[arn]} ∪ roles | None => roles end.
Proof.
  unfold validateAssumeRole, role_of, ValidRole. destruct (cred_AssumeRole target) as [role|]; simpl.
  - rewrite !guard_ok, role_arn_exact, bool_decide_neg_false, bool_decide_eq_false, no_match_format,
      env_missing_present, andb_false_iff, bool_decide_neg_false, no_match_format.
    unfold ValidSecret. split.
    + intros (Ha & Hacc & Hn & He & Hp & Hs & [= <-]).
      split; [by intros ? [= <-]|]. split; [by intros ? [= <-]|done].
    + intros (Hr & Hn & ->). destruct (Hr role eq_refl) as (Ha & Hacc & [He Hp] & Hs). auto 10.
  - naive_solver.
Qed.

Definition add_opt (x : option string) (S : gset string) : gset string :=
  match x with Some x => {[x]} ∪ S | None => S end.

Definition add_target (sets : TargetSets) (target : TargetConfig) : TargetSets :=
  mkTargetSets ({[tgt_Name target]} ∪ seen_names sets) ({[tgt_AccountID target]} ∪ seen_accounts sets)
    (add_opt (role_of target) (seen_roles sets)) (add_opt (direct_source target) (seen_sources sets))
    ((if tgt_Required target then 1 else 0) + requiredCostTargets sets).

Definition new_opt (x : option string) (S : gset string) : Prop := forall y, x = Some y -> y ∉ S.

Lemma fresh_omap_cons {A} (f : A -> option string) S a l :
  fresh S (omap f (a :: l)) <-> new_opt (f a) S /\ fresh (add_opt (f a) S) (omap f l).
Proof.
  unfold new_opt, add_opt. cbn [omap list_omap]. destruct (f a) as [x|].
  - rewrite fresh_cons. naive_solver.
  - naive_solver.
Qed.

Lemma direct_source_new target S :
  bool_decide (cred_AssumeRole target = None) && bool_decide (cred_Source target ∈ S) = false <->
  new_opt (direct_source target) S.
Proof.
  unfold new_opt, direct_source. destruct (cred_AssumeRole target) as [role|].
  - rewrite bool_decide_false by done. naive_solver.
  - rewrite bool_decide_true by done. simpl. rewrite bool_decide_eq_false. naive_solver.
Qed.

Lemma bind_known {A B} (m : res A) (f : A -> res B) (P N : Prop) r b :
  (forall a, m = Ok a <-> P /\ N /\ a = r) -> m ≫= f = Ok b <-> P /\ N /\ f r = Ok b.
Proof. intros Hm. rewrite bind_ok. setoid_rewrite Hm. naive_solver. Qed.

Lemma validateTarget_ok value index sets target sets' :
  validateTarget LookupEnv value index sets target = Ok sets' <->
  ValidTarget LookupEnv value target /\ tgt_Name target ∉ seen_names sets /\
  tgt_AccountID target ∉ seen_accounts sets /\ new_opt (role_of target) (seen_roles sets) /\
  new_opt (direct_source target) (seen_sources sets) /\ sets' = add_target sets target.
Proof.
  unfold validateTarget. cbv zeta.
  rewrite !guard_ok, !no_match_format, !bool_decide_eq_false, negb_false_iff.
  rewrite (bind_known _ _ _ _ _ _ (validateAssumeRole_ok _ target (seen_roles sets))).
  rewrite guard_ok, direct_source_new, !bind_skip_ok.
  rewrite validateFilters_ok, validateOrganizations_ok, validateBudgets_ok, validateCUR_ok,
    validateTags_ok, validateCURSeriesBudget_ok, not_eq_None_Some.
  assert (Hreq : tgt_Required target && negb (ce_Enabled target) = false <->
                 (tgt_Required target = true -> ce_Enabled target = true))
    by (destruct (tgt_Required target), (ce_Enabled target); simpl; naive_solver).
  assert (Hdirect : (if bool_decide (cred_AssumeRole target = None)
                     then {[cred_Source target]} ∪ seen_sources sets else seen_sources sets) =
                    add_opt (direct_source target) (seen_sources sets))
    by (unfold direct_source; destruct (cred_AssumeRole target); done).
  rewrite Hreq, Hdirect. split.
  - intros H. decompose [and] H. split; [by constructor|].
    repeat (split; [done|]). by inv_ok.
  - intros ([] & Hn & Ha & Hr & Hs & ->). repeat (split; [done|]). done.
Qed.

Definition required_count (targets : list TargetConfig) : nat :=
  length (List.filter tgt_Required targets).

Lemma validateTargets_from_ok value index sets targets :
  (exists sets', validateTargets_from LookupEnv value index sets targets = Ok sets' /\
    requiredCostTargets sets' = required_count targets + requiredCostTargets sets) <->
  (forall target, target ∈ targets -> ValidTarget LookupEnv value target) /\
  fresh (seen_names sets) (map tgt_Name targets) /\
  fresh (seen_accounts sets) (map tgt_AccountID targets) /\
  fresh (seen_roles sets) (omap role_of targets) /\
  fresh (seen_sources sets) (omap direct_source targets).
Proof.
  revert index sets. induction targets as [|target targets IH]; intros index sets.
  - cbn [validateTargets_from map omap list_omap]. split; [|eauto].
    intros _. split; [set_solver|]. by auto using fresh_nil.
  - cbn [validateTargets_from map]. rewrite !fresh_omap_cons, !fresh_cons.
    specialize (IH (S index) (add_target sets target)). cbn [seen_names seen_accounts seen_roles seen_sources add_target requiredCostTargets] in IH.
    setoid_rewrite elem_of_cons. unfold required_count in *. cbn [List.filter].
    assert (Hcount : forall n, length (if tgt_Required target then target :: List.filter tgt_Required targets
        else List.filter tgt_Required targets) + n =
        length (List.filter tgt_Required targets) + ((if tgt_Required target then 1 else 0) + n))
      by (intros n; destruct (tgt_Required target); simpl; lia).
    rewrite Hcount. setoid_rewrite bind_ok. setoid_rewrite validateTarget_ok.
    split.
    + intros (sets' & (mid & (Hv & Hn & Ha & Hr & Hs & ->) & Hrest) & Hreq).
      destruct (proj1 IH) as (Hall & H1 & H2 & H3 & H4); [by exists sets'|].
      split; [by intros t [->|Ht]; auto|]. done.
    + intros (Hall & [Hn H1] & [Ha H2] & [Hr H3] & [Hs H4]).
      destruct (proj2 IH) as (sets' & Hrest & Hreq); [auto 10|].
      exists sets'. split; [|done]. exists (add_target sets target). auto 10.
Qed.

Lemma validateTargets_from_count value index sets targets sets' :
  validateTargets_from LookupEnv value index sets targets = Ok sets' ->
  requiredCostTargets sets' = required_count targets + requiredCostTargets sets.
Proof.
  revert index sets. induction targets as [|target targets IH]; intros index sets; cbn [validateTargets_from].
  - by intros [= <-].
  - intros (mid & Hmid & Hrest)%bind_ok. apply validateTarget_ok in Hmid as (_ & _ & _ & _ & _ & ->).
    rewrite (IH _ _ Hrest). unfold required_count. cbn [add_target requiredCostTargets List.filter].
    destruct (tgt_Required target); simpl; lia.
Qed.

Lemma required_count_zero targets :
  required_count targets <> 0 <-> exists target, target ∈ targets /\ tgt_Required target = true.
Proof.
  unfold required_count. rewrite length_zero_iff_nil. split.
  - destruct (List.filter tgt_Required targets) as [|t l] eqn:Hf; [done|]. intros _.
    exists t. apply elem_of_filter_b. rewrite Hf. by left.
  - intros (t & Ht) Hf. apply elem_of_filter_b in Ht. rewrite Hf in Ht. by apply elem_of_nil in Ht.
Qed.

Lemma check_bases_ok index bases :
  check_bases index bases = Ok tt <-> forall basis, basis ∈ bases -> basis ∈ knownBases.
Proof.
  revert index. induction bases as [|basis bases IH]; intros index; cbn [check_bases].
  - split; [set_solver|done].
  - rewrite guard_ok, bool_decide_neg_false, IH. setoid_rewrite elem_of_cons. naive_solver.
Qed.

Lemma known_basis_named basis : basis ∈ knownBases -> well_named basis.
Proof.
  intros H. repeat (apply elem_of_cons in H as [->|H]); [..|by apply elem_of_nil in H];
    (split; [done|by vm_compute]).
Qed.

Lemma validateTargets_ok value :
  let targets := cfg_Targets value in
  let bases := CostBases (col_CostExplorer (cfg_Collection value)) in
  validateTargets LookupEnv value = Ok tt <->
  (forall target, target ∈ targets -> ValidTarget LookupEnv value target) /\
  NoDup (map tgt_Name targets) /\ NoDup (map tgt_AccountID targets) /\
  NoDup (omap role_of targets) /\ NoDup (omap direct_source targets) /\
  NoDup bases /\ (forall basis, basis ∈ bases -> basis ∈ knownBases) /\
  exists target, target ∈ targets /\ tgt_Required target = true.
Proof.
  cbv zeta. unfold validateTargets. cbv zeta. rewrite bind_ok.
  setoid_rewrite bind_unit_ok. setoid_rewrite bind_unit_ok. setoid_rewrite guard_ok.
  setoid_rewrite and_ok_tt. setoid_rewrite bool_decide_eq_false.
  pose proof (validateTargets_from_ok value 0 (mkTargetSets ∅ ∅ ∅ ∅ 0) (cfg_Targets value)) as Hloop.
  cbn [seen_names seen_accounts seen_roles seen_sources requiredCostTargets] in Hloop.
  rewrite !fresh_empty in Hloop.
  rewrite <- required_count_zero. split.
  - intros (sets & Hsets & Hb & Hu & Hreq). pose proof (proj1 (check_bases_ok _ _) Hb) as Hk.
    apply validateUniqueStrings_ok in Hu as [Hu _].
    pose proof (validateTargets_from_count _ _ _ _ _ Hsets) as Hcount. cbn in Hcount.
    destruct (proj1 Hloop) as (Hall & H1 & H2 & H3 & H4); [by exists sets|].
    rewrite Hcount, Nat.add_0_r in Hreq. auto 10.
  - intros (Hall & H1 & H2 & H3 & H4 & Hu & Hb & Hreq).
    destruct (proj2 Hloop) as (sets & Hsets & Hcount); [auto|].
    exists sets. split; [done|]. split; [by apply check_bases_ok|].
    split; [apply validateUniqueStrings_ok; split; [done|]|lia].
    intros v Hv. split; [by apply known_basis_named, Hb|done].
Qed.

Lemma Validate_ok range value :
  range (Sources (cfg_AWS value)) ≡ₚ map_to_list (Sources (cfg_AWS value)) ->
  Validate LookupEnv range value = Ok tt <-> Valid LookupEnv value.
Proof.
  intros Hp. unfold Validate. rewrite !bind_unit_ok, ValidateServer_ok.
  rewrite (validateCredentialSources_ok _ _ Hp), validateTargets_ok.
  pose proof (validateBase_ok value) as Hbase. cbv zeta in *. split.
  - intros (Hs & Hb & [Hn Hsrc] & Hall & H1 & H2 & H3 & H4 & Hu & Hk & Hreq).
    destruct (proj1 Hbase) as (Hlog & Haws & Hlen & Hcol & Hcache); [done|]. by constructor.
  - intros []. destruct (proj2 Hbase) as (Hb & Hu & Hk); [done|]. done.
Qed.

(** C5: [Validate] accepts exactly the configurations that satisfy the declarative contract
    [Valid]: every bound and format, unique names, accounts, role ARNs and direct credential
    sources, a required Cost Explorer target, and for each enabled family its budget of series;
    and it does so whatever the order it ranges over the map of credential sources. *)
Theorem Validate_spec range range' value :
  range (Sources (cfg_AWS value)) ≡ₚ map_to_list (Sources (cfg_AWS value)) ->
  range' (Sources (cfg_AWS value)) ≡ₚ map_to_list (Sources (cfg_AWS value)) ->
  (Validate LookupEnv range value = Ok tt <-> Valid LookupEnv value) /\
  (Validate LookupEnv range value = Ok tt <-> Validate LookupEnv range' value = Ok tt).
Proof. intros H1 H2. by rewrite !Validate_ok. Qed.

End Environment.

(** A configuration with two targets: one direct, one through a role, with CUR and tags. *)
Definition sample_env (name : string) : option string :=
  if bool_decide (name = "EXTERNAL_ID") then Some "external" else None.

Definition no_filters : FiltersConfig := mkFilters [] [] [].

Definition sample_cur : TargetCURConfig :=
  mkTargetCUR true "eu-west-1" "billing" "cur" "primary" "s3://results/athena/" (5 * Minute)%Z Second
    [mkTagColumn "team" "resource_tags_user_team"].

Definition no_cur : TargetCURConfig := mkTargetCUR false "" "" "" "" "" 0%Z 0%Z [].

Definition management_target : TargetConfig :=
  mkTarget "management" "111122223333" true "default" None true no_filters true [] true ["monthly"]
    true true no_cur false [].

Definition workload_target : TargetConfig :=
  mkTarget "workload" "444455556666" false "default"
    (Some (mkAssumeRole "arn:aws:iam::444455556666:role/reader" "EXTERNAL_ID" "exporter"))
    false no_filters false [] false [] false false sample_cur true [mkTagKey "team" 5].

Definition sample_config : AppConfig :=
  let base := Default in
  mkAppConfig (cfg_Server base) (cfg_Log base)
    (mkAWSConfig "us-east-1" {["default" := mkCredentialSource "default_chain" "" "" "" ""]}
       (RequestTimeout (cfg_AWS base)) (Endpoints (cfg_AWS base)) (Retry (cfg_AWS base))
       (RateLimit (cfg_AWS base)))
    [management_target; workload_target] (cfg_Collection base) (cfg_Cache base) (cfg_Telemetry base).

Lemma Validate_spec_witness : Valid sample_env sample_config.
Proof.
  apply (Validate_spec sample_env (fun m => map_to_list m) (fun m => rev (map_to_list m))).
  - reflexivity.
  - symmetry. apply Permutation_rev.
  - vm_compute. reflexivity.
Defined.
