(* ===== verification/Loader.v ===== *)
(** * Loading the configuration (internal/config/loader.go)

    [Load] merges the defaults, a file, the environment and overrides in viper, decodes and
    validates the result.  Viper is an argument.  The defaults are registered by reflection: a
    reflected value is a struct of tagged fields, or any other value. *)

From S2P Require Import Prelude GoStrings GoFloat GoTime Errors Effects Config Validation ValidationSpec.
Local Open Scope string_scope.
Local Open Scope list_scope.

(** ** Reflection *)

(** The kinds of value below the structs of the schema. *)
Inductive Leaf :=
| LString (value : string)
| LStrings (value : list string)
| LBool (value : bool)
| LInt (value : Z)
| LFloat (value : float64)
| LDuration (value : Duration)
| LSources (value : gmap string CredentialSourceConfig)
| LTargets (value : list TargetConfig).

(** [reflect.Value], with the [mapstructure] tag of each field of a struct. *)
Inductive Reflected :=
| RStruct (fields : list (string * Reflected))
| RLeaf (value : Leaf).

(** The calls of [SetDefault], in order, for the fields of a struct. *)
Fixpoint registerDefaults (prefix : string) (value : Reflected) : list (string * Leaf) :=
  match value with
  | RLeaf _ => []
  | RStruct fields =>
      (fix each (fields : list (string * Reflected)) : list (string * Leaf) :=
         match fields with
         | [] => []
         | (tag, field) :: fields =>
             let key := if negb (bool_decide (prefix = "")) then prefix +++ "." +++ tag else tag in
             match field with
             | RStruct _ => registerDefaults key field
             | RLeaf value => [(key, value)]
             end ++ each fields
         end) fields
  end.

(** The reflection of the structs of schema.go. *)
Definition reflect_family (value : FamilyConfig) : Reflected :=
  RStruct [("refresh_interval", RLeaf (LDuration (fam_RefreshInterval value)));
    ("max_pages", RLeaf (LInt (fam_MaxPages value))); ("series_limit", RLeaf (LInt (fam_SeriesLimit value)))].

Definition reflect_server (value : ServerConfig) : Reflected :=
  RStruct [("listen_address", RLeaf (LString (ListenAddress value)));
    ("metrics_path", RLeaf (LString (MetricsPath value)));
    ("read_header_timeout", RLeaf (LDuration (ReadHeaderTimeout value)));
    ("read_timeout", RLeaf (LDuration (ReadTimeout value)));
    ("write_timeout", RLeaf (LDuration (WriteTimeout value)));
    ("idle_timeout", RLeaf (LDuration (IdleTimeout value)));
    ("shutdown_timeout", RLeaf (LDuration (ShutdownTimeout value)));
    ("max_in_flight", RLeaf (LInt (MaxInFlight value)));
    ("debug", RStruct [("enabled", RLeaf (LBool (Debug_Enabled value)))])].

Definition reflect_log (value : LogConfig) : Reflected :=
  RStruct [("level", RLeaf (LString (Level value))); ("format", RLeaf (LString (Format value)));
    ("add_source", RLeaf (LBool (AddSource value)))].

Definition reflect_aws (value : AWSConfig) : Reflected :=
  RStruct [("region", RLeaf (LString (aws_Region value)));
    ("credentials", RStruct [("sources", RLeaf (LSources (Sources value)))]);
    ("request_timeout", RLeaf (LDuration (RequestTimeout value)));
    ("endpoints", RStruct [("sts", RLeaf (LString (ep_STS (Endpoints value))));
       ("cost_explorer", RLeaf (LString (ep_CostExplorer (Endpoints value))));
       ("organizations", RLeaf (LString (ep_Organizations (Endpoints value))));
       ("budgets", RLeaf (LString (ep_Budgets (Endpoints value))));
       ("athena", RLeaf (LString (ep_Athena (Endpoints value))))]);
    ("retry", RStruct [("max_attempts", RLeaf (LInt (retry_MaxAttempts (Retry value))));
       ("base_delay", RLeaf (LDuration (BaseDelay (Retry value))));
       ("max_backoff", RLeaf (LDuration (MaxBackoff (Retry value))))]);
    ("rate_limit", RStruct
       [("global_requests_per_second", RLeaf (LFloat (GlobalRequestsPerSecond (RateLimit value))));
        ("global_burst", RLeaf (LInt (GlobalBurst (RateLimit value))));
        ("target_requests_per_second", RLeaf (LFloat (TargetRequestsPerSecond (RateLimit value))));
        ("target_burst", RLeaf (LInt (TargetBurst (RateLimit value))))])].

Definition reflect_cost_explorer (value : CollectionCostExplorerConfig) : Reflected :=
  let collectors := cce_Collectors value in
  let dimensions := cce_Dimensions value in
  RStruct [("cost_bases", RLeaf (LStrings (CostBases value))); ("max_pages", RLeaf (LInt (cce_MaxPages value)));
    ("prediction_interval", RLeaf (LInt (cce_PredictionInterval value)));
    ("collectors", RStruct [("total", RLeaf (LBool (en_Total collectors)));
       ("service", RLeaf (LBool (en_Service collectors))); ("region", RLeaf (LBool (en_Region collectors)));
       ("account", RLeaf (LBool (en_Account collectors))); ("forecast", RLeaf (LBool (en_Forecast collectors)))]);
    ("dimensions", RStruct [("series_limit", RLeaf (LInt (dim_SeriesLimit dimensions)));
       ("overflow", RLeaf (LString (dim_Overflow dimensions)));
       ("overflow_label", RLeaf (LString (dim_OverflowLabel dimensions)))])].

Definition reflect_collection (value : CollectionConfig) : Reflected :=
  let backoff := FailureBackoff value in
  let cur := col_CUR value in
  RStruct [("refresh_interval", RLeaf (LDuration (col_RefreshInterval value)));
    ("startup_refresh", RLeaf (LBool (col_StartupRefresh value)));
    ("jitter_ratio", RLeaf (LFloat (col_JitterRatio value)));
    ("max_concurrency", RLeaf (LInt (col_MaxConcurrency value)));
    ("failure_backoff", RStruct [("max_attempts", RLeaf (LInt (fb_MaxAttempts backoff)));
       ("initial", RLeaf (LDuration (fb_Initial backoff))); ("max", RLeaf (LDuration (fb_Max backoff)));
       ("multiplier", RLeaf (LFloat (fb_Multiplier backoff)))]);
    ("cost_explorer", reflect_cost_explorer (col_CostExplorer value));
    ("organizations", reflect_family (col_Organizations value)); ("budgets", reflect_family (col_Budgets value));
    ("commitments", reflect_family (col_Commitments value)); ("anomalies", reflect_family (col_Anomalies value));
    ("tags", reflect_family (col_Tags value));
    ("cur", RStruct [("refresh_interval", RLeaf (LDuration (ccur_RefreshInterval cur)));
       ("max_pages", RLeaf (LInt (ccur_MaxPages cur))); ("max_rows", RLeaf (LInt (ccur_MaxRows cur)));
       ("max_currencies", RLeaf (LInt (ccur_MaxCurrencies cur)));
       ("series_limit", RLeaf (LInt (ccur_SeriesLimit cur)))])].

Definition reflect_config (value : AppConfig) : Reflected :=
  RStruct [("server", reflect_server (cfg_Server value)); ("log", reflect_log (cfg_Log value));
    ("aws", reflect_aws (cfg_AWS value)); ("targets", RLeaf (LTargets (cfg_Targets value)));
    ("collection", reflect_collection (cfg_Collection value));
    ("cache", RStruct [("freshness_ttl", RLeaf (LDuration (cache_FreshnessTTL (cfg_Cache value))));
       ("stale_after", RLeaf (LDuration (cache_StaleAfter (cfg_Cache value))))]);
    ("telemetry", RStruct [("include_go_collector", RLeaf (LBool (IncludeGoCollector (cfg_Telemetry value))));
       ("include_process_collector", RLeaf (LBool (IncludeProcessCollector (cfg_Telemetry value))))])].

(** ** Loading *)

Record Options := mkOptions { opt_Path : string; opt_Overrides : list (string * string) }.

(** Viper: [AutomaticEnv] binds a key that has a default to [env_name key]. *)
Record Viper (S : Type) := mkViper {
  viper_New : S;
  SetDefault : string -> Leaf -> S -> S;
  ReadInConfig : string -> S -> res S;
  viper_Set : string -> string -> S -> S;
  UnmarshalExact : S -> res AppConfig
}.
Arguments viper_New {S}.
Arguments SetDefault {S}.
Arguments ReadInConfig {S}.
Arguments viper_Set {S}.
Arguments UnmarshalExact {S}.

Section Load.
Context {S : Type} (viper : Viper S) (LookupEnv : string -> option string)
  (range : gmap string CredentialSourceConfig -> list (string * CredentialSourceConfig)).

(** The state after the defaults and the file. *)
Definition read_source (path : string) : res S :=
  let source := fold_left (fun source setting => SetDefault viper setting.1 setting.2 source)
    (registerDefaults "" (reflect_config Default)) (viper_New viper) in
  if negb (bool_decide (path = ""))
  then map_err (Wrapped "read config") (ReadInConfig viper path source)
  else Ok source.

Definition Load (options : Options) : res AppConfig :=
  source ← read_source (opt_Path options);
  let source := fold_left (fun source setting => viper_Set viper setting.1 setting.2 source)
    (opt_Overrides options) source in
  result ← map_err (Wrapped "decode config") (UnmarshalExact viper source);
  _ ← map_err (Wrapped "validate config") (Validate LookupEnv range result);
  Ok result.

(** What [Load] answers with was decoded and is valid. *)
Lemma Load_ok options value :
  (forall v, range (Sources (cfg_AWS v)) ≡ₚ map_to_list (Sources (cfg_AWS v))) ->
  Load options = Ok value <->
  exists source, read_source (opt_Path options) = Ok source /\
    UnmarshalExact viper (fold_left (fun source setting => viper_Set viper setting.1 setting.2 source)
      (opt_Overrides options) source) = Ok value /\ Valid LookupEnv value.
Proof.
  intros Hrange. unfold Load. destruct (read_source (opt_Path options)) as [source|e]; cbn [mbind result_bind];
    [|split; [done|by intros (? & ? & _)]].
  cbv zeta. destruct (UnmarshalExact viper _) as [v|e] eqn:Hu; cbn [map_err mbind result_bind];
    [|split; [done|intros (s & [= <-] & Hs & _); by rewrite Hs in Hu]].
  destruct (Validate LookupEnv range v) as [[]|e] eqn:Hv; cbn [map_err mbind result_bind].
  - split; [intros [= <-]; exists source; split; [done|]; split; [done|]; by apply (Validate_ok LookupEnv range)|].
    intros (s & [= <-] & Hs & _). by rewrite Hs in Hu; injection Hu as ->.
  - split; [done|]. intros (s & [= <-] & Hs & Hval). rewrite Hs in Hu. injection Hu as <-.
    apply (Validate_ok LookupEnv range) in Hval; [by rewrite Hval in Hv|done].
Qed.
End Load.

(** ** The defaults are registered completely *)

(** The environment variable of a setting: the prefix, the upper case, dots as two underscores. *)
Definition upper_ascii (c : ascii) : ascii :=
  let n := Ascii.N_of_ascii c in if (97 <=? n)%N && (n <=? 122)%N then byte_ (n - 32)%N else c.
Definition env_bytes (key : string) : list ascii :=
  flat_map (fun c => if bool_decide (c = "."%char) then ["_"%char; "_"%char] else [upper_ascii c]) (bytes key).
Definition env_name (key : string) : string := "AWS_COST_EXPORTER_" +++ of_bytes (env_bytes key).

(** A reader of settings: the schema again, from the keys down. *)
Section Settings.
Context (settings : gmap string Leaf).

Definition get_string (key : string) : option string :=
  match settings !! key with Some (LString v) => Some v | _ => None end.
Definition get_strings (key : string) : option (list string) :=
  match settings !! key with Some (LStrings v) => Some v | _ => None end.
Definition get_bool (key : string) : option bool :=
  match settings !! key with Some (LBool v) => Some v | _ => None end.
Definition get_int (key : string) : option Z :=
  match settings !! key with Some (LInt v) => Some v | _ => None end.
Definition get_float (key : string) : option float64 :=
  match settings !! key with Some (LFloat v) => Some v | _ => None end.
Definition get_duration (key : string) : option Duration :=
  match settings !! key with Some (LDuration v) => Some v | _ => None end.
Definition get_sources (key : string) : option (gmap string CredentialSourceConfig) :=
  match settings !! key with Some (LSources v) => Some v | _ => None end.
Definition get_targets (key : string) : option (list TargetConfig) :=
  match settings !! key with Some (LTargets v) => Some v | _ => None end.

Definition read_server : option ServerConfig :=
  a ← get_string "server.listen_address"; p ← get_string "server.metrics_path";
  h ← get_duration "server.read_header_timeout"; r ← get_duration "server.read_timeout";
  w ← get_duration "server.write_timeout"; i ← get_duration "server.idle_timeout";
  s ← get_duration "server.shutdown_timeout"; m ← get_int "server.max_in_flight";
  d ← get_bool "server.debug.enabled"; Some (mkServerConfig a p h r w i s m d).

Definition read_log : option LogConfig :=
  l ← get_string "log.level"; f ← get_string "log.format"; a ← get_bool "log.add_source";
  Some (mkLogConfig l f a).

Definition read_aws : option AWSConfig :=
  r ← get_string "aws.region"; s ← get_sources "aws.credentials.sources"; t ← get_duration "aws.request_timeout";
  e1 ← get_string "aws.endpoints.sts"; e2 ← get_string "aws.endpoints.cost_explorer";
  e3 ← get_string "aws.endpoints.organizations"; e4 ← get_string "aws.endpoints.budgets";
  e5 ← get_string "aws.endpoints.athena"; n ← get_int "aws.retry.max_attempts";
  d ← get_duration "aws.retry.base_delay"; m ← get_duration "aws.retry.max_backoff";
  gr ← get_float "aws.rate_limit.global_requests_per_second"; gb ← get_int "aws.rate_limit.global_burst";
  tr ← get_float "aws.rate_limit.target_requests_per_second"; tb ← get_int "aws.rate_limit.target_burst";
  Some (mkAWSConfig r s t (mkEndpoints e1 e2 e3 e4 e5) (mkRetryConfig n d m) (mkRateLimit gr gb tr tb)).

Definition read_family (name : string) : option FamilyConfig :=
  i ← get_duration ("collection." +++ name +++ ".refresh_interval");
  p ← get_int ("collection." +++ name +++ ".max_pages"); s ← get_int ("collection." +++ name +++ ".series_limit");
  Some (mkFamily i p s).

Definition read_cost_explorer : option CollectionCostExplorerConfig :=
  b ← get_strings "collection.cost_explorer.cost_bases"; p ← get_int "collection.cost_explorer.max_pages";
  i ← get_int "collection.cost_explorer.prediction_interval";
  c1 ← get_bool "collection.cost_explorer.collectors.total";
  c2 ← get_bool "collection.cost_explorer.collectors.service";
  c3 ← get_bool "collection.cost_explorer.collectors.region";
  c4 ← get_bool "collection.cost_explorer.collectors.account";
  c5 ← get_bool "collection.cost_explorer.collectors.forecast";
  d1 ← get_int "collection.cost_explorer.dimensions.series_limit";
  d2 ← get_string "collection.cost_explorer.dimensions.overflow";
  d3 ← get_string "collection.cost_explorer.dimensions.overflow_label";
  Some (mkCollectionCE b p i (mkCollectors c1 c2 c3 c4 c5) (mkDimensions d1 d2 d3)).

Definition read_collection : option CollectionConfig :=
  i ← get_duration "collection.refresh_interval"; s ← get_bool "collection.startup_refresh";
  j ← get_float "collection.jitter_ratio"; c ← get_int "collection.max_concurrency";
  b1 ← get_int "collection.failure_backoff.max_attempts"; b2 ← get_duration "collection.failure_backoff.initial";
  b3 ← get_duration "collection.failure_backoff.max"; b4 ← get_float "collection.failure_backoff.multiplier";
  ce ← read_cost_explorer; fo ← read_family "organizations"; fb ← read_family "budgets";
  fc ← read_family "commitments"; fa ← read_family "anomalies"; ft ← read_family "tags";
  u1 ← get_duration "collection.cur.refresh_interval"; u2 ← get_int "collection.cur.max_pages";
  u3 ← get_int "collection.cur.max_rows"; u4 ← get_int "collection.cur.max_currencies";
  u5 ← get_int "collection.cur.series_limit";
  Some (mkCollection i s j c (mkFailureBackoff b1 b2 b3 b4) ce fo fb fc fa ft (mkCollectionCUR u1 u2 u3 u4 u5)).

Definition read_config : option AppConfig :=
  server ← read_server; log ← read_log; aws ← read_aws; targets ← get_targets "targets";
  collection ← read_collection; f ← get_duration "cache.freshness_ttl"; s ← get_duration "cache.stale_after";
  g ← get_bool "telemetry.include_go_collector"; p ← get_bool "telemetry.include_process_collector";
  Some (mkAppConfig server log aws targets collection (mkCache f s) (mkTelemetry g p)).
End Settings.

Definition setting_keys (value : AppConfig) : list string := (registerDefaults "" (reflect_config value)).*1.

(** C20: registration by reflection loses nothing: every field of the configuration below the
    structs is registered under a key of its own, from which the whole configuration reads back;
    and the environment variables of two settings are never the same. *)
Theorem defaults_complete (value : AppConfig) :
  read_config (list_to_map (registerDefaults "" (reflect_config value))) = Some value /\
  NoDup (setting_keys value) /\ NoDup (map env_name (setting_keys value)).
Proof.
  destruct value as [[a b c d e f g h i] [j k l] [m n o [p q r s t] [u v w] [x y z aa]] ts
    [c1 c2 c3 c4 [b1 b2 b3 b4] [e1 e2 e3 [f1 f2 f3 f4 f5] [g1 g2 g3]] [h1 h2 h3] [i1 i2 i3] [j1 j2 j3]
     [k1 k2 k3] [l1 l2 l3] [m1 m2 m3 m4 m5]] [n1 n2] [o1 o2]].
  split; [vm_compute; reflexivity|]. split; apply (bool_decide_unpack _); vm_compute; exact I.
Qed.
