(* ===== verification/Logging.v ===== *)
(** * Structured logs (internal/logging/logging.go)

    [New] makes a logger from the configuration.  What [slog] does with it: a record is logged from
    the level of the logger on, and [ReplaceAttr] rewrites every attribute but the groups, whose
    contents it rewrites in turn.  How a handler formats what it is left with is not modelled. *)

From S2P Require Import Prelude GoStrings GoTime Errors Config Validation ValidationSpec.
Local Open Scope string_scope.
Local Open Scope list_scope.

(** [slog.Value]: the kinds the built-in attributes have, any other value, and a group of
    attributes; [slog.Attr] is a key with a value. *)
Inductive LogValue :=
| StringValue (s : string)
| TimeValue (t : Time)
| LevelValue (level : Z)
| OtherValue (n : nat)
| GroupValue (attributes : list (string * LogValue)).
Definition Attr : Type := string * LogValue.
Definition attr_Key (attribute : Attr) : string := attribute.1.
Definition attr_Value (attribute : Attr) : LogValue := attribute.2.
Definition mkAttr (key : string) (value : LogValue) : Attr := (key, value).

Definition redactedValue : string := "[REDACTED]".

Definition sensitive_fragments : list string :=
  ["access_key"; "authorization"; "credential"; "password"; "private_key"; "secret"; "token"].

Definition isSensitiveKey (key : string) : bool :=
  let normalized := ToLower key in existsb (fun fragment => Contains normalized fragment) sensitive_fragments.

Definition redactAttribute (attribute : Attr) : Attr :=
  if isSensitiveKey (attr_Key attribute) then mkAttr (attr_Key attribute) (StringValue redactedValue)
  else attribute.

(** [strings.ToUpper], exact on the ASCII bytes of its result: besides [a-z] only U+0131 and
    U+017F have an ASCII upper case. *)
Fixpoint upper_bytes (l : list ascii) : list ascii :=
  match l with
  | [] => []
  | a :: l1 =>
      match strip [byte_ 196; byte_ 177]%N l, l1 with
      | Some _, _ :: l2 => byte_ 73 :: upper_bytes l2
      | _, _ =>
          match strip [byte_ 197; byte_ 191]%N l, l1 with
          | Some _, _ :: l2 => byte_ 83 :: upper_bytes l2
          | _, _ =>
              (let n := Ascii.N_of_ascii a in if (97 <=? n)%N && (n <=? 122)%N then byte_ (n - 32)%N else a)
              :: upper_bytes l1
          end
      end
  end.
Definition ToUpper (s : string) : string := of_bytes (upper_bytes (bytes s)).

(** [strconv.Atoi] of a text that starts with a sign. *)
Definition Atoi_signed (text : list ascii) : option Z :=
  match text with
  | sign :: digits =>
      if bool_decide (digits = []) then None else
      n ← fold_left (fun total c => t ← total; d ← digit_value c; Some (10 * t + d)%Z) digits (Some 0%Z);
      let value := if bool_decide (sign = "-"%char) then (- n)%Z else n in
      if (- 2 ^ 63 <=? value)%Z && (value <? 2 ^ 63)%Z then Some value else None
  | [] => None
  end.

(** The text before the first sign, and the rest. *)
Fixpoint cut_sign (text : list ascii) : list ascii * list ascii :=
  match text with
  | [] => ([], [])
  | c :: rest =>
      if bool_decide (c = "+"%char) || bool_decide (c = "-"%char) then ([], text)
      else let '(name, offset) := cut_sign rest in (c :: name, offset)
  end.

(** [Level.UnmarshalText]; the sum wraps at the width of an int. *)
Definition level_UnmarshalText (text : string) : res Z :=
  let '(name, offset) := cut_sign (bytes text) in
  let upper := ToUpper (of_bytes name) in
  match (if bool_decide (offset = []) then Some 0%Z else Atoi_signed offset) with
  | None => Err (Wrapped "slog: level string" (ErrorString "invalid syntax"))
  | Some offset =>
      if bool_decide (upper = "DEBUG") then Ok (int64_wrap (-4 + offset))
      else if bool_decide (upper = "INFO") then Ok (int64_wrap (0 + offset))
      else if bool_decide (upper = "WARN") then Ok (int64_wrap (4 + offset))
      else if bool_decide (upper = "ERROR") then Ok (int64_wrap (8 + offset))
      else Err (Wrapped "slog: level string" (ErrorString "unknown name"))
  end.

Inductive LogFormat := FormatJSON | FormatText.

(** [slog.Logger]: the handler and its options. *)
Record Logger := mkLogger {
  log_Format : LogFormat; log_AddSource : bool; log_Level : Z; log_ReplaceAttr : Attr -> Attr
}.

(** [New]; the output is nil or not. *)
Definition logging_New (value : LogConfig) (output : bool) : res Logger :=
  fail_if negb output with_ ErrorString "log output must not be nil" ;;
  level ← match level_UnmarshalText (TrimSpace (Level value)) with
          | Ok level => Ok level | Err err => Err (Wrapped "log.level" err) end;
  let format := ToLower (TrimSpace (Format value)) in
  if bool_decide (format = "json") then Ok (mkLogger FormatJSON (AddSource value) level redactAttribute)
  else if bool_decide (format = "text") then Ok (mkLogger FormatText (AddSource value) level redactAttribute)
  else Err (ErrorString "log.format: unsupported format").

(** [slog.Record]; the source is the place of the call. *)
Record LogRecord := mkRecord {
  rec_Time : Time; rec_Level : Z; rec_Source : LogValue; rec_Message : string; rec_Attrs : list Attr
}.

(** The attributes a handler makes of the record itself. *)
Definition built_in (logger : Logger) (record : LogRecord) : list Attr :=
  (if IsZero (rec_Time record) then [] else [mkAttr "time" (TimeValue (rec_Time record))]) ++
  [mkAttr "level" (LevelValue (rec_Level record))] ++
  (if log_AddSource logger then [mkAttr "source" (rec_Source record)] else []) ++
  [mkAttr "msg" (StringValue (rec_Message record))].

(** [ReplaceAttr] is called on each attribute that is not a group, and on those inside a group. *)
Fixpoint replaced (replace : Attr -> Attr) (key : string) (value : LogValue) : Attr :=
  match value with
  | GroupValue attributes =>
      mkAttr key (GroupValue (map (fun attribute => replaced replace attribute.1 attribute.2) attributes))
  | _ => replace (mkAttr key value)
  end.

(** The attributes a handler formats of a record, if it does. *)
Definition written (logger : Logger) (record : LogRecord) : option (list Attr) :=
  if (log_Level logger <=? rec_Level record)%Z
  then Some (map (fun attribute => replaced (log_ReplaceAttr logger) attribute.1 attribute.2)
              (built_in logger record ++ rec_Attrs record))
  else None.

Example levels_ex :
  map level_UnmarshalText ["info"; "WARN+2"; "debug-1"; "trace"; "info+"] =
  [Ok 0%Z; Ok 6%Z; Ok (-5)%Z; Err (Wrapped "slog: level string" (ErrorString "unknown name"));
   Err (Wrapped "slog: level string" (ErrorString "invalid syntax"))].
Proof. vm_compute. reflexivity. Qed.

(** ** Redaction *)

Lemma prefix_spec p : forall s, String.prefix p s = true <-> exists rest, s = p +++ rest.
Proof.
  induction p as [|c p IH]; intros s; [split; [by exists s|by destruct s]|].
  destruct s as [|d s]; [split; [done|by intros [? ?]]|].
  change (String.prefix (String c p) (String d s)) with (if ascii_dec c d then String.prefix p s else false).
  destruct (ascii_dec c d) as [->|Hne].
  - rewrite IH. split; intros [rest Hr]; exists rest; [by rewrite Hr|by injection Hr].
  - split; [done|]. intros [rest Hr]. by injection Hr as ->.
Qed.

Lemma Contains_spec sub : forall s, Contains s sub = true <-> exists pre post, s = pre +++ sub +++ post.
Proof.
  induction s as [|c s IH]; cbn [Contains]; rewrite orb_true_iff, prefix_spec.
  - split; [intros [[rest Hr]|?]; [by exists "", rest|done]|].
    intros (pre & post & He). left. destruct pre; [by exists post|done].
  - rewrite IH. split.
    + intros [[rest Hr]|(pre & post & ->)]; [by exists "", rest|by exists (String c pre), post].
    + intros ([|d pre] & post & He); [left; by exists post|right].
      injection He as -> He. by exists pre, post.
Qed.

Lemma redact_cases attribute :
  (isSensitiveKey (attr_Key attribute) = true /\
   redactAttribute attribute = mkAttr (attr_Key attribute) (StringValue redactedValue)) \/
  (isSensitiveKey (attr_Key attribute) = false /\ redactAttribute attribute = attribute).
Proof. unfold redactAttribute. destruct (isSensitiveKey (attr_Key attribute)); by auto. Qed.

(** A key names a secret: it holds, in any case, one of the seven fragments. *)
Definition secret_key (key : string) : Prop :=
  exists fragment pre post, fragment ∈ sensitive_fragments /\ ToLower key = pre +++ fragment +++ post.

Lemma isSensitiveKey_spec key : isSensitiveKey key = true <-> secret_key key.
Proof.
  unfold isSensitiveKey, secret_key. rewrite existsb_exists. split.
  - intros (fragment & Hin & (pre & post & He)%Contains_spec). exists fragment, pre, post.
    split; [by apply list_elem_of_In|done].
  - intros (fragment & pre & post & Hin & He). exists fragment. split; [by apply list_elem_of_In|].
    apply Contains_spec. by exists pre, post.
Qed.

Definition is_group (value : LogValue) : Prop := exists attributes, value = GroupValue attributes.

(** What may be written of an attribute: of one whose key names a secret the key alone, any other
    as it is; a group of what may be written of its attributes, whatever its own key. *)
Inductive redacts : Attr -> Attr -> Prop :=
| redacts_secret key value :
    ~ is_group value -> secret_key key -> redacts (mkAttr key value) (mkAttr key (StringValue "[REDACTED]"))
| redacts_plain key value :
    ~ is_group value -> ~ secret_key key -> redacts (mkAttr key value) (mkAttr key value)
| redacts_group key attributes out :
    Forall2 redacts attributes out -> redacts (mkAttr key (GroupValue attributes)) (mkAttr key (GroupValue out)).

Lemma redact_leaf key value : ~ is_group value -> redacts (mkAttr key value) (redactAttribute (mkAttr key value)).
Proof.
  intros Hv. destruct (redact_cases (mkAttr key value)) as [[Hs ->]|[Hs ->]]; cbn [attr_Key fst mkAttr] in Hs |- *.
  - by apply redacts_secret, isSensitiveKey_spec.
  - apply redacts_plain; [done|]. rewrite <- isSensitiveKey_spec. congruence.
Qed.

Fixpoint replaced_redacts (key : string) (value : LogValue) {struct value} :
  redacts (mkAttr key value) (replaced redactAttribute key value).
Proof.
  destruct value as [| | | |attributes]; try (apply redact_leaf; by intros [? ?]).
  apply redacts_group. induction attributes as [|[k v] attributes IH]; constructor; [apply replaced_redacts|exact IH].
Defined.

(** The levels and the formats of the configuration, by name. *)
Definition level_names : list (string * Z) := [("debug", -4); ("info", 0); ("warn", 4); ("error", 8)]%Z.
Definition format_names : list (string * LogFormat) := [("json", FormatJSON); ("text", FormatText)].

Lemma logging_New_ok (value : LogConfig) :
  Level value ∈ ["debug"; "info"; "warn"; "error"] -> Format value ∈ ["json"; "text"] ->
  exists logger, logging_New value true = Ok logger /\ (Level value, log_Level logger) ∈ level_names /\
    (Format value, log_Format logger) ∈ format_names /\
    log_AddSource logger = AddSource value /\ log_ReplaceAttr logger = redactAttribute.
Proof.
  intros Hl Hf. assert (Hlevel : exists level, level_UnmarshalText (TrimSpace (Level value)) = Ok level /\
    (Level value, level) ∈ level_names).
  { apply list_elem_of_In in Hl. cbn [In] in Hl. destruct Hl as [<-|[<-|[<-|[<-|[]]]]];
      (eexists; split; [vm_compute; reflexivity|apply list_elem_of_In; cbn; tauto]). }
  assert (Hformat : ToLower (TrimSpace (Format value)) = Format value).
  { apply list_elem_of_In in Hf. cbn [In] in Hf. destruct Hf as [<-|[<-|[]]]; vm_compute; reflexivity. }
  destruct Hlevel as (level & Hlv & Hin). unfold logging_New. rewrite Hlv, Hformat. cbn [negb guard_err mbind result_bind].
  cbv zeta. apply list_elem_of_In in Hf. cbn [In] in Hf. destruct Hf as [Hf|[Hf|[]]]; rewrite <- Hf;
    (eexists; split; [reflexivity|]; split; [exact Hin|]; split; [apply list_elem_of_In; cbn; tauto|done]).
Qed.

(** C21: a validated log configuration always makes a logger, of the level and the format it names
    and with the source when it asks for it.  The logger writes exactly the records from its level
    on; and of the attributes of a record, its own and those inside groups at any depth, the value
    of one whose key holds, in any case, one of the seven fragments of a secret's name is never
    written: the key is kept with a fixed text, and any other attribute is written as it is.  The
    key of a group is not looked at, since [slog] does not give groups to [redactAttribute]. *)
Theorem logging_redacts (value : LogConfig) :
  Level value ∈ ["debug"; "info"; "warn"; "error"] -> Format value ∈ ["json"; "text"] ->
  exists logger, logging_New value true = Ok logger /\
    (Level value, log_Level logger) ∈ [("debug", -4); ("info", 0); ("warn", 4); ("error", 8)]%Z /\
    (Format value, log_Format logger) ∈ [("json", FormatJSON); ("text", FormatText)] /\
    log_AddSource logger = AddSource value /\
    forall record,
      (written logger record = None <-> (rec_Level record < log_Level logger)%Z) /\
      forall out, written logger record = Some out ->
        Forall2 redacts (built_in logger record ++ rec_Attrs record) out.
Proof.
  intros Hl Hf.
  destruct (logging_New_ok value Hl Hf) as (logger & Hnew & Hlevel & Hformat & Hsource & Hreplace). exists logger.
  split; [done|]. split; [exact Hlevel|]. split; [exact Hformat|]. split; [done|]. intros record. unfold written.
  destruct (Z.leb_spec (log_Level logger) (rec_Level record)); (split; [split; intros; first [done|lia|exfalso; lia]|]); [|done].
  intros out [= <-]. rewrite Hreplace. apply Forall2_fmap_r, Forall_Forall2_diag, Forall_true.
  intros [key v]. apply replaced_redacts.
Qed.

Definition sample_record : LogRecord :=
  mkRecord (Date 2026 7 13) 8 (OtherValue 7) "stopped"
    [mkAttr "target" (StringValue "prod"); mkAttr "AWS_Session_Token" (StringValue "abc");
     mkAttr "credentials" (GroupValue [mkAttr "id" (StringValue "AKIA"); mkAttr "Secret" (StringValue "s")])].

(** The last attribute shows what the key of a group does not protect. *)
Example sample_written :
  match logging_New (mkLogConfig "info" "json" false) true with
  | Ok logger => written logger sample_record
  | Err _ => None
  end = Some
    [mkAttr "time" (TimeValue (Date 2026 7 13)); mkAttr "level" (LevelValue 8); mkAttr "msg" (StringValue "stopped");
     mkAttr "target" (StringValue "prod"); mkAttr "AWS_Session_Token" (StringValue "[REDACTED]");
     mkAttr "credentials" (GroupValue [mkAttr "id" (StringValue "AKIA"); mkAttr "Secret" (StringValue "[REDACTED]")])].
Proof. vm_compute. reflexivity. Qed.

Lemma logging_redacts_witness :
  exists logger out, logging_New (cfg_Log Default) true = Ok logger /\ written logger sample_record = Some out /\
    Forall2 redacts (built_in logger sample_record ++ rec_Attrs sample_record) out.
Proof.
  destruct (logging_redacts (cfg_Log Default)) as (logger & Hn & Hlevel & _ & _ & Hw).
  - apply (bool_decide_unpack _). vm_compute. exact I.
  - apply (bool_decide_unpack _). vm_compute. exact I.
  - destruct (Hw sample_record) as [Hnone Hout]. exists logger.
    destruct (written logger sample_record) as [out|].
    + exists out. split; [exact Hn|]. split; [reflexivity|by apply Hout].
    + exfalso. destruct Hnone as [Hnone _]. specialize (Hnone eq_refl). cbn in Hnone.
      rewrite !elem_of_cons, elem_of_nil in Hlevel. naive_solver lia.
Defined.
