(* ===== verification/Retry.v ===== *)
(** * Retries and attempt limits of the SDK clients (internal/aws/common)

    retry.go and the limiter and retryer of instrumentation.go.  The standard retryer and the
    token buckets are the SDK's and golang.org/x/time/rate's: arguments. *)

From S2P Require Import Prelude GoStrings GoFloat FloatFacts GoTime Errors Effects Config.
Local Open Scope string_scope.
Local Open Scope list_scope.

(** ** The delay before a retry (retry.go) *)

Record jitterBackoff := mkJitterBackoff { jb_base : Duration; jb_max : Duration }.

(** The loop that doubles the delay, with [n] steps left. *)
Fixpoint double_delay (n : nat) (max delay : Duration) : Duration :=
  match n with
  | O => delay
  | S n =>
      if (delay <? max)%Z then
        if (max ÷ 2 <? delay)%Z then max
        else double_delay n max (int64_wrap (delay * 2))
      else delay
  end.

Definition full_delay (backoff : jitterBackoff) (attempt : Z) : Duration :=
  let delay := double_delay (Z.to_nat (attempt - 1)) (jb_max backoff) (jb_base backoff) in
  if (jb_max backoff <? delay)%Z then jb_max backoff else delay.

(** [random] is the generator's answer, in [0, 1). *)
Definition BackoffDelay (backoff : jitterBackoff) (attempt : Z) (random : float64) : Duration :=
  f64_trunc (fmul random (f64_of_Z (full_delay backoff attempt))).

(** What [NewRetryer] sets in the options of the standard retryer. *)
Record StandardOptions := mkStandardOptions {
  so_MaxAttempts : Z; so_MaxBackoff : Duration; so_Backoff : jitterBackoff
}.

Definition retry_options (value : RetryConfig) : StandardOptions :=
  mkStandardOptions (retry_MaxAttempts value) (MaxBackoff value)
    (mkJitterBackoff (BaseDelay value) (MaxBackoff value)).

(** ** Attempt limits (instrumentation.go) *)

(** [observer.ObserveRetry(target, operation, reason)]. *)
Class RetryWorld (W : Type) := observe_retry : string -> string -> string -> W -> W.

Section Retryers.
Context {W : Type} `{RetryWorld W}.

(** [Wait], and a limiter that may be nil. *)
Definition Limiter : Type := option (io W unit).

Record DualLimiter := mkDualLimiter { Global : Limiter; Target : Limiter }.

Definition DualLimiter_Wait (limiter : DualLimiter) : io W unit :=
  match Global limiter, Target limiter with
  | Some global, Some target =>
      _ ← io_map_err (Wrapped "wait for global AWS attempt limit") global;
      io_map_err (Wrapped "wait for target AWS attempt limit") target
  | _, _ => lift (Err (ErrorString "AWS attempt limiters must not be nil"))
  end.

(** [aws.Retryer]; a token is released with the error of what it was taken for.  A retryer of
    the first version has no [GetAttemptToken]. *)
Definition Release : Type := option error -> W -> option error * W.

Record Retryer := mkRetryer {
  IsErrorRetryable : error -> bool;
  rt_MaxAttempts : Z;
  RetryDelay : Z -> error -> io W Duration;
  GetRetryToken : error -> io W Release;
  GetInitialToken : W -> Release * W;
  GetAttemptToken : option (io W Release)
}.

Definition observed_GetRetryToken (base : Retryer) (target operation : string) (operationError : error) :
    io W Release := fun w =>
  match GetRetryToken base operationError w with
  | (Ok release, w) => (Ok release, observe_retry target operation (RetryReason operationError) w)
  | (Err err, w) => (Err err, w)
  end.

Definition observed_GetAttemptToken (base : Retryer) (limiter : Limiter) : io W Release :=
  match limiter with
  | None => lift (Err (ErrorString "AWS attempt limiter must not be nil"))
  | Some wait =>
      _ ← wait;
      match GetAttemptToken base with
      | Some attempt_token => attempt_token
      | None => fun w => let '(release, w) := GetInitialToken base w in (Ok release, w)
      end
  end.

(** The methods that [retryObserver] does not declare are those of the embedded retryer. *)
Definition WrapRetryer (base : Retryer) (target operation : string) (limiter : Limiter) : Retryer :=
  mkRetryer (IsErrorRetryable base) (rt_MaxAttempts base) (RetryDelay base)
    (observed_GetRetryToken base target operation) (GetInitialToken base)
    (Some (observed_GetAttemptToken base limiter)).

(** [retry.NewStandard]. *)
Definition NewRetryer (NewStandard : StandardOptions -> Retryer) (value : RetryConfig) : Retryer :=
  NewStandard (retry_options value).
End Retryers.
Arguments Limiter W : clear implicits.
Arguments DualLimiter W : clear implicits.
Arguments Retryer W : clear implicits.

(** ** The delay grows by doubling up to its limit *)

Lemma double_delay_spec n max delay :
  (0 < delay)%Z -> (0 < max < 2 ^ 63)%Z ->
  Z.min max (double_delay n max delay) = Z.min max (delay * 2 ^ Z.of_nat n).
Proof.
  intros Hd Hmax. revert delay Hd. induction n as [|n IH]; intros delay Hd.
  { cbn [double_delay]. change (2 ^ Z.of_nat 0)%Z with 1%Z. lia. }
  assert (Hp : (2 ^ Z.of_nat (S n) = 2 * 2 ^ Z.of_nat n)%Z) by (rewrite Nat2Z.inj_succ, Z.pow_succ_r; lia).
  assert (0 < 2 ^ Z.of_nat n)%Z by (apply Z.pow_pos_nonneg; lia).
  cbn [double_delay]. destruct (Z.ltb_spec delay max) as [Hlt|Hge]; [|nia].
  rewrite Z.quot_div_nonneg by lia. pose proof (Z.div_mod max 2 ltac:(lia)).
  pose proof (Z.mod_pos_bound max 2 ltac:(lia)).
  destruct (Z.ltb_spec (max / 2) delay) as [Hbig|Hsmall]; [nia|].
  rewrite int64_wrap_id by lia. rewrite IH by lia. f_equal. rewrite Hp. lia.
Qed.

Lemma full_delay_spec backoff attempt :
  (0 < jb_base backoff)%Z -> (0 < jb_max backoff < 2 ^ 63)%Z -> (1 <= attempt)%Z ->
  full_delay backoff attempt = Z.min (jb_max backoff) (jb_base backoff * 2 ^ (attempt - 1)).
Proof.
  intros Hb Hm Ha. pose proof (double_delay_spec (Z.to_nat (attempt - 1)) (jb_max backoff) (jb_base backoff) Hb Hm) as Hd.
  rewrite Z2Nat.id in Hd by lia. rewrite <- Hd. unfold full_delay. cbv zeta.
  destruct (Z.ltb_spec (jb_max backoff) (double_delay (Z.to_nat (attempt - 1)) (jb_max backoff) (jb_base backoff))); lia.
Qed.

(** An answer of the generator is a negative zero or a float below one. *)
Lemma unit_value random : valid_float random -> fleb f0 random = true -> fltb random (f64_of_Z 1) = true ->
  random = S754_zero true \/ exists m e, is_float random m e /\ (sv m e < sv 1 0)%Z.
Proof.
  intros Hv H0 H1. destruct (valid_cases _ Hv) as [H|[[[] H]|[H|[(p & e & H)|(m & e & Hm)]]]].
  - by destruct random.
  - by rewrite H in H0.
  - by rewrite H in H1.
  - by left.
  - by rewrite H in H0.
  - right. rewrite (fltb_value _ _ _ _ _ _ Hm is_float_one), sv_one in H1. apply Z.ltb_lt in H1. by exists m, e.
Qed.

Lemma fmul_comm x y : fmul x y = fmul y x.
Proof.
  destruct x as [[]|[]| |[] m e], y as [[]|[]| |[] m' e']; try done; unfold fmul, SFmul;
    by rewrite (Pos.mul_comm m m'), (Z.add_comm e e').
Qed.

(** C26: the delay before retry number [attempt], for any positive base and maximum a duration can
    hold, is drawn between zero and the base delay doubled with every attempt and cut at the
    maximum; the doubling never overflows the 64-bit nanoseconds of a duration, whatever the number
    of attempts.  Above 2^53 nanoseconds (104 days) the conversion to a float may add up to 1023
    nanoseconds, and the product is a duration all the same. *)
Theorem BackoffDelay_spec backoff attempt random :
  (0 < jb_base backoff)%Z -> (0 < jb_max backoff < 2 ^ 63)%Z -> (1 <= attempt)%Z ->
  valid_float random -> fleb f0 random = true -> fltb random (f64_of_Z 1) = true ->
  let delay := BackoffDelay backoff attempt random in
  full_delay backoff attempt = Z.min (jb_max backoff) (jb_base backoff * 2 ^ (attempt - 1)) /\
  (0 <= delay < 2 ^ 63)%Z /\
  (delay <= full_delay backoff attempt + if full_delay backoff attempt <=? 2 ^ 53 then 0 else 1023)%Z.
Proof.
  intros Hb Hm Ha Hv H0 H1 delay.
  assert (Hfull : full_delay backoff attempt = Z.min (jb_max backoff) (jb_base backoff * 2 ^ (attempt - 1)))
    by (by apply full_delay_spec).
  split; [done|].
  assert (Hpos : (0 < full_delay backoff attempt <= 2 ^ 63)%Z).
  { rewrite Hfull. assert (0 < jb_base backoff * 2 ^ (attempt - 1))%Z
      by (apply Z.mul_pos_pos; [done|apply Z.pow_pos_nonneg; lia]). lia. }
  unfold delay, BackoffDelay. clear delay Hfull. revert Hpos. generalize (full_delay backoff attempt) as full.
  intros full Hpos. change (if (full <=? 2 ^ 53)%Z then 0%Z else 1023%Z) with (rounding full). rewrite fmul_comm.
  destruct (unit_value random Hv H0 H1) as [->|(m & e & Hf & Hone)].
  - destruct (f64_of_Z_rounded full Hpos) as (m & e & (-> & _ & He) & _). unfold float_of.
    rewrite (proj2 (Z.leb_le _ 971)) by done. unfold rounding. destruct (full <=? 2 ^ 53)%Z, m; cbn; lia.
  - pose proof (fmul_of_Z_below_one full random m e Hpos Hf Hone) as Hlt.
    destruct (at_most_trunc (fmul (f64_of_Z full) random) (full + rounding full) 0) as [Hlo Hhi].
    + apply (fmul_of_Z_rounded full random 0); [done|lia|]. exists m, e. split; [apply Hf|]. split; [apply Hf|change (-0)%Z with 0%Z; lia].
    + unfold rounding. destruct (full <=? 2 ^ 53)%Z; lia.
    + lia.
    + rewrite Z.mul_1_r in Hhi. done.
Qed.

Lemma BackoffDelay_spec_witness :
  let backoff := mkJitterBackoff Second (30 * Second)%Z in
  map (full_delay backoff) [1; 2; 5; 6; 100]%Z = [Second; 2 * Second; 16 * Second; 30 * Second; 30 * Second]%Z /\
  (0 <= BackoffDelay backoff 3 (fdiv (f64_of_Z 1) (f64_of_Z 3)) < 2 ^ 63)%Z.
Proof.
  split; [vm_compute; reflexivity|].
  apply (BackoffDelay_spec (mkJitterBackoff Second (30 * Second)%Z) 3 (fdiv (f64_of_Z 1) (f64_of_Z 3)));
    vm_compute; first [reflexivity|discriminate|split; reflexivity].
Defined.
