(* ===== verification/Verifier.v ===== *)
(** * The identity verifier of a target (internal/aws/clientfactory/factory.go)

    Before a collector runs, [Verify] confirms that the credentials of its target belong to the
    configured account.  All collectors of a target share one verifier: its fields are under a
    mutex, one call at a time asks the identity API, and the others wait for it.  A call is a
    goroutine of a step relation; the sections under the mutex are one step each, and the answers
    of the credentials provider and of the identity API are any.  The hash of the standard
    library is an argument. *)

From S2P Require Import Prelude GoStrings GoTime Errors.
Local Open Scope string_scope.
Local Open Scope list_scope.

(** ** The fingerprint of credentials *)

Record AWSCredentials := mkCredentials {
  AccessKeyID : string; SecretAccessKey : string; SessionToken : string; cred_Provider : string;
  CanExpire : bool; Expires : Time
}.

Definition nul : ascii := Ascii.zero.

Fixpoint trim_zeros (l : list ascii) : list ascii :=
  match l with
  | [] => []
  | c :: l =>
      match trim_zeros l with
      | [] => if bool_decide (c = "0"%char) then [] else [c]
      | rest => c :: rest
      end
  end.

(** The digits of the fraction of a second, without trailing zeros. *)
Definition nano_digits (n : Z) : list ascii :=
  trim_zeros (map (fun k => digit_char (n / 10 ^ Z.of_nat k mod 10)) [8; 7; 6; 5; 4; 3; 2; 1; 0]).

(** [t.UTC().Format(time.RFC3339Nano)]. *)
Definition Format_RFC3339Nano (t : Time) : string :=
  let clock := (t mod day_ns)%Z in
  let fraction := nano_digits (clock mod Second) in
  Format_DateOnly t +++ "T" +++ two_digits (clock / Hour) +++ ":" +++
  two_digits (clock / Minute mod 60) +++ ":" +++ two_digits (clock / Second mod 60) +++
  (if bool_decide (fraction = []) then "" else "." +++ of_bytes fraction) +++ "Z".

Definition fingerprint_text (c : AWSCredentials) : string :=
  AccessKeyID c +++ String nul (SecretAccessKey c +++ String nul (SessionToken c +++
  String nul (cred_Provider c +++
    (if CanExpire c then String nul (Format_RFC3339Nano (Expires c)) else "")))).

Example Format_RFC3339Nano_ex :
  map Format_RFC3339Nano [Date 2026 7 13; Date 2026 7 13 + 5 * Hour + 61 * Second + 120 * Millisecond]%Z =
  ["2026-07-13T00:00:00Z"; "2026-07-13T05:01:01.12Z"].
Proof. vm_compute. reflexivity. Qed.

(** ** The verifier *)

Section Verifier.
Context {F : Type} `{EqDecision F} (Sum256 : string -> F).

(** [credentialFingerprint], of what [Retrieve] answered. *)
Definition credentialFingerprint (resolved : res AWSCredentials) : res F :=
  match resolved with
  | Err err => Err (ClassifyError err)
  | Ok resolved =>
      fail_if bool_decide (AccessKeyID resolved = "") with_ ClassifyError (ErrorString "AWS credentials are unavailable") ;;
      Ok (Sum256 (fingerprint_text resolved))
  end.

(** [verify] up to the second look at the credentials: the answer of [GetCallerIdentity], whose
    output and account may be nil. *)
Definition check_identity (accountID : string) (output : res (option (option string))) : res unit :=
  match output with
  | Err err => Err (ClassifyError err)
  | Ok output =>
      match output ≫= (fun account => account) with
      | Some account => if bool_decide (account = accountID) then Ok tt else Err IdentityMismatch
      | None => Err IdentityMismatch
      end
  end.

(** The rest of [verify]. *)
Definition check_unchanged (expected : F) (resolved : res AWSCredentials) : res unit :=
  current ← credentialFingerprint resolved;
  if bool_decide (current = expected) then Ok tt else Err CredentialsChanged.

(** The fields under the mutex; [inFlight] is the channel of the call in flight. *)
Record Fields := mkFields {
  verified : bool;
  verifiedUntil : Time;
  verifiedFor : F;
  inFlight : option nat;
  lastErr : option error;
  retryAfter : Time;
  failedFor : F
}.

(** A call in flight: the fingerprint it looked at, its channel, and when it started. *)
Record Attempt := mkAttempt { at_fingerprint : F; at_wait : nat; at_start : Time }.

(** What a call has seen between its two sections under the mutex, kept for the statements below:
    the account [GetCallerIdentity] answered and when, and the fingerprint of the second look at
    the credentials, if it was taken and succeeded, and when. *)
Record Evidence := mkEvidence {
  ev_account : option string; ev_reported : Time; ev_current : option F; ev_looked : Time
}.

(** The fingerprint of the second look. *)
Definition seen_fingerprint (resolved : res AWSCredentials) : option F :=
  match credentialFingerprint resolved with Ok fingerprint => Some fingerprint | Err _ => None end.

(** Where a call of [Verify] is: before the fingerprint, before the mutex, at the select on the
    channel of another call, before [GetCallerIdentity], before the second look at the
    credentials, before the mutex again with its result, or returned, with the fingerprint it
    looked at and the instant. *)
Inductive Caller :=
| VFingerprint
| VEntering (fingerprint : F)
| VWaiting (wait : nat)
| VCalling (a : Attempt)
| VChecking (a : Attempt) (account : option string) (reported : Time)
| VFinishing (a : Attempt) (seen : Evidence) (result : res unit)
| VReturned (fingerprint : option F) (at_ : Time) (result : res unit).

Section Times.
Context (successTTL failureTTL : Duration).

Definition set_unverified (v : Fields) : Fields :=
  mkFields false (verifiedUntil v) (verifiedFor v) (inFlight v) (lastErr v) (retryAfter v) (failedFor v).
Definition set_inFlight (wait : option nat) (v : Fields) : Fields :=
  mkFields (verified v) (verifiedUntil v) (verifiedFor v) wait (lastErr v) (retryAfter v) (failedFor v).

(** The first section under the mutex, at [now], and at [later] for the second reading of the
    clock; [fresh] is the channel it may make. *)
Definition enter (v : Fields) (fingerprint : F) (now later : Time) (fresh : nat) : Fields * Caller :=
  if verified v && bool_decide (verifiedFor v = fingerprint) &&
     ((successTTL <=? 0)%Z || Before now (verifiedUntil v))
  then (v, VReturned (Some fingerprint) now (Ok tt))
  else
    let v := set_unverified v in
    match inFlight v with
    | Some wait => (v, VWaiting wait)
    | None =>
        match lastErr v with
        | Some err =>
            if bool_decide (failedFor v = fingerprint) && Before later (retryAfter v)
            then (v, VReturned (Some fingerprint) later (Err err))
            else (set_inFlight (Some fresh) v, VCalling (mkAttempt fingerprint fresh later))
        | None => (set_inFlight (Some fresh) v, VCalling (mkAttempt fingerprint fresh later))
        end
    end.

(** The second one. *)
Definition finish (v : Fields) (fingerprint : F) (result : res unit) (now : Time) : Fields :=
  set_inFlight None
    match result with
    | Ok _ => mkFields true (now + successTTL)%Z fingerprint (inFlight v) None (retryAfter v) (failedFor v)
    | Err err => mkFields (verified v) (verifiedUntil v) (verifiedFor v) (inFlight v) (Some err)
                   (now + failureTTL)%Z fingerprint
    end.
End Times.

(** The fields [Verify] checks first; [None] and empty texts are refused. *)
Record targetVerifier := mkTargetVerifier {
  tv_client : bool; tv_credentials : bool; tv_target : string; tv_accountID : string;
  tv_failureTTL : Duration; tv_successTTL : Duration
}.

Definition invalid_verifier (verifier : option targetVerifier) : bool :=
  match verifier with
  | None => true
  | Some v => negb (tv_client v) || negb (tv_credentials v) || bool_decide (tv_target v = "") ||
              bool_decide (tv_accountID v = "")
  end.

(** ** Calls in any interleaving *)

(** The fields, the channels closed so far, the calls, the clock, and two records of what
    happened: the calls that succeeded, with what they had seen and the instant, and the spans of
    the calls that asked the identity API, latest first. *)
Record System := mkSystem {
  fields : Fields; closed : gset nat; callers : gmap nat Caller; clock : Time;
  made : nat; confirmed : list (Attempt * Evidence * Time); spans : list (Time * Time)
}.

Definition with_caller (i : nat) (c : Caller) (σ : System) : System :=
  mkSystem (fields σ) (closed σ) (<[ i := c ]> (callers σ)) (clock σ) (made σ) (confirmed σ) (spans σ).

Section Steps.
(** The verifier, and the credentials its provider may answer with. *)
Context (verifier : targetVerifier) (provides : AWSCredentials -> Prop).

Definition provided (resolved : res AWSCredentials) : Prop :=
  forall c, resolved = Ok c -> provides c.

Inductive verify_step (i : nat) (σ : System) : System -> Prop :=
| verify_call :
    callers σ !! i = None -> verify_step i σ (with_caller i VFingerprint σ)
| verify_fingerprint resolved :
    callers σ !! i = Some VFingerprint -> provided resolved ->
    verify_step i σ (with_caller i
      (match credentialFingerprint resolved with
       | Ok fingerprint => VEntering fingerprint
       | Err err => VReturned None (clock σ) (Err err)
       end) σ)
| verify_enter fingerprint now later :
    callers σ !! i = Some (VEntering fingerprint) -> (clock σ <= now <= later)%Z ->
    verify_step i σ
      (let '(v, c) := enter (tv_successTTL verifier) (fields σ) fingerprint now later (made σ) in
       mkSystem v (closed σ) (<[ i := c ]> (callers σ)) later (S (made σ)) (confirmed σ) (spans σ))
| verify_woken wait :
    callers σ !! i = Some (VWaiting wait) -> wait ∈ closed σ ->
    verify_step i σ (with_caller i VFingerprint σ)
| verify_canceled wait err :
    callers σ !! i = Some (VWaiting wait) -> err = Canceled \/ err = DeadlineExceeded ->
    verify_step i σ (with_caller i (VReturned None (clock σ) (Err (ClassifyError err))) σ)
| verify_identity a output :
    callers σ !! i = Some (VCalling a) ->
    verify_step i σ (with_caller i
      (let account := match output with Ok output => output ≫= (fun account => account) | Err _ => None end in
       match check_identity (tv_accountID verifier) output with
       | Ok _ => VChecking a account (clock σ)
       | Err err => VFinishing a (mkEvidence account (clock σ) None (clock σ)) (Err err)
       end) σ)
| verify_unchanged a account reported resolved :
    callers σ !! i = Some (VChecking a account reported) -> provided resolved ->
    verify_step i σ (with_caller i
      (VFinishing a (mkEvidence account reported (seen_fingerprint resolved) (clock σ))
        (check_unchanged (at_fingerprint a) resolved)) σ)
| verify_finish a seen result now :
    callers σ !! i = Some (VFinishing a seen result) -> (clock σ <= now)%Z ->
    verify_step i σ (mkSystem
      (finish (tv_successTTL verifier) (tv_failureTTL verifier) (fields σ) (at_fingerprint a) result now)
      ({[ at_wait a ]} ∪ closed σ)
      (<[ i := VReturned (Some (at_fingerprint a)) now result ]> (callers σ)) now (made σ)
      (if is_ok result then (a, seen, now) :: confirmed σ else confirmed σ)
      ((at_start a, now) :: spans σ)).

Inductive system_step (σ : System) : System -> Prop :=
| system_tick now : (clock σ <= now)%Z ->
    system_step σ (mkSystem (fields σ) (closed σ) (callers σ) now (made σ) (confirmed σ) (spans σ))
| system_verify i σ' : verify_step i σ σ' -> system_step σ σ'.

(** A new verifier: its fields are zero. *)
Definition fields_zero (zero : F) : Fields := mkFields false 0%Z zero None None 0%Z zero.
Definition system_init (zero : F) (start : Time) : System :=
  mkSystem (fields_zero zero) ∅ ∅ start 0 [] [].

Definition system_reachable (zero : F) (start : Time) (σ : System) : Prop :=
  rtc system_step (system_init zero start) σ.
End Steps.
End Verifier.

(** ** The invariant of the shared verifier *)

(** One call asked the identity API at least [gap] after another. *)
Definition apart_by (gap : Duration) (later earlier : Time * Time) : Prop :=
  (earlier.2 + gap <= later.1)%Z.

(** What keeps an idle verifier from asking again after a call that ended at [e]: it is verified,
    it remembers the failure, or enough time has passed. *)
Definition resting {F} (successTTL failureTTL : Duration) (fp : F) (v : Fields (F:=F)) (now e : Time) : Prop :=
  (verified v = true /\ verifiedFor v = fp /\ verifiedUntil v = (e + successTTL)%Z) \/
  (is_Some (lastErr v) /\ failedFor v = fp /\ retryAfter v = (e + failureTTL)%Z) \/
  (e + Z.min successTTL failureTTL <= now)%Z.

Section Invariant.
Context {F : Type} `{EqDecision F} (Sum256 : string -> F).
Context (verifier : targetVerifier) (provides : AWSCredentials -> Prop).

(** The call in flight that a goroutine carries. *)
Definition flight (c : Caller (F:=F)) : option (Attempt (F:=F)) :=
  match c with VCalling a | VChecking a _ _ | VFinishing a _ _ => Some a | _ => None end.

(** What a call saw makes its fingerprint one of the configured account: [GetCallerIdentity]
    reported it after the call had started, and the credentials were the same afterwards. *)
Definition supports (a : Attempt (F:=F)) (seen : Evidence (F:=F)) (now : Time) : Prop :=
  ev_account seen = Some (tv_accountID verifier) /\ ev_current seen = Some (at_fingerprint a) /\
  (at_start a <= ev_reported seen <= ev_looked seen)%Z /\ (ev_looked seen <= now)%Z.

(** What a call has found out so far. *)
Definition found_out (now : Time) (c : Caller (F:=F)) : Prop :=
  match c with
  | VCalling a => (at_start a <= now)%Z
  | VChecking a account reported =>
      account = Some (tv_accountID verifier) /\ (at_start a <= reported <= now)%Z
  | VFinishing a seen (Ok _) => supports a seen now
  | _ => True
  end.

(** What a successful return at [t] rests on. *)
Definition justified (σ : System) (fingerprint : option F) (t : Time) : Prop :=
  exists a seen t0, fingerprint = Some (at_fingerprint a) /\ (a, seen, t0) ∈ confirmed σ /\
    supports a seen t0 /\
    (t0 <= t)%Z /\ ((tv_successTTL verifier <= 0)%Z \/ (t < t0 + tv_successTTL verifier)%Z).

Lemma found_out_later now later c : (now <= later)%Z -> found_out now c -> found_out later c.
Proof. intros Hle. unfold found_out, supports. destruct c as [| | | | |a seen [[]|]|]; naive_solver lia. Qed.

Record VInv (σ : System (F:=F)) : Prop := mkVInv {
  vi_owner : forall i c a, callers σ !! i = Some c -> flight c = Some a ->
    inFlight (fields σ) = Some (at_wait a);
  vi_unique : forall i j c d, callers σ !! i = Some c -> callers σ !! j = Some d ->
    is_Some (flight c) -> is_Some (flight d) -> i = j;
  vi_inflight : forall w, inFlight (fields σ) = Some w -> w < made σ /\ w ∉ closed σ /\
    exists i c a, callers σ !! i = Some c /\ flight c = Some a /\ at_wait a = w;
  vi_wait : forall i w, callers σ !! i = Some (VWaiting w) -> w ∈ closed σ \/ inFlight (fields σ) = Some w;
  vi_closed : forall w, w ∈ closed σ -> w < made σ;
  vi_verified : verified (fields σ) = true ->
    exists a seen t, verifiedUntil (fields σ) = (t + tv_successTTL verifier)%Z /\
      verifiedFor (fields σ) = at_fingerprint a /\ (a, seen, t) ∈ confirmed σ;
  vi_confirmed : forall a seen t, (a, seen, t) ∈ confirmed σ -> supports a seen t /\ (t <= clock σ)%Z;
  vi_accounts : forall i c, callers σ !! i = Some c -> found_out (clock σ) c;
  vi_returned : forall i fp t, callers σ !! i = Some (VReturned fp t (Ok tt)) -> justified σ fp t
}.

Lemma check_identity_ok account output :
  check_identity account output = Ok tt ->
  match output with Ok output => output ≫= (fun a => a) | Err _ => None end = Some account.
Proof.
  unfold check_identity. destruct output as [output|]; [|done].
  destruct (output ≫= (fun a => a)); [|done]. by case_bool_decide as He; [rewrite He|].
Qed.

(** A step of one goroutine that keeps its call in flight and changes nothing shared. *)
Lemma VInv_quiet σ i c' :
  VInv σ -> flight c' = (callers σ !! i ≫= flight) ->
  (forall w, c' = VWaiting w -> w ∈ closed σ \/ inFlight (fields σ) = Some w) ->
  (forall fp t, c' = VReturned fp t (Ok tt) -> justified σ fp t) ->
  found_out (clock σ) c' -> VInv (with_caller i c' σ).
Proof.
  intros [Ho Hu Hi Hwt Hcl Hv Hc Ha Hret] Hf Hw Hr Hacc.
  assert (Hold : forall j c, <[ i := c' ]> (callers σ) !! j = Some c -> is_Some (flight c) ->
    exists d, callers σ !! j = Some d /\ flight d = flight c).
  { intros j c [[<- <-]|[Hne Hj]]%lookup_insert_Some Hs; [|by exists c].
    rewrite Hf in Hs |- *. destruct (callers σ !! i) as [d|]; [by exists d|by destruct Hs]. }
  split; unfold with_caller; cbn [fields closed made confirmed clock callers]; try done.
  - intros j c a Hj Hfl. destruct (Hold j c Hj) as (d & Hd & He); [by eexists|]. eapply Ho; [exact Hd|congruence].
  - intros j k c d Hj Hk Hcs Hds. destruct (Hold j c Hj Hcs) as (c0 & Hc0 & He).
    destruct (Hold k d Hk Hds) as (d0 & Hd0 & He'). eapply Hu; [exact Hc0|exact Hd0| |]; congruence.
  - intros w Hw'. destruct (Hi w Hw') as (Hm & Hncl & j & c & a & Hj & Hfl & Hat).
    split; [done|]. split; [done|]. destruct (decide (j = i)) as [->|Hne].
    + exists i, c', a. rewrite lookup_insert_eq, Hf, Hj. done.
    + exists j, c, a. by rewrite lookup_insert_ne.
  - intros j w [[<- He]|[_ Hj]]%lookup_insert_Some; [by apply Hw|by eapply Hwt].
  - intros j c [[<- <-]|[_ Hj]]%lookup_insert_Some; [done|by eapply Ha].
  - intros j fp t [[<- He]|[_ Hj]]%lookup_insert_Some; [by apply Hr|by eapply Hret].
Qed.

(** Time passes, a channel is made, and the verified flag may be taken back. *)
Lemma VInv_advance σ t m (v : Fields) :
  VInv σ -> (clock σ <= t)%Z -> made σ <= m -> v = fields σ \/ v = set_unverified (fields σ) ->
  VInv (mkSystem v (closed σ) (callers σ) t m (confirmed σ) (spans σ)).
Proof.
  intros [Ho Hu Hi Hwt Hcl Hv Hc Ha Hret] Ht Hm Hf.
  assert (Hfl : inFlight v = inFlight (fields σ)) by (by destruct Hf as [->| ->]).
  split; cbn [fields closed made confirmed clock callers]; rewrite ?Hfl; try done.
  - intros w Hw. destruct (Hi w Hw) as (? & ? & ?). split; [lia|done].
  - intros w Hw. apply Hcl in Hw. lia.
  - destruct Hf as [->| ->]; [done|]. cbn. done.
  - intros a seen t' Hin. destruct (Hc a seen t' Hin). split; [done|lia].
  - intros i c Hi'. apply (found_out_later (clock σ)); [done|by eapply Ha].
Qed.

Lemma VInv_fly σ i c' a :
  VInv σ -> flight c' = Some a -> found_out (clock σ) c' -> inFlight (fields σ) = None ->
  (callers σ !! i ≫= flight) = None -> at_wait a < made σ -> at_wait a ∉ closed σ ->
  (forall c, c' <> VWaiting c) -> (forall fp t r, c' <> VReturned fp t r) ->
  VInv (mkSystem (set_inFlight (Some (at_wait a)) (fields σ)) (closed σ) (<[ i := c' ]> (callers σ))
          (clock σ) (made σ) (confirmed σ) (spans σ)).
Proof.
  intros [Ho Hu Hi Hwt Hcl Hv Hc Ha Hret] Hf Hacc Hnone Hidle Hm Hncl Hnw Hnr.
  assert (Hno : forall j c, callers σ !! j = Some c -> ~ is_Some (flight c)).
  { intros j c Hj [b Hb]. specialize (Ho j c b Hj Hb). congruence. }
  split; cbn [fields closed made confirmed clock callers]; try done.
  - intros j c b [[<- <-]|[_ Hj]]%lookup_insert_Some Hb; [cbn; congruence|].
    destruct (Hno j c Hj). by eexists.
  - intros j k c d [[<- <-]|[_ Hj]]%lookup_insert_Some [[<- <-]|[_ Hk]]%lookup_insert_Some Hcs Hds;
      [done|by destruct (Hno k d)|by destruct (Hno j c)|by eapply Hu].
  - cbn. intros w [= <-]. split; [done|]. split; [done|]. exists i, c', a. by rewrite lookup_insert_eq.
  - intros j w [[<- He]|[_ Hj]]%lookup_insert_Some; [by destruct (Hnw w)|].
    destruct (Hwt j w Hj) as [?|He]; [by left|congruence].
  - intros j c [[<- <-]|[_ Hj]]%lookup_insert_Some; [done|by eapply Ha].
  - intros j fp t [[<- He]|[_ Hj]]%lookup_insert_Some; [by destruct (Hnr fp t (Ok tt))|by eapply Hret].
Qed.

Lemma VInv_enter σ i fingerprint now later :
  VInv σ -> callers σ !! i = Some (VEntering fingerprint) -> (clock σ <= now <= later)%Z ->
  let '(v, c) := enter (tv_successTTL verifier) (fields σ) fingerprint now later (made σ) in
  VInv (mkSystem v (closed σ) (<[ i := c ]> (callers σ)) later (S (made σ)) (confirmed σ) (spans σ)).
Proof.
  intros Hinv Hi Ht. unfold enter.
  assert (Hadv : forall v, v = fields σ \/ v = set_unverified (fields σ) ->
    VInv (mkSystem v (closed σ) (callers σ) later (S (made σ)) (confirmed σ) (spans σ)))
    by (intros v Hv; apply VInv_advance; [done|lia|lia|done]).
  destruct (verified (fields σ) && _ && _) eqn:Hok.
  - apply (VInv_quiet _ i _ (Hadv _ (or_introl eq_refl))); cbn [callers]; rewrite ?Hi; try done.
    intros fp t [= <- <-]. apply andb_prop in Hok as [Hok Httl]. inv_bool.
    destruct (vi_verified σ Hinv) as (a & seen & t0 & Huntil & Hfor & Hin); [done|]. exists a, seen, t0.
    cbn [confirmed]. split; [congruence|]. split; [done|].
    destruct (vi_confirmed σ Hinv _ _ _ Hin) as [Hsup Hle]. split; [done|]. split; [lia|].
    apply orb_prop in Httl as [?|Hbefore]; [left; lia|right]. unfold Before in Hbefore. lia.
  - cbv zeta. cbn [inFlight set_unverified lastErr failedFor retryAfter].
    specialize (Hadv _ (or_intror eq_refl)).
    assert (Hcall : inFlight (fields σ) = None ->
      VInv (mkSystem (set_inFlight (Some (made σ)) (set_unverified (fields σ))) (closed σ)
        (<[ i := VCalling (mkAttempt fingerprint (made σ) later) ]> (callers σ)) later (S (made σ))
        (confirmed σ) (spans σ))).
    { intros Hnone. set (a := mkAttempt fingerprint (made σ) later).
      refine (VInv_fly _ i (VCalling a) a Hadv _ _ _ _ _ _ _ _); cbn; rewrite ?Hi; try done; [lia..|].
      intros Hcl. apply (vi_closed σ Hinv) in Hcl. lia. }
    destruct (inFlight (fields σ)) as [w|] eqn:Hf.
    + apply (VInv_quiet _ i _ Hadv); cbn [callers]; rewrite ?Hi; try done.
      intros w' [= <-]. right. done.
    + destruct (lastErr (fields σ)) as [err|]; [|by apply Hcall].
      destruct (bool_decide (failedFor (fields σ) = fingerprint) && Before later (retryAfter (fields σ)));
        [|by apply Hcall].
      apply (VInv_quiet _ i _ Hadv); cbn [callers]; rewrite ?Hi; done.
Qed.

Lemma VInv_finish σ i a seen result now :
  VInv σ -> callers σ !! i = Some (VFinishing a seen result) -> (clock σ <= now)%Z ->
  VInv (mkSystem
    (finish (tv_successTTL verifier) (tv_failureTTL verifier) (fields σ) (at_fingerprint a) result now)
    ({[ at_wait a ]} ∪ closed σ)
    (<[ i := VReturned (Some (at_fingerprint a)) now result ]> (callers σ)) now (made σ)
    (if is_ok result then (a, seen, now) :: confirmed σ else confirmed σ)
    ((at_start a, now) :: spans σ)).
Proof.
  intros [Ho Hu Hi Hwt Hcl Hv Hc Ha Hret] Hcall Ht.
  pose proof (Ho i _ a Hcall eq_refl) as Hfl. pose proof (Ha i _ Hcall) as Hacc. cbn in Hacc.
  assert (Hno : forall j c, j <> i -> callers σ !! j = Some c -> flight c = None).
  { intros j c Hne Hj. destruct (flight c) eqn:Hf; [|done]. destruct Hne.
    eapply Hu; [exact Hj|exact Hcall|by eexists|by eexists]. }
  assert (Hin : forall x, x ∈ confirmed σ ->
    x ∈ (if is_ok result then (a, seen, now) :: confirmed σ else confirmed σ)).
  { intros x Hx. destruct (is_ok result); [by right|done]. }
  split; cbn [fields closed made confirmed clock callers].
  - intros j c b [[<- <-]|[Hne Hj]]%lookup_insert_Some Hb; [done|]. rewrite (Hno j c) in Hb; done.
  - intros j k c d [[<- <-]|[Hne Hj]]%lookup_insert_Some Hk [b Hb]; [done|]. rewrite (Hno j c) in Hb; done.
  - intros w. by destruct result.
  - intros j w [[<- He]|[_ Hj]]%lookup_insert_Some; [done|]. left.
    destruct (Hwt j w Hj) as [?|Hw]; [set_solver|]. rewrite Hfl in Hw. injection Hw as <-. set_solver.
  - intros w [->%elem_of_singleton|Hw]%elem_of_union; [by apply Hi|by apply Hcl].
  - destruct result as [[]|err]; cbn; [|by apply Hv]. intros _. exists a, seen, now.
    split; [done|]. split; [done|by left].
  - intros a' seen' t Hx. assert (Hcase : (a', seen', t) = (a, seen, now) /\ is_ok result = true \/ (a', seen', t) ∈ confirmed σ).
    { destruct (is_ok result); [|by right]. apply elem_of_cons in Hx as [?|?]; [by left|by right]. }
    destruct Hcase as [[[= -> -> ->] Hr]|Hold]; [|apply Hc in Hold as [? ?]; split; [done|lia]].
    destruct result as [[]|]; [|done]. split; [by apply (found_out_later (clock σ) now (VFinishing a seen (Ok ())))|done].
  - intros j c [[<- <-]|[_ Hj]]%lookup_insert_Some; [done|]. apply (found_out_later (clock σ)); [done|by eapply Ha].
  - intros j fp t [[<- He]|[_ Hj]]%lookup_insert_Some.
    + injection He as <- <- Hr. exists a, seen, now. cbn [confirmed].
      rewrite Hr in Hacc |- *. cbn [is_ok]. split; [done|]. split; [by left|].
      split; [by apply (found_out_later (clock σ) now (VFinishing a seen (Ok ())))|]. split; [lia|].
      destruct (Z.le_gt_cases (tv_successTTL verifier) 0); [by left|right; lia].
    + destruct (Hret j fp t Hj) as (a' & seen' & t0 & ? & Hc0 & ?). exists a', seen', t0. split; [done|]. split; [by apply Hin|done].
Qed.

(** Credentials found unchanged are those of the attempt. *)
Lemma check_unchanged_ok fp resolved :
  check_unchanged Sum256 fp resolved = Ok tt -> seen_fingerprint Sum256 resolved = Some fp.
Proof.
  unfold check_unchanged, seen_fingerprint. destruct (credentialFingerprint Sum256 resolved) as [current|]; [|done].
  cbn. by case_bool_decide as He; [rewrite He|].
Qed.

Lemma VInv_step σ σ' : VInv σ -> system_step Sum256 verifier provides σ σ' -> VInv σ'.
Proof.
  intros Hinv [now Ht|i σ1 Hs].
  - apply (VInv_advance σ now (made σ) (fields σ) Hinv Ht); [done|by left].
  - destruct Hs as [Hn|resolved Hi Hp|fp now later Hi Ht|w Hi Hw|w err Hi He|a output Hi|a account reported resolved Hi Hp|a seen result now Hi Ht];
      try (by apply VInv_finish);
      try (pose proof (VInv_enter σ i fp now later Hinv Hi Ht); by destruct (enter _ _ _ _ _ _));
      apply (VInv_quiet σ i _ Hinv); rewrite ?Hn, ?Hi; try done.
    all: try (destruct (credentialFingerprint Sum256 resolved); done).
    + destruct (check_identity _ output) as [[]|]; done.
    + destruct (check_identity _ output) as [[]|]; done.
    + destruct (check_identity _ output) as [[]|]; done.
    + pose proof (vi_accounts σ Hinv i _ Hi) as Hstart. cbn in Hstart.
      destruct (check_identity (tv_accountID verifier) output) as [[]|] eqn:Hc; [|done].
      cbn. split; [by apply check_identity_ok|lia].
    + pose proof (vi_accounts σ Hinv i _ Hi) as Hacc. cbn in Hacc |- *.
      destruct (check_unchanged Sum256 _ resolved) as [[]|] eqn:Hc; [|done].
      apply check_unchanged_ok in Hc. destruct Hacc as [-> Ht]. unfold supports. cbn. split_and!; (done || lia).
Qed.

Lemma VInv_init zero start : VInv (system_init zero start).
Proof.
  split; cbn; try done; try (intros; set_solver).
Qed.

Lemma reachable_VInv zero start σ :
  system_reachable Sum256 verifier provides zero start σ -> VInv σ.
Proof.
  unfold system_reachable. intros Hr. pose proof (VInv_init zero start) as Hinv. revert Hinv.
  induction Hr; [done|]. intros Hinv. apply IHHr. by eapply VInv_step.
Qed.

(** ** Calls of the identity API are spaced *)

Section Spacing.
(** The provider keeps answering with credentials of one fingerprint. *)
Context (fp : F) (Hsame : forall c, provides c -> Sum256 (fingerprint_text c) = fp).
Context (Hsuccess : (0 < tv_successTTL verifier)%Z).

Abbreviation gap := (Z.min (tv_successTTL verifier) (tv_failureTTL verifier)).

Record Spaced (σ : System (F:=F)) : Prop := mkSpaced {
  sp_entering : forall i f, callers σ !! i = Some (VEntering f) -> f = fp;
  sp_flight : forall i c a, callers σ !! i = Some c -> flight c = Some a ->
    at_fingerprint a = fp /\ forall x, head (spans σ) = Some x -> (x.2 + gap <= at_start a)%Z;
  sp_spans : Sorted (apart_by gap) (spans σ);
  sp_idle : inFlight (fields σ) = None -> forall x, head (spans σ) = Some x ->
    resting (tv_successTTL verifier) (tv_failureTTL verifier) fp (fields σ) (clock σ) x.2
}.

Lemma resting_later v now now' e : (now <= now')%Z ->
  resting (tv_successTTL verifier) (tv_failureTTL verifier) fp v now e ->
  resting (tv_successTTL verifier) (tv_failureTTL verifier) fp v now' e.
Proof. unfold resting. intros Hle [H|[H|H]]; [by left|by right; left|right; right; lia]. Qed.

Lemma Spaced_quiet σ i c' :
  Spaced σ -> flight c' = (callers σ !! i ≫= flight) -> (forall f, c' = VEntering f -> f = fp) ->
  Spaced (with_caller i c' σ).
Proof.
  intros [He Hf Hs Hi] Hfl Hent. split; unfold with_caller; cbn [fields callers clock spans]; try done.
  - intros j f [[<- Hj]|[_ Hj]]%lookup_insert_Some; [by apply Hent|by eapply He].
  - intros j c a [[<- <-]|[_ Hj]]%lookup_insert_Some Ha; [|by eapply Hf].
    rewrite Hfl in Ha. destruct (callers σ !! i) as [d|] eqn:Hd; [|done]. by eapply Hf.
Qed.

(** An entering call starts another one only past the rest. *)
Lemma enter_resting v now later fresh e :
  (now <= later)%Z -> inFlight v = None ->
  resting (tv_successTTL verifier) (tv_failureTTL verifier) fp v now e ->
  let '(v', c) := enter (tv_successTTL verifier) v fp now later fresh in
  (inFlight v' = None -> resting (tv_successTTL verifier) (tv_failureTTL verifier) fp v' later e) /\
  (forall a, flight c = Some a -> (e + gap <= at_start a)%Z).
Proof using Hsuccess.
  intros Hle Hidle Hrest. unfold enter.
  destruct (verified v && bool_decide (verifiedFor v = fp) && _) eqn:Hok.
  { split; [|done]. intros _. by apply (resting_later _ now). }
  assert (Hrest' : (is_Some (lastErr v) /\ failedFor v = fp /\ retryAfter v = (e + tv_failureTTL verifier)%Z) \/
    (e + gap <= later)%Z).
  { destruct Hrest as [(Hv & Hf & Hu)|[H|H]]; [|by left|right; lia].
    rewrite Hv, bool_decide_true in Hok by done. cbn [andb] in Hok. apply orb_false_elim in Hok as [_ Hb].
    unfold Before in Hb. apply Z.ltb_ge in Hb. right. lia. }
  cbv zeta. cbn [inFlight set_unverified lastErr failedFor retryAfter]. rewrite Hidle.
  assert (Hcall : (e + gap <= later)%Z -> forall a, flight (VCalling (mkAttempt fp fresh later)) = Some a ->
    (e + gap <= at_start a)%Z) by (intros ? a [= <-]; done).
  destruct (lastErr v) as [err|] eqn:Herr.
  - destruct (bool_decide_reflect (failedFor v = fp)) as [Hfor|Hfor]; cbn [andb].
    + unfold Before. destruct (Z.ltb_spec later (retryAfter v)) as [Hlt|Hge].
      * split; [|done]. intros _. destruct Hrest' as [(? & ? & ?)|?]; [right; left|by right; right].
        cbn. by rewrite Herr.
      * split; [done|]. apply Hcall. destruct Hrest' as [(? & ? & ?)|?]; [lia|done].
    + split; [done|]. apply Hcall. destruct Hrest' as [(? & ? & ?)|?]; [done|done].
  - split; [done|]. apply Hcall. destruct Hrest' as [([? ?] & _)|?]; done.
Qed.

Lemma Spaced_enter σ i f now later :
  Spaced σ -> VInv σ -> callers σ !! i = Some (VEntering f) -> (clock σ <= now <= later)%Z ->
  let '(v, c) := enter (tv_successTTL verifier) (fields σ) f now later (made σ) in
  Spaced (mkSystem v (closed σ) (<[ i := c ]> (callers σ)) later (S (made σ)) (confirmed σ) (spans σ)).
Proof using Hsuccess.
  intros [He Hf Hs Hidle] Hinv Hi Ht. rewrite (He i f Hi).
  destruct (enter (tv_successTTL verifier) (fields σ) fp now later (made σ)) as [v c] eqn:Henter.
  assert (Hfp : forall a, flight c = Some a -> at_fingerprint a = fp).
  { revert Henter. unfold enter. repeat case_match; intros [= <- <-] a [= <-]; done. }
  assert (Hkeep : inFlight v = None -> inFlight (fields σ) = None).
  { revert Henter. unfold enter. cbv zeta. cbn [inFlight set_unverified].
    destruct (_ && _); [by intros [= <- _]|].
    destruct (inFlight (fields σ)) eqn:E; [|done]. intros [= <- _]. cbn. by rewrite E. }
  assert (Hcarry : is_Some (flight c) -> inFlight (fields σ) = None).
  { revert Henter. unfold enter. cbv zeta. cbn [inFlight set_unverified].
    destruct (_ && _); [intros [= _ <-] [? ?]; done|].
    destruct (inFlight (fields σ)); [intros [= _ <-] [? ?]; done|done]. }
  assert (Hrest : forall x, head (spans σ) = Some x -> inFlight (fields σ) = None ->
    (inFlight v = None -> resting (tv_successTTL verifier) (tv_failureTTL verifier) fp v later x.2) /\
    (forall a, flight c = Some a -> (x.2 + gap <= at_start a)%Z)).
  { intros x Hx Hnone. pose proof (enter_resting (fields σ) now later (made σ) x.2 ltac:(lia) Hnone) as Hr.
    rewrite Henter in Hr. apply Hr. apply (resting_later _ (clock σ)); [lia|]. by apply Hidle. }
  split; cbn [fields callers clock spans]; try done.
  - intros j g [[<- Hj]|[_ Hj]]%lookup_insert_Some; [|by eapply He]. exfalso. subst c.
    revert Henter. unfold enter. repeat case_match; done.
  - intros j d a [[<- <-]|[_ Hj]]%lookup_insert_Some Ha; [|by eapply Hf]. split; [by apply Hfp|].
    intros x Hx. apply (Hrest x Hx); [by apply Hcarry; eexists|done].
  - intros Hnone x Hx. by apply (Hrest x Hx); [apply Hkeep|].
Qed.

Lemma Spaced_finish σ i a seen result now :
  Spaced σ -> VInv σ -> callers σ !! i = Some (VFinishing a seen result) -> (clock σ <= now)%Z ->
  Spaced (mkSystem
    (finish (tv_successTTL verifier) (tv_failureTTL verifier) (fields σ) (at_fingerprint a) result now)
    ({[ at_wait a ]} ∪ closed σ)
    (<[ i := VReturned (Some (at_fingerprint a)) now result ]> (callers σ)) now (made σ)
    (if is_ok result then (a, seen, now) :: confirmed σ else confirmed σ)
    ((at_start a, now) :: spans σ)).
Proof.
  intros [He Hf Hs Hidle] Hinv Hi Ht. destruct (Hf i _ a Hi eq_refl) as [Hfp Hhead].
  split; cbn [fields callers clock spans].
  - intros j g [[<- Hj]|[_ Hj]]%lookup_insert_Some; [done|by eapply He].
  - intros j d b [[<- <-]|[Hne Hj]]%lookup_insert_Some Hb; [done|]. exfalso. apply Hne.
    symmetry. eapply (vi_unique σ Hinv); [exact Hj|exact Hi|by eexists|by eexists].
  - constructor; [done|]. destruct (spans σ) as [|x rest]; constructor. unfold apart_by. cbn [fst snd]. by apply Hhead.
  - intros _ x [= <-]. cbn [snd]. rewrite Hfp. unfold resting, finish.
    destruct result as [[]|err]; cbn; [by left|right; left]. split; [by eexists|done].
Qed.

Lemma Spaced_step σ σ' :
  Spaced σ -> VInv σ -> system_step Sum256 verifier provides σ σ' -> Spaced σ'.
Proof using Hsuccess Hsame.
  intros Hsp Hinv [now Ht|i σ1 Hs].
  - destruct Hsp as [He Hf Hss Hidle]. split; cbn [fields callers clock spans]; try done.
    intros Hnone x Hx. apply (resting_later _ (clock σ)); [done|]. by apply Hidle.
  - destruct Hs as [Hn|resolved Hi Hp|f now later Hi Ht|w Hi Hw|w err Hi He|a output Hi|a account reported resolved Hi Hp|a seen result now Hi Ht];
      try (by apply Spaced_finish);
      try (pose proof (Spaced_enter σ i f now later Hsp Hinv Hi Ht); by destruct (enter _ _ _ _ _ _));
      apply (Spaced_quiet σ i _ Hsp); rewrite ?Hn, ?Hi; try done.
    + by destruct (credentialFingerprint Sum256 resolved).
    + intros f. unfold credentialFingerprint. destruct resolved as [c|]; [|done]. unfold guard_err.
      case_bool_decide; [done|]. intros [= <-]. apply Hsame. by apply Hp.
    + by destruct (check_identity _ output) as [[]|].
    + intros f. by destruct (check_identity _ output) as [[]|].
Qed.

Lemma reachable_Spaced zero start σ :
  system_reachable Sum256 verifier provides zero start σ -> Spaced σ.
Proof using Hsuccess Hsame.
  assert (Hinit : Spaced (system_init zero start)) by (split; cbn; try done; intros; set_solver).
  pose proof (VInv_init zero start) as Hinv. unfold system_reachable. intros Hr. revert Hinit Hinv.
  induction Hr as [|σ1 σ2 σ3 Hstep _ IH]; [done|]. intros Hsp Hinv.
  apply IH; [by eapply Spaced_step|by eapply VInv_step].
Qed.
End Spacing.
End Invariant.

(** ** The fingerprint determines the credentials *)

Lemma digit_char_inj a b : (0 <= a <= 9)%Z -> (0 <= b <= 9)%Z -> digit_char a = digit_char b -> a = b.
Proof.
  intros Ha Hb Heq. pose proof (digit_value_char a Ha) as Hv. rewrite Heq, digit_value_char in Hv by done.
  by injection Hv.
Qed.

Lemma two_digits_inj a b : (0 <= a < 100)%Z -> (0 <= b < 100)%Z -> two_digits a = two_digits b -> a = b.
Proof.
  intros Ha Hb Heq. apply (f_equal bytes) in Heq. unfold two_digits in Heq. rewrite !bytes_of_bytes in Heq.
  pose proof (number_of_two a Ha) as Hn. rewrite Heq, number_of_two in Hn by done. by injection Hn.
Qed.

Lemma decimal_inj (k : nat) : forall n m, (0 <= n < 10 ^ Z.of_nat k)%Z -> (0 <= m < 10 ^ Z.of_nat k)%Z ->
  (forall j, j < k -> (n / 10 ^ Z.of_nat j mod 10 = m / 10 ^ Z.of_nat j mod 10)%Z) -> n = m.
Proof.
  induction k as [|k IH]; intros n m Hn Hm Hd; [change (10 ^ Z.of_nat 0)%Z with 1%Z in *; lia|].
  rewrite Nat2Z.inj_succ, Z.pow_succ_r in Hn, Hm by lia.
  assert (H0 : (n mod 10 = m mod 10)%Z) by (specialize (Hd 0 ltac:(lia)); by rewrite !Z.div_1_r in Hd).
  assert (Hdiv : (n / 10 = m / 10)%Z).
  { apply IH; [split; [apply Z.div_pos|apply Z.div_lt_upper_bound]; lia ..|].
    intros j Hj. specialize (Hd (S j) ltac:(lia)). rewrite Nat2Z.inj_succ, Z.pow_succ_r in Hd by lia.
    by rewrite !Z.div_div by (lia || apply Z.pow_pos_nonneg; lia). }
  rewrite (Z.div_mod n 10), (Z.div_mod m 10) by lia. congruence.
Qed.

Lemma trim_zeros_pad l : exists k, l = trim_zeros l ++ repeat "0"%char k.
Proof.
  induction l as [|c l (k & IH)]; [by exists 0|]. cbn [trim_zeros].
  destruct (trim_zeros l) as [|d t]; cbn [app] in IH.
  - case_bool_decide as Hc; [exists (S k); cbn; congruence|exists k; cbn; congruence].
  - exists k. cbn [app]. congruence.
Qed.

Lemma trim_zeros_inj l l' : length l = length l' -> trim_zeros l = trim_zeros l' -> l = l'.
Proof.
  intros Hlen Heq. destruct (trim_zeros_pad l) as [k Hk], (trim_zeros_pad l') as [k' Hk'].
  rewrite Hk, Hk', Heq. do 2 f_equal. apply (f_equal length) in Hk, Hk'.
  rewrite length_app, repeat_length in Hk, Hk'. rewrite Heq in Hk. lia.
Qed.

Lemma nano_digits_inj n m : (0 <= n < Second)%Z -> (0 <= m < Second)%Z -> nano_digits n = nano_digits m -> n = m.
Proof.
  intros Hn Hm Heq. apply trim_zeros_inj in Heq; [|done]. apply (decimal_inj 9); [done|done|].
  intros j Hj. cbn [map] in Heq. simplify_eq.
  assert (Hdig : forall x k, (0 <= x / 10 ^ Z.of_nat k mod 10 <= 9)%Z)
    by (intros x k; pose proof (Z.mod_pos_bound (x / 10 ^ Z.of_nat k) 10 ltac:(lia)); lia).
  do 9 (destruct j as [|j]; [by apply digit_char_inj|]). lia.
Qed.

Lemma Format_DateOnly_length t : (0 <= Year t <= 9999)%Z -> length (bytes (Format_DateOnly t)) = 10.
Proof.
  intros Hy. unfold Format_DateOnly, year_string, two_digits.
  rewrite (proj2 (Z.leb_le 0 (Year t))), (proj2 (Z.leb_le (Year t) 9999)) by lia. cbn [andb].
  rewrite !bytes_app, length_app, bytes_of_bytes. cbn [bytes String.list_ascii_of_string length].
  fold bytes. reflexivity.
Qed.

Lemma Format_DateOnly_inj t u : (0 <= Year t <= 9999)%Z -> (0 <= Year u <= 9999)%Z ->
  Format_DateOnly t = Format_DateOnly u -> (t / day_ns = u / day_ns)%Z.
Proof.
  intros Ht Hu Heq.
  assert (Hday : forall v : Z, (v / day_ns * day_ns / day_ns = v / day_ns)%Z) by (intros; by apply Z.div_mul).
  assert (Hfmt : forall v, Format_DateOnly (v / day_ns * day_ns)%Z = Format_DateOnly v)
    by (intros v; unfold Format_DateOnly, Year, Month, Day; by rewrite Hday).
  assert (Hyear : forall v, Year (v / day_ns * day_ns)%Z = Year v) by (intros v; unfold Year; by rewrite Hday).
  assert (Hp : forall v, (0 <= Year v <= 9999)%Z -> Parse_DateOnly (Format_DateOnly v) = Some (v / day_ns * day_ns)%Z).
  { intros v Hv. rewrite <- Hfmt. apply Parse_Format; [by rewrite Hyear|]. by apply Z.mod_mul. }
  pose proof (Hp t Ht) as Hpt. rewrite Heq, (Hp u Hu) in Hpt. injection Hpt as Hpt.
  apply (f_equal (fun x => x / day_ns)%Z) in Hpt. by rewrite !Hday in Hpt.
Qed.

Lemma clock_fields a b : (0 <= a < day_ns)%Z -> (0 <= b < day_ns)%Z ->
  (a / Hour = b / Hour)%Z -> (a / Minute mod 60 = b / Minute mod 60)%Z ->
  (a / Second mod 60 = b / Second mod 60)%Z -> (a mod Second = b mod Second)%Z -> a = b.
Proof.
  intros Ha Hb Hh Hm Hs Hn.
  assert (Hdiv : forall x, (x / Minute = x / Second / 60 /\ x / Hour = x / Second / 60 / 60)%Z).
  { intros x. rewrite !Z.div_div by (unfold Second; lia). done. }
  destruct (Hdiv a) as [Hma Hha], (Hdiv b) as [Hmb Hhb].
  rewrite Hma, Hmb in Hm. rewrite Hha, Hhb in Hh.
  assert (Hmin : (a / Second / 60 = b / Second / 60)%Z).
  { rewrite (Z.div_mod (a / Second / 60) 60), (Z.div_mod (b / Second / 60) 60) by lia. congruence. }
  assert (Hsec : (a / Second = b / Second)%Z).
  { rewrite (Z.div_mod (a / Second) 60), (Z.div_mod (b / Second) 60) by lia. congruence. }
  rewrite (Z.div_mod a Second), (Z.div_mod b Second) by done. congruence.
Qed.

Lemma two_digits_length a : length (bytes (two_digits a)) = 2.
Proof. unfold two_digits. by rewrite bytes_of_bytes. Qed.

Lemma hour_range a : (0 <= a < day_ns)%Z -> (0 <= a / Hour < 100)%Z.
Proof.
  intros Ha. split; [apply Z.div_pos; [lia|done]|]. apply Z.div_lt_upper_bound; [done|].
  eapply Z.lt_trans; [apply Ha|done].
Qed.

Lemma sixty_range a : (0 <= a mod 60 < 100)%Z.
Proof. pose proof (Z.mod_pos_bound a 60 ltac:(lia)). lia. Qed.

Lemma Format_RFC3339Nano_inj t u : (0 <= Year t <= 9999)%Z -> (0 <= Year u <= 9999)%Z ->
  Format_RFC3339Nano t = Format_RFC3339Nano u -> t = u.
Proof.
  intros Ht Hu Heq. apply (f_equal bytes) in Heq. unfold Format_RFC3339Nano in Heq. cbv zeta in Heq.
  set (a := (t mod day_ns)%Z) in Heq. set (b := (u mod day_ns)%Z) in Heq.
  assert (Ha : (0 <= a < day_ns)%Z) by (by apply Z.mod_pos_bound).
  assert (Hb : (0 <= b < day_ns)%Z) by (by apply Z.mod_pos_bound).
  rewrite !bytes_app in Heq.
  apply app_inj_1 in Heq as [Hdate Heq]; [|by rewrite !Format_DateOnly_length].
  apply app_inj_1 in Heq as [_ Heq]; [|done].
  apply app_inj_1 in Heq as [Hh Heq]; [|by rewrite !two_digits_length].
  apply app_inj_1 in Heq as [_ Heq]; [|done].
  apply app_inj_1 in Heq as [Hm Heq]; [|by rewrite !two_digits_length].
  apply app_inj_1 in Heq as [_ Heq]; [|done].
  apply app_inj_1 in Heq as [Hs Heq]; [|by rewrite !two_digits_length].
  apply app_inj_2 in Heq as [Hf _]; [|done].
  apply bytes_inj, Format_DateOnly_inj in Hdate; [|done..].
  apply bytes_inj, two_digits_inj in Hh; [|by apply hour_range..].
  apply bytes_inj, two_digits_inj in Hm; [|by apply sixty_range..].
  apply bytes_inj, two_digits_inj in Hs; [|by apply sixty_range..].
  assert (Hn : nano_digits (a mod Second) = nano_digits (b mod Second)).
  { revert Hf. destruct (nano_digits (a mod Second)), (nano_digits (b mod Second)); cbn [bool_decide]; try done.
    rewrite !bool_decide_false by done. rewrite !bytes_app, !bytes_of_bytes. cbn. by intros [= -> ->]. }
  apply nano_digits_inj in Hn; [|by apply Z.mod_pos_bound..].
  pose proof (clock_fields a b Ha Hb Hh Hm Hs Hn) as Hab. unfold a, b in Hab.
  rewrite (Z.div_mod t day_ns), (Z.div_mod u day_ns) by done. congruence.
Qed.

Definition nul_free (c : AWSCredentials) : bool :=
  forallb (no_byte nul) [AccessKeyID c; SecretAccessKey c; SessionToken c; cred_Provider c].

(** A text is cut where its first separator is. *)
Lemma cut_text f g s t : no_byte nul f = true -> no_byte nul g = true ->
  f +++ String nul s = g +++ String nul t -> f = g /\ s = t.
Proof.
  intros Hf Hg Heq. apply (f_equal bytes) in Heq. rewrite !bytes_app in Heq.
  apply split_at_sep in Heq as [? ?]; [|by apply no_byte_not_elem..]. split; by apply bytes_inj.
Qed.

Lemma cut_none f g t : no_byte nul f = true -> f +++ "" = g +++ String nul t -> False.
Proof.
  intros Hf Heq. apply no_byte_not_elem in Hf. apply Hf. apply (f_equal bytes) in Heq.
  rewrite !bytes_app, app_nil_r in Heq. rewrite Heq. set_solver.
Qed.

(** two resolutions are hashed as the same text only if every secret field is the same, and
    the provider, and whether and to the nanosecond when they expire: no rotation of the
    credentials between the two looks of [verify] goes unnoticed but for a collision of the hash.
    The separators keep the fields apart because none of them holds a NUL. *)
Theorem fingerprint_text_inj (c d : AWSCredentials) :
  nul_free c = true -> nul_free d = true ->
  (0 <= Year (Expires c) <= 9999)%Z -> (0 <= Year (Expires d) <= 9999)%Z ->
  fingerprint_text c = fingerprint_text d ->
  AccessKeyID c = AccessKeyID d /\ SecretAccessKey c = SecretAccessKey d /\
  SessionToken c = SessionToken d /\ cred_Provider c = cred_Provider d /\
  CanExpire c = CanExpire d /\ (CanExpire c = true -> Expires c = Expires d).
Proof.
  unfold nul_free, fingerprint_text. cbn [forallb]. intros Hc Hd Hyc Hyd Heq. inv_bool.
  apply cut_text in Heq as [? Heq]; [|done..]. apply cut_text in Heq as [? Heq]; [|done..].
  apply cut_text in Heq as [? Heq]; [|done..].
  destruct (CanExpire c), (CanExpire d).
  - apply cut_text in Heq as [? Heq]; [|done..]. apply Format_RFC3339Nano_inj in Heq; done.
  - symmetry in Heq. apply cut_none in Heq; done.
  - apply cut_none in Heq; done.
  - apply (f_equal bytes) in Heq. rewrite !bytes_app, !app_nil_r in Heq. apply bytes_inj in Heq. done.
Qed.

Definition sample_credentials (secret : string) : AWSCredentials :=
  mkCredentials "AKIA" secret "" "StaticCredentials" true (Date 2026 7 13 + 12 * Hour)%Z.

Lemma fingerprint_text_inj_witness :
  (nul_free (sample_credentials "s") = true /\ (0 <= Year (Expires (sample_credentials "s")) <= 9999)%Z) /\
  CanExpire (sample_credentials "s") = CanExpire (sample_credentials "s").
Proof.
  split; [vm_compute; repeat split; done|].
  apply (fingerprint_text_inj (sample_credentials "s") (sample_credentials "s"));
    [reflexivity|reflexivity|vm_compute; split; done|vm_compute; split; done|reflexivity].
Defined.

(** ** What callers rely on *)

Section Promises.
Context {F : Type} `{EqDecision F} (Sum256 : string -> F).
Context (verifier : targetVerifier) (provides : AWSCredentials -> Prop) (zero : F) (start : Time).
Abbreviation reachable := (system_reachable Sum256 verifier provides zero start).

Definition unfinished (c : Caller (F:=F)) : bool :=
  match c with VReturned _ _ _ => false | _ => true end.

(** A call that has not returned can go on, unless it waits for a channel that is still open. *)
Lemma caller_proceeds σ i c : callers σ !! i = Some c -> unfinished c = true ->
  (forall w, c = VWaiting w -> w ∈ closed σ) -> exists σ', verify_step Sum256 verifier provides i σ σ'.
Proof.
  intros Hi Hu Hw. destruct c as [|f|w|a|a account reported|a seen result|]; [..|done].
  - eexists. by apply (verify_fingerprint _ _ _ _ _ (Err Canceled)).
  - eexists. by apply (verify_enter _ _ _ _ _ f (clock σ) (clock σ)).
  - eexists. by apply (verify_woken _ _ _ _ _ w); [|apply Hw].
  - eexists. by apply (verify_identity _ _ _ _ _ a (Err Canceled)).
  - eexists. by apply (verify_unchanged _ _ _ _ _ a account reported (Err Canceled)).
  - eexists. by apply (verify_finish _ _ _ _ _ a seen result (clock σ)).
Qed.

(** C14: [Verify] succeeds only on evidence.  Whatever the interleaving of the callers and the
    answers of the provider and of the API, a call that returned without an error looked at
    credentials which some call, this one or an earlier one, has verified: it started when the
    credentials had the same fingerprint, [GetCallerIdentity] then reported the configured account,
    and the credentials had the same fingerprint again when they were resolved after the report.
    That verification ended no later than the return; and with a positive [successTTL] it ended
    less than it ago. *)
Theorem Verify_confirmed σ i fingerprint t :
  reachable σ -> callers σ !! i = Some (VReturned fingerprint t (Ok tt)) ->
  exists a seen t0, (a, seen, t0) ∈ confirmed σ /\ fingerprint = Some (at_fingerprint a) /\
    ev_account seen = Some (tv_accountID verifier) /\ ev_current seen = Some (at_fingerprint a) /\
    (at_start a <= ev_reported seen <= ev_looked seen)%Z /\ (ev_looked seen <= t0 <= t)%Z /\
    ((0 < tv_successTTL verifier)%Z -> (t < t0 + tv_successTTL verifier)%Z).
Proof.
  intros Hr%reachable_VInv Hi.
  destruct (vi_returned _ _ Hr _ _ _ Hi) as (a & seen & t0 & ? & ? & (? & ? & ? & ?) & ? & ?).
  exists a, seen, t0. split_and!; (done || lia).
Qed.

(** C17: the callers of one verifier share one call of the identity API and never block each other
    for good.  At most one of them is between the two sections under the mutex; one that waits
    waits for a channel that is closed or that the call in flight will close; and as long as a
    call has not returned some call can go on. *)
Theorem Verify_single_flight σ :
  reachable σ ->
  (forall i j c d, callers σ !! i = Some c -> callers σ !! j = Some d ->
    is_Some (flight c) -> is_Some (flight d) -> i = j) /\
  (forall i w, callers σ !! i = Some (VWaiting w) -> w ∈ closed σ \/
    exists j c a, callers σ !! j = Some c /\ flight c = Some a /\ at_wait a = w) /\
  (forall i c, callers σ !! i = Some c -> unfinished c = true ->
    exists j d σ', callers σ !! j = Some d /\ unfinished d = true /\ verify_step Sum256 verifier provides j σ σ').
Proof.
  intros Hr%reachable_VInv. split; [apply Hr|].
  assert (Hwait : forall i w, callers σ !! i = Some (VWaiting w) -> w ∈ closed σ \/
    exists j c a, callers σ !! j = Some c /\ flight c = Some a /\ at_wait a = w).
  { intros i w [?|Hw]%(vi_wait _ _ Hr); [by left|right]. by apply (vi_inflight _ _ Hr) in Hw as (_ & _ & ?). }
  split; [done|]. intros i c Hi Hu.
  assert (Hgo : forall j d, callers σ !! j = Some d -> unfinished d = true ->
    (forall w, d = VWaiting w -> w ∈ closed σ) -> exists j d σ', callers σ !! j = Some d /\ unfinished d = true /\
      verify_step Sum256 verifier provides j σ σ').
  { intros j d Hj Hd Hw. destruct (caller_proceeds σ j d Hj Hd Hw) as [σ' ?]. by exists j, d, σ'. }
  destruct c as [| |w| | | |]; try (by apply (Hgo i _ Hi)).
  destruct (Hwait i w Hi) as [?|(j & d & a & Hj & Hd & _)]; [by apply (Hgo i _ Hi Hu); intros ? [= <-]|].
  apply (Hgo j d Hj); by destruct d.
Qed.
(** C18: with credentials of one fingerprint and a positive [successTTL], the identity API is not
    asked more often than once in [min successTTL failureTTL], whatever the number of callers and
    their interleaving: a call starts at least that long after the call before it ended. *)
Theorem Verify_spaced fp σ :
  (forall c, provides c -> Sum256 (fingerprint_text c) = fp) -> (0 < tv_successTTL verifier)%Z ->
  reachable σ ->
  let gap := Z.min (tv_successTTL verifier) (tv_failureTTL verifier) in
  Sorted (apart_by gap) (spans σ) /\
  (forall i c a x, callers σ !! i = Some c -> flight c = Some a -> head (spans σ) = Some x ->
    (x.2 + gap <= at_start a)%Z).
Proof.
  intros Hsame Hsuccess Hr. pose proof (reachable_Spaced _ _ _ fp Hsame Hsuccess _ _ _ Hr) as Hs. split; [apply Hs|].
  intros i c a x Hi Ha Hx. by apply (sp_flight _ _ _ Hs i c a Hi Ha).
Qed.
End Promises.

Definition sample_verifier : targetVerifier :=
  mkTargetVerifier true true "prod" "111122223333" Minute Hour.
Definition sample_provides (c : AWSCredentials) : Prop := c = sample_credentials "s".
Definition sample_fp : string := fingerprint_text (sample_credentials "s").
Definition sample_start : Time := Date 2026 7 13.

(** A call confirmed the account and returned while a second waited for it; an hour later a third
    is in flight. *)
Definition sample_system : System (F:=string) :=
  mkSystem
    (mkFields false (sample_start + Hour)%Z sample_fp (Some 2) None 0%Z "")
    {[ 0 ]}
    {[ 0 := VReturned (Some sample_fp) sample_start (Ok tt);
       1 := VWaiting 0;
       2 := VCalling (mkAttempt sample_fp 2 (sample_start + Hour)%Z) ]}
    (sample_start + Hour)%Z 3
    [(mkAttempt sample_fp 0 sample_start,
      mkEvidence (Some "111122223333") sample_start (Some sample_fp) sample_start, sample_start)]
    [(sample_start, sample_start)].

(** Computes the state a step leads to. *)
Ltac step_computed :=
  match goal with |- rtc _ ?s _ =>
    let c := eval vm_compute in s in replace s with c by (vm_compute; reflexivity)
  end.

Lemma sample_system_reachable :
  system_reachable (fun s => s) sample_verifier sample_provides "" sample_start sample_system.
Proof.
  unfold system_reachable.
  assert (Hp : provided sample_provides (Ok (sample_credentials "s"))) by (by intros c [= <-]).
  do 2 (eapply rtc_l; [apply (system_verify _ _ _ _ 0); first [by apply verify_call|by apply (verify_fingerprint _ _ _ _ _ (Ok (sample_credentials "s")))]|]).
  step_computed.
  eapply rtc_l; [apply (system_verify _ _ _ _ 0); by apply (verify_enter _ _ _ _ _ sample_fp sample_start sample_start)|].
  step_computed.
  do 2 (eapply rtc_l; [apply (system_verify _ _ _ _ 1); first [by apply verify_call|by apply (verify_fingerprint _ _ _ _ _ (Ok (sample_credentials "s")))]|]).
  step_computed.
  eapply rtc_l; [apply (system_verify _ _ _ _ 1); by apply (verify_enter _ _ _ _ _ sample_fp sample_start sample_start)|].
  step_computed.
  eapply rtc_l; [apply (system_verify _ _ _ _ 0); by apply (verify_identity _ _ _ _ _ (mkAttempt sample_fp 0 sample_start) (Ok (Some (Some "111122223333"))))|].
  step_computed.
  eapply rtc_l; [apply (system_verify _ _ _ _ 0); by apply (verify_unchanged _ _ _ _ _ (mkAttempt sample_fp 0 sample_start) (Some "111122223333") sample_start (Ok (sample_credentials "s")))|].
  step_computed.
  eapply rtc_l; [apply (system_verify _ _ _ _ 0); by apply (verify_finish _ _ _ _ _ (mkAttempt sample_fp 0 sample_start)
    (mkEvidence (Some "111122223333") sample_start (Some sample_fp) sample_start) (Ok tt) sample_start)|].
  step_computed.
  do 2 (eapply rtc_l; [apply (system_verify _ _ _ _ 2); first [by apply verify_call|by apply (verify_fingerprint _ _ _ _ _ (Ok (sample_credentials "s")))]|]).
  step_computed.
  eapply rtc_l; [apply (system_verify _ _ _ _ 2); by apply (verify_enter _ _ _ _ _ sample_fp (sample_start + Hour)%Z (sample_start + Hour)%Z)|].
  step_computed. apply rtc_refl.
Qed.

Lemma Verify_confirmed_witness :
  callers sample_system !! 0 = Some (VReturned (Some sample_fp) sample_start (Ok tt)) /\
  exists a seen t0, (a, seen, t0) ∈ confirmed sample_system /\ ev_current seen = Some (at_fingerprint a).
Proof.
  split; [vm_compute; reflexivity|].
  destruct (Verify_confirmed (fun s => s) sample_verifier sample_provides "" sample_start sample_system 0
    (Some sample_fp) sample_start sample_system_reachable) as (a & seen & t0 & Hc & _ & _ & Hcur & _); [vm_compute; reflexivity|].
  exists a, seen, t0. split; [exact Hc|exact Hcur].
Defined.

Lemma Verify_single_flight_witness :
  callers sample_system !! 1 = Some (VWaiting 0) /\
  exists j d σ', callers sample_system !! j = Some d /\ unfinished d = true /\
    verify_step (fun s => s) sample_verifier sample_provides j sample_system σ'.
Proof.
  split; [vm_compute; reflexivity|].
  apply (proj2 (proj2 (Verify_single_flight (fun s => s) sample_verifier sample_provides "" sample_start
    sample_system sample_system_reachable)) 1 (VWaiting 0)); vm_compute; reflexivity.
Defined.

Lemma Verify_spaced_witness :
  flight (VCalling (mkAttempt sample_fp 2 (sample_start + Hour)%Z)) = Some (mkAttempt sample_fp 2 (sample_start + Hour)%Z) /\
  (sample_start + Minute <= sample_start + Hour)%Z.
Proof.
  split; [reflexivity|].
  apply (proj2 (Verify_spaced (fun s => s) sample_verifier sample_provides "" sample_start sample_fp sample_system
    (fun c Hc => f_equal fingerprint_text Hc) eq_refl sample_system_reachable)
    2 (VCalling (mkAttempt sample_fp 2 (sample_start + Hour)%Z)) (mkAttempt sample_fp 2 (sample_start + Hour)%Z)
    (sample_start, sample_start)); vm_compute; reflexivity.
Defined.
