(* ===== verification/ClientFactory.v ===== *)
(** * The client factory (internal/aws/clientfactory/factory.go)

    [New] loads every credential source once; [ForTarget] makes the clients of a target from the
    configuration of its source, behind the role it assumes.  The SDK is an argument: how it loads
    a configuration, its credential providers, and the clients it makes; so are the token buckets
    of golang.org/x/time/rate and the environment. *)

From S2P Require Import Prelude GoStrings GoRegexp GoFloat GoTime Errors Effects Pagination.
From S2P Require Import Collectors Config Validation ValidationSpec Retry Verifier.
Local Open Scope string_scope.
Local Open Scope list_scope.

Section Factory.
(** The world of the limiters, and the credential providers of the SDK. *)
Context {W P : Type} `{World W, RetryWorld W}.

(** [aws.Config]: the fields the source sets. *)
Record SDKConfig := mkSDKConfig {
  sdk_Region : string; sdk_HTTPTimeout : Duration; sdk_Credentials : P; sdk_Retryer : Retryer W
}.

(** [config.LoadOptions]; what no option sets is left to the SDK. *)
Record LoadOptions := mkLoadOptions {
  lo_Region : string; lo_HTTPTimeout : Duration; lo_Retryer : Retryer W; lo_Profile : option string;
  lo_Credentials : option P
}.

(** A service client: its configuration and what the option function of the constructor set; a
    nil retryer or endpoint is left to the SDK. *)
Record ServiceClient := mkServiceClient {
  sc_Config : SDKConfig; sc_Retryer : option (Retryer W); sc_AppID : string;
  sc_BaseEndpoint : option string
}.

(** [stscreds.AssumeRoleOptions]. *)
Record AssumeRoleOptions := mkAssumeRoleOptions { ExternalID : string; RoleSessionName : string }.

(** The SDK; [sdk_AssumeRole_call] is the call of an STS client, of its input and output.  The
    first argument of [NewLimiter] is the address of the bucket: two buckets are not one. *)
Context {Input Output : Type}.

Record SDK := mkSDK {
  NewStandard : StandardOptions -> Retryer W;
  LoadDefaultConfig : LoadOptions -> res SDKConfig;
  AnonymousCredentials : P;
  NewStaticCredentialsProvider : string -> string -> string -> P;
  NewCredentialsCache : P -> P;
  sdk_AssumeRole_call : ServiceClient -> Input -> io W Output;
  NewAssumeRoleProvider : (Input -> io W Output) -> string -> AssumeRoleOptions -> P;
  NewLimiter : nat -> float64 -> Z -> io W unit
}.

Context (sdk : SDK) (LookupEnv : string -> option string).

(** [os.Getenv]. *)
Definition Getenv (name : string) : string := default "" (LookupEnv name).

(** ** Sources *)

Record Factory := mkFactory {
  sources : gmap string SDKConfig; sourceErrors : gmap string error; fac_config : AWSConfig;
  fac_global : Limiter W
}.

Definition commonOptions (value : AWSConfig) : LoadOptions :=
  mkLoadOptions (aws_Region value) (RequestTimeout value) (NewRetryer (NewStandard sdk) (Retry value)) None None.

Definition with_profile (profile : string) (options : LoadOptions) : LoadOptions :=
  mkLoadOptions (lo_Region options) (lo_HTTPTimeout options) (lo_Retryer options) (Some profile)
    (lo_Credentials options).

Definition fallback (value : AWSConfig) : SDKConfig :=
  mkSDKConfig (aws_Region value) (RequestTimeout value) (AnonymousCredentials sdk)
    (NewRetryer (NewStandard sdk) (Retry value)).

Definition with_credentials (credentials : P) (base : SDKConfig) : SDKConfig :=
  mkSDKConfig (sdk_Region base) (sdk_HTTPTimeout base) credentials (sdk_Retryer base).

(** One iteration over the sources: the configuration, and the error recorded with it. *)
Definition load_source (value : AWSConfig) (source : CredentialSourceConfig) : SDKConfig * option error :=
  let load (options : LoadOptions) :=
    match LoadDefaultConfig sdk options with
    | Ok base => (base, None)
    | Err err => (fallback value, Some err)
    end in
  if bool_decide (src_Type source = CredentialSourceProfile)
  then load (with_profile (src_Profile source) (commonOptions value))
  else if bool_decide (src_Type source = CredentialSourceStaticEnv)
  then (with_credentials (NewCredentialsCache sdk (NewStaticCredentialsProvider sdk
          (Getenv (AccessKeyIDEnv source)) (Getenv (SecretAccessKeyEnv source))
          (Getenv (SessionTokenEnv source)))) (fallback value), None)
  else if bool_decide (src_Type source = CredentialSourceDefaultChain)
  then load (commonOptions value)
  else (fallback value, Some (ErrorString "unsupported credential source type")).

(** [New]: a range over the sources, each of which sets only its own entries.  The error is
    always nil. *)
Definition factory_New (range : list (string * CredentialSourceConfig)) (value : AWSConfig) (address : nat) :
    Factory :=
  let '(sources, sourceErrors) :=
    fold_left (fun '(sources, sourceErrors) '(name, source) =>
      let '(base, err) := load_source value source in
      (<[ name := base ]> sources,
       match err with Some err => <[ name := err ]> sourceErrors | None => sourceErrors end))
      range (∅, ∅) in
  mkFactory sources sourceErrors value
    (Some (NewLimiter sdk address (GlobalRequestsPerSecond (RateLimit value)) (GlobalBurst (RateLimit value)))).

(** [ValidateSources], in the order of a range over the sources. *)
Fixpoint source_errors (factory : Factory) (range : list (string * CredentialSourceConfig)) : res unit :=
  match range with
  | [] => Ok tt
  | (name, _) :: range =>
      match sourceErrors factory !! name with
      | Some err => Err (Wrapped "load AWS credential source" err)
      | None => source_errors factory range
      end
  end.

Definition ValidateSources (factory : option Factory) (range : list (string * CredentialSourceConfig)) :
    res unit :=
  match factory with
  | None => Err (ErrorString "invalid AWS client factory")
  | Some factory => source_errors factory range
  end.

(** ** Clients of a target *)

Definition retry_operations : list string :=
  ["AssumeRole"; "GetCallerIdentity"; "GetCostAndUsage"; "GetCostForecast"; "ListAccounts";
   "DescribeOrganization"; "DescribeBudgets"; "GetSavingsPlansUtilization"; "GetSavingsPlansCoverage";
   "GetReservationUtilization"; "GetReservationCoverage"; "GetAnomalies"; "StartQueryExecution";
   "GetQueryExecution"; "GetQueryResults"; "StopQueryExecution"].

(** The verifier of a target: [unavailableVerifier], or a shared one with the client and the
    credentials it looks at. *)
Inductive VerifierOf :=
| Unavailable (cause : error)
| Verifying (verifier : targetVerifier) (client : ServiceClient) (credentials : P).

(** The error that an [unavailableVerifier] answers with is itself. *)
Definition unavailable_Verify (cause : error) : res unit := Err (UnavailableSource cause).

Record TargetClients := mkTargetClients {
  tc_CostExplorer : ServiceClient; tc_Athena : ServiceClient; tc_Organizations : ServiceClient;
  tc_Budgets : ServiceClient; tc_Retryer : string -> option (Retryer W); tc_Verifier : VerifierOf
}.

(** The first 64 bytes of a string. *)
Definition first_bytes (n : nat) (s : string) : string := of_bytes (take n (bytes s)).

Definition sessionName (target configured : string) : string :=
  if negb (bool_decide (configured = "")) then configured else
  let value := "aws-cost-exporter-" +++ target in
  if (64 <? String.length value)%nat then first_bytes 64 value else value.

(** [observedSTS.AssumeRole]. *)
Definition observed_AssumeRole (client : ServiceClient) (target : string) : Input -> io W Output :=
  fun input => ObserveCall target "AssumeRole" (sdk_AssumeRole_call sdk client input).

(** The endpoint an option function sets. *)
Definition base_endpoint (configured : string) : option string :=
  let endpoint := TrimSpace configured in
  if negb (bool_decide (endpoint = "")) then Some endpoint else None.

Definition with_region (region : string) (base : SDKConfig) : SDKConfig :=
  mkSDKConfig region (sdk_HTTPTimeout base) (sdk_Credentials base) (sdk_Retryer base).

Section Target.
Context (factory : Factory) (target : TargetConfig) (base : SDKConfig) (address : nat).

(** The limiter and the retryers a target has of its own. *)
Definition target_limiter : DualLimiter W :=
  mkDualLimiter (fac_global factory)
    (Some (NewLimiter sdk address (TargetRequestsPerSecond (RateLimit (fac_config factory)))
             (TargetBurst (RateLimit (fac_config factory))))).

Definition retryerFor (operation : string) : option (Retryer W) :=
  list_to_map (M := gmap string (Retryer W))
    (map (fun operation => (operation,
       WrapRetryer (sdk_Retryer base) (tgt_Name target) operation (Some (DualLimiter_Wait target_limiter))))
       retry_operations) !! operation.

(** The provider of the role's credentials, over the source's. *)
Definition role_provider (role : AssumeRoleConfig) : P :=
  let stsClient := mkServiceClient base (retryerFor "AssumeRole") ""
    (base_endpoint (ep_STS (Endpoints (fac_config factory)))) in
  NewAssumeRoleProvider sdk (observed_AssumeRole stsClient (tgt_Name target)) (RoleARN role)
    (mkAssumeRoleOptions (Getenv (ExternalIDEnv role)) (sessionName (tgt_Name target) (SessionName role))).

(** The configuration all service clients of the target share. *)
Definition target_config (sourceErr : option error) : SDKConfig :=
  match sourceErr, cred_AssumeRole target with
  | None, Some role => with_credentials (NewCredentialsCache sdk (role_provider role)) base
  | _, _ => base
  end.

Definition service_client (config : SDKConfig) (operation appID endpoint : string) : ServiceClient :=
  mkServiceClient config (retryerFor operation) appID (base_endpoint endpoint).

Definition target_clients (sourceErr : option error) : TargetClients :=
  let sdkConfig := target_config sourceErr in
  let endpoints := Endpoints (fac_config factory) in
  let identityClient := service_client sdkConfig "GetCallerIdentity" "" (ep_STS endpoints) in
  let athenaConfig :=
    if negb (bool_decide (cur_Region (tgt_CUR target) = ""))
    then with_region (cur_Region (tgt_CUR target)) sdkConfig else sdkConfig in
  mkTargetClients
    (service_client sdkConfig "GetCostAndUsage" "aws-cost-exporter" (ep_CostExplorer endpoints))
    (service_client athenaConfig "StartQueryExecution" "" (ep_Athena endpoints))
    (service_client sdkConfig "ListAccounts" "aws-cost-exporter" (ep_Organizations endpoints))
    (service_client sdkConfig "DescribeBudgets" "aws-cost-exporter" (ep_Budgets endpoints))
    retryerFor
    match sourceErr with
    | Some cause => Unavailable cause
    | None =>
        Verifying (mkTargetVerifier true true (tgt_Name target) (tgt_AccountID target)
                     (Z.min (RequestTimeout (fac_config factory)) Minute) Hour)
          identityClient (sdk_Credentials sdkConfig)
    end.
End Target.

(** [ForTarget]; [None] is a nil factory, [address] the one of the target's new bucket. *)
Definition ForTarget (factory : option Factory) (address : nat) (target : TargetConfig) : res TargetClients :=
  match factory with
  | None => Err (ErrorString "invalid AWS client factory target")
  | Some factory =>
      fail_if bool_decide (tgt_Name target = "") with_ ErrorString "invalid AWS client factory target" ;;
      match sources factory !! cred_Source target with
      | None => Err (ErrorString "target references unknown AWS credential source")
      | Some base =>
          Ok (target_clients factory target base address (sourceErrors factory !! cred_Source target))
      end
  end.
End Factory.
Arguments SDKConfig W P : clear implicits.
Arguments LoadOptions W P : clear implicits.
Arguments ServiceClient W P : clear implicits.
Arguments SDK W P Input Output : clear implicits.
Arguments Factory W P : clear implicits.
Arguments TargetClients W P : clear implicits.
Arguments VerifierOf W P : clear implicits.

(** ** What the factory makes of a validated configuration *)

Lemma Matches_class_repeat_intro ranges s : forall min max,
  min <= length s -> (forall n, max = Some n -> length s <= n) -> forallb (in_class ranges) s = true ->
  Matches (Repeat (Class ranges) min max) s.
Proof.
  induction s as [|c s IH]; intros min max Hmin Hmax Hall; cbn [length forallb] in *.
  - assert (min = 0) as -> by lia. constructor.
  - apply andb_prop in Hall as [Hc Hall]. apply (match_again _ min max [c] s).
    + intros ->. specialize (Hmax 0 eq_refl). lia.
    + by constructor.
    + apply IH; [lia| |done]. intros n Hn. destruct max as [m|]; [|done]. injection Hn as <-.
      specialize (Hmax m eq_refl). lia.
Qed.

Abbreviation session_class := [upper; lower; digit; one "+"; one "="; one ","; one "."; one "@"; one "_"; one "-"]%char.

(** The session name is one that STS accepts: the configured one, or the default, whose length is
    bounded by that of a target name. *)
Lemma sessionName_valid target configured :
  has_format targetNamePattern target -> (configured = "" \/ has_format sessionNamePattern configured) ->
  has_format sessionNamePattern (sessionName target configured).
Proof.
  intros Ht Hc. unfold sessionName. case_bool_decide as He; cbn [negb]; [|by destruct Hc].
  unfold has_format, targetNamePattern in Ht. pose proof (Matches_alphabet _ _ Ht) as Halpha.
  inversion Ht as [| |r s u v Hu Hv Heq Hl| | | |]; subst r s.
  inversion Hu; subst. apply Matches_class_repeat in Hv as (_ & Hlen & _).
  specialize (Hlen 31 eq_refl).
  assert (Htl : length (bytes target) <= 32) by (rewrite <- Hl; cbn [app length]; lia).
  assert (Hbytes : bytes ("aws-cost-exporter-" +++ target) = bytes "aws-cost-exporter-" ++ bytes target)
    by (by rewrite bytes_app).
  assert (Hlength : forall s, length (bytes s) = String.length s) by (clear; intros s; induction s as [|x s IH]; simpl; congruence).
  rewrite <- Hlength, Hbytes, length_app. change (length (bytes "aws-cost-exporter-")) with 18.
  rewrite (proj2 (Nat.ltb_ge _ _)) by lia. unfold has_format. rewrite Hbytes.
  apply Matches_class_repeat_intro.
  - rewrite length_app. change (length (bytes "aws-cost-exporter-")) with 18. lia.
  - intros n [= <-]. rewrite length_app. change (length (bytes "aws-cost-exporter-")) with 18. lia.
  - rewrite forallb_app. apply andb_true_iff. split; [by vm_compute|].
    assert (Hsub : forallb (fun c => implb (alphabet targetNamePattern c) (in_class session_class c)) all_bytes = true)
      by (by vm_compute).
    rewrite forallb_elem_of in Halpha, Hsub |- *. intros x Hin.
    pose proof (Hsub x (all_bytes_full x)) as Hi. unfold targetNamePattern in Hi. by rewrite (Halpha x Hin) in Hi.
Qed.

Section Contract.
Context {W P Input Output : Type} `{World W, RetryWorld W}.
Context (sdk : SDK W P Input Output) (LookupEnv : string -> option string).

(** The range over the sources sets, for each of them, what [load_source] makes of it. *)
Lemma factory_New_sources range value address :
  NoDup range.*1 -> forall name source, (name, source) ∈ range ->
  let factory := factory_New sdk LookupEnv range value address in
  let '(base, err) := load_source sdk LookupEnv value source in
  sources factory !! name = Some base /\ sourceErrors factory !! name = err.
Proof.
  intros Hnd name source Hin. cbv zeta. unfold factory_New.
  set (step := fun '(sources, sourceErrors) '(name, source) => _ : gmap string (SDKConfig W P) * gmap string error).
  assert (Hfold : forall l, NoDup l.*1 ->
    (forall n, n ∉ l.*1 -> (fold_left step l (∅, ∅)).2 !! n = None) /\
    forall n s, (n, s) ∈ l -> (fold_left step l (∅, ∅)).1 !! n = Some (load_source sdk LookupEnv value s).1 /\
      (fold_left step l (∅, ∅)).2 !! n = (load_source sdk LookupEnv value s).2).
  { clear. intros l. induction l as [|[n0 s0] l IH] using rev_ind; intros Hnd; [split; [done|by intros n s ?%elem_of_nil]|].
    rewrite fmap_app in Hnd. apply NoDup_app in Hnd as (Hl & Hnew & _). destruct (IH Hl) as [Hnone Hsome].
    assert (Hn0 : n0 ∉ l.*1) by (intros Hc; apply (Hnew n0 Hc); by left).
    rewrite fold_left_app. cbn [fold_left].
    destruct (fold_left step l (∅, ∅)) as [S E]. cbn [fst snd] in Hnone, Hsome. unfold step; fold step.
    destruct (load_source sdk LookupEnv value s0) as [base err] eqn:Hload. split.
    - intros n Hn. rewrite fmap_app in Hn. cbn in Hn. cbn [snd].
      assert (n ∉ l.*1 /\ n <> n0) as [Hnl Hne] by set_solver.
      destruct err; [rewrite lookup_insert_ne by done|]; by apply Hnone.
    - intros n s [Hold|[= -> ->]%list_elem_of_singleton]%elem_of_app; cbn [fst snd].
      + assert (Hne : n0 <> n) by (intros ->; apply Hn0; apply list_elem_of_fmap; by exists (n, s)).
        rewrite lookup_insert_ne by done. destruct (Hsome n s Hold) as [-> Hs2]. split; [done|].
        destruct err; [by rewrite lookup_insert_ne|done].
      + rewrite lookup_insert, Hload. destruct (decide _); [|done]. split; [done|].
        destruct err; cbn [snd]; [rewrite lookup_insert; by destruct (decide _)|by apply Hnone]. }
  destruct (Hfold range Hnd) as [_ Hf]. destruct (Hf name source Hin) as [H1 H2].
  destruct (fold_left step range (∅, ∅)) as [S E]. cbn [fst snd sources sourceErrors] in *.
  by destruct (load_source sdk LookupEnv value source).
Qed.

Lemma retryerFor_operation factory (target : TargetConfig) base address operation :
  operation ∈ retry_operations -> is_Some (retryerFor sdk factory target base address operation).
Proof.
  intros Hop. unfold retryerFor.
  apply not_eq_None_Some. intros Hn%not_elem_of_list_to_map. apply Hn. rewrite <- list_fmap_compose.
  apply list_elem_of_fmap. by exists operation.
Qed.
Lemma failed_source_anonymous value source base cause :
  load_source sdk LookupEnv value source = (base, Some cause) -> sdk_Credentials base = AnonymousCredentials sdk.
Proof.
  unfold load_source. destruct (bool_decide _); [|destruct (bool_decide _); [done|destruct (bool_decide _)]].
  1, 2: destruct (LoadDefaultConfig sdk _); [done|by intros [= <- _]].
  by intros [= <- _].
Qed.

(** Every client of a target asks with the same credentials. *)
Definition uses_credentials (credentials : P) (clients : TargetClients W P) : Prop :=
  Forall (fun client => sdk_Credentials (sc_Config client) = credentials)
    [tc_CostExplorer clients; tc_Athena clients; tc_Organizations clients; tc_Budgets clients].

Lemma target_clients_credentials factory target base address sourceErr :
  uses_credentials (sdk_Credentials (target_config sdk LookupEnv factory target base address sourceErr))
    (target_clients sdk LookupEnv factory target base address sourceErr).
Proof. unfold target_clients. cbv zeta. repeat constructor. cbn. by destruct (bool_decide _). Qed.

(** The credentials of a target whose source loaded: those of the source, or of the role. *)
Definition credentials_of factory (target : TargetConfig) (base : SDKConfig W P) (address : nat) : P :=
  match cred_AssumeRole target with
  | None => sdk_Credentials base
  | Some role => NewCredentialsCache sdk (role_provider sdk LookupEnv factory target base address role)
  end.

(** The clients of a target of a validated configuration are made, from what was loaded for its
    source. *)
Lemma ForTarget_clients range value (target : TargetConfig) address fresh :
  range ≡ₚ map_to_list (Sources (cfg_AWS value)) -> Valid LookupEnv value -> target ∈ cfg_Targets value ->
  let factory := factory_New sdk LookupEnv range (cfg_AWS value) address in
  exists source base err, Sources (cfg_AWS value) !! cred_Source target = Some source /\
    load_source sdk LookupEnv (cfg_AWS value) source = (base, err) /\
    ForTarget sdk LookupEnv (Some factory) fresh target =
      Ok (target_clients sdk LookupEnv factory target base fresh err).
Proof.
  intros Hrange Hval Ht factory. pose proof (v_targets _ _ Hval target Ht) as Hvt.
  assert (Hname : tgt_Name target <> "").
  { eapply format_well_named; [|exact (vt_name _ _ _ Hvt)]. by vm_compute. }
  destruct (vt_known_source _ _ _ Hvt) as [source Hsource].
  assert (Hin : (cred_Source target, source) ∈ range) by (rewrite Hrange; by apply elem_of_map_to_list).
  assert (Hnd : NoDup range.*1) by (rewrite Hrange; apply NoDup_fst_map_to_list).
  pose proof (factory_New_sources _ (cfg_AWS value) address Hnd _ _ Hin) as Hload. cbv zeta in Hload. fold factory in Hload.
  destruct (load_source sdk LookupEnv (cfg_AWS value) source) as [base err] eqn:Hl. destruct Hload as [Hbase Herr].
  exists source, base, err. split; [done|]. split; [done|].
  unfold ForTarget. rewrite (bool_decide_false _ Hname). cbn [guard_err]. by rewrite Hbase, Herr.
Qed.

(** C15: each target of a validated configuration is isolated behind its own credentials.
    [ForTarget] answers with clients that all use one provider, that of the target's source or of
    its role; the role session has a name STS accepts; the verifier looks at the same provider for
    the configured account and passes its own checks.  When the source could not be loaded the
    clients are anonymous, no other source's, and the verifier refuses with the cause. *)
Theorem ForTarget_valid range value (target : TargetConfig) address fresh :
  range (Sources (cfg_AWS value)) ≡ₚ map_to_list (Sources (cfg_AWS value)) ->
  Validate LookupEnv range value = Ok tt -> target ∈ cfg_Targets value ->
  let factory := factory_New sdk LookupEnv (range (Sources (cfg_AWS value))) (cfg_AWS value) address in
  exists source clients, Sources (cfg_AWS value) !! cred_Source target = Some source /\
    ForTarget sdk LookupEnv (Some factory) fresh target = Ok clients /\
    (forall operation, operation ∈ retry_operations -> is_Some (tc_Retryer clients operation)) /\
    (forall role, cred_AssumeRole target = Some role ->
      has_format sessionNamePattern (sessionName (tgt_Name target) (SessionName role))) /\
    match load_source sdk LookupEnv (cfg_AWS value) source with
    | (base, None) =>
        let credentials := credentials_of factory target base fresh in
        uses_credentials credentials clients /\
        exists v client, tc_Verifier clients = Verifying v client credentials /\
          sdk_Credentials (sc_Config client) = credentials /\ invalid_verifier (Some v) = false /\
          tv_accountID v = tgt_AccountID target /\ (0 < tv_failureTTL v <= Minute)%Z
    | (_, Some cause) =>
        uses_credentials (AnonymousCredentials sdk) clients /\ tc_Verifier clients = Unavailable cause
    end.
Proof.
  intros Hrange Hval Ht. apply Validate_ok in Hval; [|done]. cbv zeta.
  set (factory := factory_New _ _ _ _ _). pose proof (v_targets _ _ Hval target Ht) as Hvt.
  assert (Hname : tgt_Name target <> "").
  { eapply format_well_named; [|exact (vt_name _ _ _ Hvt)]. by vm_compute. }
  assert (Hacc : tgt_AccountID target <> "").
  { eapply format_well_named; [|exact (vt_account _ _ _ Hvt)]. by vm_compute. }
  assert (Hcfg : fac_config factory = cfg_AWS value) by (unfold factory, factory_New; by destruct (fold_left _ _ _)).
  destruct (ForTarget_clients _ value target address fresh Hrange Hval Ht) as (source & base & err & Hsource & Hl & Hfor).
  exists source, (target_clients sdk LookupEnv factory target base fresh err). rewrite Hl. split; [done|].
  split; [exact Hfor|].
  split; [intros op Hop; by apply retryerFor_operation|].
  split; [intros role Hr; apply sessionName_valid; [apply Hvt|by apply (vt_role _ _ _ Hvt role Hr)]|].
  pose proof (target_clients_credentials factory target base fresh err) as Huses.
  destruct err as [cause|].
  - rewrite <- (failed_source_anonymous _ _ _ _ Hl). by split.
  - assert (Hcred : sdk_Credentials (target_config sdk LookupEnv factory target base fresh None) =
      credentials_of factory target base fresh)
      by (unfold target_config, credentials_of; by destruct (cred_AssumeRole target)).
    rewrite Hcred in Huses. split; [done|]. unfold target_clients. cbv zeta. cbn [tc_Verifier].
    eexists _, _. rewrite Hcred. split; [done|]. split; [done|].
    unfold invalid_verifier. cbn [tv_client tv_credentials tv_target tv_accountID tv_failureTTL negb orb].
    rewrite (bool_decide_false _ Hname), (bool_decide_false _ Hacc). split; [done|]. split; [done|].
    rewrite Hcfg. destruct (v_aws _ _ Hval) as (_ & Hpos & _). unfold Minute, Second in *. lia.
Qed.
End Contract.

(** ** A concrete SDK: a provider is a text *)

#[export] Instance unit_retry_world : RetryWorld unit := fun _ _ _ w => w.

Definition plain_retryer (options : StandardOptions) : Retryer unit :=
  mkRetryer (fun _ => true) (so_MaxAttempts options) (fun _ _ w => (Ok (so_MaxBackoff options), w))
    (fun _ w => (Ok (fun e w => (e, w)), w)) (fun w => ((fun e w => (e, w)), w)) None.

Definition text_sdk : SDK unit string unit unit :=
  mkSDK plain_retryer
    (fun options => match lo_Profile options with
       | Some _ => Err (ErrorString "no such profile")
       | None => Ok (mkSDKConfig (lo_Region options) (lo_HTTPTimeout options)
           (default "chain" (lo_Credentials options)) (lo_Retryer options))
       end)
    "anonymous" (fun key secret _ => key +++ "/" +++ secret) (fun p => "cached " +++ p) (fun _ _ w => (Ok tt, w))
    (fun _ arn options => arn +++ " as " +++ RoleSessionName options +++ " with " +++ ExternalID options)
    (fun _ _ _ w => (Ok tt, w)).

Definition text_factory : Factory unit string :=
  factory_New text_sdk sample_env (map_to_list (Sources (cfg_AWS sample_config))) (cfg_AWS sample_config) 0.

Example ForTarget_ex :
  match ForTarget text_sdk sample_env (Some text_factory) 1 workload_target with
  | Ok clients => sdk_Credentials (sc_Config (tc_Athena clients))
  | Err _ => ""
  end = "cached arn:aws:iam::444455556666:role/reader as exporter with external".
Proof. vm_compute. reflexivity. Qed.

Lemma ForTarget_valid_witness :
  Validate sample_env (fun m => map_to_list m) sample_config = Ok tt /\
  exists clients, ForTarget text_sdk sample_env (Some text_factory) 1 workload_target = Ok clients.
Proof.
  split; [vm_compute; reflexivity|].
  destruct (ForTarget_valid text_sdk sample_env (fun m => map_to_list m) sample_config workload_target 0 1)
    as (source & clients & _ & Hc & _).
  - reflexivity.
  - vm_compute. reflexivity.
  - right. left.
  - exists clients. exact Hc.
Defined.
