(* ===== verification/StandaloneClient.v ===== *)
(** * The single-source Cost Explorer client (internal/aws/costexplorer/client.go)

    [New] and [newSDKConfig] over the SDK of ClientFactory, and how the client relates to the one
    the factory makes of the same source. *)

From S2P Require Import Prelude GoStrings GoRegexp GoFloat GoTime Errors Effects Config Retry ClientFactory.
Local Open Scope string_scope.
Local Open Scope list_scope.

Section Standalone.
Context {W P Input Output : Type} `{World W, RetryWorld W}.
Context (sdk : SDK W P Input Output) (LookupEnv : string -> option string).

Definition with_provider (provider : P) (options : LoadOptions W P) : LoadOptions W P :=
  mkLoadOptions (lo_Region options) (lo_HTTPTimeout options) (lo_Retryer options) (lo_Profile options)
    (Some provider).

(** The option a source appends: a source of another type leaves the default chain. *)
Definition source_option (options : LoadOptions W P) (source : CredentialSourceConfig) : LoadOptions W P :=
  if bool_decide (src_Type source = CredentialSourceProfile) then with_profile (src_Profile source) options
  else if bool_decide (src_Type source = CredentialSourceStaticEnv)
  then with_provider (NewStaticCredentialsProvider sdk (Getenv LookupEnv (AccessKeyIDEnv source))
         (Getenv LookupEnv (SecretAccessKeyEnv source)) (Getenv LookupEnv (SessionTokenEnv source))) options
  else options.

(** [range] lists the sources. *)
Definition newSDKConfig (range : list (string * CredentialSourceConfig)) (value : AWSConfig) : res (SDKConfig W P) :=
  fail_if (1 <? length range)%nat
    with_ ErrorString "standalone Cost Explorer client requires exactly one credential source" ;;
  LoadDefaultConfig sdk (fold_left source_option (map snd range) (commonOptions sdk value)).

Definition costexplorer_New (range : list (string * CredentialSourceConfig)) (value : AWSConfig) :
    res (ServiceClient W P) :=
  match newSDKConfig range value with
  | Err err => Err (Wrapped "load AWS SDK config" err)
  | Ok sdkConfig =>
      Ok (mkServiceClient sdkConfig None "aws-cost-exporter" (base_endpoint (ep_CostExplorer (Endpoints value))))
  end.

(** A client is made only of at most one source: with none, of the default chain; with one, of
    the configuration the factory loads for it, except that static credentials are not behind
    the factory's cache. *)
Lemma costexplorer_New_source range value client :
  costexplorer_New range value = Ok client ->
  match range with
  | [] => LoadDefaultConfig sdk (commonOptions sdk value) = Ok (sc_Config client)
  | [(name, source)] =>
      src_Type source = CredentialSourceStaticEnv \/
      src_Type source = CredentialSourceProfile /\
        load_source sdk LookupEnv value source = (sc_Config client, None) \/
      src_Type source <> CredentialSourceProfile /\
        LoadDefaultConfig sdk (commonOptions sdk value) = Ok (sc_Config client)
  | _ => False
  end.
Proof.
  unfold costexplorer_New, newSDKConfig.
  destruct range as [|[name source] [|? ?]]; cbn [guard_err length Nat.ltb Nat.leb map fold_left snd]; [| |done].
  - by destruct (LoadDefaultConfig _ _); intros [= <-].
  - unfold source_option, load_source. destruct (decide (src_Type source = CredentialSourceProfile)) as [Hp|Hp].
    + rewrite (bool_decide_true _ Hp). destruct (LoadDefaultConfig _ _); intros [= <-]. by right; left.
    + rewrite (bool_decide_false _ Hp). case_bool_decide as Hs; [by left|].
      destruct (LoadDefaultConfig _ _); intros [= <-]. by right; right.
Qed.
End Standalone.
