(* ===== verification/HttpServer.v ===== *)
(** * The HTTP server (internal/httpserver/server.go)

    Routing, the readiness answer, and what a response carries.  A response writer is the state
    of the headers, what was sent and the body written so far; a handler changes it.  The metrics
    handler of promhttp and the handlers of net/http/pprof are arguments. *)

From S2P Require Import Prelude GoStrings GoTime Errors Domain Snapshot Ports Exporter Store.
From S2P Require Import Config Validation ValidationSpec.
Local Open Scope string_scope.
Local Open Scope list_scope.

Definition ErrInvalidConfig_httpserver : error := Sentinel "invalid HTTP server configuration".

(** ** Requests and responses (net/http) *)

Record Request := mkRequest { Method : string; URL_Path : string }.

(** What is written to a body: a JSON object, a line of text, or what a handler of another
    library writes. *)
Inductive Chunk :=
| Json (fields : list (string * string))
| Line (text : string)
| Foreign (text : string).

(** [rw_sent] holds the code and the headers once [WriteHeader] ran; [rw_discard] is the
    [headWriter] around the connection's writer. *)
Record ResponseWriter := mkWriter {
  rw_header : gmap string string;
  rw_sent : option (Z * gmap string string);
  rw_body : list Chunk;
  rw_discard : bool
}.

Definition new_writer : ResponseWriter := mkWriter ∅ None [] false.

Definition set_header (key value : string) (w : ResponseWriter) : ResponseWriter :=
  mkWriter (<[ key := value ]> (rw_header w)) (rw_sent w) (rw_body w) (rw_discard w).

Definition WriteHeader (code : Z) (w : ResponseWriter) : ResponseWriter :=
  match rw_sent w with
  | Some _ => w
  | None => mkWriter (rw_header w) (Some (code, rw_header w)) (rw_body w) (rw_discard w)
  end.

(** [Write], through a [headWriter] or not. *)
Definition Write (chunk : Chunk) (w : ResponseWriter) : ResponseWriter :=
  if rw_discard w then w else
  let w := WriteHeader 200 w in
  mkWriter (rw_header w) (rw_sent w) (rw_body w ++ [chunk]) false.

Definition with_discard (discard : bool) (w : ResponseWriter) : ResponseWriter :=
  mkWriter (rw_header w) (rw_sent w) (rw_body w) discard.

(** [http.Error]. *)
Definition http_Error (text : string) (code : Z) (w : ResponseWriter) : ResponseWriter :=
  let w := mkWriter (delete "Content-Length" (rw_header w)) (rw_sent w) (rw_body w) (rw_discard w) in
  let w := set_header "Content-Type" "text/plain; charset=utf-8" w in
  let w := set_header "X-Content-Type-Options" "nosniff" w in
  Write (Line text) (WriteHeader code w).

Definition NotFound : ResponseWriter -> ResponseWriter := http_Error "404 page not found" 404.

(** ** Responses of the server *)

Record statusResponse := mkStatusResponse { Status : string; Reason : string }.

(** The JSON fields of a [statusResponse] ([omitempty] on the reason) and of a [version.Info]. *)
Definition status_json (s : statusResponse) : list (string * string) :=
  ("status", Status s) :: (if bool_decide (Reason s = "") then [] else [("reason", Reason s)]).
Definition info_json (info : Info) : list (string * string) :=
  [("version", Version info); ("revision", Revision info); ("buildDate", BuildDate info);
   ("goVersion", GoVersion info)].

Definition writeJSON (request : Request) (code : Z) (value : list (string * string))
    (response : ResponseWriter) : ResponseWriter :=
  let response := WriteHeader code (set_header "Content-Type" "application/json" response) in
  if negb (bool_decide (Method request = "HEAD")) then Write (Json value) response else response.

Definition not_ready (reason : string) : Z * statusResponse :=
  (503%Z, mkStatusResponse "not_ready" reason).

Fixpoint readiness (view : SnapshotView) (required : list CollectorID) : Z * statusResponse :=
  match required with
  | [] => (200%Z, mkStatusResponse "ready" "")
  | id :: required =>
      match view_Collectors view !! id with
      | None => not_ready "missing"
      | Some status =>
          if IsZero (LastSuccess status) then not_ready "missing" else
          match st_Freshness status with
          | FreshnessFresh | FreshnessAging => readiness view required
          | FreshnessStale => not_ready "stale"
          | _ => not_ready "missing"
          end
      end
  end.

(** The required collectors are valid and distinct. *)
Fixpoint required_ok (seen : gset CollectorID) (required : list CollectorID) : bool :=
  match required with
  | [] => true
  | id :: required =>
      if bool_decide (id ∈ seen) || negb (CollectorID_Valid id) then false
      else required_ok ({[id]} ∪ seen) required
  end.

Record HandlerOpts := mkHandlerOpts {
  opt_Timeout : Duration; opt_MaxRequestsInFlight : Z; opt_EnableOpenMetrics : bool
}.

(** The fields of [http.Server] that [New] sets. *)
Record HTTPServer := mkHTTPServer {
  Addr : string; http_ReadHeaderTimeout : Duration; http_ReadTimeout : Duration;
  http_WriteTimeout : Duration; http_IdleTimeout : Duration
}.

Section Server.
(** The world a handler sees: the store through its reader, and what the handlers of the other
    libraries look at. *)
Context {W Gatherer : Type}.

Definition Handler : Type := W -> Request -> ResponseWriter -> ResponseWriter.

(** promhttp and net/http/pprof. *)
Record Libraries := mkLibraries {
  HandlerFor : Gatherer -> HandlerOpts -> Handler;
  pprof_Profile : Handler; pprof_Symbol : Handler; pprof_Trace : Handler; pprof_Index : Handler
}.

Record Server := mkServer {
  srv_value : ServerConfig;
  srv_metrics : Handler;
  srv_reader : W -> SnapshotView;
  srv_ids : list CollectorID;
  srv_build : Info;
  srv_http : HTTPServer;
  shutdownTimeout : Duration;
  draining : bool
}.

Definition getOnly (next : Handler) : Handler := fun w request response =>
  if negb (bool_decide (Method request = "GET")) && negb (bool_decide (Method request = "HEAD"))
  then http_Error "Method Not Allowed" 405 (set_header "Allow" "GET, HEAD" response)
  else if bool_decide (Method request = "HEAD")
  then with_discard (rw_discard response) (next w request (with_discard true response))
  else next w request response.

Section New.
Context (libraries : Libraries).

Definition servePprof : Handler := fun w request response =>
  let path := URL_Path request in
  if bool_decide (path = "/debug/pprof/cmdline") then NotFound response
  else if bool_decide (path = "/debug/pprof/profile") then pprof_Profile libraries w request response
  else if bool_decide (path = "/debug/pprof/symbol") then pprof_Symbol libraries w request response
  else if bool_decide (path = "/debug/pprof/trace") then pprof_Trace libraries w request response
  else pprof_Index libraries w request response.

(** [New]; [None] is a nil dependency.  The division of [WriteTimeout] truncates. *)
Definition httpserver_New (value : ServerConfig) (gatherer : option Gatherer)
    (reader : option (W -> SnapshotView)) (required : list CollectorID) (build : Info) : res Server :=
  match gatherer, reader with
  | Some gatherer, Some reader =>
      fail_if bool_decide (length required = 0) with_ ErrInvalidConfig_httpserver ;;
      match ValidateServer value with
      | Err _ => Err ErrInvalidConfig_httpserver
      | Ok _ =>
          fail_if negb (required_ok ∅ required) with_ ErrInvalidConfig_httpserver ;;
          Ok (mkServer value
                (getOnly (HandlerFor libraries gatherer
                   (mkHandlerOpts (WriteTimeout value ÷ 2)%Z (MaxInFlight value) true)))
                reader required build
                (mkHTTPServer (ListenAddress value) (ReadHeaderTimeout value) (ReadTimeout value)
                   (WriteTimeout value) (IdleTimeout value))
                (ShutdownTimeout value) false)
      end
  | _, _ => Err ErrInvalidConfig_httpserver
  end.

Definition health : Handler := getOnly (fun _ request response =>
  writeJSON request 200 (status_json (mkStatusResponse "ok" "")) response).

Definition ready (server : Server) : Handler := getOnly (fun w request response =>
  if draining server
  then writeJSON request 503 (status_json (mkStatusResponse "not_ready" "shutting_down")) response
  else
    let '(code, payload) := readiness (srv_reader server w) (srv_ids server) in
    writeJSON request code (status_json payload) response).

Definition versionHandler (server : Server) : Handler := getOnly (fun _ request response =>
  writeJSON request 200 (info_json (srv_build server)) response).

Definition debugIndex : Handler := getOnly (fun _ request response =>
  writeJSON request 200 (status_json (mkStatusResponse "enabled" "")) response).

Definition debugPprof : Handler := getOnly servePprof.

Definition root (server : Server) : Handler := fun w request response =>
  let value := srv_value server in
  let path := URL_Path request in
  if Debug_Enabled value && bool_decide (path = "/debug") then debugIndex w request response
  else if Debug_Enabled value &&
    (bool_decide (path = "/debug/pprof") || HasPrefix path "/debug/pprof/")
  then debugPprof w request response
  else if bool_decide (path = MetricsPath value) then srv_metrics server w request response
  else if bool_decide (path = "/healthz") then health w request response
  else if bool_decide (path = "/ready") then ready server w request response
  else if bool_decide (path = "/version") then versionHandler server w request response
  else NotFound response.

Definition server_Handler (server : Server) : Handler := fun w request response =>
  root server w request (set_header "X-Content-Type-Options" "nosniff" response).
End New.

Definition BeginShutdown (server : Server) : Server :=
  mkServer (srv_value server) (srv_metrics server) (srv_reader server) (srv_ids server)
    (srv_build server) (srv_http server) (shutdownTimeout server) true.
End Server.
Arguments Handler W : clear implicits.
Arguments Libraries W Gatherer : clear implicits.
Arguments Server W : clear implicits.

(** ** Routes *)

Inductive Route := RMetrics | RHealth | RReady | RVersion | RDebug | RPprof | RNone.

#[export] Instance Route_eq_dec : EqDecision Route.
Proof. solve_decision. Defined.

(** Which route a path belongs to, each stated on its own. *)
Inductive routed (value : ServerConfig) (path : string) : Route -> Prop :=
| routed_metrics : path = MetricsPath value -> routed value path RMetrics
| routed_health : path = "/healthz" -> routed value path RHealth
| routed_ready : path = "/ready" -> routed value path RReady
| routed_version : path = "/version" -> routed value path RVersion
| routed_debug : Debug_Enabled value = true -> path = "/debug" -> routed value path RDebug
| routed_pprof :
    Debug_Enabled value = true -> path = "/debug/pprof" \/ HasPrefix path "/debug/pprof/" = true ->
    routed value path RPprof
| routed_none :
    path ∉ [MetricsPath value; "/healthz"; "/ready"; "/version"] ->
    (Debug_Enabled value = true ->
      path ∉ ["/debug"; "/debug/pprof"] /\ HasPrefix path "/debug/pprof/" = false) ->
    routed value path RNone.

Definition nosniff : ResponseWriter := set_header "X-Content-Type-Options" "nosniff" new_writer.

(** A complete response: its headers, those it was sent with, and its body. *)
Definition complete (code : Z) (headers : list (string * string)) (body : list Chunk) : ResponseWriter :=
  mkWriter (list_to_map headers) (Some (code, list_to_map headers)) body false.

Definition json_response (request : Request) (code : Z) (fields : list (string * string)) : ResponseWriter :=
  complete code [("X-Content-Type-Options", "nosniff"); ("Content-Type", "application/json")]
    (if bool_decide (Method request = "HEAD") then [] else [Json fields]).

Definition text_response (code : Z) (more : list (string * string)) (text : string) : ResponseWriter :=
  complete code
    (more ++ [("X-Content-Type-Options", "nosniff"); ("Content-Type", "text/plain; charset=utf-8")])
    [Line text].

(** What a handler of another library makes of the response, a [HEAD] behind a [headWriter]. *)
Definition foreign_response {W} (next : Handler W) (w : W) (request : Request) : ResponseWriter :=
  if bool_decide (Method request = "HEAD")
  then with_discard false (next w request (with_discard true nosniff))
  else next w request nosniff.

(** The response of each route. *)
Definition respond {W Gatherer} (libraries : Libraries W Gatherer) (gatherer : Gatherer)
    (value : ServerConfig) (view : SnapshotView) (required : list CollectorID) (build : Info)
    (down : bool) (w : W) (request : Request) (r : Route) : ResponseWriter :=
  if bool_decide (r = RNone) then text_response 404 [] "404 page not found"
  else if negb (bool_decide (Method request ∈ ["GET"; "HEAD"]))
  then text_response 405 [("Allow", "GET, HEAD")] "Method Not Allowed"
  else
    match r with
    | RMetrics => foreign_response (HandlerFor libraries gatherer
        (mkHandlerOpts (WriteTimeout value ÷ 2)%Z (MaxInFlight value) true)) w request
    | RHealth => json_response request 200 [("status", "ok")]
    | RReady =>
        let '(code, payload) := if down then not_ready "shutting_down" else readiness view required in
        json_response request code (status_json payload)
    | RVersion => json_response request 200 (info_json build)
    | RDebug => json_response request 200 [("status", "enabled")]
    | RPprof => foreign_response (servePprof libraries) w request
    | RNone => nosniff
    end.

(** ** Lemmas *)

Lemma routed_reserved value path r :
  reservedMetricsPath value = false -> routed value path r ->
  forall r', routed value path r' -> r' = r.
Proof.
  unfold reservedMetricsPath. intros [Hres Hdebug]%orb_false_iff. apply bool_decide_eq_false in Hres.
  assert (Hd : Debug_Enabled value = true ->
    MetricsPath value <> "/debug" /\ MetricsPath value <> "/debug/pprof" /\
    HasPrefix (MetricsPath value) "/debug/pprof/" = false).
  { intros Hon. rewrite Hon in Hdebug. cbn [andb] in Hdebug. inv_bool. done. }
  clear Hdebug. rewrite !not_elem_of_cons in Hres. destruct Hres as (_ & Hh & Hr & Hv & _).
  intros H1 r' H2. destruct H1, H2; try done; subst; try done;
    repeat match goal with
    | H : Debug_Enabled value = true, K : Debug_Enabled value = true -> _ |- _ => specialize (K H)
    | H : _ \/ _ |- _ => destruct H
    | H : _ /\ _ |- _ => destruct H
    | H : _ ∉ _ :: _ |- _ => apply not_elem_of_cons in H as [? H]
    end; subst; congruence || done.
Qed.

(** What a handler can do with the response it is given: change the headers, send them, write. *)
Inductive writer_call (w : ResponseWriter) : ResponseWriter -> Prop :=
| call_Header header : writer_call w (mkWriter header (rw_sent w) (rw_body w) (rw_discard w))
| call_WriteHeader code : writer_call w (WriteHeader code w)
| call_Write chunk : writer_call w (Write chunk w).

Definition handles {W} (next : Handler W) : Prop :=
  forall w request response, rtc writer_call response (next w request response).

(** The handlers of promhttp and net/http/pprof use the response they are given as one. *)
Record LibraryHandlers {W Gatherer} (libraries : Libraries W Gatherer) : Prop := mkLibraryHandlers {
  lh_metrics : forall gatherer options, handles (HandlerFor libraries gatherer options);
  lh_profile : handles (pprof_Profile libraries);
  lh_symbol : handles (pprof_Symbol libraries);
  lh_trace : handles (pprof_Trace libraries);
  lh_index : handles (pprof_Index libraries)
}.

(** Behind a [headWriter] nothing is written. *)
Lemma discarded response response' :
  rtc writer_call response response' -> rw_discard response = true -> rw_body response' = rw_body response.
Proof.
  induction 1 as [|response x response' Hcall _ IH]; [done|]. intros Hd.
  assert (Hx : rw_body x = rw_body response /\ rw_discard x = true).
  { destruct Hcall; [done| |]; [unfold WriteHeader; by destruct (rw_sent response)|unfold Write; by rewrite Hd]. }
  destruct Hx as [<- Hx]. by apply IH.
Qed.

Lemma foreign_head {W} (next : Handler W) w request :
  handles next -> Method request = "HEAD" -> rw_body (foreign_response next w request) = [].
Proof.
  intros Hnext Hm. unfold foreign_response. rewrite (bool_decide_true _ Hm). cbn [with_discard rw_body].
  by rewrite (discarded _ _ (Hnext w request (with_discard true nosniff))).
Qed.

Lemma set_header_call key value w : rtc writer_call w (set_header key value w).
Proof. apply rtc_once. apply call_Header. Qed.

Lemma http_Error_calls text code w : rtc writer_call w (http_Error text code w).
Proof.
  unfold http_Error. eapply rtc_l; [apply (call_Header _ (delete "Content-Length" (rw_header w)))|].
  do 2 (etrans; [apply set_header_call|]). eapply rtc_l; [apply call_WriteHeader|]. apply rtc_once, call_Write.
Qed.

Lemma servePprof_handles {W Gatherer} (libraries : Libraries W Gatherer) :
  LibraryHandlers libraries -> handles (servePprof libraries).
Proof.
  intros [? ? ? ? ?] w request response. unfold servePprof. cbv zeta.
  repeat case_bool_decide; auto. apply http_Error_calls.
Qed.

Section Responses.
Context {W : Type}.

Lemma getOnly_other (next : Handler W) w request :
  Method request ∉ ["GET"; "HEAD"] ->
  getOnly next w request nosniff = text_response 405 [("Allow", "GET, HEAD")] "Method Not Allowed".
Proof.
  rewrite !not_elem_of_cons. intros (Hg & Hh & _). unfold getOnly.
  rewrite (bool_decide_false _ Hg), (bool_decide_false _ Hh). reflexivity.
Qed.

Lemma getOnly_foreign (next : Handler W) w request :
  Method request ∈ ["GET"; "HEAD"] ->
  getOnly next w request nosniff = foreign_response next w request.
Proof.
  intros Hm. unfold getOnly, foreign_response. destruct (bool_decide (Method request = "HEAD")) eqn:Hh;
    [by rewrite andb_false_r|]. apply bool_decide_eq_false in Hh.
  rewrite !elem_of_cons, elem_of_nil in Hm. rewrite bool_decide_true by naive_solver. done.
Qed.

Lemma foreign_json (next : Handler W) w request code fields :
  (forall response, next w request response = writeJSON request code fields response) ->
  foreign_response next w request = json_response request code fields.
Proof.
  intros Hnext. unfold foreign_response, json_response. rewrite !Hnext. unfold writeJSON.
  destruct (bool_decide (Method request = "HEAD")); reflexivity.
Qed.
End Responses.

Lemma routed_total value path : exists r, routed value path r.
Proof.
  destruct (decide (path ∈ [MetricsPath value; "/healthz"; "/ready"; "/version"])) as [Hin|Hin].
  { rewrite !elem_of_cons, elem_of_nil in Hin. destruct Hin as [?|[?|[?|[?|[]]]]]; eexists;
      [by apply routed_metrics|by apply routed_health|by apply routed_ready|by apply routed_version]. }
  destruct (Debug_Enabled value) eqn:Hon;
    [|exists RNone; apply routed_none; [done|by rewrite Hon]].
  destruct (decide (path = "/debug")); [exists RDebug; by apply routed_debug|].
  destruct (decide (path = "/debug/pprof")); [exists RPprof; apply routed_pprof; auto|].
  destruct (HasPrefix path "/debug/pprof/") eqn:Hp; [exists RPprof; apply routed_pprof; auto|].
  exists RNone. apply routed_none; [done|]. intros _. split; [set_solver|done].
Qed.

Section Served.
Context {W Gatherer : Type} (libraries : Libraries W Gatherer).

Lemma httpserver_New_ok value gatherer reader required build server :
  httpserver_New libraries value gatherer reader required build = Ok server <->
  exists g rd, gatherer = Some g /\ reader = Some rd /\ required <> [] /\ ValidServer value /\
    required_ok ∅ required = true /\
    server = mkServer value
      (getOnly (HandlerFor libraries g (mkHandlerOpts (WriteTimeout value ÷ 2)%Z (MaxInFlight value) true)))
      rd required build
      (mkHTTPServer (ListenAddress value) (ReadHeaderTimeout value) (ReadTimeout value)
         (WriteTimeout value) (IdleTimeout value)) (ShutdownTimeout value) false.
Proof.
  setoid_rewrite <- ValidateServer_ok. unfold httpserver_New. split.
  - destruct gatherer as [g|], reader as [rd|]; try done. intros Hn.
    apply guard_ok in Hn as [Hne Hn]. destruct (ValidateServer value) as [[]|e]; [|done].
    inv_ok. inv_bool. exists g, rd. repeat split; try done. by intros ->.
  - intros (g & rd & -> & -> & Hne & -> & -> & ->).
    rewrite bool_decide_false by (by rewrite length_zero_iff_nil). done.
Qed.

Lemma required_ok_intro l : forall seen,
  NoDup l -> (forall id, id ∈ l -> id ∉ seen /\ CollectorID_Valid id = true) -> required_ok seen l = true.
Proof.
  induction l as [|id l IH]; intros seen Hnd Hall; [done|]. cbn [required_ok].
  destruct (Hall id) as [Hs Hv]; [by left|]. rewrite (bool_decide_false _ Hs), Hv. cbn [negb orb].
  apply NoDup_cons in Hnd as [Hid Hnd]. apply IH; [done|]. intros i Hi. destruct (Hall i) as [? ?]; [by right|]. set_solver.
Qed.

(** The dispatch of [root], one case per route. *)
Lemma root_routed (server : Server W) w request r :
  reservedMetricsPath (srv_value server) = false ->
  routed (srv_value server) (URL_Path request) r ->
  root libraries server w request nosniff =
    match r with
    | RMetrics => srv_metrics server w request nosniff
    | RHealth => health w request nosniff
    | RReady => ready server w request nosniff
    | RVersion => versionHandler server w request nosniff
    | RDebug => debugIndex w request nosniff
    | RPprof => debugPprof libraries w request nosniff
    | RNone => NotFound nosniff
    end.
Proof.
  intros Hres Hr. pose proof (routed_reserved _ _ _ Hres Hr) as Hu. unfold root. cbv zeta.
  destruct (Debug_Enabled (srv_value server)) eqn:Hon; cbn [andb].
  1: destruct (bool_decide_reflect (URL_Path request = "/debug")) as [Hp|Hp];
       [by rewrite <- (Hu RDebug) by (by apply routed_debug)|].
  1: destruct (bool_decide_reflect (URL_Path request = "/debug/pprof")) as [Hq|Hq];
       [by rewrite <- (Hu RPprof) by (apply routed_pprof; auto)|].
  1: destruct (HasPrefix (URL_Path request) "/debug/pprof/") eqn:Hpre;
       [by rewrite <- (Hu RPprof) by (apply routed_pprof; auto)|].
  all: cbn [orb].
  all: destruct (bool_decide_reflect (URL_Path request = MetricsPath (srv_value server))) as [Hm|Hm];
    [by rewrite <- (Hu RMetrics) by (by apply routed_metrics)|].
  all: destruct (bool_decide_reflect (URL_Path request = "/healthz")) as [Hh|Hh];
    [by rewrite <- (Hu RHealth) by (by apply routed_health)|].
  all: destruct (bool_decide_reflect (URL_Path request = "/ready")) as [Hy|Hy];
    [by rewrite <- (Hu RReady) by (by apply routed_ready)|].
  all: destruct (bool_decide_reflect (URL_Path request = "/version")) as [Hv|Hv];
    [by rewrite <- (Hu RVersion) by (by apply routed_version)|].
  all: rewrite <- (Hu RNone); [done|]; apply routed_none; [set_solver|]; rewrite ?Hon; try done.
  intros _. split; [set_solver|done].
Qed.

(** What [respond] sends of itself. *)
Lemma respond_refuses g value view required build down w request r :
  Method request ∉ ["GET"; "HEAD"] ->
  fst <$> rw_sent (respond libraries g value view required build down w request r) =
    Some (if bool_decide (r = RNone) then 404%Z else 405%Z).
Proof.
  intros Hm. unfold respond. rewrite (bool_decide_false _ Hm). cbn [negb]. by destruct (bool_decide (r = RNone)).
Qed.

Lemma respond_head g value view required build down w request r :
  LibraryHandlers libraries -> Method request = "HEAD" -> r <> RNone ->
  rw_body (respond libraries g value view required build down w request r) = [].
Proof.
  intros Hlib Hm Hr. unfold respond. rewrite (bool_decide_false _ Hr).
  rewrite (bool_decide_true (Method request ∈ ["GET"; "HEAD"])) by (rewrite Hm; by right; left). cbn [negb].
  assert (Hjson : forall code fields, rw_body (json_response request code fields) = [])
    by (intros; unfold json_response; by rewrite (bool_decide_true _ Hm)).
  destruct r; try apply Hjson; [apply foreign_head; [by apply lh_metrics|done]| |by apply foreign_head; [apply servePprof_handles|]|done].
  destruct (if down then _ else _). apply Hjson.
Qed.

Lemma respond_nosniff g value view required build down w request r :
  r ∉ [RMetrics; RPprof] ->
  exists code headers, rw_sent (respond libraries g value view required build down w request r) = Some (code, headers) /\
    headers !! "X-Content-Type-Options" = Some "nosniff".
Proof.
  rewrite !not_elem_of_cons. intros (Hm & Hp & _). unfold respond.
  destruct (bool_decide (r = RNone)) eqn:Hr; [by eexists _, _|]. apply bool_decide_eq_false in Hr.
  destruct (negb _); [by eexists _, _|]. destruct r; try done; try (by eexists _, _).
  destruct (if down then _ else _). by eexists _, _.
Qed.

(** C16: a constructed server answers every request by exactly one route: the metrics path, which
    no other route shadows, the health, readiness and version endpoints, the debug endpoints when
    they are enabled, or not found; and its response is the one [respond] gives for that route.
    On every route but the last a method other than [GET] and [HEAD] is refused with 405 (what is
    not found is so for any method), and the server writes no body for [HEAD], whatever the
    handlers of promhttp and pprof write.  Readiness is withdrawn as soon as the shutdown begins,
    and every response of the server itself forbids content sniffing. *)
Theorem server_routes value g reader required build server :
  httpserver_New libraries value (Some g) (Some reader) required build = Ok server ->
  forall (down : bool) w request,
  let response :=
    server_Handler libraries (if down : bool then BeginShutdown server else server) w request new_writer in
  exists r, (forall r', routed value (URL_Path request) r' <-> r' = r) /\
    response = respond libraries g value (reader w) required build down w request r /\
    (Method request ∉ ["GET"; "HEAD"] ->
      fst <$> rw_sent response = Some (if bool_decide (r = RNone) then 404%Z else 405%Z)) /\
    (LibraryHandlers libraries -> Method request = "HEAD" -> r <> RNone -> rw_body response = []) /\
    (down = true -> Method request ∈ ["GET"; "HEAD"] -> r = RReady -> fst <$> rw_sent response = Some 503%Z) /\
    (r ∉ [RMetrics; RPprof] -> exists code headers, rw_sent response = Some (code, headers) /\
      headers !! "X-Content-Type-Options" = Some "nosniff").
Proof.
  intros (g' & rd & [= <-] & [= <-] & _ & Hvalid & _ & ->)%httpserver_New_ok down w request.
  destruct (routed_total value (URL_Path request)) as [r Hr].
  assert (Hres : reservedMetricsPath value = false) by apply Hvalid.
  intros response. exists r. split.
  { intros r'. split; [by apply (routed_reserved value (URL_Path request))|by intros ->]. }
  assert (Hresponse : response = respond libraries g value (reader w) required build down w request r).
  2: { split; [done|]. rewrite Hresponse. split; [apply respond_refuses|].
       split; [intros Hlib; by apply respond_head|]. split; [|apply respond_nosniff].
       intros -> Hm ->. unfold respond. by rewrite (bool_decide_true _ Hm). }
  subst response.
  unfold server_Handler. change (set_header "X-Content-Type-Options" "nosniff" new_writer) with nosniff.
  rewrite (root_routed _ w request r) by (by destruct down). unfold respond.
  destruct (decide (r = RNone)) as [->|Hne]; [reflexivity|].
  rewrite (bool_decide_false _ Hne).
  destruct (bool_decide_reflect (Method request ∈ ["GET"; "HEAD"])) as [Hm|Hm]; cbn [negb];
    destruct r; try done; try (destruct down; by apply getOnly_other).
  all: try (by apply getOnly_foreign).
  - destruct down; by apply getOnly_foreign.
  - unfold health. rewrite getOnly_foreign by done. by apply foreign_json.
  - unfold ready. rewrite getOnly_foreign by done.
    destruct down; cbn [draining BeginShutdown srv_reader srv_ids].
    + by apply foreign_json.
    + destruct (readiness (reader w) required) as [code payload] eqn:Hrd.
      apply foreign_json. intros response. by rewrite Hrd.
  - unfold versionHandler. rewrite getOnly_foreign by done. apply foreign_json. by destruct down.
  - unfold debugIndex. rewrite getOnly_foreign by done. by apply foreign_json.
Qed.
End Served.

(** ** Readiness over the store *)

(** The last success of a collector, the zero time when it never succeeded. *)
Definition last_success (store : Store) (id : CollectorID) : Time :=
  default 0%Z (LastSuccess <$> statuses (current store) !! id).

(** A collector has succeeded, at most [staleAfter] ago. *)
Definition current_enough (store : Store) (now : Time) (id : CollectorID) : Prop :=
  last_success store id <> 0%Z /\ (now - last_success store id <= staleAfter store)%Z.

Lemma readiness_cons store now id required :
  readiness (Store_Load now store) (id :: required) =
  match freshness store now (last_success store id) with
  | FreshnessFresh | FreshnessAging => readiness (Store_Load now store) required
  | FreshnessStale => not_ready "stale"
  | _ => not_ready "missing"
  end.
Proof.
  cbn [readiness Store_Load view_Collectors]. rewrite lookup_fmap. unfold last_success.
  destruct (statuses (current store) !! id) as [st|]; cbn [fmap option_fmap option_map default];
    [|done].
  cbn [LastSuccess st_Freshness]. change (Datatypes.id (LastSuccess st)) with (LastSuccess st).
  destruct (IsZero (LastSuccess st)) eqn:Hz; [unfold freshness; by rewrite Hz|done].
Qed.

Lemma freshness_usable store now id :
  (0 < freshnessTTL store <= staleAfter store)%Z -> (staleAfter store < int64_max)%Z ->
  current_enough store now id <->
  freshness store now (last_success store id) ∈ [FreshnessFresh; FreshnessAging].
Proof.
  intros Httl Hmax. unfold current_enough, freshness, IsZero, Sub. generalize (last_success store id) as t.
  intros t. destruct (Z.eqb_spec t 0) as [->|Hne]; [set_solver|].
  cbv zeta. unfold int64_max, int64_min in *.
  rewrite !elem_of_cons, elem_of_nil.
  destruct (Z.leb_spec (Z.max (- 2 ^ 63) (Z.min (2 ^ 63 - 1) (now - t))) (freshnessTTL store));
    [|destruct (Z.leb_spec (Z.max (- 2 ^ 63) (Z.min (2 ^ 63 - 1) (now - t))) (staleAfter store))].
  - split; [by left|]. intros _. split; [done|lia].
  - split; [by right; left|]. intros _. split; [done|lia].
  - split; [lia|]. intros [|[|[]]]; done.
Qed.

Lemma readiness_code store now required :
  (0 < freshnessTTL store <= staleAfter store)%Z -> (staleAfter store < int64_max)%Z ->
  (readiness (Store_Load now store) required).1 = 200%Z <-> Forall (current_enough store now) required.
Proof.
  intros Httl Hmax. induction required as [|id required IH]; [split; [constructor|done]|].
  rewrite readiness_cons, Forall_cons, freshness_usable, <- IH by done.
  destruct (freshness store now (last_success store id)); set_solver.
Qed.

Lemma readiness_values view required :
  (readiness view required).1 ∈ [200%Z; 503%Z] /\
  ((readiness view required).1 = 503%Z ->
     (readiness view required).2 ∈ map (mkStatusResponse "not_ready") ["missing"; "stale"]).
Proof.
  induction required as [|id required IH]; [set_solver|]. cbn [readiness].
  destruct (view_Collectors view !! id) as [st|]; [|set_solver].
  destruct (IsZero (LastSuccess st)); [set_solver|]. destruct (st_Freshness st); (apply IH || set_solver).
Qed.

(** Readiness looks at nothing but the last successes and the two limits. *)
Lemma readiness_ext store store' now required :
  freshnessTTL store' = freshnessTTL store -> staleAfter store' = staleAfter store ->
  (forall id, id ∈ required -> last_success store' id = last_success store id) ->
  readiness (Store_Load now store') required = readiness (Store_Load now store) required.
Proof.
  intros Ht Hs. induction required as [|id required IH]; intros Hl; [done|].
  rewrite !readiness_cons, (Hl id) by (by left). unfold freshness. rewrite Ht, Hs, IH by set_solver. done.
Qed.

Lemma last_success_failure now store id r store' :
  RecordFailure now store id = (r, store') -> forall id', last_success store' id' = last_success store id'.
Proof.
  intros [(_ & _ & ->)|(_ & _ & ->)]%RecordFailure_cases id'; [done|]. unfold last_success.
  cbn [current set_current statuses]. destruct (decide (id' = id)) as [->|Hne].
  - rewrite lookup_insert_eq. by destruct (statuses (current store) !! id).
  - by rewrite lookup_insert_ne.
Qed.

Lemma last_success_publish range now store id partial store' :
  Publish range now store id partial = (Ok tt, store') ->
  forall id', last_success store' id' = if decide (id' = id) then now else last_success store id'.
Proof.
  intros [(e & [=] & _)|(_ & _ & _ & merged & _ & ->)]%Publish_cases id'. unfold last_success.
  cbn [current set_current statuses]. rewrite refresh_series_lookup. destruct (decide (id' = id)) as [->|Hne].
  - by rewrite !lookup_insert_eq.
  - rewrite !lookup_insert_ne by done.
    destruct (parts (current store) !! id'), (statuses (current store) !! id'); done.
Qed.

Lemma store_limits store r store' :
  (exists now id, RecordFailure now store id = (r, store')) \/
  (exists range now id partial, Publish range now store id partial = (r, store')) ->
  freshnessTTL store' = freshnessTTL store /\ staleAfter store' = staleAfter store.
Proof.
  intros [(now & id & [(_ & _ & ->)|(_ & _ & ->)]%RecordFailure_cases)|
    (range & now & id & partial & [(e & _ & ->)|(_ & _ & _ & merged & _ & ->)]%Publish_cases)]; done.
Qed.

(** C23: over any store the program can hold, the exporter is ready exactly when every required
    collector has succeeded and none of these successes is older than [staleAfter]; otherwise it
    answers 503 with the reason missing or stale.  A failed refresh never changes the answer, and
    a publication of the last required collector that is not current makes it ready. *)
Theorem readiness_follows_store store now required :
  store_reachable store -> (staleAfter store < int64_max)%Z ->
  ((readiness (Store_Load now store) required).1 = 200%Z <-> Forall (current_enough store now) required) /\
  ((readiness (Store_Load now store) required).1 <> 200%Z ->
    exists reason, reason ∈ ["missing"; "stale"] /\
      readiness (Store_Load now store) required = not_ready reason) /\
  (forall at_ id r store', RecordFailure at_ store id = (r, store') ->
    readiness (Store_Load now store') required = readiness (Store_Load now store) required) /\
  (forall range id partial store', Publish range now store id partial = (Ok tt, store') -> now <> 0%Z ->
    Forall (fun i => i <> id -> current_enough store now i) required ->
    (readiness (Store_Load now store') required).1 = 200%Z).
Proof.
  intros Hinv%store_reachable_inv Hmax. pose proof (inv_ttl store Hinv) as Httl.
  split; [by apply readiness_code|]. split; [|split].
  - intros Hne. destruct (readiness_values (Store_Load now store) required) as [Hv Hp].
    destruct (readiness _ required) as [code payload]; cbn [fst snd] in *.
    rewrite !elem_of_cons, elem_of_nil in Hv. destruct Hv as [?|[->|[]]]; [done|].
    apply elem_of_map in Hp as (reason & Hr & <-); [|done]. by exists reason.
  - intros at_ id r store' Hf. destruct (store_limits store r store') as [Ht Hs]; [eauto|].
    apply readiness_ext; [done|done|]. intros i _. by eapply last_success_failure.
  - intros range id partial store' Hp Hnow Hall. destruct (store_limits store (Ok tt) store') as [Ht Hs]; [eauto 10|].
    apply readiness_code; [lia|lia|]. eapply Forall_impl; [exact Hall|]. cbn beta. intros i Hi.
    unfold current_enough. rewrite (last_success_publish _ _ _ _ _ _ Hp), Hs.
    destruct (decide (i = id)) as [->|Hid]; [split; [done|lia]|by apply Hi].
Qed.

(** ** A concrete server *)

(** The world is the instant of the request; the reader loads the sample store. *)
Definition sample_libraries : Libraries Time unit := {|
  HandlerFor := fun _ _ _ _ response => Write (Foreign "metrics") response;
  pprof_Profile := fun _ _ response => Write (Foreign "profile") response;
  pprof_Symbol := fun _ _ response => Write (Foreign "symbol") response;
  pprof_Trace := fun _ _ response => Write (Foreign "trace") response;
  pprof_Index := fun _ _ response => Write (Foreign "index") response
|}.

Definition sample_server : res (Server Time) :=
  httpserver_New sample_libraries (cfg_Server Default) (Some tt)
    (Some (fun now => Store_Load now sample_store)) [id_total] sample_info.

Definition sample_answer (method path : string) (now : Time) : option Z * list Chunk :=
  match sample_server with
  | Ok server =>
      let response := server_Handler sample_libraries server now (mkRequest method path) new_writer in
      (fst <$> rw_sent response, rw_body response)
  | Err _ => (None, [])
  end.

Example sample_answers :
  sample_answer "GET" "/metrics" sample_now = (Some 200%Z, [Foreign "metrics"]) /\
  sample_answer "HEAD" "/metrics" sample_now = (None, []) /\
  sample_answer "POST" "/metrics" sample_now = (Some 405%Z, [Line "Method Not Allowed"]) /\
  sample_answer "GET" "/ready" sample_now = (Some 200%Z, [Json [("status", "ready")]]) /\
  sample_answer "GET" "/ready" (sample_now + Hour)%Z =
    (Some 503%Z, [Json [("status", "not_ready"); ("reason", "stale")]]) /\
  sample_answer "HEAD" "/healthz" sample_now = (Some 200%Z, []) /\
  sample_answer "GET" "/debug/pprof/" sample_now = (Some 404%Z, [Line "404 page not found"]).
Proof. vm_compute. repeat split. Qed.

Lemma sample_library_handlers : LibraryHandlers sample_libraries.
Proof. split; intros; intros ? ? ?; apply rtc_once, call_Write. Qed.

Lemma server_routes_witness :
  match sample_server with
  | Ok server =>
      let response := server_Handler sample_libraries (BeginShutdown server) sample_now (mkRequest "HEAD" "/metrics") new_writer in
      exists r, (forall r', routed (cfg_Server Default) "/metrics" r' <-> r' = r) /\ rw_body response = []
  | Err _ => False
  end.
Proof.
  destruct sample_server as [server|e] eqn:Hs.
  - destruct (server_routes sample_libraries (cfg_Server Default) tt
      (fun now => Store_Load now sample_store) [id_total] sample_info server Hs true sample_now
      (mkRequest "HEAD" "/metrics")) as (r & Hr & _ & _ & Hhead & _).
    exists r. split; [exact Hr|]. apply Hhead; [exact sample_library_handlers|reflexivity|].
    intros ->. assert (Hroute : routed (cfg_Server Default) "/metrics" RMetrics) by (apply routed_metrics; reflexivity).
    apply Hr in Hroute. discriminate Hroute.
  - apply (f_equal is_ok) in Hs. vm_compute in Hs. discriminate Hs.
Defined.

Lemma readiness_follows_store_witness :
  (readiness (Store_Load sample_now sample_store) [id_total; id_dev]).1 = 200%Z /\
  Forall (current_enough sample_store sample_now) [id_total; id_dev].
Proof.
  assert (Hready : (readiness (Store_Load sample_now sample_store) [id_total; id_dev]).1 = 200%Z)
    by (vm_compute; reflexivity).
  split; [exact Hready|]. revert Hready.
  apply (readiness_follows_store sample_store sample_now [id_total; id_dev] sample_store_reachable).
  vm_compute; reflexivity.
Defined.
