(* ===== verification/AthenaQuery.v ===== *)
(** * The SQL text of a CUR query (internal/aws/athena/reader.go)

    [buildQuery] and the expressions it is made of.  A small scanner of SQL quoting is the
    specification of the text: every configured tag key and column is read back from the query
    exactly as it was configured, so none of them can change the statement around it. *)

From S2P Require Import Prelude GoStrings GoTime Domain Config.
Local Open Scope string_scope.
Local Open Scope list_scope.

(** [strings.ReplaceAll] of a one-byte text by two of it. *)
Fixpoint double_byte (q : ascii) (s : string) : string :=
  match s with
  | EmptyString => EmptyString
  | String c s =>
      if bool_decide (c = q) then String q (String q (double_byte q s))
      else String c (double_byte q s)
  end.

Definition double_quote : ascii := Ascii.ascii_of_nat 34.
Definition single_quote : ascii := Ascii.ascii_of_nat 39.

Definition quote_with (q : ascii) (value rest : string) : string :=
  String q (double_byte q value +++ String q rest).

Definition quoteIdentifier (value : string) : string := quote_with double_quote value "".

Definition basisExpression (value : Basis) : option string :=
  if bool_decide (value = BasisUnblended) then Some "COALESCE(line_item_unblended_cost, 0)"
  else if bool_decide (value = BasisAmortized) then
    Some "CASE line_item_line_item_type WHEN 'SavingsPlanCoveredUsage' THEN COALESCE(savings_plan_savings_plan_effective_cost, 0) WHEN 'DiscountedUsage' THEN COALESCE(reservation_effective_cost, 0) WHEN 'SavingsPlanRecurringFee' THEN COALESCE(savings_plan_total_commitment_to_date, 0) - COALESCE(savings_plan_used_commitment, 0) WHEN 'SavingsPlanNegation' THEN 0 WHEN 'SavingsPlanUpfrontFee' THEN 0 WHEN 'RIFee' THEN COALESCE(reservation_unused_amortized_upfront_fee_for_billing_period, 0) + COALESCE(reservation_unused_recurring_fee, 0) WHEN 'Fee' THEN CASE WHEN NULLIF(reservation_reservation_a_r_n, '') IS NOT NULL THEN 0 ELSE COALESCE(line_item_unblended_cost, 0) END ELSE COALESCE(line_item_unblended_cost, 0) END"
  else if bool_decide (value = BasisNet) then
    Some "COALESCE(line_item_net_unblended_cost, line_item_unblended_cost, 0)"
  else None.

(** The struct of [windows]: a name, a start and an end. *)
Record query_window := mkWindow { win_name : string; win_start : string; win_end : string }.

Definition query_windows (reference : Time) : list query_window :=
  let day := DayContaining reference in
  let month := MonthContaining reference in
  [mkWindow WindowDaily (Format_DateOnly (Start day)) (Format_DateOnly (End_ day));
   mkWindow WindowMonthToDate (Format_DateOnly (Start month)) (Format_DateOnly (End_ day))].

Definition amount_row (basis : Basis) (expression : string) (window : query_window) : string :=
  let amount := "CASE WHEN line_item_usage_start_date >= DATE '" +++ win_start window +++
    "' AND line_item_usage_start_date < DATE '" +++ win_end window +++ "' THEN " +++ expression +++
    " END" in
  "ROW('" +++ win_name window +++ "', '" +++ basis +++ "', " +++ amount +++ ")".

Definition amount_rows (bases : list Basis) (windows : list query_window) : list string :=
  flat_map (fun basis =>
    match basisExpression basis with
    | None => []
    | Some expression => map (amount_row basis expression) windows
    end) bases.

Definition tag_row (tag : CURTagColumn) : string :=
  "ROW(" +++ quote_with single_quote (col_Key tag) (", COALESCE(NULLIF(" +++
  quoteIdentifier (col_Column tag) +++ ", ''), '__untagged__'))").

Definition buildQuery (value : TargetCURConfig) (reference : Time) (bases : list Basis) (tags : bool) :
    string :=
  let day := DayContaining reference in
  let month := MonthContaining reference in
  let table := quoteIdentifier (cur_Database value) +++ "." +++ quoteIdentifier (cur_Table value) in
  let amountRows := amount_rows bases (query_windows reference) in
  if bool_decide (length amountRows = 0) then "" else
  let query := "SELECT expanded.window, line_item_currency_code AS currency, expanded.cost_basis, SUM(expanded.amount) AS amount" in
  let scanned := " WHERE line_item_usage_start_date >= DATE '" +++ Format_DateOnly (Start month) +++
    "' AND line_item_usage_start_date < DATE '" +++ Format_DateOnly (End_ day) +++ "' AND expanded.amount IS NOT NULL GROUP BY expanded.window, line_item_currency_code, expanded.cost_basis" in
  if tags then
    let tagRows := map tag_row (cur_TagColumns value) in
    if bool_decide (length tagRows = 0) then "" else
    query +++ ", tag_values.tag_key, tag_values.tag_value" +++
    (" FROM " +++ table +++ " CROSS JOIN UNNEST(ARRAY[" +++ join ", " amountRows +++
     "]) AS expanded(window, cost_basis, amount) CROSS JOIN UNNEST(ARRAY[" +++ join ", " tagRows +++
     "]) AS tag_values(tag_key, tag_value)") +++
    (scanned +++ ", tag_values.tag_key, tag_values.tag_value ORDER BY expanded.window, currency, expanded.cost_basis, tag_values.tag_key, tag_values.tag_value")
  else
    query +++
    (" FROM " +++ table +++ " CROSS JOIN UNNEST(ARRAY[" +++ join ", " amountRows +++
     "]) AS expanded(window, cost_basis, amount)") +++
    (scanned +++ " ORDER BY expanded.window, currency, expanded.cost_basis").

(** ** Reading a query back *)

(** [s] after the text [p]. *)
Definition after (p s : string) : option string := of_bytes <$> strip (bytes p) (bytes s).

(** The rest of a quoted text, where a doubled quote stands for one. *)
Fixpoint lex_body (q : ascii) (s : string) : option (string * string) :=
  match s with
  | EmptyString => None
  | String c s1 =>
      if bool_decide (c = q) then
        match s1 with
        | String d s2 =>
            if bool_decide (d = q) then '(content, rest) ← lex_body q s2; Some (String q content, rest)
            else Some (EmptyString, s1)
        | EmptyString => Some (EmptyString, EmptyString)
        end
      else '(content, rest) ← lex_body q s1; Some (String c content, rest)
  end.

Definition lex_quoted (q : ascii) (s : string) : option (string * string) :=
  match s with
  | String c s => if bool_decide (c = q) then lex_body q s else None
  | EmptyString => None
  end.

Definition parse_tag_row (s : string) : option (CURTagColumn * string) :=
  s ← after "ROW(" s;
  '(key, s) ← lex_quoted single_quote s;
  s ← after ", COALESCE(NULLIF(" s;
  '(column, s) ← lex_quoted double_quote s;
  s ← after ", ''), '__untagged__'))" s;
  Some (mkTagColumn key column, s).

(** At most [fuel] rows separated by commas. *)
Fixpoint parse_tag_rows (fuel : nat) (s : string) : option (list CURTagColumn * string) :=
  match fuel with
  | O => None
  | S fuel =>
      '(column, s) ← parse_tag_row s;
      match after ", " s with
      | None => Some ([column], s)
      | Some s => '(columns, s) ← parse_tag_rows fuel s; Some (column :: columns, s)
      end
  end.

Definition query_head : string :=
  "SELECT expanded.window, line_item_currency_code AS currency, expanded.cost_basis, SUM(expanded.amount) AS amount".

Definition query_tail (reference : Time) (tags : bool) : string :=
  " WHERE line_item_usage_start_date >= DATE '" +++
  Format_DateOnly (Start (MonthContaining reference)) +++
  "' AND line_item_usage_start_date < DATE '" +++ Format_DateOnly (End_ (DayContaining reference)) +++
  "' AND expanded.amount IS NOT NULL GROUP BY expanded.window, line_item_currency_code, expanded.cost_basis" +++
  if tags then ", tag_values.tag_key, tag_values.tag_value ORDER BY expanded.window, currency, expanded.cost_basis, tag_values.tag_key, tag_values.tag_value"
  else " ORDER BY expanded.window, currency, expanded.cost_basis".

(** The database, the table, the tag columns and the text that follows them. *)
Definition parse_query (reference : Time) (bases : list Basis) (tags : bool) (s : string) :
    option (string * string * list CURTagColumn * string) :=
  s ← after (query_head +++ (if tags then ", tag_values.tag_key, tag_values.tag_value" else "") +++ " FROM ") s;
  '(database, s) ← lex_quoted double_quote s;
  s ← after "." s;
  '(table, s) ← lex_quoted double_quote s;
  s ← after (" CROSS JOIN UNNEST(ARRAY[" +++ join ", " (amount_rows bases (query_windows reference)) +++
             "]) AS expanded(window, cost_basis, amount)") s;
  if tags then
    s ← after " CROSS JOIN UNNEST(ARRAY[" s;
    '(columns, s) ← parse_tag_rows (String.length s) s;
    s ← after "]) AS tag_values(tag_key, tag_value)" s;
    Some (database, table, columns, s)
  else Some (database, table, [], s).

Lemma append_cons c (a b : string) : String.app (String c a) b = String c (a +++ b).
Proof. done. Qed.

Lemma append_nil (b : string) : String.app EmptyString b = b.
Proof. done. Qed.

Lemma append_assoc (a b c : string) : String.app (String.app a b) c = (a +++ (b +++ c)).
Proof. apply bytes_inj. by rewrite !bytes_app, app_assoc. Qed.

Lemma after_app p s : after p (p +++ s) = Some s.
Proof.
  unfold after. rewrite bytes_app, (proj2 (strip_some (bytes p) _ (bytes s)) eq_refl). simpl.
  by rewrite of_bytes_bytes.
Qed.

Definition starts_with (q : ascii) (s : string) : bool :=
  match s with EmptyString => false | String c _ => bool_decide (c = q) end.

Lemma lex_body_quote q v rest :
  starts_with q rest = false -> lex_body q (double_byte q v +++ String q rest) = Some (v, rest).
Proof.
  intros Hrest. induction v as [|c v IH]; cbn [double_byte].
  - rewrite append_nil. cbn [lex_body]. rewrite bool_decide_true by done. destruct rest as [|d rest]; [done|]. simpl in Hrest.
    by rewrite Hrest.
  - case_bool_decide as Hc; rewrite !append_cons; cbn [lex_body].
    + rewrite !bool_decide_true by done. rewrite IH. simpl. by subst.
    + rewrite bool_decide_false by done. by rewrite IH.
Qed.

Lemma quote_with_app q v rest s : (quote_with q v rest +++ s) = quote_with q v (rest +++ s).
Proof. unfold quote_with. by rewrite append_cons, append_assoc, append_cons. Qed.

Lemma lex_quoted_quote q v rest :
  starts_with q rest = false -> lex_quoted q (quote_with q v rest) = Some (v, rest).
Proof.
  intros Hrest. unfold quote_with, lex_quoted. rewrite bool_decide_true by done.
  by apply lex_body_quote.
Qed.

Lemma quoteIdentifier_app v s : (quoteIdentifier v +++ s) = quote_with double_quote v s.
Proof. unfold quoteIdentifier. by rewrite quote_with_app, append_nil. Qed.

Lemma after_prefix p p' s : after (p +++ p') (p +++ s) = after p' s.
Proof.
  unfold after. f_equal. rewrite !bytes_app.
  destruct (strip (bytes p') (bytes s)) as [l|] eqn:E.
  - apply strip_some in E as ->. apply strip_some. by rewrite app_assoc.
  - destruct (strip _ (bytes p ++ bytes s)) as [l|] eqn:E'; [|done]. exfalso.
    apply strip_some in E'. rewrite <- app_assoc in E'. apply app_inv_head in E'.
    rewrite E' in E. by rewrite (proj2 (strip_some (bytes p') _ l) eq_refl) in E.
Qed.

(** One step of a reader: the text it expects is there. *)
Ltac read_text :=
  first [rewrite after_prefix | rewrite after_app | rewrite lex_quoted_quote by done | rewrite quote_with_app
        | rewrite quoteIdentifier_app | rewrite append_assoc]; cbn [mbind option_bind].

(** A tag key and its column are read back whatever bytes they hold. *)
Lemma parse_tag_row_app tag s : parse_tag_row (tag_row tag +++ s) = Some (tag, s).
Proof. unfold parse_tag_row, tag_row. repeat read_text. by destruct tag. Qed.

Lemma parse_tag_rows_app fuel tag tags s :
  length (tag :: tags) <= fuel -> after ", " s = None ->
  parse_tag_rows fuel (join ", " (map tag_row (tag :: tags)) +++ s) = Some (tag :: tags, s).
Proof.
  intros Hfuel Hs. revert fuel tag Hfuel.
  induction tags as [|tag' tags IH]; intros [|fuel] tag Hfuel; simpl in Hfuel; try lia; cbn [parse_tag_rows].
  - cbn [map join]. rewrite parse_tag_row_app. cbn [mbind option_bind]. by rewrite Hs.
  - replace (join ", " (map tag_row (tag :: tag' :: tags))) with
      (tag_row tag +++ (", " +++ join ", " (map tag_row (tag' :: tags)))) by done.
    rewrite !append_assoc, parse_tag_row_app. cbn [mbind option_bind].
    rewrite after_app. cbn [mbind option_bind]. rewrite IH by (simpl; lia). done.
Qed.

Lemma length_append (a b : string) : String.length (a +++ b) = String.length a + String.length b.
Proof. induction a as [|c a IH]; [done|]. rewrite append_cons. simpl. by rewrite IH. Qed.

Lemma join_rows_length tags s :
  length tags <= String.length (join ", " (map tag_row tags) +++ s).
Proof.
  rewrite length_append. induction tags as [|tag [|tag' tags] IH]; simpl; [lia| |].
  - unfold tag_row. rewrite length_append. simpl. lia.
  - cbn [map join length] in IH |- *. rewrite !length_append. simpl in *. lia.
Qed.

(** C31: the text sent to Athena names exactly the configured database, table, tag keys and
    columns: a reader that follows SQL quoting recovers each of them, whatever bytes they hold,
    and what follows is the fixed end of the statement.  No configured name can close its
    quotes and change the query. *)
Theorem buildQuery_reads_back value reference bases tags :
  amount_rows bases (query_windows reference) <> [] ->
  (tags = true -> cur_TagColumns value <> []) ->
  parse_query reference bases tags (buildQuery value reference bases tags) =
  Some (cur_Database value, cur_Table value, (if tags then cur_TagColumns value else []),
        query_tail reference tags).
Proof.
  intros Hrows Htags. unfold buildQuery, parse_query. cbv zeta.
  rewrite bool_decide_false by (by rewrite length_zero_iff_nil).
  set (rows := join ", " (amount_rows bases (query_windows reference))).
  destruct tags.
  - specialize (Htags eq_refl).
    rewrite bool_decide_false by (rewrite length_map; by rewrite length_zero_iff_nil).
    destruct (cur_TagColumns value) as [|tag columns] eqn:Hc; [done|].
    fold query_head. unfold query_tail.
    set (texts := join ", " (map tag_row (tag :: columns))).
    change "]) AS expanded(window, cost_basis, amount) CROSS JOIN UNNEST(ARRAY[" with
      ("]) AS expanded(window, cost_basis, amount)" +++ " CROSS JOIN UNNEST(ARRAY[").
    repeat read_text. subst texts. rewrite parse_tag_rows_app; [|apply join_rows_length|done].
    cbn [mbind option_bind]. repeat read_text. done.
  - fold query_head. unfold query_tail. rewrite append_nil. repeat read_text. done.
Qed.

(** A key that tries to leave its literal. *)
Definition hostile_cur : TargetCURConfig :=
  mkTargetCUR true "eu-west-1" "billing" "cur" "primary" "s3://results/athena/" (5 * Minute)%Z Second
    [mkTagColumn "team'), ROW('x" "resource_tags_user_team"].

Lemma buildQuery_reads_back_witness :
  parse_query (Date 2026 7 13) [BasisUnblended] true
    (buildQuery hostile_cur (Date 2026 7 13) [BasisUnblended] true) =
  Some ("billing", "cur", [mkTagColumn "team'), ROW('x" "resource_tags_user_team"],
        query_tail (Date 2026 7 13) true).
Proof.
  apply (buildQuery_reads_back hostile_cur (Date 2026 7 13) [BasisUnblended] true).
  - intros H. apply (f_equal (@length string)) in H. vm_compute in H. discriminate H.
  - done.
Defined.

(** a query is empty exactly when there is nothing to ask for: no basis with an expression,
    or a tag query without tag columns; and its rows are, for each basis with an expression in
    order, one row for the day and one for the month to date. *)
Theorem buildQuery_empty value reference bases tags :
  (buildQuery value reference bases tags = "" <->
   (forall basis, basis ∈ bases -> Basis_Valid basis = false) \/
   (tags = true /\ cur_TagColumns value = [])) /\
  length (amount_rows bases (query_windows reference)) = 2 * length (List.filter Basis_Valid bases).
Proof.
  assert (Hvalid : forall basis, match basisExpression basis with Some _ => true | None => false end =
                                 Basis_Valid basis).
  { intros basis. unfold basisExpression, Basis_Valid. by repeat case_bool_decide. }
  assert (Hlen : length (amount_rows bases (query_windows reference)) = 2 * length (List.filter Basis_Valid bases)).
  { induction bases as [|basis bases IH]; [done|]. unfold amount_rows in *. cbn [flat_map List.filter].
    rewrite <- Hvalid, length_app, IH. destruct (basisExpression basis); cbn [length map query_windows]; lia. }
  split; [|done]. unfold buildQuery. cbv zeta. rewrite Hlen.
  destruct (decide (length (List.filter Basis_Valid bases) = 0)) as [Hz|Hz].
  - rewrite bool_decide_true by lia. split; [|done]. intros _. left. intros basis Hb.
    destruct (Basis_Valid basis) eqn:Hv; [|done]. apply length_zero_iff_nil in Hz.
    assert (Hin : basis ∈ List.filter Basis_Valid bases) by (by apply elem_of_filter_b).
    rewrite Hz in Hin. by apply elem_of_nil in Hin.
  - rewrite bool_decide_false by lia.
    assert (Hno : ~ forall basis, basis ∈ bases -> Basis_Valid basis = false).
    { intros Hall. apply Hz. apply length_zero_iff_nil. apply filter_none. exact Hall. }
    destruct tags; [|split; [done|intros [H|[H _]]; done]].
    rewrite length_map. destruct (cur_TagColumns value) as [|tag columns]; cbn [length].
    + rewrite bool_decide_true by done. split; [auto|done].
    + rewrite bool_decide_false by done. split; [done|intros [H|[_ H]]; done].
Qed.
