(* ===== verification/Athena.v ===== *)
(** * The Athena reader (internal/aws/athena)

    One CUR query: start it, poll its state until it ends or its deadline passes, stop it when it
    is abandoned, read its result pages, and map the rows.  The calls of the SDK client are
    arguments, as are the deadline context and the poll timer. *)

From S2P Require Import Prelude GoStrings GoFloat GoTime Errors Effects Pagination Domain Snapshot.
From S2P Require Import Ports PromClient Metrics Cardinality Collectors FamilyCollectors Config AthenaQuery.
Local Open Scope string_scope.
Local Open Scope list_scope.

(** ** Query states (execution.go) *)

Inductive QueryState :=
| QueryQueued | QueryRunning | QuerySucceeded | QueryFailed | QueryCancelled | QueryUnknown.

#[export] Instance QueryState_eq_dec : EqDecision QueryState.
Proof. solve_decision. Defined.

Definition QueryState_string (s : QueryState) : string :=
  match s with
  | QueryQueued => "queued" | QueryRunning => "running" | QuerySucceeded => "succeeded"
  | QueryFailed => "failed" | QueryCancelled => "cancelled" | QueryUnknown => "unknown"
  end.

Definition mapQueryState (value : string) : QueryState :=
  if bool_decide (value = "QUEUED") then QueryQueued
  else if bool_decide (value = "RUNNING") then QueryRunning
  else if bool_decide (value = "SUCCEEDED") then QuerySucceeded
  else if bool_decide (value = "FAILED") then QueryFailed
  else if bool_decide (value = "CANCELLED") then QueryCancelled
  else QueryUnknown.

(** ** SDK types *)

Record StartQueryExecutionInput := mkStartInput {
  QueryString : string; WorkGroup : string; ctx_Database : string; OutputLocation : string
}.
(** [QueryExecutionId] of an output that may be nil. *)
Record StartQueryExecutionOutput := mkStartOutput { QueryExecutionId : option string }.
Record QueryExecutionInfo := mkExecution { exec_Status : option string }.
Record GetQueryExecutionOutput := mkExecutionOutput { QueryExecution : option QueryExecutionInfo }.
Record ColumnInfo := mkColumn { column_Name : option string; column_Type : option string }.
Definition Row : Type := list (option string).
Record ResultSet := mkResultSet { ResultSetMetadata : option (list ColumnInfo); Rows : list Row }.
Record GetQueryResultsOutput := mkResults { rs_ResultSet : option ResultSet; rs_NextToken : option string }.

(** The context of a call: the query's, with its deadline, or the one a stop is sent under, which
    the cancellation of the collector does not reach. *)
Inductive CallContext := query_ctx (deadline : Time) | stop_ctx (deadline : Time).

(** ** Rows *)

Definition costColumns : list string := ["window"; "currency"; "cost_basis"; "amount"].
Definition tagColumns : list string :=
  ["window"; "currency"; "cost_basis"; "amount"; "tag_key"; "tag_value"].

Definition numeric_types : list string :=
  ["decimal"; "double"; "float"; "real"; "bigint"; "integer"; "smallint"; "tinyint"].

(** The loop over [metadata.ColumnInfo], [expected] running along. *)
Fixpoint check_columns (columns : list ColumnInfo) (expected : list string) : res unit :=
  match columns, expected with
  | column :: columns, name :: expected =>
      fail_if negb (bool_decide (ToString (column_Name column) = name)) with_ ErrorString "athena query returned unexpected result column" ;;
      let dataType := ToLower (ToString (column_Type column)) in
      if bool_decide (name = "amount") then
        fail_if negb (bool_decide (dataType ∈ numeric_types)) with_ ErrorString "athena amount column is not numeric" ;;
        check_columns columns expected
      else
        fail_if negb (bool_decide (dataType = "varchar")) with_ ErrorString "athena result column is not varchar" ;;
        check_columns columns expected
  | _, _ => Ok tt
  end.

Definition validateResultMetadata (metadata : option (list ColumnInfo)) (expected : list string) :
    res unit :=
  match metadata with
  | None => Err (ErrorString "athena query returned unexpected result metadata")
  | Some columns =>
      fail_if negb (bool_decide (length columns = length expected)) with_ ErrorString "athena query returned unexpected result metadata" ;;
      check_columns columns expected
  end.

Definition decodeRow (row : Row) (columns : nat) : res (list string) :=
  fail_if negb (bool_decide (length row = columns)) with_ ErrorString "athena result row has unexpected column count" ;;
  Ok (map ToString row).

Definition equalColumns (left right : list string) : bool := bool_decide (left = right).

(** The loop over the rows of one page. *)
Fixpoint add_rows (expected : list string) (maxRows : Z) (pageRows : list Row)
    (rows : list (list string)) : res (list (list string)) :=
  match pageRows with
  | [] => Ok rows
  | row :: pageRows =>
      values ← decodeRow row (length expected);
      fail_if equalColumns values expected with_ ErrorString "athena query repeated its header" ;;
      let rows := rows ++ [values] in
      fail_if (maxRows <? Z.of_nat (length rows))%Z with_ ErrorString "athena result row limit exceeded" ;;
      add_rows expected maxRows pageRows rows
  end.

Definition page_rows (output : GetQueryResultsOutput) : list Row :=
  match rs_ResultSet output with Some result => Rows result | None => [] end.

(** One page: the first one carries the header row. *)
Definition add_page (expected : list string) (maxRows : Z) (first : bool)
    (output : GetQueryResultsOutput) (rows : list (list string)) : res (list (list string)) :=
  let pageRows := page_rows output in
  if first then
    match pageRows with
    | [] => Err (ErrorString "athena query returned no header row")
    | header :: pageRows =>
        match decodeRow header (length expected) with
        | Ok header =>
            fail_if negb (equalColumns header expected) with_ ErrorString "athena query returned an unexpected header" ;;
            add_rows expected maxRows pageRows rows
        | Err _ => Err (ErrorString "athena query returned an unexpected header")
        end
    end
  else add_rows expected maxRows pageRows rows.

(** The checks of a page before it is counted. *)
Definition check_page (expected : list string) (output : GetQueryResultsOutput) : res unit :=
  match rs_ResultSet output with
  | None => Err (ErrorString "athena query returned no result set")
  | Some result => validateResultMetadata (ResultSetMetadata result) expected
  end.

(** ** Mapping *)

Definition total_dimension : Dimension := mkDimension DimensionTotal "".

(** What both mappings read from a row. *)
Definition map_amount (row : list string) : res (Money * Basis * Window) :=
  match ParseFloat (nth 3 row "") with
  | None => Err (ErrorString "invalid amount")
  | Some amount =>
      money ← NewMoney amount (nth 1 row "");
      let basis := nth 2 row "" in
      fail_if negb (Basis_Valid basis) with_ ErrorString "unsupported CUR cost basis" ;;
      let window := nth 0 row "" in
      fail_if negb (bool_decide (window = WindowMonthToDate)) && negb (bool_decide (window = WindowDaily))
        with_ ErrorString "unsupported CUR window" ;;
      Ok (money, basis, window)
  end.

Definition map_cost_row (target : TargetID) (reference : Time) (row : list string) : res Cost :=
  fail_if negb (bool_decide (length row = length costColumns)) with_ ErrorString "athena cost row has unexpected column count" ;;
  '(money, basis, window) ← map_amount row;
  let period := if bool_decide (window = WindowMonthToDate) then MonthContaining reference
                else DayContaining reference in
  Ok (mkCost target ProviderCURAthena basis window period total_dimension money).

Definition map_tag_row (target : TargetID) (row : list string) : res TagCost :=
  fail_if negb (bool_decide (length row = length tagColumns)) with_ ErrorString "athena tag row has unexpected column count" ;;
  '(money, basis, window) ← map_amount row;
  Ok (mkTagCost target ProviderCURAthena basis window (nth 4 row "") (nth 5 row "") money).

Fixpoint map_rows {A} (f : list string -> res A) (rows : list (list string)) : res (list A) :=
  match rows with
  | [] => Ok []
  | row :: rows => value ← f row; values ← map_rows f rows; Ok (value :: values)
  end.

Definition mapCosts (target : TargetID) (reference : Time) (rows : list (list string)) :
    res (list Cost) := map_rows (map_cost_row target reference) rows.
Definition mapTagCosts (target : TargetID) (reference : Time) (rows : list (list string)) :
    res (list TagCost) := map_rows (map_tag_row target) rows.

(** ** The reader (reader.go) *)

(** [errors.As] with a [*common.ClassifiedError] target. *)
Fixpoint As_classified (e : error) : bool :=
  match e with
  | Classified _ _ _ => true
  | Wrapped _ c | UnavailableSource c => As_classified c
  | _ => false
  end.

(** The clock, [queryCtx.Err()] for the deadline of a query, and the select between the end of the
    query's context and the poll timer: the error of the context when it ends first. *)
Class AthenaWorld (W : Type) := {
  now : W -> Time;
  query_Err : Time -> W -> option error * W;
  poll_wait : Time -> Duration -> W -> option error * W
}.

Section Reader.
Context {W : Type} `{World W, AthenaWorld W}.

Record AthenaAPI := mkAthenaAPI {
  StartQueryExecution : CallContext -> StartQueryExecutionInput -> io W (option StartQueryExecutionOutput);
  GetQueryExecution : CallContext -> string -> io W (option GetQueryExecutionOutput);
  GetQueryResults : CallContext -> string -> option string -> io W (option GetQueryResultsOutput);
  StopQueryExecution : CallContext -> string -> io W unit
}.

Record Reader := mkReader {
  ath_target : TargetID; ath_api : AthenaAPI; ath_config : TargetCURConfig;
  ath_maxPages : Z; ath_maxRows : Z
}.

Definition athena_NewReader (target : TargetID) (api : option AthenaAPI) (value : TargetCURConfig)
    (maxPages maxRows : Z) : res Reader :=
  match api with
  | None => Err (ErrorString "athena API must not be nil")
  | Some api =>
      fail_if (maxPages <=? 0)%Z || (maxRows <=? 0)%Z with_ ErrorString "athena bounds must be positive" ;;
      fail_if (cur_QueryTimeout value <=? 0)%Z || (cur_PollInterval value <=? 0)%Z || (cur_QueryTimeout value <=? cur_PollInterval value)%Z with_ ErrorString "athena query timing must be positive and poll interval must be less than timeout" ;;
      Ok (mkReader target api value maxPages maxRows)
  end.

(** The stop request: its own error is observed and dropped, the cause is what is returned. *)
Definition stopPendingQuery {A} (reader : Reader) (id : string) (cause : error) : io W A := fun w =>
  let deadline := (now w + 5 * Second)%Z in
  let '(_, w) := ObserveCall (ath_target reader) "StopQueryExecution"
                   (StopQueryExecution (ath_api reader) (stop_ctx deadline) id) w in
  (Err (if As_classified cause then cause else ClassifyError cause), w).

Definition result_pages (reader : Reader) (deadline : Time) (id : string) (expected : list string) :
    PagedCall W GetQueryResultsOutput :=
  mkPagedCall (GetQueryResults (ath_api reader) (query_ctx deadline) id) (ath_target reader)
    "GetQueryResults" rs_NextToken false true (ErrorString "athena result page limit exceeded")
    (ErrorString "athena query returned no result set")
    (ErrorString "athena result repeated pagination token") (check_page expected).

Definition results (reader : Reader) (deadline : Time) (id : string) (expected : list string) :
    io W (list (list string)) :=
  read_paged (result_pages reader deadline id expected) (add_page expected (ath_maxRows reader))
    (Z.to_nat (ath_maxPages reader)) true None ∅ [].

Definition execution_status (output : option GetQueryExecutionOutput) : option string :=
  output ← output; execution ← QueryExecution output; exec_Status execution.

(** The polling loop, at most [fuel] times round; [None] is a loop that has not ended. *)
Fixpoint poll (fuel : nat) (reader : Reader) (deadline : Time) (id : string) (expected : list string)
    (w : W) : option (res (list (list string)) * W) :=
  match fuel with
  | O => None
  | S fuel =>
      match query_Err deadline w with
      | (Some err, w) => Some (stopPendingQuery reader id err w)
      | (None, w) =>
          let '(status, w) := ObserveCall (ath_target reader) "GetQueryExecution"
                                (GetQueryExecution (ath_api reader) (query_ctx deadline) id) w in
          match status with
          | Err callErr =>
              match query_Err deadline w with
              | (Some err, w) => Some (stopPendingQuery reader id err w)
              | (None, w) => Some (stopPendingQuery reader id (ClassifyError callErr) w)
              end
          | Ok output =>
              match mapQueryState <$> execution_status output with
              | None => Some (stopPendingQuery reader id (ErrorString "athena query returned no status") w)
              | Some QuerySucceeded => Some (results reader deadline id expected w)
              | Some (QueryFailed as state) | Some (QueryCancelled as state) =>
                  Some (Err (ErrorString ("athena query did not succeed: " +++ QueryState_string state)), w)
              | Some QueryUnknown =>
                  Some (stopPendingQuery reader id (ErrorString "athena query returned an unsupported state") w)
              | Some QueryQueued | Some QueryRunning =>
                  match poll_wait deadline (cur_PollInterval (ath_config reader)) w with
                  | (Some err, w) => Some (stopPendingQuery reader id err w)
                  | (None, w) => poll fuel reader deadline id expected w
                  end
              end
          end
      end
  end.

Definition start_input (reader : Reader) (query : string) : StartQueryExecutionInput :=
  mkStartInput query (cur_Workgroup (ath_config reader)) (cur_Database (ath_config reader))
    (cur_OutputLocation (ath_config reader)).

Definition query (fuel : nat) (reader : Reader) (reference : Time) (bases : list Basis) (tags : bool)
    (w : W) : option (res (list (list string)) * W) :=
  let text := buildQuery (ath_config reader) reference bases tags in
  if bool_decide (text = "")
  then Some (Err (ErrorString "athena query has no supported cost basis"), w) else
  let deadline := (now w + cur_QueryTimeout (ath_config reader))%Z in
  let expected := if tags then tagColumns else costColumns in
  let '(start, w) := aws_call (ath_target reader) "StartQueryExecution"
    (StartQueryExecution (ath_api reader) (query_ctx deadline) (start_input reader text)) w in
  match start with
  | Err err => Some (Err err, w)
  | Ok start =>
      let id := ToString (start ← start; QueryExecutionId start) in
      if bool_decide (id = "") then Some (Err (ErrorString "athena query returned no execution id"), w)
      else poll fuel reader deadline id expected w
  end.

(** The two methods of the port.  A run that exhausts its fuel has no answer. *)
Definition reader_QueryCosts (fuel : nat) (reader : Reader) (reference : Time) (bases : list Basis)
    (w : W) : option (res (list Cost) * W) :=
  '(rows, w) ← query fuel reader reference bases false w;
  Some (rows ≫= mapCosts (ath_target reader) reference, w).

Definition reader_QueryTagCosts (fuel : nat) (reader : Reader) (reference : Time) (bases : list Basis)
    (w : W) : option (res (list TagCost) * W) :=
  '(rows, w) ← query fuel reader reference bases true w;
  Some (rows ≫= mapTagCosts (ath_target reader) reference, w).
End Reader.
Arguments AthenaAPI W : clear implicits.
Arguments Reader W : clear implicits.

(** ** Rows read and mapped *)

Lemma decodeRow_ok row n values :
  decodeRow row n = Ok values <-> length row = n /\ values = map ToString row.
Proof. unfold decodeRow. rewrite guard_ok, negb_false_iff, bool_decide_eq_true. naive_solver. Qed.

Lemma add_rows_ok expected maxRows pageRows rows r :
  add_rows expected maxRows pageRows rows = Ok r ->
  r = rows ++ map (map ToString) pageRows /\
  Forall (fun row => length row = length expected /\ map ToString row <> expected) pageRows /\
  (pageRows <> [] -> Z.of_nat (length r) <= maxRows)%Z.
Proof.
  revert rows. induction pageRows as [|row pageRows IH]; intros rows; simpl.
  - intros [= <-]. rewrite app_nil_r. done.
  - intros (values & [Hlen ->]%decodeRow_ok & H)%bind_ok. rewrite !guard_ok in H.
    destruct H as (Hne & Hmax & H). unfold equalColumns in Hne. apply bool_decide_eq_false in Hne.
    apply Z.ltb_ge in Hmax.
    apply IH in H as (-> & Hall & Hr). rewrite <- app_assoc. split; [done|].
    split; [by constructor|]. intros _. destruct pageRows as [|row' pageRows].
    + rewrite app_nil_r. exact Hmax.
    + rewrite <- app_assoc in Hr. by apply Hr.
Qed.

Definition header_ok (expected : list string) (output : GetQueryResultsOutput) : Prop :=
  exists header, head (page_rows output) = Some header /\ map ToString header = expected.

(** The data rows of a chain of pages: the header row of the first page aside. *)
Definition data_rows (pages : list GetQueryResultsOutput) : list Row :=
  match pages with
  | [] => []
  | first :: pages => tail (page_rows first) ++ flat_map page_rows pages
  end.

Lemma fold_rows_ok expected maxRows pages rows r :
  fold_pages (add_page expected maxRows) false pages rows = Ok r ->
  r = rows ++ map (map ToString) (flat_map page_rows pages) /\
  Forall (fun row => length row = length expected /\ map ToString row <> expected) (flat_map page_rows pages) /\
  (flat_map page_rows pages <> [] -> Z.of_nat (length r) <= maxRows)%Z.
Proof.
  revert rows. induction pages as [|page pages IH]; intros rows; cbn [fold_pages flat_map].
  - intros [= <-]. rewrite app_nil_r. done.
  - intros (mid & Hmid & H)%bind_ok. unfold add_page in Hmid.
    apply add_rows_ok in Hmid as (-> & Hall & Hmax). apply IH in H as (-> & Hall' & Hmax').
    rewrite map_app, app_assoc. split; [done|]. split; [by apply Forall_app|].
    intros Hne. destruct (flat_map page_rows pages) as [|row rest].
    + rewrite !app_nil_r in *. by apply Hmax.
    + by apply Hmax'.
Qed.

(** Every data row of a complete read, in order, with the header of the first page checked. *)
Lemma read_rows_ok expected maxRows pages r :
  pages <> [] -> fold_pages (add_page expected maxRows) true pages [] = Ok r ->
  (exists first rest, pages = first :: rest /\ header_ok expected first) /\
  r = map (map ToString) (data_rows pages) /\
  Forall (fun row => length row = length expected /\ row <> expected) r /\
  (r <> [] -> Z.of_nat (length r) <= maxRows)%Z.
Proof.
  destruct pages as [|first pages]; [done|]. intros _. cbn [fold_pages data_rows].
  intros (mid & Hmid & H)%bind_ok. unfold add_page in Hmid.
  unfold header_ok. destruct (page_rows first) as [|header rows] eqn:Hrows; [done|]. cbn [tail head].
  destruct (decodeRow header (length expected)) as [values|] eqn:Hd; [|done].
  apply decodeRow_ok in Hd as [Hlen ->]. apply guard_ok in Hmid as [Heq Hmid].
  unfold equalColumns in Heq. apply negb_false_iff, bool_decide_eq_true in Heq.
  apply add_rows_ok in Hmid as (-> & Hall & Hmax). apply fold_rows_ok in H as (-> & Hall' & Hmax').
  rewrite app_nil_l, <- map_app in *. split.
  { exists first, pages. split; [done|]. exists header. by rewrite Hrows. }
  split; [done|]. split.
  - apply Forall_map. rewrite Forall_app. split; (eapply Forall_impl; [eassumption|]);
      intros row [Hl Hne]; (split; [by rewrite length_map|done]).
  - intros Hne. destruct (flat_map page_rows pages) as [|row rest].
    + rewrite app_nil_r in *. destruct rows; [done|]. by apply Hmax.
    + by apply Hmax'.
Qed.

Lemma map_rows_ok {A} (f : list string -> res A) rows values :
  map_rows f rows = Ok values <-> Forall2 (fun row value => f row = Ok value) rows values.
Proof.
  revert values. induction rows as [|row rows IH]; intros values; simpl.
  - split; [by intros [= <-]|by intros ->%Forall2_nil_inv_l].
  - rewrite bind_ok. split.
    + intros (value & Hv & (rest & Hrest & [= <-])%bind_ok). constructor; [done|by apply IH].
    + intros (value & rest & Hv & Hrest & ->)%Forall2_cons_inv_l. exists value. split; [done|].
      apply IH in Hrest. by rewrite Hrest.
Qed.

Lemma map_amount_ok row money basis window :
  map_amount row = Ok (money, basis, window) ->
  basis = nth 2 row "" /\ window = nth 0 row "" /\ Basis_Valid basis = true /\
  window_known window /\ Money_wf money /\ currency money = TrimSpace (nth 1 row "") /\
  ParseFloat (nth 3 row "") = Some (amount money).
Proof.
  unfold map_amount, window_known. destruct (ParseFloat (nth 3 row "")) as [a|]; [|done].
  intros (m & Hm & H)%bind_ok. rewrite !guard_ok in H. destruct H as (Hb & Hw & [= <- <- <-]).
  split; [done|]. split; [done|]. split; [by apply negb_false_iff in Hb|].
  split.
  { apply andb_false_iff in Hw as [Hw|Hw]; apply negb_false_iff, bool_decide_eq_true in Hw; auto. }
  split; [by apply NewMoney_wf in Hm|].
  unfold NewMoney in Hm. inv_ok. done.
Qed.

(** ** Every started query is settled

    The same reader over a client that writes its calls down: the world gains a log, and each
    call is made in the world underneath. *)

Inductive athena_call :=
| CallStart (id : string)
| CallStatus (id : string) (status : option string)
| CallResults (id : string)
| CallStop (id : string).

Section Logged.
Context {W : Type} `{World W, AthenaWorld W}.

Definition below {A} (m : io W A) : io (W * list athena_call) A :=
  fun w => let '(r, w1) := m w.1 in (r, (w1, w.2)).

Definition logging {A} (event : res A -> athena_call) (m : io W A) : io (W * list athena_call) A :=
  fun w => let '(r, w1) := m w.1 in (r, (w1, w.2 ++ [event r])).

#[export] Instance logged_world : World (W * list athena_call) := {
  ctx_Err w := let '(e, w1) := ctx_Err w.1 in (e, (w1, w.2));
  observe_overflow d n w := (observe_overflow d n w.1, w.2);
  observe_page t o w := (observe_page t o w.1, w.2);
  observe_request t o s w := (observe_request t o s w.1, w.2)
}.

#[export] Instance logged_athena : AthenaWorld (W * list athena_call) := {
  now w := now w.1;
  query_Err d w := let '(e, w1) := query_Err d w.1 in (e, (w1, w.2));
  poll_wait d p w := let '(e, w1) := poll_wait d p w.1 in (e, (w1, w.2))
}.

Definition start_id (r : res (option StartQueryExecutionOutput)) : string :=
  match r with
  | Ok start => ToString (start ← start; QueryExecutionId start)
  | Err _ => ""
  end.

Definition status_of (r : res (option GetQueryExecutionOutput)) : option string :=
  match r with Ok output => execution_status output | Err _ => None end.

Definition logged (api : AthenaAPI W) : AthenaAPI (W * list athena_call) := {|
  StartQueryExecution c i := logging (fun r => CallStart (start_id r)) (StartQueryExecution api c i);
  GetQueryExecution c id := logging (fun r => CallStatus id (status_of r)) (GetQueryExecution api c id);
  GetQueryResults c id t := logging (fun _ => CallResults id) (GetQueryResults api c id t);
  StopQueryExecution c id := logging (fun _ => CallStop id) (StopQueryExecution api c id)
|}.

Definition logged_reader (reader : Reader W) : Reader (W * list athena_call) :=
  mkReader (ath_target reader) (logged (ath_api reader)) (ath_config reader) (ath_maxPages reader)
    (ath_maxRows reader).

(** A state the service will leave by itself, and one it will not. *)
Definition pending (status : option string) : Prop :=
  mapQueryState <$> status = Some QueryQueued \/ mapQueryState <$> status = Some QueryRunning.
Definition ended (status : option string) : Prop :=
  mapQueryState <$> status = Some QueryFailed \/ mapQueryState <$> status = Some QueryCancelled.

(** How a started query ends: its results are read, it ended by itself, or it is stopped, after a
    last status call or without one. *)
Inductive settled {A} (id : string) (maxPages : nat) : list athena_call -> res A -> Prop :=
| settled_read r n status :
    mapQueryState <$> status = Some QuerySucceeded -> n <= maxPages ->
    settled id maxPages (CallStatus id status :: repeat (CallResults id) n) r
| settled_ended e status : ended status -> settled id maxPages [CallStatus id status] (Err e)
| settled_stopped e : settled id maxPages [CallStop id] (Err e)
| settled_stopped_after e status :
    ~ ended status -> mapQueryState <$> status <> Some QuerySucceeded ->
    settled id maxPages [CallStatus id status; CallStop id] (Err e)
| settled_polled status trace r :
    pending status -> settled id maxPages trace r ->
    settled id maxPages (CallStatus id status :: trace) r.

(** The whole exchange of one query with the service. *)
Inductive exchange {A} (maxPages : nat) : list athena_call -> res A -> Prop :=
| exchange_none e : exchange maxPages [] (Err e)
| exchange_refused e : exchange maxPages [CallStart ""] (Err e)
| exchange_settled id trace r :
    id <> "" -> settled id maxPages trace r -> exchange maxPages (CallStart id :: trace) r.

Lemma ObserveCall_logged {A} target operation event (m : io W A) w r w1 :
  ObserveCall target operation (logging event m) w = (r, w1) ->
  w1.2 = w.2 ++ [event r] /\ exists u, m w.1 = (r, u).
Proof.
  unfold ObserveCall, logging. destruct (m w.1) as [r' u] eqn:Hm. intros [= <- <-]. simpl. eauto.
Qed.

Lemma stop_logged {A} reader id cause w (r : res A) w1 :
  stopPendingQuery (logged_reader reader) id cause w = (r, w1) ->
  w1.2 = w.2 ++ [CallStop id] /\ exists e, r = Err e.
Proof.
  unfold stopPendingQuery. destruct (ObserveCall _ _ _ _) as [s u] eqn:Ho.
  cbn [logged_reader ath_api logged StopQueryExecution] in Ho. apply ObserveCall_logged in Ho as [Hl _].
  intros [= <- <-]. eauto.
Qed.

Lemma results_logged reader deadline id expected w r w1 :
  results (logged_reader reader) deadline id expected w = (r, w1) ->
  exists n, n <= Z.to_nat (ath_maxPages reader) /\ w1.2 = w.2 ++ repeat (CallResults id) n.
Proof.
  unfold results. cbn [logged_reader ath_maxPages ath_maxRows].
  generalize true (None : option string) (∅ : gset string) ([] : list (list string)).
  generalize (Z.to_nat (ath_maxPages reader)) as remaining.
  intros remaining. revert w. induction remaining as [|remaining IH]; intros w first token seen rows; cbn [read_paged].
  - intros [= <- <-]. exists 0. split; [lia|]. simpl. by rewrite app_nil_r.
  - cbn [result_pages pc_check pc_unique pc_target pc_operation pc_call pc_valid pc_next pc_limit pc_nil pc_duplicate].
    unfold mbind at 1, io_bind at 1, mret at 1, io_ret at 1.
    unfold mbind at 1, io_bind at 1, aws_call at 1, io_map_err at 1.
    destruct (ObserveCall _ _ _ w) as [out u] eqn:Ho.
    cbn [logged_reader ath_api logged GetQueryResults] in Ho. apply ObserveCall_logged in Ho as [Hl _].
    assert (Hone : exists n, n <= S remaining /\ u.2 = w.2 ++ repeat (CallResults id) n)
      by (exists 1; split; [lia|done]).
    destruct out as [[page|]|e]; cbn [map_err]; [|by intros [= <- <-]|by intros [= <- <-]].
    unfold mbind at 1, io_bind at 1, lift at 1.
    destruct (check_page expected page) as [[]|e]; [|by intros [= <- <-]].
    unfold mbind at 1, io_bind at 1, observe_pagination at 1.
    unfold mbind at 1, io_bind at 1, lift at 1.
    destruct (add_page expected (ath_maxRows reader) first page rows) as [rows'|e];
      [|intros [= <- <-]; exact Hone].
    case_bool_decide as Htok; [intros [= <- <-]; exact Hone|].
    cbn [andb]. case_bool_decide as Hseen; [intros [= <- <-]; exact Hone|].
    intros (n & Hn & Hl')%IH. exists (S n). split; [lia|]. rewrite Hl'. cbn [snd observe_page logged_world].
    rewrite Hl. by rewrite <- app_assoc.
Qed.

Lemma pending_iff status : pending status <-> match mapQueryState <$> status with
  | Some QueryQueued | Some QueryRunning => True | _ => False end.
Proof. unfold pending. destruct (mapQueryState <$> status) as [[]|]; naive_solver. Qed.

Lemma ended_iff status : ended status <-> match mapQueryState <$> status with
  | Some QueryFailed | Some QueryCancelled => True | _ => False end.
Proof. unfold ended. destruct (mapQueryState <$> status) as [[]|]; naive_solver. Qed.

Lemma poll_logged fuel reader deadline id expected w r w1 :
  poll fuel (logged_reader reader) deadline id expected w = Some (r, w1) ->
  exists trace, w1.2 = w.2 ++ trace /\ settled id (Z.to_nat (ath_maxPages reader)) trace r.
Proof.
  revert w. induction fuel as [|fuel IH]; intros w; cbn [poll]; [done|].
  destruct (query_Err deadline w) as [[err|] w2] eqn:Herr;
    assert (Hw2 : w2.2 = w.2) by (simpl in Herr; destruct (query_Err deadline w.1); by injection Herr as _ <-).
  { intros [= Hs]. apply stop_logged in Hs as [Hl [e ->]]. rewrite Hw2 in Hl.
    exists [CallStop id]. split; [done|constructor]. }
  destruct (ObserveCall _ _ _ w2) as [status w3] eqn:Ho.
  cbn [logged_reader ath_api logged GetQueryExecution] in Ho.
  apply ObserveCall_logged in Ho as [Hl3 _]. rewrite Hw2 in Hl3.
  assert (Hstop : forall cause w4, w4.2 = w3.2 -> ~ ended (status_of status) ->
    mapQueryState <$> status_of status <> Some QuerySucceeded ->
    Some (stopPendingQuery (logged_reader reader) id cause w4) = Some (r, w1) ->
    exists trace, w1.2 = w.2 ++ trace /\ settled id (Z.to_nat (ath_maxPages reader)) trace r).
  { intros cause w4 Hw4 He Hs [= Hr]. apply stop_logged in Hr as [Hl [e ->]].
    rewrite Hw4, Hl3, <- app_assoc in Hl. exists [CallStatus id (status_of status); CallStop id].
    split; [done|]. by apply settled_stopped_after. }
  destruct status as [output|callErr]; cbn [status_of] in *.
  - destruct (mapQueryState <$> execution_status output) as [state|] eqn:Hstate.
    + assert (Hended : ended (execution_status output) <-> state = QueryFailed \/ state = QueryCancelled)
        by (unfold ended; rewrite Hstate; naive_solver).
      destruct state.
      1,2: destruct (poll_wait deadline _ w3) as [[err|] w4] eqn:Hwait;
        assert (Hw4 : w4.2 = w3.2) by (simpl in Hwait; destruct (poll_wait deadline _ w3.1); by injection Hwait as _ <-);
        [apply Hstop; [done|by rewrite Hended; intros [|]|by intros [=]]|];
        intros (trace & Hl & Hset)%IH; exists (CallStatus id (execution_status output) :: trace);
        (split; [by rewrite Hl, Hw4, Hl3, <- app_assoc|]);
        apply settled_polled; [rewrite pending_iff, Hstate; done|done].
      * intros [= Hr]. apply results_logged in Hr as (n & Hn & Hl).
        exists (CallStatus id (execution_status output) :: repeat (CallResults id) n).
        split; [by rewrite Hl, Hl3, <- app_assoc|]. by constructor.
      * intros [= <- <-]. exists [CallStatus id (execution_status output)]. split; [done|].
        apply settled_ended. apply Hended. by left.
      * intros [= <- <-]. exists [CallStatus id (execution_status output)]. split; [done|].
        apply settled_ended. apply Hended. by right.
      * apply Hstop; [done|by rewrite Hended; intros [|]|by intros [=]].
    + apply Hstop; [done|rewrite ended_iff, Hstate; by intros []|done].
  - assert (Hno : ~ ended None) by (rewrite ended_iff; by intros []).
    destruct (query_Err deadline w3) as [[err|] w4] eqn:Herr3;
      assert (Hw4 : w4.2 = w3.2) by (simpl in Herr3; destruct (query_Err deadline w3.1); by injection Herr3 as _ <-);
      by apply Hstop.
Qed.

(** C6: a query the service has accepted is never abandoned: whatever the service answers and
    whenever the deadline passes, the exchange with the service is one start, status calls while
    the query is pending, and then one of: the query succeeded and at most [maxPages] result
    calls follow; it failed or was cancelled by the service; or exactly one stop request for its
    id, after which nothing is sent.  A refused start sends nothing else, and an error is
    returned in every case but the first. *)
Theorem query_settled fuel (reader : Reader W) reference bases tags w r w1 :
  query fuel (logged_reader reader) reference bases tags (w, []) = Some (r, w1) ->
  exchange (Z.to_nat (ath_maxPages reader)) w1.2 r.
Proof.
  unfold query. cbv zeta. case_bool_decide; [intros [= <- <-]; constructor|].
  unfold aws_call, io_map_err. destruct (ObserveCall _ _ _ _) as [start u] eqn:Ho.
  cbn [logged_reader ath_api logged StartQueryExecution] in Ho.
  apply ObserveCall_logged in Ho as [Hl _]. cbn [snd app] in Hl.
  destruct start as [start|e]; cbn [map_err start_id] in *.
  - case_bool_decide as Hid.
    + intros [= <- <-]. rewrite Hl, Hid. constructor.
    + intros (trace & Hl' & Hs)%poll_logged. rewrite Hl', Hl. by constructor.
  - intros [= <- <-]. rewrite Hl. constructor.
Qed.
End Logged.

(** ** A query ends *)

(** What the code relies on of the clock: no call moves it back, a context is not found alive
    longer than [slack] after its deadline, and the poll timer does not fire early. *)
Class AthenaTime (W : Type) `{World W, AthenaWorld W} (slack : Z) : Prop := {
  slack_pos : (0 <= slack)%Z;
  request_forward t o s w : (now w <= now (observe_request t o s w))%Z;
  err_forward d w e w1 : query_Err d w = (e, w1) -> (now w <= now w1)%Z;
  err_deadline d w w1 : query_Err d w = (None, w1) -> (now w < d + slack)%Z;
  wait_period d p w w1 : poll_wait d p w = (None, w1) -> (now w + p <= now w1)%Z
}.

Section Termination.
Context {W : Type} `{World W, AthenaWorld W} (slack : Z) `{!AthenaTime W slack}.

Definition status_forward (reader : Reader W) : Prop := forall c id w,
  (now w <= now (GetQueryExecution (ath_api reader) c id w).2)%Z.
Definition start_forward (reader : Reader W) : Prop := forall c i w,
  (now w <= now (StartQueryExecution (ath_api reader) c i w).2)%Z.

Lemma ObserveCall_forward {A} target operation (m : io W A) w r w1 :
  (now w <= now (m w).2)%Z -> ObserveCall target operation m w = (r, w1) -> (now w <= now w1)%Z.
Proof.
  unfold ObserveCall. destruct (m w) as [r' u]. simpl. intros Hm [= <- <-].
  pose proof (request_forward target operation
    (RequestStatus match r' with Ok _ => None | Err e => Some e end) u). lia.
Qed.

Lemma poll_ends fuel reader deadline id expected w :
  status_forward reader -> (0 < cur_PollInterval (ath_config reader))%Z ->
  (deadline + slack <= now w + Z.of_nat fuel * cur_PollInterval (ath_config reader))%Z ->
  exists r, poll (S fuel) reader deadline id expected w = Some r.
Proof.
  intros Hapi Hpos. revert w. induction fuel as [|fuel IH]; intros w Htime; cbn [poll];
    destruct (query_Err deadline w) as [[err|] w2] eqn:Herr; eauto;
    pose proof (err_deadline _ _ _ Herr) as Hd; pose proof (err_forward _ _ _ _ Herr) as Hf; [lia|].
  destruct (ObserveCall _ _ _ w2) as [status w3] eqn:Ho.
  apply ObserveCall_forward in Ho; [|apply Hapi].
  destruct status as [output|e]; [|destruct (query_Err deadline w3) as [[?|] ?]; eauto].
  destruct (mapQueryState <$> execution_status output) as [[]|]; eauto;
    destruct (poll_wait _ _ w3) as [[?|] w4] eqn:Hwait; eauto;
    apply wait_period in Hwait; apply IH; lia.
Qed.

(** Turns enough for a query of a reader under a clock with [slack]. *)
Definition enough_turns (reader : Reader W) : nat :=
  S (S (Z.to_nat ((cur_QueryTimeout (ath_config reader) + slack) /
                  cur_PollInterval (ath_config reader)))).

(** C32: a query ends: the polling loop takes at most two turns more than the poll interval fits
    into the query timeout (and the delay with which a passed deadline is seen), whatever the
    service answers: one turn before the first wait, and one that finds the deadline passed. *)
Theorem query_ends fuel reader reference bases tags w :
  status_forward reader -> start_forward reader -> (0 < cur_PollInterval (ath_config reader))%Z ->
  enough_turns reader <= fuel ->
  exists r, query fuel reader reference bases tags w = Some r.
Proof.
  intros Hstatus Hstart Hpos Hfuel. destruct fuel as [|fuel]; [unfold enough_turns in Hfuel; lia|].
  assert (Htime : (cur_QueryTimeout (ath_config reader) + slack <=
                   Z.of_nat fuel * cur_PollInterval (ath_config reader))%Z).
  { unfold enough_turns in Hfuel. revert Hfuel.
    set (t := (cur_QueryTimeout (ath_config reader) + slack)%Z).
    set (p := cur_PollInterval (ath_config reader)) in *. intros Hfuel.
    pose proof (Z.mul_succ_div_gt t p Hpos).
    assert (Hz : (t / p < Z.of_nat fuel)%Z) by lia. nia. }
  unfold query. cbv zeta. case_bool_decide; [eauto|].
  unfold aws_call, io_map_err. destruct (ObserveCall _ _ _ w) as [start u] eqn:Ho.
  apply ObserveCall_forward in Ho; [|apply Hstart].
  destruct start as [start|e]; cbn [map_err]; [|eauto]. case_bool_decide; [eauto|].
  apply poll_ends; [done|done|lia].
Qed.
End Termination.

(** ** What a read gives the collector *)

Section Rows.
Context {W : Type} `{World W, AthenaWorld W}.

Lemma poll_rows fuel reader deadline id expected w rows w1 :
  poll fuel reader deadline id expected w = Some (Ok rows, w1) ->
  exists w0, results reader deadline id expected w0 = (Ok rows, w1).
Proof.
  revert w. induction fuel as [|fuel IH]; intros w; cbn [poll]; [done|].
  assert (Hstop : forall cause w0, Some (stopPendingQuery reader id cause w0) <> Some (Ok rows, w1)).
  { intros cause w0. unfold stopPendingQuery. by destruct (ObserveCall _ _ _ _). }
  destruct (query_Err deadline w) as [[err|] w2]; [by intros ?%Hstop|].
  destruct (ObserveCall _ _ _ w2) as [[output|e] w3];
    [|destruct (query_Err deadline w3) as [[?|] ?]; by intros ?%Hstop].
  destruct (mapQueryState <$> execution_status output) as [[]|];
    try (by intros ?%Hstop); try done.
  1,2: destruct (poll_wait _ _ w3) as [[?|] w4]; [by intros ?%Hstop|apply IH].
  intros [= Hr]. eauto.
Qed.

Lemma query_rows fuel reader reference bases tags w rows w1 :
  query fuel reader reference bases tags w = Some (Ok rows, w1) ->
  exists deadline id w0,
    results reader deadline id (if tags then tagColumns else costColumns) w0 = (Ok rows, w1).
Proof.
  unfold query. cbv zeta. case_bool_decide; [done|].
  destruct (aws_call _ _ _ w) as [[start|e] u]; [|done]. case_bool_decide; [done|].
  intros (w0 & Hr)%poll_rows. eauto.
Qed.

(** The result pages of one query: what the service answered, in order. *)
Definition result_chain (reader : Reader W) (deadline : Time) (id : string) (expected : list string)
    (pages : list GetQueryResultsOutput) : Prop :=
  paged_chain (result_pages reader deadline id expected) None pages /\
  (Z.of_nat (length pages) <= ath_maxPages reader)%Z /\
  NoDup (paged_tokens (result_pages reader deadline id expected) pages) /\
  (exists first rest, pages = first :: rest /\ header_ok expected first) /\
  Forall (fun page => check_page expected page = Ok tt) pages.

Lemma results_ok reader deadline id expected w rows w1 :
  results reader deadline id expected w = (Ok rows, w1) ->
  exists pages, result_chain reader deadline id expected pages /\
    rows = map (map ToString) (data_rows pages) /\
    Forall (fun row => length row = length expected /\ row <> expected) rows /\
    (rows <> [] -> Z.of_nat (length rows) <= ath_maxRows reader)%Z.
Proof.
  unfold results. intros (pages & Hchain & Hf & Hlen & Hu & Hv)%read_paged_ok.
  assert (Hne : pages <> []) by (by destruct Hchain).
  apply read_rows_ok in Hf as (Hh & -> & Hrows & Hmax); [|done].
  exists pages. destruct (Hu eq_refl) as [Hnd _].
  destruct (Z_le_gt_dec 0 (ath_maxPages reader)) as [Hp|Hp].
  - split; [|done]. split; [done|]. split; [lia|]. done.
  - destruct pages; [done|]. simpl in Hlen. lia.
Qed.

(** What a row says, and the cost made of it. *)
Definition row_cost (target : TargetID) (reference : Time) (row : list string) (c : Cost) : Prop :=
  CostTarget c = target /\ CostProvider c = ProviderCURAthena /\
  CostWindow c = nth 0 row "" /\ currency (CostAmount c) = TrimSpace (nth 1 row "") /\
  CostBasis c = nth 2 row "" /\ ParseFloat (nth 3 row "") = Some (amount (CostAmount c)) /\
  CostDimension c = total_dimension /\ cost_publishable target c /\ Money_wf (CostAmount c) /\
  CostPeriod c = (if bool_decide (CostWindow c = WindowMonthToDate) then MonthContaining reference
                  else DayContaining reference).

Definition row_tag (target : TargetID) (row : list string) (t : TagCost) : Prop :=
  TagTarget t = target /\ TagProvider t = ProviderCURAthena /\
  TagWindow t = nth 0 row "" /\ currency (TagAmount t) = TrimSpace (nth 1 row "") /\
  TagBasis t = nth 2 row "" /\ ParseFloat (nth 3 row "") = Some (amount (TagAmount t)) /\
  TagKey t = nth 4 row "" /\ TagValue t = nth 5 row "" /\ tag_publishable target t /\
  Money_wf (TagAmount t).

Lemma map_cost_row_ok target reference row c :
  map_cost_row target reference row = Ok c -> row_cost target reference row c.
Proof.
  unfold map_cost_row. rewrite guard_ok. intros (_ & ([[money basis] window] & Ha & [= <-])%bind_ok).
  apply map_amount_ok in Ha as (-> & -> & Hb & Hw & Hwf & Hc & Ha).
  unfold row_cost, cost_publishable. simpl. unfold identity_valid. rewrite Hb.
  repeat (split; [done|]). split; [|done]. split; [done|]. split; [done|]. split; [done|].
  split; [done|by left].
Qed.

Lemma map_tag_row_ok target row t : map_tag_row target row = Ok t -> row_tag target row t.
Proof.
  unfold map_tag_row. rewrite guard_ok. intros (_ & ([[money basis] window] & Ha & [= <-])%bind_ok).
  apply map_amount_ok in Ha as (-> & -> & Hb & Hw & Hwf & Hc & Ha).
  unfold row_tag, tag_publishable. simpl. unfold identity_valid. rewrite Hb. done.
Qed.

Lemma Forall2_row {A} (f : list string -> res A) (P : list string -> A -> Prop) rows values :
  (forall row value, f row = Ok value -> P row value) -> map_rows f rows = Ok values ->
  Forall2 P rows values.
Proof. intros HP Hm%map_rows_ok. eapply Forall2_impl; [exact Hm|]. exact HP. Qed.

Lemma reader_rows {A} fuel reader reference bases tags (f : list string -> res A)
    (P : list string -> A -> Prop) w values w1 :
  (forall row value, f row = Ok value -> P row value) ->
  ('(rows, w) ← query fuel reader reference bases tags w; Some (rows ≫= map_rows f, w)) =
    Some (Ok values, w1) ->
  let expected := if tags then tagColumns else costColumns in
  exists deadline id pages, result_chain reader deadline id expected pages /\
    Forall2 P (map (map ToString) (data_rows pages)) values /\
    (values <> [] -> Z.of_nat (length values) <= ath_maxRows reader)%Z.
Proof.
  intros HP Hq. destruct (query fuel reader reference bases tags w) as [[[rows|e] u]|] eqn:Hrun; [|done..].
  cbn [mbind option_bind result_bind] in Hq. injection Hq as Hm <-.
  apply query_rows in Hrun as (deadline & id & w0 & Hr).
  apply results_ok in Hr as (pages & Hchain & -> & _ & Hmax).
  apply (Forall2_row _ P) in Hm; [|done]. exists deadline, id, pages. split; [done|]. split; [done|].
  intros Hne. rewrite <- (Forall2_length _ _ _ Hm). apply Hmax. by destruct Hm.
Qed.

(** C33: the costs and the tag costs a query answers with are its complete result, in order: the
    pages the service returned, each with the expected columns and types, no page token twice
    and at most [maxPages]; the header row first and nowhere else; every data row mapped to one
    record that is publishable for the target, and at most [maxRows] of them. *)
Theorem QueryCosts_complete fuel reader reference bases w :
  (forall vs w1, reader_QueryCosts fuel reader reference bases w = Some (Ok vs, w1) ->
    exists deadline id pages, result_chain reader deadline id costColumns pages /\
      Forall2 (row_cost (ath_target reader) reference) (map (map ToString) (data_rows pages)) vs /\
      (vs <> [] -> Z.of_nat (length vs) <= ath_maxRows reader)%Z) /\
  (forall vs w1, reader_QueryTagCosts fuel reader reference bases w = Some (Ok vs, w1) ->
    exists deadline id pages, result_chain reader deadline id tagColumns pages /\
      Forall2 (row_tag (ath_target reader)) (map (map ToString) (data_rows pages)) vs /\
      (vs <> [] -> Z.of_nat (length vs) <= ath_maxRows reader)%Z).
Proof.
  split; intros vs w1.
  - apply (reader_rows _ _ _ _ false). intros. by apply map_cost_row_ok.
  - apply (reader_rows _ _ _ _ true). intros. by apply map_tag_row_ok.
Qed.

(** ** The port's reader *)

(** A run that ends is its answer; the other case does not arise with enough turns. *)
Definition run_to_end {A} (run : W -> option (res A * W)) : io W A := fun w =>
  match run w with Some answer => answer | None => (Err (ErrorString "unfinished"), w) end.

Definition athena_reader (slack : Z) (reader : Reader W) : CURReader W :=
  mkCURReader
    (fun reference bases => run_to_end (reader_QueryCosts (enough_turns slack reader) reader reference bases))
    (fun reference bases => run_to_end (reader_QueryTagCosts (enough_turns slack reader) reader reference bases)).

(** The reader keeps the laws the CUR collector relies on. *)
#[export] Instance athena_reader_laws slack reader :
  CURReaderLaws (ath_target reader) (athena_reader slack reader).
Proof.
  split; intros reference bases w vs w1 Hr; cbn [athena_reader QueryCosts QueryTagCosts] in Hr;
    unfold run_to_end in Hr.
  - destruct (reader_QueryCosts _ _ _ _ w) as [[r u]|] eqn:Hq; [|done]. injection Hr as -> ->.
    apply (reader_rows _ _ _ _ false _ (row_cost (ath_target reader) reference)) in Hq
      as (d & id & pages & _ & Hf & _); [|intros; by apply map_cost_row_ok].
    eapply Forall2_Forall_r; [exact Hf|]. apply Forall_forall.
    by intros row _ c (_ & _ & _ & _ & _ & _ & _ & Hp & _).
  - destruct (reader_QueryTagCosts _ _ _ _ w) as [[r u]|] eqn:Hq; [|done]. injection Hr as -> ->.
    apply (reader_rows _ _ _ _ true _ (row_tag (ath_target reader))) in Hq
      as (d & id & pages & _ & Hf & _); [|intros; by apply map_tag_row_ok].
    split; (eapply Forall2_Forall_r; [exact Hf|]; apply Forall_forall).
    + by intros row _ t (_ & _ & _ & _ & _ & _ & _ & _ & Hp & _).
    + by intros row _ t (_ & _ & _ & _ & _ & _ & _ & _ & _ & Hp).
Qed.
End Rows.

(** ** A concrete run *)

(** A service with a clock and a script of the states it will answer. *)
Definition sim : Type := Time * list string.

#[export] Instance sim_world : World sim := {
  ctx_Err w := (None, w); observe_overflow _ _ w := w; observe_page _ _ w := w;
  observe_request _ _ _ w := w
}.

#[export] Instance sim_athena : AthenaWorld sim := {
  now := fst;
  query_Err d w := (if (d <=? w.1)%Z then Some DeadlineExceeded else None, w);
  poll_wait d p w := if (d <=? w.1 + p)%Z then (Some DeadlineExceeded, (Z.max d w.1, w.2))
                     else (None, ((w.1 + p)%Z, w.2))
}.

#[export] Instance sim_time : AthenaTime sim 0.
Proof.
  split; try done.
  - intros d w e w1 Hq. simpl in Hq. by injection Hq as _ <-.
  - intros d w w1. simpl. destruct (Z.leb_spec d w.1); [done|lia].
  - intros d p w w1. simpl. destruct (Z.leb_spec d (w.1 + p)); [done|]. by intros [= <-].
Qed.

Definition varchar (name : string) : ColumnInfo := mkColumn (Some name) (Some "varchar").

Definition sim_page : GetQueryResultsOutput :=
  mkResults (Some (mkResultSet
    (Some [varchar "window"; varchar "currency"; varchar "cost_basis"; mkColumn (Some "amount") (Some "decimal")])
    [map Some costColumns;
     [Some "daily"; Some "USD"; Some "unblended"; Some "1.5"];
     [Some "month_to_date"; Some "USD"; Some "unblended"; Some "12"]])) None.

Definition sim_api : AthenaAPI sim := {|
  StartQueryExecution _ _ w := (Ok (Some (mkStartOutput (Some "q-1"))), w);
  GetQueryExecution _ _ w :=
    match w.2 with
    | state :: states => (Ok (Some (mkExecutionOutput (Some (mkExecution (Some state))))), (w.1, states))
    | [] => (Err (NetError true), w)
    end;
  GetQueryResults _ _ _ w := (Ok (Some sim_page), w);
  StopQueryExecution _ _ w := (Ok tt, w)
|}.

Definition sim_cur : TargetCURConfig :=
  mkTargetCUR true "eu-west-1" "billing" "cur" "primary" "s3://results/athena/" 30%Z 10%Z [].

Definition sim_reader : Reader sim := mkReader "prod" sim_api sim_cur 5%Z 100%Z.

Example sim_states :
  map (fun states =>
      match query 10 (logged_reader sim_reader) 0%Z [BasisUnblended] false ((0%Z, states), []) with
      | Some (r, w) => Some (is_ok r, w.2)
      | None => None
      end) [["QUEUED"; "SUCCEEDED"]; ["QUEUED"; "RUNNING"; "RUNNING"; "RUNNING"]; ["FAILED"]; ["?"]; []] =
  [Some (true, [CallStart "q-1"; CallStatus "q-1" (Some "QUEUED"); CallStatus "q-1" (Some "SUCCEEDED");
                CallResults "q-1"]);
   Some (false, [CallStart "q-1"; CallStatus "q-1" (Some "QUEUED"); CallStatus "q-1" (Some "RUNNING");
                 CallStatus "q-1" (Some "RUNNING"); CallStop "q-1"]);
   Some (false, [CallStart "q-1"; CallStatus "q-1" (Some "FAILED")]);
   Some (false, [CallStart "q-1"; CallStatus "q-1" (Some "?"); CallStop "q-1"]);
   Some (false, [CallStart "q-1"; CallStatus "q-1" None; CallStop "q-1"])].
Proof. vm_compute. reflexivity. Qed.

Lemma query_settled_witness :
  exchange 5 [CallStart "q-1"; CallStatus "q-1" None; CallStop "q-1"]
    (default (Ok []) (fst <$> query 10 (logged_reader sim_reader) 0%Z [BasisUnblended] false ((0%Z, []), []))).
Proof.
  destruct (query 10 (logged_reader sim_reader) 0%Z [BasisUnblended] false ((0%Z, []), [])) as [[r w]|] eqn:Hq.
  - pose proof (query_settled 10 sim_reader 0%Z [BasisUnblended] false (0%Z, []) r w Hq) as Hs.
    vm_compute in Hq. injection Hq as <- <-. exact Hs.
  - vm_compute in Hq. discriminate Hq.
Defined.

Lemma query_ends_witness :
  exists r, query 10 sim_reader 0%Z [BasisUnblended] false (0%Z, ["QUEUED"; "RUNNING"; "RUNNING"; "RUNNING"]) = Some r.
Proof.
  apply (query_ends 0 10 sim_reader).
  - intros c id [t l]. destruct l; simpl; lia.
  - intros c i w. simpl. lia.
  - reflexivity.
  - apply Nat.leb_le. vm_compute. reflexivity.
Defined.
