(* ===== verification/Scheduler.v ===== *)
(** * The scheduler (internal/scheduler)

    The runner's configuration checks and delays, and the retry loop of one refresh against an
    abstract environment.  The goroutines are in Dispatcher. *)

From S2P Require Import Prelude SliceStable GoStrings GoFloat FloatFacts GoTime Errors Effects Domain.
From S2P Require Import Snapshot Ports PromClient Metrics Cardinality Collectors.
Local Open Scope string_scope.
Local Open Scope list_scope.

Record BackoffConfig := mkBackoff {
  MaxAttempts : Z; Initial : Duration; Max : Duration; Multiplier : float64
}.

(** [Observer] and [Logger] say whether the interface value is present; what they do with an
    event is part of the environment of a refresh. *)
Record Config := mkConfig {
  cfg_Interval : Duration;
  cfg_StartupRefresh : bool;
  JitterRatio : float64;
  MaxConcurrency : Z;
  Backoff : BackoffConfig;
  Observer : bool;
  Logger : bool
}.

(** A job: the identity of its collector ([None]: a nil collector), interval, startup flag. *)
Record Job := mkJob {
  job_Collector : option CollectorID;
  job_Interval : Duration;
  StartupRefresh : bool
}.

Definition ErrInvalidConfig_scheduler : error := Sentinel "invalid scheduler configuration".

(** A runner: one queue of capacity one per collector, one mutex channel per target, a
    semaphore of [MaxConcurrency] tokens, and the set of running collectors. *)
Record Runner := mkRunner {
  jobs : list Job;
  config : Config;
  queues : gset CollectorID;
  targets : gset TargetID
}.

Definition f_half : float64 := fdiv (f64_of_Z 1) (f64_of_Z 2).

Definition config_invalid (c : Config) : bool :=
  let backoff := Backoff c in
  (MaxConcurrency c <=? 0)%Z || fltb (JitterRatio c) f0 || fltb f_half (JitterRatio c) ||
  IsNaN (JitterRatio c) || IsInf (JitterRatio c) ||
  (MaxAttempts backoff <=? 0)%Z || (10 <? MaxAttempts backoff)%Z || (Initial backoff <=? 0)%Z ||
  (Max backoff <? Initial backoff)%Z || fleb (Multiplier backoff) (f64_of_Z 1) ||
  IsNaN (Multiplier backoff) || IsInf (Multiplier backoff).

Fixpoint register_jobs (l : list Job) (known : gset CollectorID) (ts : gset TargetID) :
    res (gset CollectorID * gset TargetID) :=
  match l with
  | [] => Ok (known, ts)
  | job :: l =>
      match job_Collector job with
      | None => Err ErrInvalidConfig_scheduler
      | Some id =>
          fail_if (job_Interval job <=? 0)%Z || negb (CollectorID_Valid id)
            with_ ErrInvalidConfig_scheduler ;;
          fail_if bool_decide (id ∈ known) with_ ErrInvalidConfig_scheduler ;;
          register_jobs l ({[ id ]} ∪ known) ({[ ID_Target id ]} ∪ ts)
      end
  end.

(** The store and the clock are not nil: they are built by the caller. *)
Definition NewJobs (l : list Job) (c : Config) : res Runner :=
  fail_if bool_decide (length l = 0) || config_invalid c with_ ErrInvalidConfig_scheduler ;;
  '(known, ts) ← register_jobs l ∅ ∅;
  Ok (mkRunner l c known ts).

(** The same schedule for every collector. *)
Definition New (collectors : list (option CollectorID)) (c : Config) : res Runner :=
  NewJobs (map (fun k => mkJob k (cfg_Interval c) (cfg_StartupRefresh c)) collectors) c.

(** ** Delays *)

(** [random] is the generator's answer. *)
Definition nextDelay (c : Config) (interval : Duration) (random : float64) : Duration :=
  let value := fmin (fmax random f0) (f64_of_Z 1) in
  int64_wrap (interval + f64_trunc (fmul (fmul (f64_of_Z interval) (JitterRatio c)) value)).

Definition nextBackoff (c : Config) (delay : Duration) : Duration :=
  let next := fmul (f64_of_Z delay) (Multiplier (Backoff c)) in
  if fleb (f64_of_Z (Max (Backoff c))) next then Max (Backoff c) else f64_trunc next.

(** ** One refresh: the retry loop *)

(** What [collect] does outside the runner.  [acquire] waits for the target and the global
    semaphore, [release] gives both back, and [wait] is the backoff timer; [acquire] and [wait]
    answer false when the context ends first. *)
Record Env (W : Type) := mkEnv {
  acquire : CollectorID -> W -> bool * W;
  now : W -> Time * W;
  run_collect : Time -> W -> res Snapshot * W;
  release : CollectorID -> W -> W;
  publish : CollectorID -> Snapshot -> W -> option error * W;
  record_failure : CollectorID -> W -> option error * W;
  canceled : W -> bool * W;
  wait : Duration -> W -> bool * W;
  observe_refresh : CollectorID -> string -> Duration -> W -> W;
  observe_cache_error : CollectorID -> string -> W -> W;
  log_failure : CollectorID -> ErrorKind -> bool -> W -> W;
  log_cache_error : CollectorID -> string -> error -> W -> W
}.
Arguments mkEnv {W}.
Arguments acquire {W}. Arguments now {W}. Arguments run_collect {W}. Arguments release {W}.
Arguments publish {W}. Arguments record_failure {W}. Arguments canceled {W}. Arguments wait {W}.
Arguments observe_refresh {W}. Arguments observe_cache_error {W}. Arguments log_failure {W}.
Arguments log_cache_error {W}.

(** [errors.As(err, &retryable) && retryable.Retryable()]. *)
Definition canRetry (err : error) : bool := default false (As_retryable err).

(** The kind [logCollectorFailure] logs: one of the bounded kinds. *)
Definition logged_kind (err : error) : ErrorKind := default ErrorUnknown (As_safe_kind err).

Section Collect.
Context {W : Type} (env : Env W) (c : Config).

Definition logCollectorFailure (id : CollectorID) (err : error) (retryable : bool) (w : W) : W :=
  if Logger c then log_failure env id (logged_kind err) retryable w else w.

Definition observeCachePublishError (id : CollectorID) (operation : string) (err : error)
    (w : W) : W :=
  let w := if Logger c then log_cache_error env id operation err w else w in
  if Observer c then observe_cache_error env id operation w else w.

(** Collect while holding both slots, give them back, publish; the error of the attempt. *)
Definition attempt (id : CollectorID) (reference : Time) (w : W) : option error * W :=
  let '(partial, w) := run_collect env reference w in
  let w := release env id w in
  match partial with
  | Err err => (Some err, w)
  | Ok partial =>
      match publish env id partial w with
      | (None, w) => (None, w)
      | (Some err, w) => (Some err, observeCachePublishError id "publish" err w)
      end
  end.

(** The observer's report of an attempt; without an observer neither the context nor the
    clock is consulted. *)
Definition report (id : CollectorID) (started : Time) (err : option error) (w : W) : W :=
  if Observer c then
    let '(status, w) :=
      match err with
      | None => ("success", w)
      | Some _ => let '(stopped, w) := canceled env w in
                  ((if stopped then "canceled" else "error"), w)
      end in
    let '(finished, w) := now env w in
    observe_refresh env id status (Sub finished started) w
  else w.

(** A failed attempt whose context is alive: logged, and recorded in the store. *)
Definition note_failure (id : CollectorID) (err : error) (w : W) : W :=
  let w := logCollectorFailure id err (canRetry err) w in
  match record_failure env id w with
  | (None, w) => w
  | (Some recordErr, w) => observeCachePublishError id "record_failure" recordErr w
  end.

(** [remaining] is [MaxAttempts - attempt + 1]. *)
Fixpoint collect (id : CollectorID) (remaining : nat) (delay : Duration)
    (reference : Time) (w : W) : W :=
  match remaining with
  | O => w
  | S remaining =>
      let '(acquired, w) := acquire env id w in
      if negb acquired then w else
      let '(started, w) := now env w in
      let '(err, w) := attempt id reference w in
      let w := report id started err w in
      match err with
      | None => w
      | Some err =>
          let '(stopped, w) := canceled env w in
          if stopped then w else
          let w := note_failure id err w in
          if negb (canRetry err) || bool_decide (remaining = 0) then w else
          let '(fired, w) := wait env delay w in
          if negb fired then w else
          let '(reference, w) := now env w in
          collect id remaining (nextBackoff c delay) reference w
      end
  end.

(** One refresh as the worker starts it. *)
Definition refresh (id : CollectorID) (reference : Time) (w : W) : W :=
  collect id (Z.to_nat (MaxAttempts (Backoff c))) (Initial (Backoff c)) reference w.
End Collect.

(** ** The log of one refresh *)

(** The events of a refresh that the runner's contract speaks of. *)
Inductive event :=
| EAcquired (ok : bool)
| ECollected (reference : Time) (partial : res Snapshot)
| EReleased
| EPublished (partial : Snapshot) (err : option error)
| EReported (status : string)
| ERecorded (err : option error)
| EWaited (delay : Duration) (fired : bool).

(** An environment that behaves as [env] and keeps the log of its events. *)
Definition traced {W} (env : Env W) : Env (W * list event) :=
  mkEnv
    (fun id '(w, l) => let '(b, w) := acquire env id w in (b, (w, l ++ [EAcquired b])))
    (fun '(w, l) => let '(t, w) := now env w in (t, (w, l)))
    (fun reference '(w, l) =>
       let '(r, w) := run_collect env reference w in (r, (w, l ++ [ECollected reference r])))
    (fun id '(w, l) => (release env id w, l ++ [EReleased]))
    (fun id s '(w, l) => let '(e, w) := publish env id s w in (e, (w, l ++ [EPublished s e])))
    (fun id '(w, l) => let '(e, w) := record_failure env id w in (e, (w, l ++ [ERecorded e])))
    (fun '(w, l) => let '(b, w) := canceled env w in (b, (w, l)))
    (fun d '(w, l) => let '(b, w) := wait env d w in (b, (w, l ++ [EWaited d b])))
    (fun id status d '(w, l) => (observe_refresh env id status d w, l ++ [EReported status]))
    (fun id operation '(w, l) => (observe_cache_error env id operation w, l))
    (fun id kind retry '(w, l) => (log_failure env id kind retry w, l))
    (fun id operation err '(w, l) => (log_cache_error env id operation err w, l)).

(** What an attempt with outcome [err] leaves in the log. *)
Inductive attempt_log (reference : Time) : option error -> list event -> Prop :=
| attempt_published s :
    attempt_log reference None [ECollected reference (Ok s); EReleased; EPublished s None]
| attempt_failed err :
    attempt_log reference (Some err) [ECollected reference (Err err); EReleased]
| attempt_refused s err :
    attempt_log reference (Some err)
      [ECollected reference (Ok s); EReleased; EPublished s (Some err)].

Definition report_log (c : Config) (err : option error) (l : list event) : Prop :=
  if Observer c then
    exists status, l = [EReported status] /\
      match err with
      | None => status = "success"
      | Some _ => status = "error" \/ status = "canceled"
      end
  else l = [].

(** The protocol of a refresh with [n] attempts left, the next delay and reference time. *)
Inductive lawful (c : Config) : nat -> Duration -> Time -> list event -> Prop :=
| lawful_exhausted d r : lawful c 0 d r []
| lawful_blocked n d r : lawful c (S n) d r [EAcquired false]
| lawful_stopped n d r err a rep :
    attempt_log r err a -> report_log c err rep ->
    lawful c (S n) d r (EAcquired true :: a ++ rep)
| lawful_final n d r err a rep recorded :
    attempt_log r (Some err) a -> report_log c (Some err) rep ->
    canRetry err = false \/ n = 0 ->
    lawful c (S n) d r (EAcquired true :: a ++ rep ++ [ERecorded recorded])
| lawful_expired n d r err a rep recorded :
    attempt_log r (Some err) a -> report_log c (Some err) rep -> canRetry err = true ->
    0 < n ->
    lawful c (S n) d r (EAcquired true :: a ++ rep ++ [ERecorded recorded; EWaited d false])
| lawful_retry n d r err a rep recorded r' l :
    attempt_log r (Some err) a -> report_log c (Some err) rep -> canRetry err = true ->
    0 < n -> lawful c n (nextBackoff c d) r' l ->
    lawful c (S n) d r (EAcquired true :: a ++ rep ++ ERecorded recorded :: EWaited d true :: l).

Section CollectLog.
Context {W : Type} (env : Env W) (c : Config) (id : CollectorID).

Lemma attempt_traced r w l err w1 :
  attempt (traced env) c id r (w, l) = (err, w1) ->
  exists w' a, w1 = (w', l ++ a) /\ attempt_log r err a.
Proof.
  unfold attempt, observeCachePublishError. simpl.
  destruct (run_collect env r w) as [[s|e] w0]; simpl.
  - destruct (publish env id s (release env id w0)) as [[e|] w2]; simpl.
    + intros H. injection H as <- <-. destruct (Logger c), (Observer c); simpl;
        eexists _, _; (split; [by rewrite <-!app_assoc|constructor]).
    + intros H. injection H as <- <-.
      eexists _, _; split; [by rewrite <-!app_assoc|constructor].
  - intros H. injection H as <- <-. eexists _, _; split; [by rewrite <-!app_assoc|constructor].
Qed.

Lemma report_traced started err w l :
  exists w' rep, report (traced env) c id started err (w, l) = (w', l ++ rep) /\
    report_log c err rep.
Proof.
  unfold report, report_log. destruct (Observer c); [|eexists _, []; by rewrite app_nil_r].
  destruct err as [err|]; simpl.
  - destruct (canceled env w) as [b w1]; simpl. destruct (now env w1) as [t w2]; simpl.
    eexists _, _; split; [done|]. eexists; split; [done|]. destruct b; auto.
  - destruct (now env w) as [t w2]; simpl. eexists _, _; split; [done|]. eauto.
Qed.

Lemma note_failure_traced err w l :
  exists w' recorded,
    note_failure (traced env) c id err (w, l) = (w', l ++ [ERecorded recorded]).
Proof.
  unfold note_failure, logCollectorFailure, observeCachePublishError.
  destruct (Logger c); simpl.
  - destruct (record_failure env id (log_failure env id (logged_kind err) (canRetry err) w))
      as [[e|] w1]; simpl; [destruct (Observer c)|]; eauto.
  - destruct (record_failure env id w) as [[e|] w1]; simpl; [destruct (Observer c)|]; eauto.
Qed.

Lemma traced_acquire w l : acquire (traced env) id (w, l) =
  let '(b, w) := acquire env id w in (b, (w, l ++ [EAcquired b])).
Proof. reflexivity. Qed.

Lemma traced_now w l : now (traced env) (w, l) = let '(t, w) := now env w in (t, (w, l)).
Proof. reflexivity. Qed.

Lemma traced_canceled w l :
  canceled (traced env) (w, l) = let '(b, w) := canceled env w in (b, (w, l)).
Proof. reflexivity. Qed.

Lemma traced_wait d w l : wait (traced env) d (w, l) =
  let '(b, w) := wait env d w in (b, (w, l ++ [EWaited d b])).
Proof. reflexivity. Qed.

(** Keeping the log changes nothing else. *)
Lemma attempt_erase r w l :
  exists l', attempt (traced env) c id r (w, l) =
    ((attempt env c id r w).1, ((attempt env c id r w).2, l')).
Proof.
  unfold attempt, observeCachePublishError. simpl.
  destruct (run_collect env r w) as [[s|e] w0]; simpl; [|by eexists].
  destruct (publish env id s (release env id w0)) as [[e|] w2]; simpl; [|by eexists].
  destruct (Logger c), (Observer c); by eexists.
Qed.

Lemma report_erase started err w l :
  exists l', report (traced env) c id started err (w, l) = (report env c id started err w, l').
Proof.
  unfold report. destruct (Observer c); [|by eexists]. destruct err as [err|]; simpl.
  - destruct (canceled env w) as [b w1]; simpl. destruct (now env w1) as [t w2]. by eexists.
  - destruct (now env w) as [t w2]. by eexists.
Qed.

Lemma note_failure_erase err w l :
  exists l', note_failure (traced env) c id err (w, l) = (note_failure env c id err w, l').
Proof.
  unfold note_failure, logCollectorFailure, observeCachePublishError.
  destruct (Logger c); simpl; destruct (record_failure env id _) as [[e|] w1]; simpl;
    try destruct (Observer c); by eexists.
Qed.

Lemma collect_erase n d r w l :
  (collect (traced env) c id n d r (w, l)).1 = collect env c id n d r w.
Proof.
  revert d r w l. induction n as [|n IH]; intros d r w l; cbn [collect]; [done|].
  rewrite traced_acquire. destruct (acquire env id w) as [[] w1]; cbn [negb]; [|done].
  rewrite traced_now. destruct (now env w1) as [started w2].
  destruct (attempt_erase r w2 (l ++ [EAcquired true])) as (l3 & ->).
  destruct (attempt env c id r w2) as [err w3]; cbn [fst snd].
  destruct (report_erase started err w3 l3) as (l4 & ->).
  destruct err as [err|]; [|done].
  rewrite traced_canceled. destruct (canceled env (report env c id started (Some err) w3))
    as [[] w5]; [done|].
  destruct (note_failure_erase err w5 l4) as (l6 & ->).
  destruct (negb (canRetry err) || bool_decide (n = 0)); [done|].
  rewrite traced_wait. destruct (wait env d _) as [[] w7]; cbn [negb]; [|done].
  rewrite traced_now. destruct (now env w7) as [r' w8]. apply IH.
Qed.

(** The log of the retry loop follows the protocol. *)
Lemma collect_lawful n d r w l :
  exists w' t, collect (traced env) c id n d r (w, l) = (w', l ++ t) /\ lawful c n d r t.
Proof.
  revert d r w l. induction n as [|n IH]; intros d r w l; cbn [collect].
  { eexists _, []. rewrite app_nil_r. split; [done|constructor]. }
  rewrite traced_acquire. destruct (acquire env id w) as [[] w1]; cbn [negb];
    [|eexists _, _; split; [done|constructor]].
  rewrite traced_now. destruct (now env w1) as [started w2].
  destruct (attempt (traced env) c id r (w2, l ++ [EAcquired true])) as [err p] eqn:Ha.
  apply attempt_traced in Ha as (w3 & a & -> & Ha).
  destruct (report_traced started err w3 ((l ++ [EAcquired true]) ++ a)) as (w4 & rep & -> & Hr).
  assert (Hstop : forall l', (((l ++ [EAcquired true]) ++ a) ++ rep) ++ l' =
    l ++ EAcquired true :: a ++ rep ++ l') by (intros; by rewrite <-!app_assoc).
  destruct err as [err|]; [|eexists w4, _; rewrite <-!app_assoc; split; [done|by apply (lawful_stopped c n d r None a rep)]].
  rewrite traced_canceled. destruct (canceled env w4) as [[] w5];
    [eexists _, _; rewrite <-!app_assoc; split; [done|by apply (lawful_stopped c n d r (Some err) a rep)]|].
  destruct (note_failure_traced err w5 (((l ++ [EAcquired true]) ++ a) ++ rep))
    as (w6 & recorded & ->). rewrite Hstop.
  destruct (canRetry err) eqn:Hc; cbn [negb orb];
    [|eexists _, _; split; [done|eapply lawful_final; eauto]].
  case_bool_decide as Hn; [eexists _, _; split; [done|eapply lawful_final; eauto]|].
  rewrite traced_wait. destruct (wait env d w6) as [[] w7]; cbn [negb].
  - rewrite traced_now. destruct (now env w7) as [r' w8].
    edestruct (IH (nextBackoff c d) r') as (w9 & t & -> & Ht).
    eexists _, _. split; [|eapply lawful_retry; eauto; lia].
    by rewrite <-!app_assoc; simpl; rewrite <-!app_assoc.
  - eexists _, _. split; [|eapply lawful_expired; eauto; lia].
    by rewrite <-!app_assoc; simpl; rewrite <-!app_assoc.
Qed.
End CollectLog.

(** ** Reading a log *)

Definition is_acquired (e : event) : bool := match e with EAcquired b => b | _ => false end.
Definition is_collected (e : event) : bool := match e with ECollected _ _ => true | _ => false end.
Definition is_released (e : event) : bool := match e with EReleased => true | _ => false end.
Definition is_reported (e : event) : bool := match e with EReported _ => true | _ => false end.
Definition is_recorded (e : event) : bool := match e with ERecorded _ => true | _ => false end.
Definition is_published (e : event) : bool := match e with EPublished _ None => true | _ => false end.

Definition count (p : event -> bool) (l : list event) : nat := length (List.filter p l).

Definition delays (l : list event) : list Duration :=
  omap (fun e => match e with EWaited d _ => Some d | _ => None end) l.

(** The first [n] delays of the exponential backoff. *)
Fixpoint backoffs (c : Config) (n : nat) (delay : Duration) : list Duration :=
  match n with
  | O => []
  | S n => delay :: backoffs c n (nextBackoff c delay)
  end.

(** The error the latest attempt failed with, after one more event. *)
Definition last_error (last : option error) (e : event) : option error :=
  match e with
  | ECollected _ (Err err) => Some err
  | ECollected _ (Ok _) => None
  | EPublished _ err => err
  | _ => last
  end.

(** Every wait follows a failure that may be retried. *)
Fixpoint waits_justified (last : option error) (l : list event) : bool :=
  match l with
  | [] => true
  | e :: l =>
      match e, last with
      | EWaited _ _, Some err => canRetry err
      | EWaited _ _, None => false
      | _, _ => true
      end && waits_justified (last_error last e) l
  end.

(** What is published is what the attempt collected, after its slots are free. *)
Fixpoint publishes_collected (l : list event) : bool :=
  match l with
  | ECollected _ (Ok s) :: l =>
      match l with
      | EReleased :: EPublished s' _ :: l => bool_decide (s = s') && publishes_collected l
      | _ => false
      end
  | EPublished _ _ :: _ => false
  | _ :: l => publishes_collected l
  | [] => true
  end.

(** Once a snapshot is published nothing but the report follows. *)
Fixpoint settled (l : list event) : bool :=
  match l with
  | [] => true
  | e :: l => if is_published e then forallb is_reported l else settled l
  end.

(** Replaces the logs of the attempt and of the report by their events. *)
Ltac inv_log :=
  lazymatch goal with
  | Ha : attempt_log _ _ _, Hr : report_log _ _ _ |- _ =>
      inversion Ha; subst; clear Ha; unfold report_log in Hr;
      (destruct (Observer _); [destruct Hr as (? & -> & ?)|subst]; simpl in *)
  end.

Section Lawful.
Context (c : Config).

Lemma lawful_counts n d r l : lawful c n d r l ->
  count is_collected l <= n /\ count is_released l = count is_collected l /\
  count is_acquired l = count is_collected l /\ count is_recorded l <= count is_collected l /\
  count is_reported l = (if Observer c then count is_collected l else 0).
Proof.
  unfold count. induction 1 as [|?|? ? ? ? ? ? Ha Hr|? ? ? ? ? ? ? Ha Hr|? ? ? ? ? ? ? Ha Hr|? ? ? ? ? ? ? ? ? Ha Hr ? ? ? IH];
    [| |unfold report_log in Hr; inversion Ha; subst; destruct (Observer c) ..];
    try destruct Hr as (? & -> & ?); subst; simpl in *; try (destruct (Observer c)); lia.
Qed.

Lemma lawful_delays n d r l : lawful c n d r l -> delays l `prefix_of` backoffs c (n - 1) d.
Proof.
  induction 1 as [|?|? ? ? ? ? ? Ha Hr|? ? ? ? ? ? ? Ha Hr|n ? ? ? ? ? ? Ha Hr ? Hn|n ? ? ? ? ? ? ? ? Ha Hr ? Hn ? IH];
    try inv_log; try apply prefix_nil; destruct n as [|n]; try lia;
    rewrite ?Nat.sub_succ, ?Nat.sub_0_r in *; apply prefix_cons; done || apply prefix_nil.
Qed.

Lemma lawful_justified n d r l last : lawful c n d r l -> waits_justified last l = true.
Proof.
  intros H. revert last.
  induction H as [|?|? ? ? ? ? ? Ha Hr|? ? ? ? ? ? ? Ha Hr|? ? ? ? ? ? ? Ha Hr Hc|? ? ? ? ? ? ? ? ? Ha Hr Hc ? ? IH];
    intros last; try inv_log; try done; rewrite ?Hc, ?IH; done.
Qed.

Lemma lawful_published n d r l : lawful c n d r l ->
  publishes_collected l = true /\ settled l = true.
Proof.
  induction 1 as [|?|? ? ? ? ? ? Ha Hr|? ? ? ? ? ? ? Ha Hr|? ? ? ? ? ? ? Ha Hr Hc|? ? ? ? ? ? ? ? ? Ha Hr Hc ? ? IH];
    try inv_log; rewrite ?bool_decide_eq_true_2 by done; done.
Qed.
End Lawful.

(** ** The constructor *)

Definition job_ids (l : list Job) : list CollectorID := omap job_Collector l.

Definition job_valid (job : Job) : bool :=
  match job_Collector job with
  | None => false
  | Some id => (0 <? job_Interval job)%Z && CollectorID_Valid id
  end.

Lemma register_jobs_ok l known ts r :
  register_jobs l known ts = Ok r <->
  forallb job_valid l = true /\ NoDup (job_ids l) /\
  (forall id, id ∈ job_ids l -> id ∉ known) /\
  r = (list_to_set (job_ids l) ∪ known, list_to_set (ID_Target <$> job_ids l) ∪ ts).
Proof.
  revert known ts. induction l as [|job l IH]; intros known ts; simpl.
  { rewrite !(left_id_L ∅ (∪)). split; [intros [= <-]|naive_solver].
    repeat split; [constructor|set_solver]. }
  rewrite andb_true_iff. change (job_ids (job :: l)) with
    (match job_Collector job with Some id => id :: job_ids l | None => job_ids l end).
  unfold job_valid at 1. destruct (job_Collector job) as [id|]; [|naive_solver].
  rewrite !guard_ok, IH, andb_true_iff, NoDup_cons, orb_false_iff, negb_false_iff,
    Z.ltb_lt, Z.leb_gt, bool_decide_eq_false.
  assert (Hk : list_to_set (id :: job_ids l) ∪ known = list_to_set (job_ids l) ∪ ({[id]} ∪ known))
    by set_solver.
  assert (Ht : list_to_set (ID_Target <$> id :: job_ids l) ∪ ts =
    list_to_set (ID_Target <$> job_ids l) ∪ ({[ID_Target id]} ∪ ts)) by set_solver.
  rewrite Hk, Ht. set_solver.
Qed.

Lemma register_jobs_err l known ts e :
  register_jobs l known ts = Err e -> e = ErrInvalidConfig_scheduler.
Proof.
  revert known ts. induction l as [|job l IH]; intros known ts; simpl; [done|].
  destruct (job_Collector job); [|naive_solver]. unfold guard_err.
  repeat case_match; naive_solver.
Qed.

(** the constructor of the scheduler refuses, with its one sentinel, exactly the empty job
    lists, the configurations out of bounds and the job lists with a nil collector, a
    non-positive interval, an invalid id or an id used twice; a runner it returns keeps the
    jobs in order and has a queue for every id and a mutex for every target, and its attempts,
    delays and concurrency are within their bounds. *)
Theorem NewJobs_spec (l : list Job) (c : Config) :
  (forall e, NewJobs l c = Err e -> e = ErrInvalidConfig_scheduler) /\
  (forall r, NewJobs l c = Ok r <->
    l <> [] /\ config_invalid c = false /\ forallb job_valid l = true /\ NoDup (job_ids l) /\
    r = mkRunner l c (list_to_set (job_ids l)) (list_to_set (ID_Target <$> job_ids l))) /\
  (config_invalid c = false ->
    (0 < MaxConcurrency c /\ 1 <= MaxAttempts (Backoff c) <= 10 /\
     0 < Initial (Backoff c) <= Max (Backoff c))%Z).
Proof.
  unfold NewJobs. split; [|split].
  - intros e. unfold guard_err. case_match; [naive_solver|].
    intros [He|((known & ts) & _ & [=])]%bind_err. by eapply register_jobs_err.
  - intros r. rewrite guard_ok, bind_ok, orb_false_iff, bool_decide_eq_false, length_zero_iff_nil.
    setoid_rewrite register_jobs_ok. setoid_rewrite (right_id_L ∅ (∪)). split.
    + intros ([Hl Hc] & [known ts] & (Hj & Hn & _ & [= -> ->]) & [= <-]). done.
    + intros (Hl & Hc & Hj & Hn & ->). split; [done|]. eexists (_, _). split; [|done].
      repeat split; [done|done|set_solver].
  - unfold config_invalid. intros H. inv_bool. lia.
Qed.

(** ** The contract of one refresh *)

Lemma refresh_lawful {W} (env : Env W) (c : Config) id reference (w : W) :
  exists log, refresh (traced env) c id reference (w, []) = (refresh env c id reference w, log) /\
    lawful c (Z.to_nat (MaxAttempts (Backoff c))) (Initial (Backoff c)) reference log.
Proof.
  unfold refresh. destruct (collect_lawful env c id (Z.to_nat (MaxAttempts (Backoff c)))
    (Initial (Backoff c)) reference w []) as (w' & log & Heq & Hlog).
  exists log. split; [|done]. by rewrite <-(collect_erase env c id _ _ _ _ []), Heq.
Qed.

(** For every environment, one refresh attempts the collection at most [MaxAttempts] times,
    gives its slots back after every attempt it was granted them for (and before it waits),
    reports every attempt once when there is an observer, and records at most one failure per
    attempt. *)
Theorem refresh_bounded {W} (env : Env W) (c : Config) (id : CollectorID) (reference : Time) (w : W) :
  exists log, refresh (traced env) c id reference (w, []) = (refresh env c id reference w, log) /\
    (Z.of_nat (count is_collected log) <= Z.max 0 (MaxAttempts (Backoff c)))%Z /\
    count is_acquired log = count is_collected log /\
    count is_released log = count is_collected log /\
    count is_recorded log <= count is_collected log /\
    count is_reported log = (if Observer c then count is_collected log else 0).
Proof.
  destruct (refresh_lawful env c id reference w) as (log & Heq & Hlog).
  exists log. split; [done|]. apply lawful_counts in Hlog. lia.
Qed.

(** C8: a refresh waits only after a failure whose error says it may be retried, and its waits
    are, in order, the first delays of the exponential backoff. *)
Theorem refresh_retries_justified {W} (env : Env W) (c : Config) (id : CollectorID)
    (reference : Time) (w : W) :
  exists log, refresh (traced env) c id reference (w, []) = (refresh env c id reference w, log) /\
    waits_justified None log = true /\
    delays log `prefix_of`
      backoffs c (Z.to_nat (MaxAttempts (Backoff c)) - 1) (Initial (Backoff c)).
Proof.
  destruct (refresh_lawful env c id reference w) as (log & Heq & Hlog).
  exists log. eauto using lawful_justified, lawful_delays.
Qed.

(** C34: what a refresh publishes is the snapshot the attempt just collected, after both slots
    are given back, and once a snapshot is published the refresh is over: no other attempt,
    wait, publication or recorded failure follows. *)
Theorem refresh_publishes_collected {W} (env : Env W) (c : Config) (id : CollectorID)
    (reference : Time) (w : W) :
  exists log, refresh (traced env) c id reference (w, []) = (refresh env c id reference w, log) /\
    publishes_collected log = true /\ settled log = true.
Proof.
  destruct (refresh_lawful env c id reference w) as (log & Heq & Hlog).
  exists log. apply lawful_published in Hlog. tauto.
Qed.

(** ** The delays *)

Section Delays.
Context (c : Config) (Hconfig : config_invalid c = false).
Context (Hmultiplier : valid_float (Multiplier (Backoff c))).

(** Above one, the multiplier is a float of value more than one. *)
Lemma multiplier_value : exists m e, is_float (Multiplier (Backoff c)) m e /\ (sv 1 0 < sv m e)%Z.
Proof using Hconfig Hmultiplier.
  unfold config_invalid in Hconfig. rewrite !orb_false_iff in Hconfig.
  destruct Hconfig as (((Hrest & Hone) & Hnan) & Hinf).
  destruct (valid_cases _ Hmultiplier) as [H|[[s H]|[H|[(p & e & H)|(m & e & Hm)]]]];
    [congruence|by rewrite H in Hinf| | |].
  1, 2: by rewrite H in Hone; vm_compute in Hone.
  exists m, e. split; [done|]. rewrite (fleb_value _ _ _ _ _ _ Hm is_float_one), sv_one in Hone. lia.
Qed.

Lemma nextBackoff_bounds delay :
  (0 < delay <= Max (Backoff c))%Z -> (Max (Backoff c) <= 2 ^ 53)%Z ->
  (delay <= nextBackoff c delay <= Max (Backoff c))%Z.
Proof using Hconfig Hmultiplier.
  intros Hd Hmax. destruct multiplier_value as (m2 & e2 & Hm2 & Hone).
  destruct (f64_of_Z_exact delay) as (m1 & e1 & Hm1 & Hv1); [lia|].
  destruct (f64_of_Z_exact (Max (Backoff c))) as (mx & ex & Hmx & Hvx); [lia|].
  destruct (f64_of_Z_normal delay m1 e1) as [Hn1 He1]; [lia|apply Hm1|done|].
  assert (Hp2 : (0 < m2)%Z).
  { destruct Hm2 as (_ & ([? _] & _) & _). destruct (Z.eq_dec m2 0) as [->|]; [|lia]. by unfold sv in Hone. }
  destruct (fmul_monotone _ m1 e1 _ m2 e2 Hm1 ltac:(lia) Hm2 Hp2) as (m & e & Hnext & Hc & Hmono).
  assert (Hge : (sv m1 e1 <= sv m e)%Z).
  { apply Hmono; [apply Hm1|]. destruct Hm2 as (_ & (_ & He2 & _) & _). unfold sv in *.
    rewrite Z.add_0_l in Hone. replace (e1 + e2 + 2148)%Z with (e1 + 1074 + (e2 + 1074))%Z by lia.
    replace (e1 + 2148)%Z with (e1 + 1074 + 1074)%Z by lia.
    assert (H2 : (2 ^ 1074 <= m2 * 2 ^ (e2 + 1074))%Z).
    { apply (Z.mul_le_mono_pos_r _ _ (2 ^ 1074)); [by apply Z.pow_pos_nonneg|].
      rewrite <- Z.mul_assoc, <- !Z.pow_add_r by lia.
      replace (e2 + 1074 + 1074)%Z with (e2 + 2148)%Z by lia. change (1074 + 1074)%Z with 2148%Z. lia. }
    rewrite (Z.pow_add_r 2 (e1 + 1074) 1074), (Z.pow_add_r 2 (e1 + 1074) (e2 + 1074)) by lia.
    assert (0 < 2 ^ (e1 + 1074))%Z by (apply Z.pow_pos_nonneg; lia).
    revert H2 H. generalize (2 ^ (e1 + 1074))%Z, (2 ^ (e2 + 1074))%Z, (2 ^ 1074)%Z. intros a b k H2 Ha.
    apply (Z.le_trans _ (m1 * (a * (m2 * b)))); [|lia]. apply Z.mul_le_mono_nonneg_l; [lia|].
    by apply Z.mul_le_mono_nonneg_l; [lia|]. }
  unfold nextBackoff. cbv zeta. rewrite Hnext.
  destruct (Z.le_gt_cases e 971) as [He|He].
  - assert (Hf : is_float (float_of false m e) m e) by done.
    rewrite (fleb_value _ _ _ _ _ _ Hmx Hf). destruct (Z.leb_spec (sv mx ex) (sv m e)) as [Hle|Hlt]; [lia|].
    split; [apply (f64_trunc_ge _ m e); [done|lia]|].
    apply (f64_trunc_le _ m e); [done|apply Hc|destruct Hc as (_ & ? & _); lia|lia|lia].
  - assert (Hm : (0 < m)%Z).
    { destruct Hc as ([? _] & _). destruct (Z.eq_dec m 0) as [->|]; [|lia]. unfold sv in Hge at 2. 
      assert (0 < sv m1 e1)%Z by (unfold sv; apply Z.mul_pos_pos; [lia|apply Z.pow_pos_nonneg; lia]). lia. }
    unfold float_of. destruct m; try lia. rewrite (proj2 (Z.leb_gt e 971)) by lia.
    destruct Hmx as (-> & (? & _ & _) & Hx). unfold float_of. destruct mx; try lia; [cbn; lia|].
    rewrite (proj2 (Z.leb_le ex 971)) by lia. cbn. lia.
Qed.

Lemma backoffs_bounds n delay :
  (0 < delay <= Max (Backoff c))%Z -> (Max (Backoff c) <= 2 ^ 53)%Z ->
  Sorted Z.le (backoffs c n delay) /\ Forall (fun d => delay <= d <= Max (Backoff c))%Z (backoffs c n delay).
Proof using Hconfig Hmultiplier.
  intros Hd Hmax. revert delay Hd. induction n as [|n IH]; intros delay Hd; [by repeat constructor|].
  cbn [backoffs]. pose proof (nextBackoff_bounds delay Hd Hmax) as Hn.
  destruct (IH (nextBackoff c delay)) as [Hs Hf]; [lia|]. split.
  - constructor; [done|]. destruct n; cbn [backoffs]; [constructor|]. constructor. lia.
  - constructor; [lia|]. eapply Forall_impl; [exact Hf|]. cbn beta. lia.
Qed.

Context (Hjitter : valid_float (JitterRatio c)).

(** The configured jitter is a zero, or a float of value at most one half. *)
Lemma jitter_value : JitterRatio c = S754_zero true \/ at_most (JitterRatio c) (sv 1 (-1)).
Proof using Hconfig Hjitter.
  unfold config_invalid in Hconfig. rewrite !orb_false_iff in Hconfig.
  destruct Hconfig as (((((((((((_ & Hneg) & Hhalf) & Hnan) & Hinf) & _) & _) & _) & _) & _) & _) & _).
  destruct (valid_cases _ Hjitter) as [H|[[s H]|[H|[(p & e & H)|(m & e & Hm)]]]];
    [congruence|by rewrite H in Hinf|by left|by rewrite H in Hneg|right].
  assert (Hh : is_float f_half (2 ^ 52) (-53)).
  { split; [vm_compute; done|]. split; [|lia]. split; [lia|]. split; [lia|by left]. }
  rewrite (fltb_value _ _ _ _ _ _ Hh Hm) in Hhalf. exists m, e. split; [apply Hm|]. split; [apply Hm|].
  assert (sv (2 ^ 52) (-53) = sv 1 (-1)) by (rewrite (sv_align 1 (-1) (-53)) by lia; done). lia.
Qed.

(** The generator's answer, clamped, is a float of value at most one. *)
Lemma clamp_value random : valid_float random -> IsNaN random = false ->
  at_most (fmin (fmax random f0) (f64_of_Z 1)) (sv 1 0).
Proof using.
  intros Hv Hnan. set (one := f64_of_Z 1). assert (H1 : at_most one (sv 1 0)).
  { exists (2 ^ 52)%Z, (-52)%Z. split; [apply is_float_one|]. split; [apply is_float_one|]. by rewrite sv_one. }
  assert (H0 : at_most f0 (sv 1 0)) by (apply at_most_zero; by vm_compute).
  destruct (valid_cases _ Hv) as [H|[[[] H]|[H|[(p & e & H)|(m & e & Hm)]]]]; [congruence| | | | |].
  1, 3, 4: rewrite H; done.
  - rewrite H. done.
  - assert (Hmax : fmax random f0 = random \/ fmax random f0 = f0).
    { unfold fmax. rewrite Hnan. cbn [orb IsNaN f0]. destruct (feqb random f0); [|destruct (fltb f0 random); auto].
      destruct Hm as (-> & _). destruct m; cbn; auto. by destruct (e <=? 971)%Z; auto. }
    destruct Hmax as [->| ->]; [|exact H0]. unfold fmin. rewrite Hnan. cbn [orb].
    destruct (IsNaN one) eqn:Hone; [by vm_compute in Hone|].
    destruct (feqb random one).
    + destruct Hm as (-> & _). destruct m; [exact H1| |exact H1]. cbn. by destruct (e <=? 971)%Z.
    + subst one. rewrite (fltb_value _ _ _ _ _ _ Hm is_float_one), sv_one.
      destruct (Z.ltb_spec (sv m e) (sv 1 0)) as [Hlt|]; [|done].
      exists m, e. split; [apply Hm|]. split; [apply Hm|]. lia.
Qed.
End Delays.

(** The most jitter there is: half the interval, as the conversion to a float has rounded it. *)
Definition most_jitter (interval : Duration) : Duration := ((interval + rounding interval) / 2)%Z.

Lemma most_jitter_exact interval : (interval <= 2 ^ 53)%Z -> most_jitter interval = (interval / 2)%Z.
Proof. intros Hi. unfold most_jitter, rounding. rewrite (proj2 (Z.leb_le _ _) Hi). by rewrite Z.add_0_r. Qed.

Lemma most_jitter_upper interval : (most_jitter interval <= interval / 2 + 512)%Z.
Proof.
  pose proof (rounding_bounds interval). unfold most_jitter.
  apply Z.lt_succ_r, Z.div_lt_upper_bound; [lia|]. pose proof (Z.mul_succ_div_gt interval 2 ltac:(lia)). lia.
Qed.

Lemma nextDelay_bounds c interval random :
  config_invalid c = false -> valid_float (JitterRatio c) ->
  (0 < interval)%Z -> (interval + most_jitter interval < 2 ^ 63)%Z ->
  valid_float random -> IsNaN random = false ->
  (interval <= nextDelay c interval random <= interval + most_jitter interval)%Z.
Proof.
  intros Hc Hj Hi Hlong Hv Hn. pose proof (clamp_value random Hv Hn) as Hclamp. unfold nextDelay.
  pose proof (rounding_bounds interval) as Hround. unfold most_jitter in *.
  assert (Hi' : (0 < interval <= 2 ^ 63)%Z) by (pose proof (Z.div_pos (interval + rounding interval) 2 ltac:(lia) ltac:(lia)); lia).
  cbv zeta. set (value := fmin _ _) in *.
  assert (Hjit : (0 <= f64_trunc (fmul (fmul (f64_of_Z interval) (JitterRatio c)) value) /\
    f64_trunc (fmul (fmul (f64_of_Z interval) (JitterRatio c)) value) * 2 ^ 1 <= interval + rounding interval)%Z).
  { destruct (jitter_value c Hc Hj) as [Hzero|Hhalf].
    - destruct (f64_of_Z_rounded interval Hi') as (m & e & (Heq & _ & He) & _).
      destruct (at_most_finite _ _ Hclamp) as (mv & ev & (Hval & _ & Hev) & _); [by vm_compute|].
      rewrite Heq, Hzero, Hval. unfold float_of. rewrite !(proj2 (Z.leb_le _ 971)) by done.
      destruct m, mv; cbn; lia.
    - assert (Hp : at_most (fmul (f64_of_Z interval) (JitterRatio c)) (sv (interval + rounding interval) (-1)))
        by (by apply (fmul_of_Z_rounded interval (JitterRatio c) 1)).
      apply at_most_trunc; [|lia|lia]. apply fmul_unit; [done| |done]. unfold sv.
      apply (Z.le_lt_trans _ (2 ^ 64 * 2 ^ (-1 + 2148))); [apply Z.mul_le_mono_nonneg_r; [done|lia]|by vm_compute]. }
  change (2 ^ 1)%Z with 2%Z in Hjit. revert Hjit. generalize (f64_trunc (fmul (fmul (f64_of_Z interval) (JitterRatio c)) value)).
  intros t Ht. assert (t <= (interval + rounding interval) / 2)%Z by (apply Z.div_le_lower_bound; lia).
  rewrite int64_wrap_id by lia. lia.
Qed.

(** Beyond, the sum wraps: the longest interval may be followed by a delay in the past. *)
Example nextDelay_wraps :
  (nextDelay (mkConfig 0%Z false f_half 4%Z (mkBackoff 3%Z Minute (30 * Minute)%Z (f64_of_Z 2)) true true)
    (2 ^ 63 - 1) (f64_of_Z 1) < 0)%Z.
Proof. vm_compute. reflexivity. Qed.

(** C25: under a configuration the runner accepts, with limits a float represents exactly, the
    backoff delays are nondecreasing and stay between [Initial] and [Max], however often they
    are multiplied; and a refresh is scheduled no earlier than its interval and at most half an
    interval later, whatever the generator answers. *)
Theorem delays_bounded c :
  config_invalid c = false -> valid_float (JitterRatio c) -> valid_float (Multiplier (Backoff c)) ->
  (Max (Backoff c) <= 2 ^ 53)%Z ->
  (forall n, Sorted Z.le (backoffs c n (Initial (Backoff c))) /\
     Forall (fun d => Initial (Backoff c) <= d <= Max (Backoff c))%Z (backoffs c n (Initial (Backoff c)))) /\
  (forall interval random, (0 < interval <= 2 ^ 53)%Z -> valid_float random -> IsNaN random = false ->
     (interval <= nextDelay c interval random <= interval + interval / 2)%Z).
Proof.
  intros Hc Hj Hm Hmax. split.
  - intros n. apply (backoffs_bounds c Hc Hm); [|done].
    unfold config_invalid in Hc. rewrite !orb_false_iff in Hc. destruct Hc as (((((_ & Hi) & Hmx) & _) & _) & _).
    apply Z.leb_gt in Hi. apply Z.ltb_ge in Hmx. lia.
  - intros interval random [Hpos Hi] Hv Hn. rewrite <- (most_jitter_exact interval Hi).
    apply nextDelay_bounds; try done. rewrite (most_jitter_exact interval Hi). 
    pose proof (Z.div_le_upper_bound interval 2 (2 ^ 53) ltac:(lia) ltac:(lia)). lia.
Qed.

Definition sample_runner_config : Config :=
  mkConfig 0%Z false (fdiv (f64_of_Z 1) (f64_of_Z 10)) 4%Z
    (mkBackoff 3%Z Minute (30 * Minute)%Z (f64_of_Z 2)) true true.

Lemma delays_bounded_witness :
  backoffs sample_runner_config 6 Minute =
    [Minute; 2 * Minute; 4 * Minute; 8 * Minute; 16 * Minute; 30 * Minute]%Z /\
  Forall (fun d => Minute <= d <= 30 * Minute)%Z (backoffs sample_runner_config 6 Minute).
Proof.
  split; [vm_compute; reflexivity|].
  destruct (delays_bounded sample_runner_config) as [Hb _]; [vm_compute; reflexivity ..|vm_compute; discriminate|].
  exact (proj2 (Hb 6)).
Defined.
