(* ===== verification/Timers.v ===== *)
(** * Timers (internal/scheduler/timer.go, [schedule] of internal/scheduler/runner.go)

    The timers of the standard library since Go 1.23, the version of the module, and the schedule
    goroutine of a job over them, in time that passes between any two of its operations.  What
    its dispatches do to the goroutines they share the runner with is in Dispatcher. *)

From S2P Require Import Prelude GoFloat FloatFacts GoTime Domain Scheduler.
Local Open Scope string_scope.
Local Open Scope list_scope.

(** ** Timers of the standard library *)

(** The timers made so far, by address: the deadline of one that is armed.  A deadline that
    passes leaves a value to receive until the timer is stopped or reset. *)
Abbreviation TimerHeap := (list (option Time)).

Definition Armed (timer : nat) (heap : TimerHeap) : option Time := mjoin (heap !! timer).

Definition due (now : Time) (delay : Duration) : Time := (now + Z.max 0 delay)%Z.

Definition NewSystemTimer (now : Time) (delay : Duration) (heap : TimerHeap) : nat * TimerHeap :=
  (length heap, heap ++ [Some (due now delay)]).

(** [Stop] and [Reset] report whether the timer was armed; the value of a deadline that passed
    is dropped. *)
Definition Timer_Stop (timer : nat) (heap : TimerHeap) : bool * TimerHeap :=
  (bool_decide (is_Some (Armed timer heap)), <[ timer := None ]> heap).

Definition Timer_Reset (now : Time) (delay : Duration) (timer : nat) (heap : TimerHeap) : bool * TimerHeap :=
  (bool_decide (is_Some (Armed timer heap)), <[ timer := Some (due now delay) ]> heap).

(** A receive on [Chan], when one is ready. *)
Definition Timer_receive (now : Time) (timer : nat) (heap : TimerHeap) : option TimerHeap :=
  match Armed timer heap with
  | Some deadline => if (deadline <=? now)%Z then Some (<[ timer := None ]> heap) else None
  | None => None
  end.

(** [None] is a nil timer; the select of a receive with a default. *)
Definition stopTimer (now : Time) (timer : option nat) (heap : TimerHeap) : TimerHeap :=
  match timer with
  | None => heap
  | Some timer =>
      let '(stopped, heap) := Timer_Stop timer heap in
      if stopped then heap else default heap (Timer_receive now timer heap)
  end.

(** ** The schedule goroutine *)

(** Where it is: before the startup refresh; before its first timer; at its select; past a tick,
    before [dispatch], [Reset], [stopTimer] or the next timer; or returned. *)
Inductive SchedulePC := PStart | PFirst | PSelect | PTicked | PReset | PStop | PRenew | PReturned.

(** [deferred] is the argument of the deferred [stopTimer], evaluated at the [defer];
    [references] are the times the goroutine dispatched with, the latest first. *)
Record Schedule := mkSchedule {
  sc_clock : Time; pc : SchedulePC; deferred : option nat; timer : option nat;
  heap : TimerHeap; references : list Time
}.

Definition schedule_start (start : Time) : Schedule := mkSchedule start PStart None None [] [].

Section Goroutine.
Context (c : Config) (interval : Duration) (startup : bool).

(** [random] is an answer of the generator. *)
Definition answer (random : float64) : Prop := valid_float random /\ IsNaN random = false.

Inductive goroutine_step (σ : Schedule) : Schedule -> Prop :=
| starts :
    pc σ = PStart ->
    goroutine_step σ (mkSchedule (sc_clock σ) PFirst (deferred σ) (timer σ) (heap σ)
      (if startup then sc_clock σ :: references σ else references σ))
| first_timer random t heap' :
    pc σ = PFirst -> answer random ->
    NewSystemTimer (sc_clock σ) (nextDelay c interval random) (heap σ) = (t, heap') ->
    goroutine_step σ (mkSchedule (sc_clock σ) PSelect (Some t) (Some t) heap' (references σ))
| canceled_returns :
    pc σ = PSelect ->
    goroutine_step σ (mkSchedule (sc_clock σ) PReturned (deferred σ) (timer σ)
      (stopTimer (sc_clock σ) (deferred σ) (heap σ)) (references σ))
| ticks t heap' :
    pc σ = PSelect -> timer σ = Some t -> Timer_receive (sc_clock σ) t (heap σ) = Some heap' ->
    goroutine_step σ (mkSchedule (sc_clock σ) PTicked (deferred σ) (timer σ) heap' (references σ))
| dispatches :
    pc σ = PTicked ->
    goroutine_step σ (mkSchedule (sc_clock σ) PReset (deferred σ) (timer σ) (heap σ)
      (sc_clock σ :: references σ))
| resets random t active heap' :
    pc σ = PReset -> timer σ = Some t -> answer random ->
    Timer_Reset (sc_clock σ) (nextDelay c interval random) t (heap σ) = (active, heap') ->
    goroutine_step σ (mkSchedule (sc_clock σ) (if active then PSelect else PStop) (deferred σ) (timer σ) heap'
      (references σ))
| stops :
    pc σ = PStop ->
    goroutine_step σ (mkSchedule (sc_clock σ) PRenew (deferred σ) (timer σ)
      (stopTimer (sc_clock σ) (timer σ) (heap σ)) (references σ))
| renews random t heap' :
    pc σ = PRenew -> answer random ->
    NewSystemTimer (sc_clock σ) (nextDelay c interval random) (heap σ) = (t, heap') ->
    goroutine_step σ (mkSchedule (sc_clock σ) PSelect (deferred σ) (Some t) heap' (references σ))
| passes later :
    (sc_clock σ <= later)%Z ->
    goroutine_step σ (mkSchedule later (pc σ) (deferred σ) (timer σ) (heap σ) (references σ)).

Definition schedule_reachable (start : Time) (σ : Schedule) : Prop := rtc goroutine_step (schedule_start start) σ.
End Goroutine.

(** The wait of [collect] between two attempts, left at [now]: by a receive, or canceled. *)
Definition backoff_wait (made now : Time) (delay : Duration) (canceled : bool) (heap : TimerHeap) :
    option (bool * TimerHeap) :=
  let '(backoff, heap) := NewSystemTimer made delay heap in
  if canceled then Some (false, stopTimer now (Some backoff) heap)
  else (fun heap => (true, stopTimer now (Some backoff) heap)) <$> Timer_receive now backoff heap.

(** ** Heaps with at most one armed timer *)

Definition quiet (n : nat) : TimerHeap := replicate n None.

Lemma quiet_armed n t : Armed t (quiet n) = None.
Proof.
  unfold Armed. destruct (quiet n !! t) as [o|] eqn:Hl; [|done]. by apply lookup_replicate in Hl as [-> _].
Qed.

Lemma newest_armed n t d d' : Armed t (quiet n ++ [Some d]) = Some d' -> t = n /\ d' = d.
Proof.
  unfold Armed. rewrite lookup_app. destruct (quiet n !! t) as [o|] eqn:Hl.
  - apply lookup_replicate in Hl as [-> _]. done.
  - apply lookup_ge_None in Hl. unfold quiet in *. rewrite length_replicate in *.
    destruct (t - n) as [|k] eqn:Hk; cbn; [|done]. intros [= ->]. split; [lia|done].
Qed.

Lemma newest_is_armed n d : Armed n (quiet n ++ [Some d]) = Some d.
Proof.
  unfold Armed, quiet. rewrite lookup_app_r; rewrite length_replicate; [|done]. by rewrite Nat.sub_diag.
Qed.

Lemma newest_set n d x : <[ n := x ]> (quiet n ++ [Some d]) = quiet n ++ [x].
Proof.
  unfold quiet. rewrite insert_app_r_alt; rewrite length_replicate; [|done]. by rewrite Nat.sub_diag.
Qed.

Lemma quiet_S n : quiet n ++ [None] = quiet (S n).
Proof. unfold quiet. change [None] with (replicate 1 (@None Time)). rewrite <- replicate_add. f_equal. lia. Qed.

Lemma quiet_set n x : <[ n := x ]> (quiet (S n)) = quiet n ++ [x].
Proof.
  rewrite <- quiet_S. unfold quiet. rewrite insert_app_r_alt; rewrite length_replicate; [|done]. by rewrite Nat.sub_diag.
Qed.

Lemma stop_newest now n d : stopTimer now (Some n) (quiet n ++ [Some d]) = quiet (S n).
Proof.
  unfold stopTimer, Timer_Stop. rewrite newest_is_armed, newest_set, quiet_S. by rewrite bool_decide_eq_true_2 by eauto.
Qed.

Lemma stop_quiet now n t : stopTimer now (Some t) (quiet n) = quiet n.
Proof.
  unfold stopTimer, Timer_Stop. rewrite quiet_armed, bool_decide_eq_false_2 by (by intros [? ?]).
  assert (<[ t := None ]> (quiet n) = quiet n) as ->; [|unfold Timer_receive; by rewrite quiet_armed].
  apply list_eq. intros i. rewrite list_lookup_insert. case_decide as Hi; [|done]. destruct Hi as [-> Hlt].
  unfold quiet in *. rewrite length_replicate in Hlt. by rewrite lookup_replicate_2.
Qed.

(** The deferred call stops the first timer, and no later one. *)
Lemma stop_first now n d : stopTimer now (Some 0) (quiet (S n) ++ [Some d]) = quiet (S n) ++ [Some d].
Proof. reflexivity. Qed.

Lemma receive_newest now n d heap' :
  Timer_receive now n (quiet n ++ [Some d]) = Some heap' -> (d <= now)%Z /\ heap' = quiet (S n).
Proof.
  unfold Timer_receive. rewrite newest_is_armed, newest_set, quiet_S.
  destruct (Z.leb_spec d now); [|done]. by intros [= <-].
Qed.

(** However it is left, the wait leaves no timer armed. *)
Lemma backoff_wait_disarms n made now delay canceled fired heap :
  backoff_wait made now delay canceled (quiet n) = Some (fired, heap) ->
  heap = quiet (S n) /\ fired = negb canceled /\ (fired = true -> (made + delay <= now)%Z).
Proof.
  unfold backoff_wait, NewSystemTimer. replace (length (quiet n)) with n by (symmetry; apply length_replicate).
  destruct canceled.
  - rewrite stop_newest. by intros [= <- <-].
  - intros (h & (Hd & ->)%receive_newest & Hw)%fmap_Some. rewrite stop_quiet in Hw.
    apply pair_eq in Hw as [-> ->].
    unfold due in Hd. repeat split. lia.
Qed.

(** ** The invariant of the goroutine *)

(** Latest first: no two dispatches closer than the interval. *)
Definition paced (interval : Duration) (references : list Time) : Prop :=
  forall i later earlier, references !! i = Some later -> references !! S i = Some earlier ->
    (earlier + interval <= later)%Z.

Lemma paced_cons interval r l :
  (forall r', head l = Some r' -> (r' + interval <= r)%Z) -> paced interval l -> paced interval (r :: l).
Proof.
  intros Hh Hp [|i] later earlier; cbn; [|by apply Hp]. intros [= <-] He. apply Hh. by destruct l.
Qed.

Section Invariant.
Context (c : Config) (interval : Duration) (startup : bool).
Context (Hc : config_invalid c = false) (Hjitter : valid_float (JitterRatio c)) (Hpos : (0 < interval)%Z)
  (Hmax : (interval + most_jitter interval < 2 ^ 63)%Z).

Definition since_last (σ : Schedule) (delay : Duration) (at_ : Time) : Prop :=
  forall r, head (references σ) = Some r -> (r + delay <= at_)%Z.

(** The deadline of the armed timer. *)
Definition in_reach (σ : Schedule) (d : Time) : Prop :=
  since_last σ interval d /\ (d <= sc_clock σ + interval + most_jitter interval)%Z.

(** [n + 1] timers were made, and the last is the current one. *)
Definition current (σ : Schedule) (n : nat) : Prop := timer σ = Some n /\ deferred σ = Some 0.

Definition placed (σ : Schedule) : Prop :=
  match pc σ with
  | PStart => heap σ = quiet 0 /\ references σ = []
  | PFirst => heap σ = quiet 0 /\ since_last σ 0%Z (sc_clock σ)
  | PSelect | PStop => exists n d, heap σ = quiet n ++ [Some d] /\ current σ n /\ in_reach σ d /\
      (pc σ = PStop -> since_last σ 0%Z (sc_clock σ))
  | PTicked => exists n, heap σ = quiet (S n) /\ current σ n /\ since_last σ interval (sc_clock σ)
  | PReset | PRenew => exists n, heap σ = quiet (S n) /\ current σ n /\ since_last σ 0%Z (sc_clock σ)
  | PReturned => exists n, current σ n /\
      if decide (n = 0) then heap σ = quiet 1 else exists d, heap σ = quiet n ++ [Some d] /\ in_reach σ d
  end.

Definition ScInv (σ : Schedule) : Prop := paced interval (references σ) /\ placed σ.

(** A timer made or reset after the last dispatch. *)
Lemma next_due σ random :
  answer random -> since_last σ 0%Z (sc_clock σ) -> in_reach σ (due (sc_clock σ) (nextDelay c interval random)).
Proof using Hc Hjitter Hpos Hmax.
  intros [Hr Hn] Hl. pose proof (nextDelay_bounds c interval random Hc Hjitter Hpos Hmax Hr Hn) as Hd.
  unfold in_reach, due. split; [|lia]. intros r Hh. specialize (Hl r Hh). lia.
Qed.

Lemma ScInv_step σ σ' : ScInv σ -> goroutine_step c interval startup σ σ' -> ScInv σ'.
Proof using Hc Hjitter Hpos Hmax.
  intros [Hp Hpl]. unfold placed in Hpl.
  intros [Hpc|random t heap' Hpc Ha Hnew|Hpc|t heap' Hpc Ht Hr|Hpc|random t active heap' Hpc Ht Ha Hre|Hpc
    |random t heap' Hpc Ha Hnew|later Hle]; rewrite ?Hpc in Hpl.
  - destruct Hpl as [Hh Hrefs]. rewrite Hrefs in *. unfold ScInv, placed, since_last. cbn. split.
    + destruct startup; [by intros [|i] ? ? ? ?|done].
    + split; [done|]. destruct startup; cbn; [|done]. intros r [= <-]. lia.
  - destruct Hpl as [Hh Hl]. rewrite Hh in Hnew. injection Hnew as <- <-. split; [done|]. unfold placed. cbn.
    exists 0, (due (sc_clock σ) (nextDelay c interval random)). split; [done|]. split; [done|].
    split; [exact (next_due σ random Ha Hl)|done].
  - destruct Hpl as (n & d & Hh & [Ht Hd] & Hin & _). rewrite Hd, Hh. split; [done|]. unfold placed. cbn.
    exists n. split; [done|]. case_decide as Hn; [subst n; exact (stop_newest (sc_clock σ) 0 d)|].
    exists d. split; [|exact Hin]. destruct n as [|n]; [done|]. exact (stop_first (sc_clock σ) n d).
  - destruct Hpl as (n & d & Hh & [Ht' Hd] & [Hl _] & _). rewrite Ht in Ht'. injection Ht' as ->.
    rewrite Hh in Hr. apply receive_newest in Hr as [Hle ->]. split; [done|]. unfold placed. cbn.
    exists n. split; [done|]. split; [done|]. intros r Hr. specialize (Hl r Hr). cbn. lia.
  - destruct Hpl as (n & Hh & Hcur & Hl). split; [by apply paced_cons|]. unfold placed. cbn.
    exists n. split; [done|]. split; [done|]. intros r [= <-]. cbn. lia.
  - destruct Hpl as (n & Hh & [Ht' Hd] & Hl). rewrite Ht in Ht'. injection Ht' as ->.
    rewrite Hh in Hre. unfold Timer_Reset in Hre. rewrite quiet_armed, quiet_set in Hre.
    rewrite bool_decide_eq_false_2 in Hre by (by intros [? ?]). injection Hre as <- <-.
    split; [done|]. unfold placed. cbn. eexists n, _. split; [done|]. split; [done|].
    split; [exact (next_due σ random Ha Hl)|done].
  - destruct Hpl as (n & d & Hh & [Ht Hd] & _ & Hl). rewrite Hh, Ht, stop_newest. split; [done|]. unfold placed. cbn.
    exists n. split; [done|]. split; [done|]. by apply Hl.
  - destruct Hpl as (n & Hh & [Ht Hd] & Hl). rewrite Hh in Hnew. unfold NewSystemTimer in Hnew.
    replace (length (quiet (S n))) with (S n) in Hnew by (symmetry; apply length_replicate).
    injection Hnew as <- <-. split; [done|]. unfold placed. cbn. eexists (S n), _. split; [done|].
    split; [done|]. split; [exact (next_due σ random Ha Hl)|done].
  - split; [done|]. set (σ1 := mkSchedule later _ _ _ _ _).
    assert (Hs : forall delay, since_last σ delay (sc_clock σ) -> since_last σ1 delay later)
      by (intros delay Hl r Hh; specialize (Hl r Hh); lia).
    assert (Hr : forall d, in_reach σ d -> in_reach σ1 d) by (intros d [Hl Hd]; split; [exact Hl|cbn; lia]).
    unfold placed. change (pc σ1) with (pc σ). destruct (pc σ); [done|naive_solver ..|].
    destruct Hpl as (n & Hcur & Hn). exists n. split; [done|]. case_decide; naive_solver.
Qed.

Lemma reachable_ScInv start σ : schedule_reachable c interval startup start σ -> ScInv σ.
Proof using Hc Hjitter Hpos Hmax.
  assert (Hinit : ScInv (schedule_start start)) by (split; [by intros ? ? ? ?|done]).
  unfold schedule_reachable. intros Hr. revert Hinit. induction Hr; [done|]. intros Hinit. apply IHHr. by eapply ScInv_step.
Qed.
End Invariant.

(** ** How often a job is dispatched *)

(** Every dispatch is of a time that has been. *)
Definition dated (start : Time) (σ : Schedule) : Prop :=
  (start <= sc_clock σ)%Z /\ Forall (fun r => start <= r <= sc_clock σ)%Z (references σ).

Lemma dated_step c interval startup start σ σ' :
  dated start σ -> goroutine_step c interval startup σ σ' -> dated start σ'.
Proof.
  intros [Hs Hr]. destruct 1 as [| | | | | | | |later Hle]; unfold dated in *; cbn; try done.
  - split; [done|]. destruct startup; [|done]. constructor; [lia|done].
  - split; [done|]. constructor; [lia|done].
  - split; [lia|]. eapply Forall_impl; [exact Hr|]. cbn. lia.
Qed.

Lemma reachable_dated c interval startup start σ :
  schedule_reachable c interval startup start σ -> dated start σ.
Proof.
  assert (Hinit : dated start (schedule_start start)) by (split; [reflexivity|constructor]).
  unfold schedule_reachable. intros Hr. revert Hinit. induction Hr; [done|]. intros Hinit. apply IHHr. by eapply dated_step.
Qed.

Lemma paced_span interval start l h :
  paced interval (h :: l) -> Forall (fun r => start <= r)%Z (h :: l) ->
  (start + interval * Z.of_nat (length l) <= h)%Z.
Proof.
  revert h. induction l as [|r l IH]; intros h Hp Hf; inversion Hf as [|? ? Hh Hf']; subst; cbn [length]; [lia|].
  specialize (IH r (fun i => Hp (S i)) Hf'). specialize (Hp 0 h r eq_refl eq_refl). lia.
Qed.

Lemma dispatches_bounded interval start σ :
  (0 < interval)%Z -> dated start σ -> paced interval (references σ) ->
  (Z.of_nat (length (references σ)) <= 1 + (sc_clock σ - start) / interval)%Z.
Proof.
  intros Hpos [Hs Hf] Hp. destruct (references σ) as [|h l] eqn:Hr; cbn [length].
  - assert (0 <= (sc_clock σ - start) / interval)%Z by (apply Z.div_pos; lia). lia.
  - assert (Hspan : (start + interval * Z.of_nat (length l) <= h)%Z)
      by (apply paced_span; [done|]; eapply Forall_impl; [exact Hf|]; cbn; lia).
    inversion Hf as [|? ? Hh _]; subst.
    assert (Z.of_nat (length l) <= (sc_clock σ - start) / interval)%Z by (apply Z.div_le_lower_bound; lia). lia.
Qed.

(** C24: the schedule of a job, under a configuration the runner accepts and for any interval that
    still fits a duration with its jitter, some 194 years (neither the runner nor the configuration
    refuses a longer one, whose delays wrap: [nextDelay_wraps]).  Two dispatches are never closer
    than the interval, so that a job is dispatched at most once more than intervals have passed
    since the start, whatever the jitter and the delays.  At most one timer is armed, the current
    one: it fires at least an interval after the last dispatch and at most one and a half after it
    was armed (above 2^53 nanoseconds, 104 days, rounding may add 512 nanoseconds), and at its
    select the goroutine always has it to wait for.  When it returns, the deferred [stopTimer] has
    stopped the first timer only: the timer in use is left armed unless it is that one. *)
Theorem schedule_paced c interval startup start σ :
  config_invalid c = false -> valid_float (JitterRatio c) ->
  (0 < interval)%Z -> (interval + most_jitter interval < 2 ^ 63)%Z ->
  schedule_reachable c interval startup start σ ->
  paced interval (references σ) /\
  (Z.of_nat (length (references σ)) <= 1 + (sc_clock σ - start) / interval)%Z /\
  (forall t d, Armed t (heap σ) = Some d -> timer σ = Some t /\
    (forall r, head (references σ) = Some r -> (r + interval <= d)%Z) /\
    (d <= sc_clock σ + interval + most_jitter interval)%Z) /\
  ((interval <= 2 ^ 53)%Z -> most_jitter interval = (interval / 2)%Z) /\
  (most_jitter interval <= interval / 2 + 512)%Z /\
  (pc σ = PSelect -> exists t d, timer σ = Some t /\ Armed t (heap σ) = Some d) /\
  (pc σ = PReturned -> ((exists t d, Armed t (heap σ) = Some d) <-> timer σ <> deferred σ)).
Proof.
  intros Hc Hj Hpos Hmax Hr.
  destruct (reachable_ScInv c interval startup Hc Hj Hpos Hmax start σ Hr) as [Hp Hpl].
  split; [exact Hp|]. split; [apply dispatches_bounded; [done|by eapply reachable_dated|done]|]. unfold placed in Hpl.
  assert (Hquiet : forall n t d, heap σ = quiet n -> Armed t (heap σ) = Some d -> False)
    by (intros n t d ->; by rewrite quiet_armed).
  assert (Hnewest : forall n d, heap σ = quiet n ++ [Some d] -> current σ n -> in_reach interval σ d ->
    forall t d', Armed t (heap σ) = Some d' -> timer σ = Some t /\
      (forall r, head (references σ) = Some r -> (r + interval <= d')%Z) /\
      (d' <= sc_clock σ + interval + most_jitter interval)%Z)
    by (intros n d -> [Ht _] [Hs Hd] t d' [-> ->]%newest_armed; done).
  split; [|split; [apply most_jitter_exact|split; [apply most_jitter_upper|split]]].
  - intros t d Ha. destruct (pc σ);
      [destruct Hpl as [Hh _]|destruct Hpl as [Hh _]|destruct Hpl as (n & d' & Hh & Hcur & Hin & _)
      |destruct Hpl as (n & Hh & _)|destruct Hpl as (n & Hh & _)|destruct Hpl as (n & d' & Hh & Hcur & Hin & _)
      |destruct Hpl as (n & Hh & _)|destruct Hpl as (n & Hcur & Hn); case_decide; [|destruct Hn as (d' & Hh & Hin)]];
      solve [exfalso; by eapply Hquiet|by eapply Hnewest].
  - intros Hpc. rewrite Hpc in Hpl. destruct Hpl as (n & d & Hh & [Ht _] & _). exists n, d. split; [done|].
    rewrite Hh. apply newest_is_armed.
  - intros Hpc. rewrite Hpc in Hpl. destruct Hpl as (n & [Ht Hd] & Hn). rewrite Ht, Hd. case_decide as H0.
    + subst n. split; [|done]. intros (t & d & Ha). exfalso. by eapply Hquiet.
    + destruct Hn as (d & Hh & _). split; [by intros _ [= ?]|]. intros _. exists n, d. rewrite Hh. apply newest_is_armed.
Qed.

(** An hourly job canceled after its first tick: the second timer is still armed. *)
Definition sample_returned : Schedule :=
  mkSchedule (2 * Hour)%Z PReturned (Some 0) (Some 1) [None; Some (3 * Hour)%Z] [2 * Hour; 0]%Z.

Lemma sample_answer : answer f0.
Proof. by vm_compute. Qed.

(** Computes the state a step of a concrete run leads to. *)
Ltac run_cbn := cbn [sc_clock pc deferred timer heap references].

Lemma sample_returned_reachable : schedule_reachable sample_runner_config Hour true 0%Z sample_returned.
Proof.
  unfold schedule_reachable, schedule_start.
  eapply rtc_l; [by apply starts|]; run_cbn.
  eapply rtc_l; [eapply (first_timer _ _ _ _ f0); [done|exact sample_answer|reflexivity]|]; run_cbn.
  eapply rtc_l; [apply (passes _ _ _ _ (2 * Hour)%Z); by vm_compute|]; run_cbn.
  eapply rtc_l; [eapply (ticks _ _ _ _ 0); [done|done|vm_compute; reflexivity]|]; run_cbn.
  eapply rtc_l; [by apply dispatches|]; run_cbn.
  eapply rtc_l; [eapply (resets _ _ _ _ f0 0); [done|done|exact sample_answer|reflexivity]|]; run_cbn.
  eapply rtc_l; [by apply stops|]; run_cbn.
  eapply rtc_l; [eapply (renews _ _ _ _ f0); [done|exact sample_answer|reflexivity]|]; run_cbn.
  eapply rtc_l; [by apply canceled_returns|]; run_cbn.
  match goal with |- rtc _ ?a ?b => assert (a = b) as -> by (vm_compute; reflexivity) end. apply rtc_refl.
Qed.

Lemma schedule_paced_witness :
  pc sample_returned = PReturned /\ exists t d, Armed t (heap sample_returned) = Some d.
Proof.
  split; [reflexivity|].
  apply (schedule_paced sample_runner_config Hour true 0%Z sample_returned);
    [vm_compute; reflexivity|vm_compute; reflexivity|vm_compute; reflexivity|vm_compute; reflexivity
    |exact sample_returned_reachable|reflexivity|discriminate].
Defined.
