(* ===== verification/Bootstrap.v ===== *)
(** * Construction of the exporter (internal/app/bootstrap.go,
    internal/aws/costexplorer/instrumentation.go)

    How a validated configuration becomes collectors, jobs, a store, a status exporter and a
    runner.  The client factory is an argument: it answers with the clients of a target.  The
    labels a telemetry observer adds to a target's overflow events are the world's. *)

From S2P Require Import Prelude SliceStable GoStrings GoRegexp GoFloat GoTime GoUrl Errors Effects.
From S2P Require Import Pagination Domain Snapshot Cardinality Ports PromClient Metrics Collectors.
From S2P Require Import FamilyCollectors AccountReaders CostExplorer SummaryReaders Exporter Store.
From S2P Require Import Config Validation ValidationSpec AthenaQuery Athena Scheduler.
Local Open Scope string_scope.
Local Open Scope list_scope.

Section Bootstrap.
Context {W : Type} `{World W, AthenaWorld W}.

(** ** Instrumented Cost Explorer client (instrumentation.go) *)

(** The Cost Explorer client of a target: the two operations of [API], and those the commitment
    and anomaly readers call. *)
Record CostExplorerClient := mkCostExplorerClient {
  GetCostAndUsage : UsageAPI W;
  GetCostForecast : ForecastAPI W;
  ce_CommitmentAPI : CommitmentAPI W;
  ce_AnomalyAPI : AnomalyAPI W
}.

Record InstrumentedClient := mkInstrumented {
  inst_target : TargetID; inst_usage : UsageAPI W; inst_forecast : ForecastAPI W
}.

Definition NewInstrumented (target : TargetID) (api : option CostExplorerClient) :
    res InstrumentedClient :=
  match api with
  | None => Err (ErrorString "target and cost explorer API must not be empty")
  | Some api =>
      fail_if bool_decide (target = "") with_ ErrorString "target and cost explorer API must not be empty" ;;
      Ok (mkInstrumented target (GetCostAndUsage api) (GetCostForecast api))
  end.

Definition instrumented_GetCostAndUsage (client : InstrumentedClient) : UsageAPI W := fun input =>
  ObserveCall (inst_target client) "GetCostAndUsage" (inst_usage client input).
Definition instrumented_GetCostForecast (client : InstrumentedClient) : ForecastAPI W := fun input =>
  ObserveCall (inst_target client) "GetCostForecast" (inst_forecast client input).

(** ** Readers with the filters of a target *)

Record filteredReader := mkFilteredReader {
  fr_usage : UsageAdapter W; fr_forecast : ForecastAPI W; fr_filters : FiltersConfig;
  fr_bases : list Basis
}.

Definition filter_query (filters : FiltersConfig) (query : CostQuery) : CostQuery :=
  mkCostQuery (q_Period query) (q_Window query) (q_Basis query) (q_GroupBy query)
    (flt_LinkedAccountIDs filters) (flt_Services filters) (flt_Regions filters).

Definition filtered_ReadCosts (reader : filteredReader) : GroupedReader W := fun query =>
  let query := filter_query (fr_filters reader) query in
  let bases := if bool_decide (length (fr_bases reader) = 0) then [BasisUnblended]
               else fr_bases reader in
  io_each (fun basis => UsageAdapter_ReadCosts (fr_usage reader) (set_query_basis basis query)) bases.

Definition filtered_ReadForecast (reader : filteredReader) (query : ForecastQuery) : io W Forecast :=
  let basis := match fr_bases reader with basis :: _ => basis | [] => BasisUnblended end in
  ForecastAdapter_ReadForecast (fr_forecast reader)
    (mkForecastQuery (fq_Period query) basis (fq_PredictionInterval query)
       (flt_LinkedAccountIDs (fr_filters reader)) (flt_Services (fr_filters reader))
       (flt_Regions (fr_filters reader))).

Definition filtered_ReadTagCosts (reader : filteredReader) : TagReader W := fun query tagKey =>
  UsageAdapter_ReadTagCosts (fr_usage reader) (filter_query (fr_filters reader) query) tagKey.

(** [cost.Basis] is a string type: the conversion keeps the text. *)
Definition configuredCostBases (values : list string) : list Basis := map (fun value => value) values.

(** ** Collectors of a target *)

(** The constructors of [buildCostCollectors], in order, with whether each is enabled. *)
Definition cost_constructors (target : TargetID) (reader : filteredReader)
    (targetConfig : TargetConfig) (value : AppConfig) : list (bool * res (Collector W)) :=
  let settings := col_CostExplorer (cfg_Collection value) in
  let enabled := cce_Collectors settings in
  let limit := dim_SeriesLimit (cce_Dimensions settings) in
  let label := dim_OverflowLabel (cce_Dimensions settings) in
  let costs := Some (filtered_ReadCosts reader) in
  [(en_Total enabled, total_NewForTarget target costs);
   (en_Service enabled, service_NewForTarget target costs limit label 1);
   (en_Region enabled, region_NewForTarget target costs limit label 1);
   (en_Account enabled, account_NewForTarget target costs
      (flt_LinkedAccountIDs (ce_Filters targetConfig)) limit label 1);
   (en_Forecast enabled, forecast_NewForTarget target (Some (filtered_ReadForecast reader))
      (cce_PredictionInterval settings))].

Fixpoint build_enabled (constructors : list (bool * res (Collector W))) : res (list (Collector W)) :=
  match constructors with
  | [] => Ok []
  | (enabled, build) :: constructors =>
      if negb enabled then build_enabled constructors
      else collector ← build; rest ← build_enabled constructors; Ok (collector :: rest)
  end.

Definition buildCostCollectors (target : TargetID) (reader : filteredReader)
    (targetConfig : TargetConfig) (value : AppConfig) : res (list (Collector W)) :=
  build_enabled (cost_constructors target reader targetConfig value).

(** A collector that verifies the identity of its clients first. *)
Definition verifiedCollector (collector : Collector W) (verifier : io W unit) : Collector W :=
  mkCollector (ID collector) (fun reference => _ ← verifier; Collect collector reference).

(** ** Jobs *)

(** The clients of a target, each perhaps nil, and their verifier. *)
Record Clients := mkClients {
  cl_CostExplorer : option CostExplorerClient;
  cl_Organizations : option (OrgAPI W);
  cl_Budgets : option (BudgetAPI W);
  cl_Athena : option (AthenaAPI W);
  cl_Verifier : io W unit
}.

(** A scheduler job with its collector. *)
Record AppJob := mkAppJob { aj_Collector : Collector W; aj_Interval : Duration; aj_Startup : bool }.

(** The inner loop of [configuredCollectorIDs], and the body of the outer one. *)
Definition cost_ids (value : AppConfig) (t : TargetConfig) : list CollectorID :=
  let enabled := cce_Collectors (col_CostExplorer (cfg_Collection value)) in
  flat_map (fun item : string * bool => if item.2 then [mkCollectorID (tgt_Name t) item.1] else [])
    [("total", en_Total enabled); ("service", en_Service enabled); ("region", en_Region enabled);
     ("account", en_Account enabled); ("forecast", en_Forecast enabled)].

Definition target_ids (value : AppConfig) (t : TargetConfig) : list CollectorID :=
  let id (on : bool) (name : string) := if on then [mkCollectorID (tgt_Name t) name] else [] in
  (if ce_Enabled t then cost_ids value t ++ id (tags_Enabled t) "tags" else []) ++
  id (org_Enabled t) "organizations" ++ id (bud_Enabled t) "budgets" ++
  id (com_Enabled t) "commitments" ++ id (ano_Enabled t) "anomalies" ++
  id (cur_Enabled (tgt_CUR t)) "cur".

Definition configuredCollectorIDs (value : AppConfig) : list CollectorID :=
  flat_map (target_ids value) (cfg_Targets value).

Definition organizationPolicies (value : AppConfig) : gmap TargetID OrganizationPolicy :=
  fold_left (fun result t =>
    if org_Enabled t
    then <[ tgt_Name t := mkPolicy (org_AccountIDs t)
              (fam_SeriesLimit (col_Organizations (cfg_Collection value))) ]> result
    else result) (cfg_Targets value) ∅.

Definition unfilteredGroupedCollectors (value : AppConfig) (target : TargetConfig) : bool :=
  let enabled := cce_Collectors (col_CostExplorer (cfg_Collection value)) in
  let filters := ce_Filters target in
  ce_Enabled target && (en_Service enabled || en_Region enabled || en_Account enabled) &&
  bool_decide (length (flt_LinkedAccountIDs filters) = 0) &&
  bool_decide (length (flt_Services filters) = 0) && bool_decide (length (flt_Regions filters) = 0).

(** What a block of [buildJobs] does with the collector it made. *)
Definition verified_job (value : AppConfig) (clients : Clients) (interval : Duration)
    (collector : Collector W) : AppJob :=
  mkAppJob (verifiedCollector collector (cl_Verifier clients)) interval
    (col_StartupRefresh (cfg_Collection value)).

(** The Cost Explorer block: its jobs, and the collectors a required target must have. *)
Definition cost_jobs (value : AppConfig) (t : TargetConfig) (clients : Clients) :
    res (list AppJob * list CollectorID) :=
  let collection := cfg_Collection value in
  let target := tgt_Name t in
  let bases := configuredCostBases (CostBases (col_CostExplorer collection)) in
  if negb (ce_Enabled t) then Ok ([], []) else
  instrumented ← NewInstrumented target (cl_CostExplorer clients);
  usage ← NewUsageAdapterForTarget target (Some (instrumented_GetCostAndUsage instrumented))
            (cce_MaxPages (col_CostExplorer collection)) "UnblendedCost";
  forecastReader ← NewForecastAdapter (Some (instrumented_GetCostForecast instrumented));
  let reader := mkFilteredReader usage forecastReader (ce_Filters t) bases in
  costCollectors ← buildCostCollectors target reader t value;
  let jobs := map (verified_job value clients (col_RefreshInterval collection)) costCollectors in
  let required := if tgt_Required t then map ID costCollectors else [] in
  if negb (tags_Enabled t) then Ok (jobs, required) else
  tagUsage ← NewUsageAdapterForTarget target (Some (instrumented_GetCostAndUsage instrumented))
               (fam_MaxPages (col_Tags collection)) "UnblendedCost";
  let tagReader := mkFilteredReader tagUsage forecastReader (ce_Filters t) bases in
  collector ← tag_New target (Some (filtered_ReadTagCosts tagReader)) bases (tags_Keys t)
                (fam_SeriesLimit (col_Tags collection))
                (dim_OverflowLabel (cce_Dimensions (col_CostExplorer collection))) 1;
  Ok (jobs ++ [verified_job value clients (fam_RefreshInterval (col_Tags collection)) collector], required).

(** One optional block: nothing when disabled, or the job of the collector it builds. *)
Definition optional_job (value : AppConfig) (clients : Clients) (enabled : bool)
    (interval : Duration) (build : res (Collector W)) : res (list AppJob) :=
  if negb enabled then Ok []
  else collector ← build; Ok [verified_job value clients interval collector].

Definition build_organizations (value : AppConfig) (t : TargetConfig) (clients : Clients) :
    res (Collector W) :=
  let settings := col_Organizations (cfg_Collection value) in
  reader ← organizations_NewReader (tgt_Name t) (cl_Organizations clients) (fam_MaxPages settings)
             (AccountReaders.mkPolicy (org_AccountIDs t) (fam_SeriesLimit settings)) true;
  organizations_New (tgt_Name t) (Some (ReadAccounts reader)).

Definition build_budgets (value : AppConfig) (t : TargetConfig) (clients : Clients) :
    res (Collector W) :=
  let settings := col_Budgets (cfg_Collection value) in
  reader ← budgets_NewReader (tgt_Name t) (tgt_AccountID t) (cl_Budgets clients)
             (fam_MaxPages settings) (bud_Names t) true;
  budget_New (tgt_Name t) (Some (ReadBudgets reader)).

Definition build_commitments (value : AppConfig) (t : TargetConfig) (clients : Clients) :
    res (Collector W) :=
  let settings := col_Commitments (cfg_Collection value) in
  reader ← NewCommitmentReader (tgt_Name t) (ce_CommitmentAPI <$> cl_CostExplorer clients)
             (fam_MaxPages settings);
  commitment_New (tgt_Name t) (Some (ce_commitments reader)) (fam_SeriesLimit settings).

Definition build_anomalies (value : AppConfig) (t : TargetConfig) (clients : Clients) :
    res (Collector W) :=
  let settings := col_Anomalies (cfg_Collection value) in
  reader ← NewAnomalyReader (tgt_Name t) (ce_AnomalyAPI <$> cl_CostExplorer clients)
             (fam_MaxPages settings);
  anomaly_New (tgt_Name t) (Some (ReadAnomalySummary reader)) (fam_SeriesLimit settings).

Section Construction.
(** The order the CUR collector ranges over tag groups, the delay with which a passed query
    deadline is seen, the client factory, and the order of a range over the map of policies. *)
Context (range_groups : list groupKey -> list groupKey) (slack : Z)
  (ForTarget : TargetConfig -> res Clients).

Definition build_cur (value : AppConfig) (t : TargetConfig) (clients : Clients) :
    res (Collector W) :=
  let collection := cfg_Collection value in
  let settings := col_CUR collection in
  reader ← athena_NewReader (tgt_Name t) (cl_Athena clients) (tgt_CUR t) (ccur_MaxPages settings)
             (ccur_MaxRows settings);
  cur_New range_groups (tgt_Name t) (Some (athena_reader slack reader))
    (configuredCostBases (CostBases (col_CostExplorer collection))) (tags_Enabled t)
    (ccur_SeriesLimit settings) (fam_SeriesLimit (col_Tags collection)) (ccur_MaxCurrencies settings)
    (tags_Keys t) (dim_OverflowLabel (cce_Dimensions (col_CostExplorer collection))) 1.

(** One iteration of the loop of [buildJobs]. *)
Definition target_jobs (value : AppConfig) (t : TargetConfig) : res (list AppJob * list CollectorID) :=
  let collection := cfg_Collection value in
  clients ← map_err (Wrapped "construct target AWS clients") (ForTarget t);
  '(cost, required) ← cost_jobs value t clients;
  organizations ← optional_job value clients (org_Enabled t)
    (fam_RefreshInterval (col_Organizations collection)) (build_organizations value t clients);
  budgets ← optional_job value clients (bud_Enabled t)
    (fam_RefreshInterval (col_Budgets collection)) (build_budgets value t clients);
  commitments ← optional_job value clients (com_Enabled t)
    (fam_RefreshInterval (col_Commitments collection)) (build_commitments value t clients);
  anomalies ← optional_job value clients (ano_Enabled t)
    (fam_RefreshInterval (col_Anomalies collection)) (build_anomalies value t clients);
  cur ← optional_job value clients (cur_Enabled (tgt_CUR t))
    (ccur_RefreshInterval (col_CUR collection)) (build_cur value t clients);
  Ok (cost ++ organizations ++ budgets ++ commitments ++ anomalies ++ cur, required).

Fixpoint build_target_jobs (value : AppConfig) (targets : list TargetConfig) :
    res (list AppJob * list CollectorID) :=
  match targets with
  | [] => Ok ([], [])
  | t :: targets =>
      '(jobs, required) ← target_jobs value t;
      '(more_jobs, more_required) ← build_target_jobs value targets;
      Ok (jobs ++ more_jobs, required ++ more_required)
  end.

Definition buildJobs (value : AppConfig) : res (list AppJob * list CollectorID) :=
  build_target_jobs value (cfg_Targets value).

(** ** The scheduler's view of the jobs *)

Definition scheduler_job (job : AppJob) : Job :=
  mkJob (Some (ID (aj_Collector job))) (aj_Interval job) (aj_Startup job).

Definition scheduler_config (value : AppConfig) : Scheduler.Config :=
  let collection := cfg_Collection value in
  let backoff := FailureBackoff collection in
  Scheduler.mkConfig 0%Z false (col_JitterRatio collection) (col_MaxConcurrency collection)
    (mkBackoff (fb_MaxAttempts backoff) (fb_Initial backoff) (fb_Max backoff) (fb_Multiplier backoff))
    true true.

End Construction.
End Bootstrap.
Arguments Clients W : clear implicits.
Arguments AppJob W : clear implicits.

(** ** Every job keeps the collectors' contract *)

Section Contracts.
Context {W : Type} `{World W, AthenaWorld W}.

#[export] Instance filtered_cost_laws (reader : filteredReader) :
  CostReaderLaws (filtered_ReadCosts (W := W) reader).
Proof.
  intros q w vs w' Hr. unfold filtered_ReadCosts in Hr. revert w vs w' Hr. apply Forall_io_each.
  intros basis w vs w' _ Hr. apply (reader_costs_ok (reader := UsageAdapter_ReadCosts (fr_usage reader))) in Hr.
  exact Hr.
Qed.

#[export] Instance filtered_forecast_laws (reader : filteredReader) :
  ForecastReaderLaws (filtered_ReadForecast (W := W) reader).
Proof. intros q w f w' Hr. by eapply (reader_forecast_ok (reader := ForecastAdapter_ReadForecast (fr_forecast reader))). Qed.

#[export] Instance filtered_tag_laws (reader : filteredReader) :
  TagReaderLaws (filtered_ReadTagCosts (W := W) reader).
Proof.
  intros q key w vs w' Hr.
  by apply (reader_tags_ok (reader := UsageAdapter_ReadTagCosts (fr_usage reader))) in Hr.
Qed.

(** Verification changes nothing but what it refuses. *)
Lemma verified_publishes (c : Collector W) verifier :
  publishes c -> publishes (verifiedCollector c verifier).
Proof.
  intros Hc reference w p w' Hp. cbn [verifiedCollector Collect ID] in *.
  apply io_bind_ok in Hp as ([] & w1 & _ & Hp). by eapply Hc.
Qed.

Lemma build_enabled_ok (constructors : list (bool * res (Collector W))) cs :
  build_enabled constructors = Ok cs ->
  Forall (fun c => exists build, (true, build) ∈ constructors /\ build = Ok c) cs.
Proof.
  revert cs. induction constructors as [|[[] build] l IH]; intros cs Hb; simpl in Hb.
  - injection Hb as <-. constructor.
  - apply bind_ok in Hb as (c & Hc & (rest & Hrest & [= <-])%bind_ok). constructor.
    + exists build. split; [by left|done].
    + eapply Forall_impl; [by apply IH|]. intros c' (b & Hin & Hb). exists b. split; [by right|done].
  - eapply Forall_impl; [by apply IH|]. intros c' (b & Hin & Hb'). exists b. split; [by right|done].
Qed.

Lemma buildCostCollectors_publish target reader t value cs :
  buildCostCollectors target reader t value = Ok cs -> Forall publishes cs.
Proof.
  intros Hb%build_enabled_ok. eapply Forall_impl; [exact Hb|].
  intros c (build & Hin & Hc). unfold cost_constructors in Hin.
  repeat (apply elem_of_cons in Hin as [Hin|Hin]); [..|by apply elem_of_nil in Hin];
    apply (f_equal snd) in Hin; cbn [snd] in Hin; rewrite Hin in Hc.
  - eapply total_contract; [apply _|exact Hc].
  - eapply (grouped_contract ErrNilReader_service "service" DimensionService); [apply _|done|exact Hc].
  - eapply (grouped_contract ErrNilReader_region "region" DimensionRegion); [apply _|done|exact Hc].
  - eapply account_contract; [apply _|exact Hc].
  - eapply forecast_contract; [apply _|exact Hc].
Qed.

Definition job_publishes (job : AppJob W) : Prop := publishes (aj_Collector job).

Lemma verified_job_publishes value clients interval (c : Collector W) :
  publishes c -> job_publishes (verified_job value clients interval c).
Proof. apply verified_publishes. Qed.

Lemma cost_jobs_publish value t clients jobs required :
  cost_jobs (W := W) value t clients = Ok (jobs, required) -> Forall job_publishes jobs.
Proof.
  unfold cost_jobs. cbv zeta. destruct (negb (ce_Enabled t)); [by intros [= <- _]|].
  intros (inst & Hi & (usage & Hu & (forecast & Hf & (cs & Hcs & Hjobs)%bind_ok)%bind_ok)%bind_ok)%bind_ok.
  apply buildCostCollectors_publish in Hcs.
  assert (Hcost : Forall job_publishes
    (map (verified_job value clients (col_RefreshInterval (cfg_Collection value))) cs)).
  { apply Forall_map. eapply Forall_impl; [exact Hcs|]. intros c. apply verified_job_publishes. }
  destruct (negb (tags_Enabled t)); [by injection Hjobs as <- _|].
  apply bind_ok in Hjobs as (tagUsage & _ & (c & Hc & [= <- _])%bind_ok).
  apply Forall_app. split; [exact Hcost|]. apply Forall_singleton, verified_job_publishes.
  eapply tag_contract; [apply _|exact Hc].
Qed.

Lemma optional_job_publishes value clients enabled interval build jobs :
  (forall c, build = Ok c -> publishes c) ->
  optional_job (W := W) value clients enabled interval build = Ok jobs -> Forall job_publishes jobs.
Proof.
  intros Hbuild. unfold optional_job. destruct (negb enabled); [by intros [= <-]|].
  intros (c & Hc & [= <-])%bind_ok. by apply Forall_singleton, verified_job_publishes, Hbuild.
Qed.

Section Jobs.
Context (range_groups : list groupKey -> list groupKey) (slack : Z)
  (ForTarget : TargetConfig -> res (Clients W)).

Lemma target_jobs_publish value t jobs required :
  target_jobs range_groups slack ForTarget value t = Ok (jobs, required) -> Forall job_publishes jobs.
Proof.
  intros (clients & _ & Hjobs)%bind_ok.
  apply bind_ok in Hjobs as ([cost req] & Hcost & Hjobs).
  apply bind_ok in Hjobs as (organizations & Ho & Hjobs).
  apply bind_ok in Hjobs as (budgets & Hb & Hjobs).
  apply bind_ok in Hjobs as (commitments & Hc & Hjobs).
  apply bind_ok in Hjobs as (anomalies & Ha & Hjobs).
  apply bind_ok in Hjobs as (cur & Hcur & [= <- _]).
  rewrite !Forall_app. split; [by eapply cost_jobs_publish|].
  split; [|split; [|split; [|split]]]; (eapply optional_job_publishes; [|eassumption]); intros c.
  - intros (reader & Hr & Hn)%bind_ok. eapply organizations_contract; [|exact Hn].
    intros w l w' Hread a Hin. rewrite (ReadAccounts_target _ _ _ _ Hread a Hin).
    unfold organizations_NewReader in Hr. destruct (cl_Organizations clients); [|done].
    apply guard_ok in Hr as [_ (al & _ & [= <-])%bind_ok]. done.
  - intros (reader & Hr & Hn)%bind_ok. eapply budget_contract; [|exact Hn].
    intros w l w' Hread b Hin. rewrite (ReadBudgets_target _ _ _ _ Hread b Hin).
    unfold budgets_NewReader in Hr. destruct (cl_Budgets clients); [|done].
    rewrite !guard_ok in Hr. by destruct Hr as (_ & _ & _ & [= <-]).
  - intros (reader & _ & Hn)%bind_ok reference w p w' Hp.
    apply (commitment_contract _ _ _ _ Hn) in Hp as (? & _ & ->). done.
  - intros (reader & Hr & Hn)%bind_ok. eapply anomaly_contract; [|exact Hn].
    intros reference w a w' Hread. rewrite (ReadAnomalySummary_target _ _ _ _ _ Hread).
    unfold NewAnomalyReader in Hr. destruct (ce_AnomalyAPI <$> cl_CostExplorer clients); [|done].
    by apply guard_ok in Hr as [_ [= <-]].
  - intros (reader & Hr & Hn)%bind_ok.
    assert (Ht : ath_target reader = tgt_Name t).
    { unfold athena_NewReader in Hr. destruct (cl_Athena clients); [|done].
      rewrite !guard_ok in Hr. by destruct Hr as (_ & _ & [= <-]). }
    eapply cur_contract; [|exact Hn]. rewrite <- Ht. apply _.
Qed.

Lemma build_target_jobs_publish value targets : forall jobs required,
  build_target_jobs range_groups slack ForTarget value targets = Ok (jobs, required) ->
  Forall job_publishes jobs.
Proof.
  induction targets as [|t targets IH]; intros jobs required Hb; cbn [build_target_jobs] in Hb.
  - injection Hb as <- _. constructor.
  - apply bind_ok in Hb as ([j1 r1] & H1 & ([j2 r2] & H2 & [= <- _])%bind_ok).
    apply Forall_app. split; [by eapply target_jobs_publish|by eapply IH].
Qed.

(** C30: every job the exporter builds, from any configuration and any clients, keeps the contract
    of a collector: whatever partial it answers with passes [ValidatePartial] for the target of
    its own identity, can be exposed as metrics, and is sorted.  The laws of the readers are
    those of the adapters themselves: Cost Explorer, Organizations, Budgets and Athena. *)
Theorem buildJobs_publish value jobs required :
  buildJobs range_groups slack ForTarget value = Ok (jobs, required) ->
  forall job, job ∈ jobs -> publishes (aj_Collector job).
Proof. intros Hb. apply Forall_forall. change (Forall job_publishes jobs). by eapply build_target_jobs_publish. Qed.
End Jobs.
End Contracts.

(** ** Identities *)

Definition collector_names : list string :=
  ["total"; "service"; "region"; "account"; "forecast"; "tags"; "organizations"; "budgets";
   "commitments"; "anomalies"; "cur"].

Lemma sublist_if {A} (b : bool) (x : A) l k : l `sublist_of` k -> (if b then [x] else []) ++ l `sublist_of` x :: k.
Proof. intros Hs. destruct b; simpl; [by constructor|by constructor]. Qed.

(** The collectors of a target are among the eleven names, in this order. *)
Lemma target_ids_sublist value t :
  target_ids value t `sublist_of` map (mkCollectorID (tgt_Name t)) collector_names.
Proof.
  unfold target_ids, cost_ids, collector_names. cbn [map flat_map fst snd]. destruct (ce_Enabled t).
  - rewrite <- !app_assoc. cbn [app]. repeat apply sublist_if.
    rewrite <- (app_nil_r (if cur_Enabled _ then _ else _)). apply sublist_if. constructor.
  - cbn [app]. do 6 apply sublist_cons. repeat apply sublist_if.
    rewrite <- (app_nil_r (if cur_Enabled _ then _ else _)). apply sublist_if. constructor.
Qed.

Lemma target_ids_elem value t id :
  id ∈ target_ids value t -> ID_Target id = tgt_Name t /\ ID_Name id ∈ collector_names.
Proof.
  intros Hid. pose proof (sublist_submseteq _ _ (target_ids_sublist value t)) as Hs.
  apply (elem_of_submseteq _ _ _ Hid) in Hs. by apply elem_of_map in Hs as (n & Hn & <-).
Qed.

Lemma target_ids_NoDup value t : NoDup (target_ids value t).
Proof.
  eapply sublist_NoDup; [|apply target_ids_sublist]. apply NoDup_fmap_2; [by intros x y [=]|].
  refine (proj1 (bool_decide_eq_true _) _). vm_compute. reflexivity.
Qed.

Lemma configuredCollectorIDs_NoDup value :
  NoDup (map tgt_Name (cfg_Targets value)) -> NoDup (configuredCollectorIDs value).
Proof.
  intros Hn. unfold configuredCollectorIDs.
  apply (NoDup_flat_map_transfer (fun t => [tgt_Name t])).
  - by rewrite flat_map_map_singleton.
  - intros t _. apply target_ids_NoDup.
  - intros t u id _ _ [Ht _]%target_ids_elem [Hu _]%target_ids_elem. exists (ID_Target id).
    rewrite Ht in Hu |- *. split; [by left|]. rewrite Hu. by left.
Qed.

Section Valid.
Context (LookupEnv : string -> option string) (value : AppConfig) (Hvalid : Valid LookupEnv value).

Lemma target_named t : t ∈ cfg_Targets value -> well_named (tgt_Name t).
Proof.
  intros Ht. eapply format_well_named; [|exact (vt_name _ _ _ (v_targets _ _ Hvalid t Ht))]. by vm_compute.
Qed.

Lemma collector_name_valid target name :
  well_named target -> name ∈ collector_names -> CollectorID_Valid (mkCollectorID target name) = true.
Proof.
  intros [Hne Htrim] Hname. unfold CollectorID_Valid. cbn [ID_Target ID_Name].
  rewrite (bool_decide_true _ Htrim), (bool_decide_false _ Hne).
  revert name Hname. apply Forall_forall. refine (proj1 (bool_decide_eq_true _) _). vm_compute. reflexivity.
Qed.

Lemma configured_valid id : id ∈ configuredCollectorIDs value -> CollectorID_Valid id = true.
Proof.
  intros (t & Ht & Hid)%elem_of_flat_map. apply target_ids_elem in Hid as [Htarget Hname].
  destruct id as [target name]. cbn in *. subst. apply collector_name_valid; [by apply target_named|done].
Qed.

(** ** Every constructor accepts what validation accepts *)

Lemma account_format v : has_format accountIDPattern v ->
  String.length v = 12 /\ forallb is_digit (bytes v) = true.
Proof.
  intros Hf. apply Matches_class_repeat in Hf as (Hmin & Hmax & Hall).
  specialize (Hmax 12 eq_refl). split.
  - assert (length (bytes v) = String.length v) as <-
      by (clear; induction v as [|c v IH]; simpl; congruence). lia.
  - rewrite forallb_elem_of in Hall |- *. intros c Hc. specialize (Hall c Hc).
    assert (Hd : forallb (fun c => implb (in_class [digit] c) (is_digit c)) all_bytes = true) by (by vm_compute).
    pose proof (proj1 (forallb_elem_of _ _) Hd c (all_bytes_full c)) as Hi. cbv beta in Hi.
    rewrite Hall in Hi. exact Hi.
Qed.

Lemma account_ids_valid l :
  ValidNames (Some accountIDPattern) l -> NoDup l /\ forallb validAccountID l = true.
Proof.
  intros [Hnd Hl]. split; [done|]. apply forallb_elem_of. intros v Hv. destruct (Hl v Hv) as [_ Hf].
  destruct (account_format v (Hf _ eq_refl)) as [Hlen Hd]. unfold validAccountID.
  by rewrite (bool_decide_true _ Hlen).
Qed.

(** A constructor that succeeds with the identity [id]. *)
Definition builds {W} (r : res (Collector W)) (id : CollectorID) : Prop :=
  exists c, r = Ok c /\ ID c = id.

Lemma build_enabled_builds {W} (l : list (bool * res (Collector W))) (ids : list CollectorID) :
  Forall2 (fun entry id => entry.1 = true -> builds entry.2 id) l ids ->
  exists cs, build_enabled l = Ok cs /\
    map ID cs = concat (zip_with (fun (entry : bool * res (Collector W)) id => if entry.1 then [id] else []) l ids).
Proof.
  induction 1 as [|[[] build] id l ids Hb _ (cs & Hcs & Hids)]; cbn [build_enabled zip_with concat fst snd negb] in *.
  - by exists [].
  - destruct (Hb eq_refl) as (c & -> & Hc). exists (c :: cs). simpl. rewrite Hcs. simpl.
    split; [done|]. by rewrite Hc, Hids.
  - by exists cs.
Qed.

Lemma within_pos v limit : within v limit -> (v <=? 0)%Z = false.
Proof. unfold within. intros. apply Z.leb_gt. lia. Qed.

Lemma overflow_label_ok : ValidateOverflowLabel
  (dim_OverflowLabel (cce_Dimensions (col_CostExplorer (cfg_Collection value)))) = Ok tt.
Proof.
  destruct (v_collection _ _ Hvalid) as (_ & _ & _ & _ & _ & _ & Hce & _).
  destruct Hce as (_ & _ & _ & _ & _ & _ & _ & _ & Hne & Htrim).
  unfold ValidateOverflowLabel. by rewrite Htrim, bool_decide_false.
Qed.

Section Clients.
Context {W : Type} `{World W, AthenaWorld W}.

Lemma buildCostCollectors_ok t (reader : filteredReader (W := W)) :
  t ∈ cfg_Targets value ->
  exists cs, buildCostCollectors (tgt_Name t) reader t value = Ok cs /\ map ID cs = cost_ids value t.
Proof.
  intros Ht. unfold buildCostCollectors.
  destruct (v_collection _ _ Hvalid) as (_ & _ & _ & _ & _ & _ & Hce & _).
  destruct Hce as (_ & _ & _ & _ & _ & Hpred & Hlimit%within_pos & _).
  pose proof overflow_label_ok as Hlabel. pose proof (target_named t Ht) as Hname.
  destruct (vt_filters _ _ _ (v_targets _ _ Hvalid t Ht)) as [[_ Haccounts]%account_ids_valid _].
  destruct (build_enabled_builds (cost_constructors (tgt_Name t) reader t value)
    (map (mkCollectorID (tgt_Name t)) ["total"; "service"; "region"; "account"; "forecast"])) as (cs & Hcs & Hids).
  - unfold cost_constructors. cbn [map]. repeat apply List.Forall2_cons; cbn [fst snd]; try intros Hen.
    + unfold total_NewForTarget, builds. rewrite collector_name_valid by (done || set_solver). simpl. eauto.
    + unfold service_NewForTarget, grouped_NewForTarget, builds. rewrite Hlimit, Hlabel. simpl. eauto.
    + unfold region_NewForTarget, grouped_NewForTarget, builds. rewrite Hlimit, Hlabel. simpl. eauto.
    + unfold account_NewForTarget, builds. rewrite Hlimit, Hlabel, Haccounts. simpl. eauto.
    + unfold forecast_NewForTarget, builds. destruct (Hpred Hen) as [Hlo Hhi].
      rewrite (proj2 (Z.ltb_ge _ _) Hlo), (proj2 (Z.ltb_ge _ _) Hhi). simpl. eauto.
    + constructor.
  - exists cs. split; [exact Hcs|]. by rewrite Hids.
Qed.

(** The clients a target needs are there. *)
Definition clients_for (t : TargetConfig) (clients : Clients W) : Prop :=
  (ce_Enabled t || com_Enabled t || ano_Enabled t = true -> is_Some (cl_CostExplorer clients)) /\
  (org_Enabled t = true -> is_Some (cl_Organizations clients)) /\
  (bud_Enabled t = true -> is_Some (cl_Budgets clients)) /\
  (cur_Enabled (tgt_CUR t) = true -> is_Some (cl_Athena clients)).

Definition job_id (job : AppJob W) : CollectorID := ID (aj_Collector job).

(** Jobs with these identities and positive intervals. *)
Definition jobs_for (jobs : list (AppJob W)) (ids : list CollectorID) : Prop :=
  map job_id jobs = ids /\ Forall (fun job => (0 < aj_Interval job)%Z) jobs.

Lemma jobs_for_app j1 j2 i1 i2 : jobs_for j1 i1 -> jobs_for j2 i2 -> jobs_for (j1 ++ j2) (i1 ++ i2).
Proof. intros [<- H1] [<- H2]. split; [apply map_app|by apply Forall_app]. Qed.

Lemma jobs_for_collectors clients interval cs :
  (0 < interval)%Z -> jobs_for (map (verified_job value clients interval) cs) (map ID cs).
Proof.
  intros Hi. split; [by rewrite map_map|]. apply Forall_map, Forall_forall. by intros c _.
Qed.

Lemma optional_job_ok clients (enabled : bool) interval (build : res (Collector W)) id :
  (0 < interval)%Z -> (enabled = true -> builds build id) ->
  exists jobs, optional_job value clients enabled interval build = Ok jobs /\
    jobs_for jobs (if enabled then [id] else []).
Proof.
  intros Hi Hb. unfold optional_job. destruct enabled; simpl.
  - destruct (Hb eq_refl) as (c & -> & <-). eexists. split; [reflexivity|].
    by apply (jobs_for_collectors clients interval [c]).
  - exists []. split; [done|]. split; [done|constructor].
Qed.

Lemma timeout_pos : (0 < RequestTimeout (cfg_AWS value))%Z.
Proof. apply (v_aws _ _ Hvalid). Qed.

Lemma family_ok limit (family : FamilyConfig) :
  ValidFamily (RequestTimeout (cfg_AWS value)) limit family ->
  (0 < fam_RefreshInterval family)%Z /\ (fam_MaxPages family <=? 0)%Z = false /\
  (fam_SeriesLimit family <=? 0)%Z = false.
Proof.
  intros (Hi & Hp%within_pos & Hs%within_pos). pose proof timeout_pos. split; [lia|done].
Qed.

Section Target.
Context (t : TargetConfig) (Ht : t ∈ cfg_Targets value) (clients : Clients W)
  (Hclients : clients_for t clients).

Lemma cost_jobs_ok :
  exists jobs, cost_jobs value t clients =
      Ok (jobs, if tgt_Required t && ce_Enabled t then cost_ids value t else []) /\
    jobs_for jobs (if ce_Enabled t then cost_ids value t ++
      (if tags_Enabled t then [mkCollectorID (tgt_Name t) "tags"] else []) else []).
Proof.
  unfold cost_jobs. cbv zeta. destruct (ce_Enabled t) eqn:Hce; cbn [negb].
  2: { exists []. rewrite andb_false_r. split; [done|]. split; [done|constructor]. }
  destruct Hclients as [[client Hclient] _]; [by rewrite Hce|].
  destruct (target_named t Ht) as [Hname _].
  unfold NewInstrumented. rewrite Hclient, (bool_decide_false _ Hname). cbn [guard_err mbind result_bind].
  pose proof (v_collection _ _ Hvalid) as (Hrefresh & _ & _ & _ & _ & _ & Hcost & _ & _ & _ & _ & Htags & _).
  destruct Hcost as (_ & _ & _ & _ & Hpages%within_pos & _).
  unfold NewUsageAdapterForTarget, NewUsagePaginatorForTarget. rewrite Hpages.
  cbn [guard_err mbind result_bind bool_decide NewForecastAdapter].
  rewrite !(bool_decide_false ("UnblendedCost" = "")) by done. cbn [guard_err mbind result_bind].
  match goal with |- context [buildCostCollectors _ ?r _ _] =>
    destruct (buildCostCollectors_ok t r Ht) as (cs & Hcs & Hids) end.
  rewrite Hcs. cbn [mbind result_bind].
  assert (Hjobs : jobs_for (map (verified_job value clients (col_RefreshInterval (cfg_Collection value))) cs) (map ID cs)).
  { apply jobs_for_collectors. pose proof timeout_pos. lia. }
  rewrite andb_true_r, <- Hids. destruct (tags_Enabled t) eqn:Htag; cbn [negb].
  2: { eexists. split; [reflexivity|]. by rewrite app_nil_r. }
  apply family_ok in Htags as (Hi & Hp & Hs). rewrite Hp. cbn [guard_err mbind result_bind].
  destruct (vt_tags _ _ _ (v_targets _ _ Hvalid t Ht) Htag) as (_ & Hlen & _).
  unfold tag_New. rewrite Hs.
  assert (Hkeys : tags_Keys t <> []) by (intros He; rewrite He in Hlen; unfold within in Hlen; simpl in Hlen; lia).
  rewrite (bool_decide_false _ Hkeys). cbn [orb guard_err mbind result_bind].
  eexists. split; [reflexivity|]. apply jobs_for_app; [exact Hjobs|].
  split; [done|by apply Forall_singleton].
Qed.

Lemma organizations_builds :
  org_Enabled t = true ->
  builds (build_organizations value t clients) (mkCollectorID (tgt_Name t) "organizations").
Proof.
  intros Hen. destruct Hclients as (_ & Horg & _). destruct (Horg Hen) as [api Hapi].
  destruct (target_named t Ht) as [Hname _].
  pose proof (v_collection _ _ Hvalid) as (_ & _ & _ & _ & _ & _ & _ & Hf & _).
  apply family_ok in Hf as (_ & Hp & Hs).
  pose proof (vt_organizations _ _ _ (v_targets _ _ Hvalid t Ht) Hen) as Horgs.
  assert (Hids : (Z.of_nat (length (org_AccountIDs t)) <=
                  fam_SeriesLimit (col_Organizations (cfg_Collection value)))%Z /\
                 NoDup (org_AccountIDs t) /\ forallb validAccountID (org_AccountIDs t) = true).
  { unfold ValidOrganizations in Horgs. case_decide as Hnil.
    - rewrite Hnil. apply Z.leb_gt in Hs. split; [simpl; lia|]. split; [constructor|done].
    - destruct Horgs as [Hle Hn]. split; [done|]. by apply account_ids_valid. }
  destruct Hids as (Hlen & Hnd & Hall). unfold build_organizations, organizations_NewReader, builds.
  rewrite Hapi, (bool_decide_false _ Hname). cbn [pol_SeriesLimit pol_AccountIDs].
  rewrite Hp, Hs, (proj2 (Z.ltb_ge _ _) Hlen). cbn [orb negb guard_err].
  assert (Hbuild : exists al, build_allowlist (org_AccountIDs t) ∅ = Ok al).
  { clear -Hnd Hall. assert (Hf : fresh ∅ (org_AccountIDs t)) by (by apply fresh_empty).
    revert Hf Hall. generalize (∅ : gset string) as seen. clear Hnd.
    induction (org_AccountIDs t) as [|v l IH]; intros seen Hf Hall; cbn [build_allowlist]; [eauto|].
    apply fresh_cons in Hf as [Hv Hf]. cbn [forallb] in Hall. apply andb_prop in Hall as [Hid Hall].
    unfold org_accountID, validAccountID in *. rewrite Hid, (bool_decide_false _ Hv). cbn [negb guard_err].
    by apply IH. }
  destruct Hbuild as [al ->]. cbn [mbind result_bind]. unfold organizations_New.
  rewrite (bool_decide_false _ Hname). cbn [guard_err]. by eexists.
Qed.

Lemma budgets_builds :
  bud_Enabled t = true ->
  builds (build_budgets value t clients) (mkCollectorID (tgt_Name t) "budgets").
Proof.
  intros Hen. destruct Hclients as (_ & _ & Hbud & _). destruct (Hbud Hen) as [api Hapi].
  destruct (target_named t Ht) as [Hname _].
  pose proof (v_collection _ _ Hvalid) as (_ & _ & _ & _ & _ & _ & _ & _ & Hf & _).
  apply family_ok in Hf as (_ & Hp & Hs).
  destruct (vt_budgets _ _ _ (v_targets _ _ Hvalid t Ht) Hen) as (Hne & _ & Hnd & Hall).
  destruct (account_format _ (vt_account _ _ _ (v_targets _ _ Hvalid t Ht))) as [Hacc _].
  unfold build_budgets, budgets_NewReader, builds.
  rewrite Hapi, (bool_decide_false _ Hname), (bool_decide_true _ Hacc), Hp, (bool_decide_false _ Hne).
  cbn [orb negb guard_err].
  assert (Hblank : existsb (fun name => bool_decide (name = "")) (bud_Names t) = false).
  { apply not_true_iff_false. rewrite existsb_exists. intros (n & Hn & He).
    apply list_elem_of_In in Hn. apply bool_decide_eq_true in He. by destruct (Hall n Hn) as [[? _] _]. }
  rewrite Hblank. cbn [guard_err].
  assert (Hsize : size (list_to_set (bud_Names t) : gset string) = length (bud_Names t))
    by (by apply size_list_to_set).
  rewrite (bool_decide_true _ Hsize). cbn [negb guard_err mbind result_bind]. unfold budget_New.
  rewrite (bool_decide_false _ Hname). cbn [guard_err]. by eexists.
Qed.

Lemma commitments_builds :
  com_Enabled t = true ->
  builds (build_commitments value t clients) (mkCollectorID (tgt_Name t) "commitments").
Proof.
  intros Hen. destruct Hclients as ([api Hapi] & _); [by rewrite Hen, orb_true_r|].
  pose proof (v_collection _ _ Hvalid) as (_ & _ & _ & _ & _ & _ & _ & _ & _ & Hf & _).
  apply family_ok in Hf as (_ & Hp & Hs).
  unfold build_commitments, NewCommitmentReader, commitment_New, builds. rewrite Hapi, Hp, Hs.
  cbn [fmap option_fmap option_map guard_err mbind result_bind]. by eexists.
Qed.

Lemma anomalies_builds :
  ano_Enabled t = true ->
  builds (build_anomalies value t clients) (mkCollectorID (tgt_Name t) "anomalies").
Proof.
  intros Hen. destruct Hclients as ([api Hapi] & _); [by rewrite Hen, orb_true_r|].
  pose proof (v_collection _ _ Hvalid) as (_ & _ & _ & _ & _ & _ & _ & _ & _ & _ & Hf & _).
  apply family_ok in Hf as (_ & Hp & Hs).
  unfold build_anomalies, NewAnomalyReader, anomaly_New, builds. rewrite Hapi, Hp, Hs.
  cbn [fmap option_fmap option_map guard_err mbind result_bind]. by eexists.
Qed.

Lemma cur_builds range_groups slack :
  cur_Enabled (tgt_CUR t) = true ->
  builds (build_cur range_groups slack value t clients) (mkCollectorID (tgt_Name t) "cur").
Proof.
  intros Hen. destruct Hclients as (_ & _ & _ & Hcur). destruct (Hcur Hen) as [api Hapi].
  pose proof (v_collection _ _ Hvalid) as (_ & _ & _ & _ & _ & _ & _ & _ & _ & _ & _ & Htags & Hc).
  apply family_ok in Htags as (_ & _ & Htag).
  destruct Hc as (_ & Hp%within_pos & Hr%within_pos & Hm%within_pos & Hs%within_pos).
  destruct (vt_cur _ _ _ (v_targets _ _ Hvalid t Ht) Hen) as
    (_ & _ & _ & _ & _ & _ & Hq & _ & _ & [Hlo _] & Hlt & _).
  unfold build_cur, athena_NewReader, cur_New, builds. rewrite Hapi, Hp, Hr.
  assert (Hpoll : (cur_PollInterval (tgt_CUR t) <=? 0)%Z = false)
    by (apply Z.leb_gt; unfold minCURPollInterval, Millisecond in Hlo; lia).
  rewrite (proj2 (Z.leb_gt _ _) Hq), Hpoll, (proj2 (Z.leb_gt _ _) Hlt), Hs, Htag, Hm.
  cbn [orb guard_err mbind result_bind]. by eexists.
Qed.
End Target.

Section Factory.
Context (range_groups : list groupKey -> list groupKey) (slack : Z)
  (ForTarget : TargetConfig -> res (Clients W))
  (Hfactory : forall t, t ∈ cfg_Targets value -> exists clients, ForTarget t = Ok clients /\ clients_for t clients).

Lemma target_jobs_ok t :
  t ∈ cfg_Targets value ->
  exists jobs, target_jobs range_groups slack ForTarget value t =
      Ok (jobs, if tgt_Required t && ce_Enabled t then cost_ids value t else []) /\
    jobs_for jobs (target_ids value t).
Proof.
  intros Ht. destruct (Hfactory t Ht) as (clients & Hfor & Hclients).
  pose proof (v_collection _ _ Hvalid) as (_ & _ & _ & _ & _ & _ & _ & Ho & Hb & Hc & Ha & _ & Hcur).
  apply family_ok in Ho as (Hio & _ & _), Hb as (Hib & _ & _), Hc as (Hic & _ & _), Ha as (Hia & _ & _).
  assert (Hicur : (0 < ccur_RefreshInterval (col_CUR (cfg_Collection value)))%Z)
    by (pose proof timeout_pos; destruct Hcur; lia).
  destruct (cost_jobs_ok t Ht clients Hclients) as (j0 & E0 & J0).
  destruct (optional_job_ok clients _ _ _ _ Hio (organizations_builds t Ht clients Hclients)) as (j1 & E1 & J1).
  destruct (optional_job_ok clients _ _ _ _ Hib (budgets_builds t Ht clients Hclients)) as (j2 & E2 & J2).
  destruct (optional_job_ok clients _ _ _ _ Hic (commitments_builds t clients Hclients)) as (j3 & E3 & J3).
  destruct (optional_job_ok clients _ _ _ _ Hia (anomalies_builds t clients Hclients)) as (j4 & E4 & J4).
  destruct (optional_job_ok clients _ _ _ _ Hicur (cur_builds t Ht clients Hclients range_groups slack)) as (j5 & E5 & J5).
  exists (j0 ++ j1 ++ j2 ++ j3 ++ j4 ++ j5). unfold target_jobs. rewrite Hfor.
  cbn [map_err mbind result_bind]. rewrite E0. cbn [mbind result_bind].
  rewrite E1. cbn [mbind result_bind]. rewrite E2. cbn [mbind result_bind].
  rewrite E3. cbn [mbind result_bind]. rewrite E4. cbn [mbind result_bind].
  rewrite E5. cbn [mbind result_bind]. split; [done|]. unfold target_ids.
  by repeat apply jobs_for_app.
Qed.

Lemma build_target_jobs_ok targets :
  (forall t, t ∈ targets -> t ∈ cfg_Targets value) ->
  exists jobs, build_target_jobs range_groups slack ForTarget value targets =
      Ok (jobs, flat_map (fun t => if tgt_Required t && ce_Enabled t then cost_ids value t else []) targets) /\
    jobs_for jobs (flat_map (target_ids value) targets).
Proof.
  induction targets as [|t targets IH]; intros Hin; cbn [build_target_jobs flat_map].
  - exists []. split; [done|]. split; [done|constructor].
  - destruct (target_jobs_ok t) as (j1 & -> & J1); [apply Hin; by left|].
    destruct IH as (j2 & -> & J2); [intros u Hu; apply Hin; by right|].
    cbn [mbind result_bind]. eexists. split; [reflexivity|]. by apply jobs_for_app.
Qed.
End Factory.
End Clients.

Lemma policies_lookup target policy :
  organizationPolicies value !! target = Some policy ->
  exists t, t ∈ cfg_Targets value /\ tgt_Name t = target /\ org_Enabled t = true /\
    policy = mkPolicy (org_AccountIDs t) (fam_SeriesLimit (col_Organizations (cfg_Collection value))).
Proof.
  unfold organizationPolicies. clear Hvalid.
  assert (Hgen : forall (l : list TargetConfig) (m : gmap TargetID OrganizationPolicy),
    fold_left (fun result t => if org_Enabled t
      then <[ tgt_Name t := mkPolicy (org_AccountIDs t)
                (fam_SeriesLimit (col_Organizations (cfg_Collection value))) ]> result
      else result) l m !! target = Some policy ->
    m !! target = Some policy \/ exists t, t ∈ l /\ tgt_Name t = target /\ org_Enabled t = true /\
      policy = mkPolicy (org_AccountIDs t) (fam_SeriesLimit (col_Organizations (cfg_Collection value)))).
  { induction l as [|t l IH]; intros m Hl; cbn [fold_left] in Hl; [by left|].
    apply IH in Hl as [Hm|(u & Hu & Hrest)]; [|right; exists u; split; [by right|done]].
    destruct (org_Enabled t) eqn:Hen; [|by left].
    apply lookup_insert_Some in Hm as [[Hn <-]|[_ Hm]]; [|by left].
    right. exists t. split; [by left|]. done. }
  intros [Hm|Hex]%Hgen; [by rewrite lookup_empty in Hm|exact Hex].
Qed.

Lemma store_ok : exists store,
  Store_New (cache_FreshnessTTL (cfg_Cache value)) (cache_StaleAfter (cfg_Cache value))
    [WithOrganizationPolicies (organizationPolicies value)] = Ok store /\
  Store.organizationPolicies store = organizationPolicies value /\ current store = state_empty.
Proof.
  pose proof (v_cache _ _ Hvalid) as [Hlo Hhi]. pose proof timeout_pos.
  pose proof (v_collection _ _ Hvalid) as (Hr & _ & _ & _ & _ & _ & _ & Ho & _).
  apply family_ok in Ho as (_ & _ & Hs).
  unfold Store_New. rewrite (proj2 (Z.leb_gt _ 0)) by lia. rewrite (proj2 (Z.ltb_ge _ _) Hhi).
  cbn [orb guard_err apply_options]. unfold WithOrganizationPolicies.
  assert (Hpol : existsb (fun '(target, policy) => bool_decide (target = "") || (SeriesLimit policy <=? 0)%Z)
    (map_to_list (organizationPolicies value)) = false).
  { apply not_true_iff_false. rewrite existsb_exists. intros ([target policy] & Hin & Hbad).
    apply list_elem_of_In, elem_of_map_to_list, policies_lookup in Hin as (t & Ht & <- & _ & ->).
    destruct (target_named t Ht) as [Hne _]. cbn [SeriesLimit] in Hbad.
    by rewrite (bool_decide_false _ Hne), Hs in Hbad. }
  rewrite Hpol. cbn [guard_err]. eexists. split; [reflexivity|]. done.
Qed.

Lemma scheduler_config_ok : config_invalid (scheduler_config value) = false.
Proof.
  pose proof (v_collection _ _ Hvalid) as (_ & Hnf & Hlo & Hhi & Hc & Hb & _).
  destruct Hb as (Hm & [Hi Hx] & Hmf & Hmul).
  unfold config_invalid, scheduler_config. cbn [Backoff MaxConcurrency JitterRatio MaxAttempts Initial Max Multiplier].
  apply nonFinite_false in Hnf as [-> ->], Hmf as [-> ->].
  change f_half with (f64_ratio 1 2). rewrite Hlo, Hhi, Hmul.
  unfold within, maxConcurrency, maxRetryAttempts in *.
  rewrite !orb_false_iff, !Z.leb_gt, !Z.ltb_ge. repeat split; (done || lia).
Qed.

(** The Cost Explorer collectors of the required targets. *)
Definition required_ids : list CollectorID :=
  flat_map (fun t => if tgt_Required t && ce_Enabled t then cost_ids value t else []) (cfg_Targets value).

Lemma required_configured id : id ∈ required_ids -> id ∈ configuredCollectorIDs value.
Proof.
  intros (t & Ht & Hid)%elem_of_flat_map. apply elem_of_flat_map. exists t. split; [done|].
  unfold target_ids. destruct (tgt_Required t), (ce_Enabled t); cbn [andb] in Hid;
    try (by apply elem_of_nil in Hid).
  rewrite !elem_of_app. by left; left.
Qed.

Lemma required_NoDup : NoDup required_ids.
Proof.
  eapply sublist_NoDup; [apply configuredCollectorIDs_NoDup, (v_names _ _ Hvalid)|].
  unfold required_ids, configuredCollectorIDs. induction (cfg_Targets value) as [|t l IH]; [done|].
  cbn [flat_map]. apply sublist_app; [|done]. unfold target_ids.
  destruct (tgt_Required t), (ce_Enabled t); cbn [andb]; try apply sublist_nil_l.
  rewrite <- app_assoc. by apply sublist_inserts_r.
Qed.

Lemma required_nonempty : required_ids <> [].
Proof.
  destruct (v_required _ _ Hvalid) as (t & Ht & Hr).
  pose proof (vt_required _ _ _ (v_targets _ _ Hvalid t Ht) Hr) as Hce.
  pose proof (v_collection _ _ Hvalid) as (_ & _ & _ & _ & _ & _ & (Hany & _) & _).
  assert (Hcost : exists id, id ∈ cost_ids value t).
  { unfold cost_ids. cbn [flat_map fst snd].
    destruct (en_Total _), (en_Service _), (en_Region _), (en_Account _), (en_Forecast _); try done;
      eexists; by left. }
  destruct Hcost as [id Hid].
  assert (Hin : id ∈ required_ids) by (apply elem_of_flat_map; exists t; by rewrite Hr, Hce).
  intros Hnil. rewrite Hnil in Hin. by apply elem_of_nil in Hin.
Qed.

Lemma configured_nonempty : configuredCollectorIDs value <> [].
Proof.
  destruct required_ids as [|id l] eqn:Hr; [by destruct required_nonempty|].
  intros Hnil. assert (Hid : id ∈ configuredCollectorIDs value) by (apply required_configured; rewrite Hr; by left).
  rewrite Hnil in Hid. by apply elem_of_nil in Hid.
Qed.

Lemma exporter_ok info : exists e, NewExporter info (configuredCollectorIDs value) = Ok e /\
  known e = list_to_set (configuredCollectorIDs value).
Proof.
  unfold NewExporter. rewrite (bool_decide_false _ configured_nonempty). cbn [guard_err].
  rewrite (proj2 (known_ids_ok _ ∅ (list_to_set (configuredCollectorIDs value) ∪ ∅))).
  - cbn [mbind result_bind]. eexists. split; [reflexivity|]. cbn [known]. set_solver.
  - split; [done|]. split; [|apply configuredCollectorIDs_NoDup, (v_names _ _ Hvalid)].
    intros id Hid. split; [by apply configured_valid|set_solver].
Qed.

Lemma runner_ok {W} (jobs : list (AppJob W)) :
  jobs_for jobs (configuredCollectorIDs value) ->
  exists r, NewJobs (map scheduler_job jobs) (scheduler_config value) = Ok r /\
    queues r = list_to_set (configuredCollectorIDs value).
Proof.
  intros [Hmap Hint].
  assert (Hids : job_ids (map scheduler_job jobs) = configuredCollectorIDs value).
  { rewrite <- Hmap. clear. unfold job_ids. induction jobs as [|j l IH]; [done|].
    cbn [map omap list_omap scheduler_job job_Collector]. by f_equal. }
  assert (Hne : length (map scheduler_job jobs) <> 0).
  { rewrite length_map, <- (length_map job_id), Hmap, length_zero_iff_nil. apply configured_nonempty. }
  unfold NewJobs. rewrite (bool_decide_false _ Hne), scheduler_config_ok. cbn [orb guard_err].
  rewrite (proj2 (register_jobs_ok _ ∅ ∅ (list_to_set (configuredCollectorIDs value) ∪ ∅,
    list_to_set (ID_Target <$> configuredCollectorIDs value) ∪ ∅))).
  - cbn [mbind result_bind]. eexists. split; [reflexivity|]. cbn [queues]. set_solver.
  - rewrite Hids. split; [|split; [apply configuredCollectorIDs_NoDup, (v_names _ _ Hvalid)|split; [set_solver|done]]].
    apply forallb_elem_of. intros j (aj & Haj & <-)%elem_of_map. unfold job_valid, scheduler_job.
    cbn [job_Collector job_Interval]. rewrite Forall_forall in Hint.
    rewrite (proj2 (Z.ltb_lt _ _) (Hint aj Haj)). apply configured_valid. rewrite <- Hmap.
    apply elem_of_map. by exists aj.
Qed.
End Valid.

(** ** A concrete start *)

Definition unavailable {A} : io sim A := fun w => (Err (NetError true), w).

Definition sim_clients : Clients sim := {|
  cl_CostExplorer := Some (mkCostExplorerClient (fun _ => unavailable) (fun _ => unavailable)
    (mkCommitmentAPI (fun _ => unavailable) (fun _ _ => unavailable) (fun _ _ => unavailable)
       (fun _ _ => unavailable)) (fun _ _ _ => unavailable));
  cl_Organizations := Some (mkOrgAPI unavailable (fun _ => unavailable));
  cl_Budgets := Some (fun _ _ => unavailable);
  cl_Athena := Some sim_api;
  cl_Verifier := mret tt
|}.

Definition sim_factory (t : TargetConfig) : res (Clients sim) := Ok sim_clients.

Lemma buildJobs_publish_witness :
  match buildJobs (fun l => l) 0%Z sim_factory sample_config with
  | Ok (jobs, _) => length jobs = 10 /\ forall job, job ∈ jobs -> publishes (aj_Collector job)
  | Err _ => False
  end.
Proof.
  destruct (buildJobs (fun l => l) 0%Z sim_factory sample_config) as [[jobs required]|e] eqn:Hb.
  - split.
    + apply (f_equal (fun r => match r with Ok (jobs, _) => length jobs | Err _ => 0 end)) in Hb.
      vm_compute in Hb. symmetry. exact Hb.
    + exact (buildJobs_publish (fun l => l) 0%Z sim_factory sample_config jobs required Hb).
  - apply (f_equal is_ok) in Hb. vm_compute in Hb. discriminate Hb.
Defined.
