(* ===== verification/Application.v ===== *)
(** * The composition of the exporter ([Run] of internal/app/bootstrap.go, up to the listener)

    [Run] builds the store, the telemetry, the client factory, the jobs, the Prometheus registry,
    the runner and the HTTP server, in this order, and stops at the first error.  What the SDK's
    service clients answer and the Prometheus registry are arguments. *)

From S2P Require Import Prelude SliceStable GoStrings GoRegexp GoFloat GoTime GoUrl Errors Effects.
From S2P Require Import Pagination Domain Snapshot Cardinality Ports PromClient Metrics Collectors.
From S2P Require Import FamilyCollectors AccountReaders CostExplorer SummaryReaders Exporter Store.
From S2P Require Import Config Validation ValidationSpec Retry Verifier ClientFactory HttpServer.
From S2P Require Import AthenaQuery Athena Scheduler Bootstrap.
Local Open Scope string_scope.
Local Open Scope list_scope.

(** A collector given to the registry: the two of the exporter, and those of the Prometheus
    library for the Go runtime and the process. *)
Inductive PromCollector :=
| BusinessMetrics (metrics : CostCollector)
| Telemetry (exporter : Exporter)
| GoCollector
| ProcessCollector.

Section Application.
(** [W] is the world of the clients, [V] that of the HTTP handlers, in which the store changes
    and time passes. *)
Context {W V P Input Output Registry : Type} `{World W, AthenaWorld W, RetryWorld W}.

(** What a service client of the SDK answers, and how a verifier looks at its identity. *)
Record Services := mkServices {
  sv_CostExplorer : ServiceClient W P -> CostExplorerClient (W := W);
  sv_Organizations : ServiceClient W P -> OrgAPI W;
  sv_Budgets : ServiceClient W P -> BudgetAPI W;
  sv_Athena : ServiceClient W P -> AthenaAPI W;
  sv_Verify : targetVerifier -> ServiceClient W P -> P -> io W unit
}.

(** The registry of the Prometheus library. *)
Record Prometheus := mkPrometheus {
  NewRegistry : Registry;
  prom_Register : PromCollector -> Registry -> res Registry
}.

Definition verify_clients (services : Services) (verifier : VerifierOf W P) : io W unit :=
  match verifier with
  | Unavailable cause => lift (unavailable_Verify cause)
  | Verifying verifier client credentials => sv_Verify services verifier client credentials
  end.

(** The clients of a target as the readers see them; a constructor of the SDK never answers nil. *)
Definition app_clients (services : Services) (clients : TargetClients W P) : Bootstrap.Clients W :=
  mkClients (Some (sv_CostExplorer services (tc_CostExplorer clients)))
    (Some (sv_Organizations services (tc_Organizations clients)))
    (Some (sv_Budgets services (tc_Budgets clients)))
    (Some (sv_Athena services (tc_Athena clients)))
    (verify_clients services (tc_Verifier clients)).

Definition prometheus_collectors (value : AppConfig) (business : CostCollector) (telemetry : Exporter) :
    list PromCollector :=
  [BusinessMetrics business; Telemetry telemetry] ++
  (if IncludeGoCollector (cfg_Telemetry value) then [GoCollector] else []) ++
  (if IncludeProcessCollector (cfg_Telemetry value) then [ProcessCollector] else []).

Fixpoint register_all (prometheus : Prometheus) (collectors : list PromCollector) (registry : Registry) :
    res Registry :=
  match collectors with
  | [] => Ok registry
  | collector :: collectors =>
      registry ← prom_Register prometheus collector registry;
      register_all prometheus collectors registry
  end.

(** The targets [Run] warns about. *)
Definition unfiltered_warnings (value : AppConfig) : list string :=
  map tgt_Name (List.filter (unfilteredGroupedCollectors value) (cfg_Targets value)).

Record Application := mkApplication {
  app_store : Store; app_exporter : Exporter; app_jobs : list (AppJob W);
  app_required : list CollectorID; app_registry : Registry; app_runner : Runner;
  app_server : Server V; app_warnings : list string
}.

Section Run.
(** The environment, a range over the sources, the SDK and its services, the address of the
    bucket made for a target, the orders and the delay of the CUR collector, the registry, the
    libraries of the HTTP server, and the store and the clock in the world of a handler. *)
Context (LookupEnv : string -> option string)
  (range : gmap string CredentialSourceConfig -> list (string * CredentialSourceConfig))
  (sdk : SDK W P Input Output) (services : Services) (bucket : TargetConfig -> nat)
  (range_groups : list groupKey -> list groupKey) (slack : Z)
  (prometheus : Prometheus) (libraries : Libraries V Registry)
  (the_store : V -> Store) (the_clock : V -> Time).

Definition app_ForTarget (factory : Factory W P) (t : TargetConfig) : res (Bootstrap.Clients W) :=
  clients ← ForTarget sdk LookupEnv (Some factory) (bucket t) t;
  Ok (app_clients services clients).

(** [Run] before [net.Listen]; [info] is [version.Current()]. *)
Definition construct (value : AppConfig) (info : Info) : res Application :=
  let ids := configuredCollectorIDs value in
  fail_if bool_decide (length ids = 0) with_ ErrorString "no collectors enabled" ;;
  store ← Store_New (cache_FreshnessTTL (cfg_Cache value)) (cache_StaleAfter (cfg_Cache value))
            [WithOrganizationPolicies (organizationPolicies value)];
  telemetry ← NewExporter info ids;
  let awsFactory := factory_New sdk LookupEnv (range (Sources (cfg_AWS value))) (cfg_AWS value) 0 in
  '(jobs, required) ← buildJobs range_groups slack (app_ForTarget awsFactory) value;
  let businessMetrics := NewCostCollector in
  registry ← register_all prometheus (prometheus_collectors value businessMetrics telemetry)
               (NewRegistry prometheus);
  runner ← NewJobs (map scheduler_job jobs) (scheduler_config value);
  server ← httpserver_New libraries (cfg_Server value) (Some registry)
             (Some (fun v => Store_Load (the_clock v) (the_store v))) required info;
  Ok (mkApplication store telemetry jobs required registry runner server (unfiltered_warnings value)).
End Run.
End Application.
Arguments Application W V Registry : clear implicits.
Arguments Services W P : clear implicits.
Arguments Prometheus Registry : clear implicits.

(** ** The registry of the Prometheus library *)

Section Registration.
Context {Registry : Type} (prometheus : Prometheus Registry).
(** The metric names a registry holds, and those of the collectors of the library. *)
Context (names : Registry -> gset string) (library : PromCollector -> list string).

Definition described_names (c : PromCollector) : list string :=
  match c with
  | BusinessMetrics metrics => map fqName (CostCollector_Describe metrics)
  | Telemetry exporter => map fqName (Exporter_Describe exporter)
  | GoCollector | ProcessCollector => library c
  end.

(** [Register] accepts a collector whose names are new and distinct; the names of the library's
    collectors start with [go_] and [process_]. *)
Record RegistryLaws : Prop := mkRegistryLaws {
  law_new : names (NewRegistry prometheus) = ∅;
  law_register : forall c registry, NoDup (described_names c) ->
    (forall n, n ∈ described_names c -> n ∉ names registry) ->
    exists registry', prom_Register prometheus c registry = Ok registry' /\
      names registry' = names registry ∪ list_to_set (described_names c);
  law_go : NoDup (library GoCollector) /\ forall n, n ∈ library GoCollector -> HasPrefix n "go_" = true;
  law_process : NoDup (library ProcessCollector) /\
    forall n, n ∈ library ProcessCollector -> HasPrefix n "process_" = true
}.

Lemma register_all_ok (Hlaws : RegistryLaws) collectors : forall registry,
  NoDup (flat_map described_names collectors) ->
  (forall n, n ∈ flat_map described_names collectors -> n ∉ names registry) ->
  exists registry', register_all prometheus collectors registry = Ok registry' /\
    names registry' = names registry ∪ list_to_set (flat_map described_names collectors).
Proof.
  induction collectors as [|c l IH]; intros registry Hnd Hnew; cbn [register_all flat_map] in *.
  { exists registry. split; [done|]. set_solver. }
  apply NoDup_app in Hnd as (Hc & Hdis & Hl).
  destruct (law_register Hlaws c registry Hc) as (r1 & -> & Hr1); [set_solver|].
  destruct (IH r1 Hl) as (r2 & Hr2 & Hn2).
  - intros n Hn. rewrite Hr1, elem_of_union, elem_of_list_to_set. intros [Ho|Ho]; [|by apply (Hdis n)].
    apply (Hnew n); [set_solver|done].
  - exists r2. cbn [mbind result_bind]. split; [done|]. rewrite Hn2, Hr1, list_to_set_app_L. set_solver.
Qed.

Lemma prometheus_names_NoDup (Hlaws : RegistryLaws) value info l e :
  NewExporter info l = Ok e ->
  NoDup (flat_map described_names (prometheus_collectors value NewCostCollector e)).
Proof.
  intros (_ & _ & _ & _ & _ & _ & Hd & Hev)%NewExporter_ok. injection Hd as Hup Hser Hatt Hsuc Hage Hbuild.
  unfold prometheus_collectors. rewrite !flat_map_app.
  assert (Hown : flat_map described_names [BusinessMetrics NewCostCollector; Telemetry e] =
    map fqName (CostCollector_Describe NewCostCollector ++
      [selfDesc "collector_up" targetCollector; selfDesc "last_success_timestamp_seconds" targetCollector;
       selfDesc "last_attempt_timestamp_seconds" targetCollector; selfDesc "cache_age_seconds" targetCollector;
       selfDesc "snapshot_series" targetCollector; selfDesc "build_info" ["version"; "revision"; "go_version"]] ++
      event_vectors)).
  { cbn [flat_map described_names]. unfold Exporter_Describe.
    by rewrite Hup, Hser, Hatt, Hsuc, Hage, Hbuild, Hev, app_nil_r, <- map_app. }
  rewrite Hown. clear Hown. set (own := map fqName _).
  assert (Hnd : NoDup own) by (apply (bool_decide_unpack _); vm_compute; exact I).
  assert (Hpre : forallb (fun n => HasPrefix n "aws_") own = true) by (by vm_compute).
  rewrite forallb_elem_of in Hpre. destruct (law_go Hlaws) as [Hg Hgp], (law_process Hlaws) as [Hp Hpp].
  assert (Hclash : forall n a b, HasPrefix n a = true -> HasPrefix n b = true ->
    a <> "" -> b <> "" -> head (bytes a) = head (bytes b)).
  { intros n a b Ha Hb Hae Hbe. unfold HasPrefix in Ha, Hb.
    destruct a as [|c1 a], b as [|c2 b], n as [|c n]; try done.
    cbn in *. repeat case_match; simplify_eq; done. }
  apply NoDup_app. split; [done|]. split.
  - intros n Hn Hin. apply Hpre in Hn.
    apply elem_of_app in Hin as [Hin|Hin]; apply elem_of_flat_map in Hin as (c & Hc & Hin);
      [destruct (IncludeGoCollector _)|destruct (IncludeProcessCollector _)];
      try (by apply elem_of_nil in Hc); apply list_elem_of_singleton in Hc as ->; cbn [described_names] in Hin.
    + by pose proof (Hclash _ _ _ Hn (Hgp n Hin)) as Hf; specialize (Hf ltac:(done) ltac:(done)).
    + by pose proof (Hclash _ _ _ Hn (Hpp n Hin)) as Hf; specialize (Hf ltac:(done) ltac:(done)).
  - destruct (IncludeGoCollector _), (IncludeProcessCollector _); cbn [flat_map described_names app];
      rewrite ?app_nil_r; try done; try constructor.
    apply NoDup_app. split; [done|]. split; [|done]. intros n Hn Hin.
    by pose proof (Hclash _ _ _ (Hgp n Hn) (Hpp n Hin)) as Hf; specialize (Hf ltac:(done) ltac:(done)).
Qed.
End Registration.

(** ** What a validated configuration constructs *)

Section Constructed.
Context {W V P Input Output Registry : Type} `{World W, AthenaWorld W, RetryWorld W}.
Context (LookupEnv : string -> option string)
  (range : gmap string CredentialSourceConfig -> list (string * CredentialSourceConfig))
  (sdk : SDK W P Input Output) (services : Services W P) (bucket : TargetConfig -> nat)
  (range_groups : list groupKey -> list groupKey) (slack : Z)
  (prometheus : Prometheus Registry) (libraries : Libraries V Registry)
  (the_store : V -> Store) (the_clock : V -> Time).
Context (names : Registry -> gset string) (library : PromCollector -> list string).

Lemma app_ForTarget_ok value t :
  range (Sources (cfg_AWS value)) ≡ₚ map_to_list (Sources (cfg_AWS value)) -> Valid LookupEnv value ->
  t ∈ cfg_Targets value ->
  exists clients, app_ForTarget LookupEnv sdk services bucket
    (factory_New sdk LookupEnv (range (Sources (cfg_AWS value))) (cfg_AWS value) 0) t = Ok clients /\
    clients_for t clients.
Proof.
  intros Hrange Hval Ht.
  destruct (ForTarget_clients sdk LookupEnv _ value t 0 (bucket t) Hrange Hval Ht) as (source & base & err & _ & _ & Hfor).
  unfold app_ForTarget. rewrite Hfor. cbn [mbind result_bind]. eexists. split; [reflexivity|].
  unfold clients_for, app_clients. cbn. repeat split; intros; by eexists.
Qed.

(** Every constructor succeeds, and what it answers with. *)
Lemma construct_ok value info :
  range (Sources (cfg_AWS value)) ≡ₚ map_to_list (Sources (cfg_AWS value)) ->
  Valid LookupEnv value -> RegistryLaws prometheus names library ->
  let ids := configuredCollectorIDs value in
  exists app, construct LookupEnv range sdk services bucket range_groups slack prometheus libraries
      the_store the_clock value info = Ok app /\
    map job_id (app_jobs app) = ids /\ NoDup ids /\ ids <> [] /\
    (forall id, id ∈ ids -> CollectorID_Valid id = true) /\
    known (app_exporter app) = list_to_set ids /\ queues (app_runner app) = list_to_set ids /\
    current (app_store app) = state_empty /\
    Store.organizationPolicies (app_store app) = organizationPolicies value /\
    names (app_registry app) = list_to_set (flat_map (described_names library)
      (prometheus_collectors value NewCostCollector (app_exporter app))) /\
    srv_ids (app_server app) = app_required app /\ app_required app <> [] /\
    forall id, id ∈ app_required app -> id ∈ ids.
Proof.
  intros Hrange Hval Hlaws ids.
  destruct (store_ok LookupEnv value Hval) as (store & Hstore & Hpol & Hcur).
  destruct (exporter_ok LookupEnv value Hval info) as (e & He & Hknown).
  destruct (build_target_jobs_ok LookupEnv value Hval range_groups slack _
    (fun t => app_ForTarget_ok value t Hrange Hval) (cfg_Targets value)) as (jobs & Hjobs & Hfor); [done|].
  destruct (runner_ok LookupEnv value Hval jobs Hfor) as (r & Hr & Hqueues).
  destruct (register_all_ok prometheus names library Hlaws (prometheus_collectors value NewCostCollector e)
    (NewRegistry prometheus)) as (reg & Hreg & Hnames).
  { by eapply prometheus_names_NoDup. }
  { intros n _. rewrite (law_new _ _ _ Hlaws). apply not_elem_of_empty. }
  assert (Hserver : exists server, httpserver_New libraries (cfg_Server value) (Some reg)
    (Some (fun v => Store_Load (the_clock v) (the_store v))) (required_ids value) info = Ok server /\
    srv_ids server = required_ids value).
  { eexists. split; [apply httpserver_New_ok; do 2 eexists; split; [reflexivity|]; split; [reflexivity|];
      split; [by eapply required_nonempty|]; split; [apply Hval|]; split; [|reflexivity]|reflexivity].
    apply required_ok_intro; [by eapply required_NoDup|]. intros id Hid. split; [set_solver|].
    eapply configured_valid; [exact Hval|by apply required_configured]. }
  destruct Hserver as (server & Hserver & Hsrv).
  assert (Hne : length ids <> 0) by (rewrite length_zero_iff_nil; by eapply configured_nonempty).
  unfold construct, buildJobs. cbv zeta. subst ids. rewrite (bool_decide_false _ Hne). cbn [guard_err].
  rewrite Hstore. cbn [mbind result_bind]. rewrite He. cbn [mbind result_bind].
  rewrite Hjobs. cbn [mbind result_bind]. rewrite Hreg. cbn [mbind result_bind].
  rewrite Hr. cbn [mbind result_bind]. fold (required_ids value). rewrite Hserver. cbn [mbind result_bind].
  eexists. split; [reflexivity|].
  cbn [app_jobs app_exporter app_runner app_store app_required app_registry app_server]. destruct Hfor as [Hmap _].
  split; [done|]. split; [by apply configuredCollectorIDs_NoDup, (v_names _ _ Hval)|].
  split; [by eapply configured_nonempty|]. split; [by eapply configured_valid|].
  split; [done|]. split; [done|]. split; [done|]. split; [done|].
  split; [by rewrite Hnames, (law_new _ _ _ Hlaws), (left_id_L ∅ (∪))|]. split; [done|].
  split; [by eapply required_nonempty|]. by apply required_configured.
Qed.

End Constructed.

(** ** A concrete start *)

#[export] Instance sim_retry_world : RetryWorld sim := fun _ _ _ w => w.

Definition sim_retryer (options : StandardOptions) : Retryer sim :=
  mkRetryer (fun _ => true) (so_MaxAttempts options) (fun _ _ w => (Ok (so_MaxBackoff options), w))
    (fun _ w => (Ok (fun e w => (e, w)), w)) (fun w => ((fun e w => (e, w)), w)) None.

Definition sim_sdk : SDK sim string unit unit :=
  mkSDK sim_retryer
    (fun options => Ok (mkSDKConfig (lo_Region options) (lo_HTTPTimeout options) "chain" (lo_Retryer options)))
    "anonymous" (fun key _ _ => key) (fun p => p) (fun _ _ w => (Ok tt, w)) (fun _ arn _ => arn)
    (fun _ _ _ w => (Ok tt, w)).

Definition sim_services : Services sim string :=
  mkServices
    (fun _ => mkCostExplorerClient (fun _ => unavailable) (fun _ => unavailable)
       (mkCommitmentAPI (fun _ => unavailable) (fun _ _ => unavailable) (fun _ _ => unavailable)
          (fun _ _ => unavailable)) (fun _ _ _ => unavailable))
    (fun _ => mkOrgAPI unavailable (fun _ => unavailable)) (fun _ _ _ => unavailable) (fun _ => sim_api)
    (fun _ _ _ => mret tt).

Definition sample_library (c : PromCollector) : list string :=
  match c with GoCollector => ["go_goroutines"] | ProcessCollector => ["process_open_fds"] | _ => [] end.

(** A registry is the set of the names registered. *)
Definition sample_prometheus : Prometheus (gset string) :=
  mkPrometheus ∅ (fun c registry =>
    let names := described_names sample_library c in
    if bool_decide (NoDup names) && forallb (fun n => negb (bool_decide (n ∈ registry))) names
    then Ok (registry ∪ list_to_set names) else Err (ErrorString "duplicate metrics collector registration attempted")).

Lemma sample_registry_laws : RegistryLaws sample_prometheus (fun registry => registry) sample_library.
Proof.
  split; [done| |split; [by apply (bool_decide_unpack _)|]; by intros n ->%list_elem_of_singleton..].
  intros c registry Hnd Hnew. cbn [prom_Register sample_prometheus].
  rewrite (bool_decide_true _ Hnd), (proj2 (forallb_elem_of _ _)); [by eexists|].
  intros n Hn. by rewrite (bool_decide_false _ (Hnew n Hn)).
Qed.

Definition sample_construct : res (Application sim (Store * Time) (gset string)) :=
  construct sample_env (fun m => map_to_list m) sim_sdk sim_services (fun _ => 1) (fun l => l) 0%Z sample_prometheus
    (mkLibraries (fun _ _ _ _ w => w) (fun _ _ w => w) (fun _ _ w => w) (fun _ _ w => w) (fun _ _ w => w))
    fst snd sample_config (mkInfo "dev" "none" "unknown" "go").

Definition sample_ids : list CollectorID :=
  map (mkCollectorID "management")
    ["total"; "service"; "region"; "account"; "forecast"; "organizations"; "budgets"; "commitments"; "anomalies"] ++
  [mkCollectorID "workload" "cur"].

