(* ===== verification/Composition.v ===== *)
(** * The exporter as a whole

    What [construct] built, run: the jobs' collectors answer in any world and order, the store
    takes their partials and their failures, and in a scrape the two collectors of the registry
    send what they have.  The theorem composes those of the collectors, of the store and of the metrics. *)

From S2P Require Import Prelude SliceStable GoStrings GoRegexp GoFloat GoTime GoUrl Errors Effects.
From S2P Require Import Pagination Domain Snapshot Cardinality Ports PromClient Metrics Collectors.
From S2P Require Import FamilyCollectors AccountReaders CostExplorer SummaryReaders Exporter Store Isolation.
From S2P Require Import Config Validation ValidationSpec Retry Verifier ClientFactory HttpServer.
From S2P Require Import AthenaQuery Athena Scheduler Bootstrap Application.
Local Open Scope string_scope.
Local Open Scope list_scope.

(** ** Runs of the jobs *)

Section Runs.
Context {W V Registry : Type} (app : Application W V Registry).

(** What a refresh of a job does to the store: it publishes what the collector of the job
    answered with, in whatever world, or records a failure. *)
Inductive job_step (job : AppJob W) (store : Store) : Store -> Prop :=
| job_publish reference w partial w' range now r store' :
    Collect (aj_Collector job) reference w = (Ok partial, w') -> range_ok range ->
    Publish range now store (job_id job) partial = (r, store') -> job_step job store store'
| job_failure now r store' :
    RecordFailure now store (job_id job) = (r, store') -> job_step job store store'.

Definition app_step (store store' : Store) : Prop :=
  exists job, job ∈ app_jobs app /\ job_step job store store'.

Definition app_running (store : Store) : Prop := rtc app_step (app_store app) store.

Definition job_ids : list CollectorID := map job_id (app_jobs app).

(** The parts are those of the jobs, fit to be exposed, and so are the statuses. *)
Definition of_jobs (store : Store) : Prop :=
  (forall id p, parts (current store) !! id = Some p -> id ∈ job_ids /\ publishable p) /\
  (forall id st, statuses (current store) !! id = Some st -> id ∈ job_ids).

Lemma of_jobs_step store store' :
  (forall job, job ∈ app_jobs app -> publishes (aj_Collector job)) ->
  of_jobs store -> app_step store store' -> of_jobs store'.
Proof.
  intros Hpub [Hp Hs] Hstep.
  destruct Hstep as (job & Hjob & [reference w partial w' range now r store1 Hc _ Hpublish|now r store1 Hf]).
  - assert (Hid : job_id job ∈ job_ids) by (apply elem_of_map; by exists job).
    destruct (Hpub job Hjob _ _ _ _ Hc) as (_ & Hok & _).
    apply Publish_cases in Hpublish as [(e & _ & ->)|(_ & _ & _ & merged & _ & ->)]; [done|]. cbv zeta.
    unfold of_jobs. cbn [current set_current parts statuses]. split.
    + intros id p [[<- <-]|[_ Hl]]%lookup_insert_Some; [done|by apply Hp].
    + intros id st Hl. unfold refresh_series in Hl. apply lookup_union_Some_raw in Hl as [Hl|[_ Hl]].
      * rewrite map_lookup_imap in Hl. apply bind_Some in Hl as (p & Hpart & _).
        apply lookup_insert_Some in Hpart as [[<- _]|[_ Hpart]]; [done|by eapply Hp].
      * apply lookup_insert_Some in Hl as [[<- _]|[_ Hl]]; [done|by eapply Hs].
  - apply RecordFailure_cases in Hf as [(_ & _ & ->)|(_ & _ & ->)]; [done|]. unfold of_jobs. cbn [current set_current parts statuses]. split; [exact Hp|].
    intros id st [[<- _]|[_ Hl]]%lookup_insert_Some; [apply elem_of_map; by exists job|by eapply Hs].
Qed.

Lemma app_step_store store store' : app_step store store' -> store_step store store'.
Proof.
  intros (job & _ & [? ? ? ? ? ? ? ? _ Hr Hp|? ? ? Hf]); [by eapply step_publish|by eapply step_failure].
Qed.
End Runs.

(** ** Targets of the metrics *)

Definition snapshot_targets (s : Snapshot) : list TargetID :=
  map CostTarget (costs s) ++ map ForecastTarget (forecasts s) ++ map AccountTarget (accounts s) ++
  map BudgetTarget (budgets s) ++ map TagTarget (tagCosts s) ++ map CommitmentTarget (commitments s) ++
  map AnomalyTarget (anomalies s).

(** The first label of a business metric is the target of a record. *)
Lemma Collect_targets s m :
  m ∈ snapshot_metrics NewCostCollector s ->
  exists target, head (m_labels m) = Some target /\ target ∈ snapshot_targets s.
Proof.
  intros Hm. unfold snapshot_metrics in Hm. unfold snapshot_targets.
  repeat (apply elem_of_app in Hm as [Hm|Hm]); apply elem_of_flat_map in Hm as (x & Hx & Hm);
    [exists (CostTarget x)|exists (ForecastTarget x)|exists (AccountTarget x)|exists (BudgetTarget x)
    |exists (TagTarget x)|exists (CommitmentTarget x)|exists (AnomalyTarget x)];
    (split; [|rewrite !elem_of_app, !elem_of_map; naive_solver]).
  1: { unfold collect_cost in Hm. destruct (_ !! _); [|by apply elem_of_nil in Hm].
       apply list_elem_of_singleton in Hm as ->. cbn. by destruct (bool_decide _). }
  all: emitted Hm; subst; try reflexivity.
  all: by case_bool_decide.
Qed.

Lemma snapshot_targets_sourced store target :
  store_reachable store -> target ∈ snapshot_targets (snapshot (current store)) ->
  exists id p, parts (current store) !! id = Some p /\ ID_Target id = target.
Proof.
  intros (Hc & Hf & Hb & Ha & Hcm & Han & Ht)%reachable_sourced Hin. unfold snapshot_targets in Hin.
  rewrite !elem_of_app, !elem_of_map in Hin.
  destruct_or?; destruct Hin as (x & Hx & <-);
    first [apply Hc in Hx|apply Hf in Hx|apply Hb in Hx|apply Ha in Hx|apply Hcm in Hx|apply Han in Hx|apply Ht in Hx];
    destruct Hx as (id & p & ? & _ & ->); by exists id, p.
Qed.

(** ** Scrapes *)

Section Scrapes.
Context {W V P Input Output Registry : Type} `{World W, AthenaWorld W, RetryWorld W}.
Context (LookupEnv : string -> option string)
  (range : gmap string CredentialSourceConfig -> list (string * CredentialSourceConfig))
  (sdk : SDK W P Input Output) (services : Application.Services W P) (bucket : TargetConfig -> nat)
  (range_groups : list groupKey -> list groupKey) (slack : Z)
  (prometheus : Prometheus Registry) (libraries : Libraries V Registry)
  (the_store : V -> Store) (the_clock : V -> Time).
Context (names : Registry -> gset string) (library : PromCollector -> list string).
Abbreviation construct := (construct LookupEnv range sdk services bucket range_groups slack prometheus libraries
  the_store the_clock).

(** The parts of an application are the answers of the constructors. *)
Lemma construct_parts value info app :
  construct value info = Ok app ->
  Store_New (cache_FreshnessTTL (cfg_Cache value)) (cache_StaleAfter (cfg_Cache value))
    [WithOrganizationPolicies (organizationPolicies value)] = Ok (app_store app) /\
  NewExporter info (configuredCollectorIDs value) = Ok (app_exporter app) /\
  forall job, job ∈ app_jobs app -> publishes (aj_Collector job).
Proof.
  unfold Application.construct. intros Hc. apply guard_ok in Hc as [_ Hc].
  apply bind_ok in Hc as (store & Hs & Hc). apply bind_ok in Hc as (e & He & Hc). cbv zeta in Hc.
  apply bind_ok in Hc as ([jobs required] & Hj & Hc). apply bind_ok in Hc as (reg & _ & Hc).
  apply bind_ok in Hc as (r & _ & Hc). apply bind_ok in Hc as (server & _ & [= <-]).
  cbn [app_store app_exporter app_jobs]. split; [done|]. split; [done|].
  apply Forall_forall. change (Forall job_publishes jobs). by eapply build_target_jobs_publish.
Qed.

(** What holds of the store throughout a run. *)
Lemma running_store value info app store :
  construct value info = Ok app -> app_running app store -> store_reachable store /\ of_jobs app store.
Proof.
  intros (Hs & _ & Hpub)%construct_parts Hrun. split.
  - exists (cache_FreshnessTTL (cfg_Cache value)), (cache_StaleAfter (cfg_Cache value)),
      [organizationPolicies value], (app_store app). split; [exact Hs|].
    eapply rtc_subrel; [|exact Hrun]. apply app_step_store.
  - assert (Hinit : of_jobs app (app_store app)).
    { apply (Store_New_empty _ _ [organizationPolicies value]) in Hs. unfold of_jobs. rewrite Hs. split; intros id x Hl; cbn in Hl; discriminate Hl. }
    unfold app_running in Hrun. revert Hinit. generalize (app_store app) Hrun. clear Hs Hrun.
    intros init Hrun. induction Hrun as [|? ? ? Hstep _ IH]; [done|].
    intros Hinit. apply IH. by eapply of_jobs_step.
Qed.

(** The policies of the store are those of the configuration, throughout. *)
Lemma app_step_policies (app : Application W V Registry) store store' :
  app_step app store store' -> Store.organizationPolicies store' = Store.organizationPolicies store.
Proof.
  intros (job & _ & [? ? ? ? ? ? ? ? _ _ Hp|? ? ? Hf]).
  - by apply Publish_cases in Hp as [(? & _ & ->)|(_ & _ & _ & ? & _ & ->)].
  - by apply RecordFailure_cases in Hf as [(_ & _ & ->)|(_ & _ & ->)].
Qed.

Lemma running_policies value info app store :
  construct value info = Ok app -> app_running app store ->
  Store.organizationPolicies store = organizationPolicies value.
Proof.
  intros (Hs & _ & _)%construct_parts Hrun.
  assert (Hinit : Store.organizationPolicies (app_store app) = organizationPolicies value).
  { unfold Store_New in Hs. apply guard_ok in Hs as [_ Hs]. cbn [apply_options] in Hs.
    destruct (WithOrganizationPolicies _ _) as [s|] eqn:Hopt; [|done]. injection Hs as <-.
    unfold WithOrganizationPolicies in Hopt. by apply guard_ok in Hopt as [_ [= <-]]. }
  rewrite <- Hinit. clear Hinit Hs. unfold app_running in Hrun. induction Hrun as [|? ? ? Hstep _ IH]; [done|].
  rewrite IH. by eapply app_step_policies.
Qed.

(** The targets of a running application have names without a bar, as [Isolation] asks for. *)
Lemma target_name_bytes (f : ascii -> bool) name :
  forallb (fun c => implb (alphabet targetNamePattern c) (f c)) all_bytes = true ->
  has_format targetNamePattern name -> forallb f (bytes name) = true.
Proof.
  intros Hf Ha%Matches_alphabet. revert Ha. rewrite !forallb_elem_of. intros Ha c Hc.
  rewrite forallb_elem_of in Hf. specialize (Hf c (all_bytes_full c)). cbv beta in Hf. by rewrite (Ha c Hc) in Hf.
Qed.

Lemma target_name_bar_free name : has_format targetNamePattern name -> no_byte "|"%char name = true.
Proof.
  apply target_name_bytes. vm_compute. reflexivity.
Qed.

Lemma configured_bar_free value id :
  Valid LookupEnv value -> id ∈ configuredCollectorIDs value -> no_byte "|"%char (ID_Target id) = true.
Proof.
  intros Hval (t & Ht & [-> _]%target_ids_elem)%elem_of_flat_map.
  eapply target_name_bar_free, vt_name, v_targets; [exact Hval|exact Ht].
Qed.

Lemma running_bar_free value info app store :
  range (Sources (cfg_AWS value)) ≡ₚ map_to_list (Sources (cfg_AWS value)) ->
  Validate LookupEnv range value = Ok tt -> RegistryLaws prometheus names library ->
  construct value info = Ok app -> app_running app store ->
  bar_free (parts (current store)) /\ forall job, job ∈ app_jobs app -> no_byte "|"%char (ID_Target (job_id job)) = true.
Proof.
  intros Hrange Hval Hlaws Hc Hrun. apply Validate_ok in Hval; [|done].
  destruct (construct_ok LookupEnv range sdk services bucket range_groups slack prometheus libraries the_store
    the_clock names library value info Hrange Hval Hlaws) as (app' & Hc' & Hids & _).
  rewrite Hc in Hc'. injection Hc' as <-.
  destruct (running_store value info app store Hc Hrun) as [_ [Hparts _]]. unfold job_ids in Hparts. rewrite Hids in Hparts.
  split; [intros id [p Hp]; apply (configured_bar_free value); [done|by apply (Hparts id p)]|].
  intros job Hj. apply (configured_bar_free value); [done|]. rewrite <- Hids. apply elem_of_map. by exists job.
Qed.

(** The labels of the status metrics can be exposed. *)
Lemma configured_exposable value id :
  Valid LookupEnv value -> id ∈ configuredCollectorIDs value ->
  forallb utf8_ValidString [ID_Target id; ID_Name id] = true.
Proof.
  intros Hval (t & Ht & [-> Hname]%target_ids_elem)%elem_of_flat_map. cbn [forallb].
  rewrite (ascii_valid (tgt_Name t)).
  - rewrite andb_true_r. cbn [andb]. revert Hname. generalize (ID_Name id). apply Forall_forall.
    refine (proj1 (bool_decide_eq_true _) _). vm_compute. reflexivity.
  - apply target_name_bytes; [vm_compute; reflexivity|]. eapply vt_name, v_targets; [exact Hval|exact Ht].
Qed.

(** ** Scrapes *)

(** What [NewConstMetric] and the vectors of the client library make of what they are given. *)
Section Collecting.
Context (NewConstMetric : Desc -> float64 -> list string -> res Metric) (const_laws : ConstMetricLaws NewConstMetric).
Context (vlib : VectorLibrary) (children : Vectors vlib -> Desc -> list (list string)) (vlaws : VectorLaws vlib children).

(** The exporter's own metrics are sent whole, and the vectors after them. *)
Lemma own_sent info l e vectors view now :
  NewExporter info l = Ok e -> (forall id, id ∈ l -> forallb utf8_ValidString [ID_Target id; ID_Name id] = true) ->
  forallb utf8_ValidString [Version info; Revision info; GoVersion info] = true ->
  Exporter_Collect NewConstMetric vlib vectors e view now =
    mkSent (own_metrics e view now ++ flat_map (fun d => vec_collect vlib (vectors d) d) (exp_events e)) false.
Proof using const_laws.
  intros He Hids Hinfo. rewrite Exporter_Collect_sends. cbv zeta.
  pose proof (NewExporter_ok _ _ _ He) as (_ & _ & _ & Hperm & _ & Hbuild & Hdesc & Hev).
  assert (Hwell : Forall well_labelled (own_metrics e view now)).
  { assert (Hvalid : forallb Desc_valid (Exporter_Describe e) = true).
    { injection Hdesc as Hup Hser Hatt Hsuc Hage Hb. unfold Exporter_Describe.
      rewrite Hup, Hser, Hatt, Hsuc, Hage, Hb, Hev. vm_compute. reflexivity. }
    rewrite forallb_elem_of in Hvalid. apply Forall_forall. intros m Hm.
    destruct (own_metrics_described _ _ _ _ _ _ He Hm). split; [by apply Hvalid|done]. }
  assert (Hexp : forallb exposable (own_metrics e view now) = true).
  { apply forallb_elem_of. unfold own_metrics, exposable.
    intros m [(id & Hid & [-> _]%status_metrics_labels)%elem_of_flat_map|Hm]%elem_of_app; [apply Hids; by rewrite <- Hperm|].
    apply list_elem_of_singleton in Hm as ->. by rewrite Hbuild. }
  assert (Hnot : panicked (send_all NewConstMetric (own_metrics e view now) nothing_sent) = false)
    by (rewrite (send_all_panics _ const_laws) by done; by rewrite Hexp).
  rewrite Hnot. by rewrite (send_all_complete _ const_laws).
Qed.

(** Everything the exporter sends is of one of its descriptions, with a value for each label, and no
    series is sent twice. *)
Lemma own_described info l e vectors view now m :
  NewExporter info l = Ok e -> (forall d, vectors_running vlib e (vectors d)) ->
  m ∈ own_metrics e view now ++ flat_map (fun d => vec_collect vlib (vectors d) d) (exp_events e) ->
  m_desc m ∈ Exporter_Describe e /\ length (m_labels m) = length (variableLabels (m_desc m)).
Proof using vlaws.
  intros He Hvec [Hm|(d & Hd & [Hdm Hl]%(vector_metric _ _ vlaws))%elem_of_flat_map]%elem_of_app;
    [by eapply own_metrics_described|].
  pose proof (NewExporter_ok _ _ _ He) as (_ & _ & _ & _ & _ & _ & _ & Hev). rewrite Hdm. split.
  - unfold Exporter_Describe. apply elem_of_app. by right.
  - by apply (vectors_labels vlib children vlaws e (vectors d)).
Qed.

Lemma own_distinct info l e vectors view now :
  NewExporter info l = Ok e ->
  NoDup (map series_of (own_metrics e view now ++ flat_map (fun d => vec_collect vlib (vectors d) d) (exp_events e))).
Proof using vlaws.
  intros He. pose proof (NewExporter_ok _ _ _ He) as (_ & _ & _ & _ & _ & _ & Hdesc & Hev).
  assert (Hnd : NoDup ([exp_up e; exp_series e; exp_attempt e; exp_success e; exp_age e; exp_buildInfo e] ++ exp_events e)).
  { rewrite Hdesc, Hev. apply (bool_decide_unpack _). vm_compute. exact I. }
  apply NoDup_app in Hnd as (_ & Hdis & Hevents). rewrite map_app. apply NoDup_app. split; [by eapply own_metrics_unique|].
  split; [|by eapply vector_series].
  intros x (m & Hm & <-)%elem_of_map (m' & (d & Hd & [Hd' _]%(vector_metric _ _ vlaws))%elem_of_flat_map & Hx)%elem_of_map.
  apply (Hdis d); [|done]. injection Hx as Hx _. rewrite <- Hd', Hx. unfold own_metrics in Hm.
  apply elem_of_app in Hm as [(id & _ & [_ Hm]%status_metrics_labels)%elem_of_flat_map|Hm].
  - revert Hm. rewrite !elem_of_cons. tauto.
  - apply list_elem_of_singleton in Hm as ->. cbn [m_desc]. rewrite !elem_of_cons. tauto.
Qed.

(** C9: the exporter end to end.  Start it with a configuration that [Validate] accepts, and build
    information that is UTF-8, and let the collectors of its jobs run in any world, in any order,
    succeed or fail; then let the two collectors of the registry collect, each on the state of the
    store it loads and with the event vectors in any state the events bring them to.  The exporter's
    collector never panics and sends all it has, its own metrics with a status for every configured
    collector and what each vector has; the cost collector sends every record of the
    snapshot, unless a label is not valid UTF-8: then, and only then, it panics.  Whatever the two
    have sent together, no series is sent twice; each is of a metric the registry holds, with one
    value per label; each business series is labelled with a configured target; and the store only
    knows configured collectors. *)
Theorem scrape_consistent value info app business status vectors loaded now :
  range (Sources (cfg_AWS value)) ≡ₚ map_to_list (Sources (cfg_AWS value)) ->
  Validate LookupEnv range value = Ok tt -> RegistryLaws prometheus names library ->
  construct value info = Ok app -> forallb utf8_ValidString [Version info; Revision info; GoVersion info] = true ->
  app_running app business -> app_running app status ->
  (forall d, vectors_running vlib (app_exporter app) (vectors d)) ->
  let costs := CostCollector_Collect NewConstMetric NewCostCollector (Store_Snapshot business) in
  let own := Exporter_Collect NewConstMetric vlib vectors (app_exporter app) (Store_Load loaded status) now in
  panicked own = false /\
  sent own = own_metrics (app_exporter app) (Store_Load loaded status) now ++
    flat_map (fun d => vec_collect vlib (vectors d) d) (exp_events (app_exporter app)) /\
  (forall id, id ∈ configuredCollectorIDs value ->
    (exp_up (app_exporter app), [ID_Target id; ID_Name id]) ∈ map series_of (sent own)) /\
  (panicked costs = true <-> exists m label, m ∈ snapshot_metrics NewCostCollector (Store_Snapshot business) /\
    label ∈ m_labels m /\ utf8_ValidString label = false) /\
  (panicked costs = false -> sent costs = snapshot_metrics NewCostCollector (Store_Snapshot business) /\
    length (sent costs) = SeriesCount (Store_Snapshot business)) /\
  NoDup (map series_of (sent costs ++ sent own)) /\
  (forall m, m ∈ sent costs ++ sent own ->
    fqName (m_desc m) ∈ names (app_registry app) /\ length (m_labels m) = length (variableLabels (m_desc m))) /\
  (forall m, m ∈ sent costs ->
    exists target, head (m_labels m) = Some target /\ target ∈ map tgt_Name (cfg_Targets value)) /\
  (forall id, is_Some (view_Collectors (Store_Load loaded status) !! id) -> id ∈ configuredCollectorIDs value).
Proof using const_laws vlaws.
  intros Hrange Hval Hlaws Hc Hinfo Hrun Hrun' Hvec costs own. apply Validate_ok in Hval; [|done].
  destruct (construct_ok LookupEnv range sdk services bucket range_groups slack prometheus libraries the_store
    the_clock names library value info Hrange Hval Hlaws)
    as (app' & Hc' & Hids & _ & _ & _ & _ & _ & _ & _ & Hnames & _).
  rewrite Hc in Hc'. injection Hc' as <-. destruct (construct_parts value info app Hc) as (_ & He & _).
  destruct (running_store value info app business Hc Hrun) as [Hreach [Hparts _]].
  destruct (running_store value info app status Hc Hrun') as [_ [_ Hstatuses]].
  unfold job_ids in Hparts, Hstatuses. rewrite Hids in Hparts, Hstatuses.
  assert (Hpub : forall id p, parts (current business) !! id = Some p -> publishable p) by (intros id p Hp; by apply (Hparts id p)).
  assert (Hown : own = mkSent _ false)
    by (apply (own_sent info _ _ vectors _ now He); [intros id; by apply configured_exposable|done]).
  assert (Hsub : sent costs `sublist_of` snapshot_metrics NewCostCollector (Store_Snapshot business))
    by (unfold costs; rewrite Collect_sends; apply (send_all_sent _ const_laws), snapshot_well_labelled).
  assert (Hcost : forall m, m ∈ sent costs -> m ∈ snapshot_metrics NewCostCollector (Store_Snapshot business))
    by (intros m Hm; eapply elem_of_submseteq; [exact Hm|by apply sublist_submseteq]).
  pose proof (prometheus_names_NoDup prometheus names library Hlaws value info _ _ He) as Hnd.
  unfold prometheus_collectors in Hnames, Hnd. rewrite flat_map_app in Hnames, Hnd.
  cbn [flat_map described_names] in Hnames, Hnd. rewrite app_nil_r in Hnames, Hnd.
  split; [by rewrite Hown|]. split; [by rewrite Hown|]. split; [|split; [by apply Collect_panics|split; [|split; [|split; [|split]]]]].
  - intros id Hid. rewrite Hown. cbn [sent]. rewrite map_app. apply elem_of_app. left.
    by eapply (own_metrics_unique _ _ _ _ _ He).
  - intros Hp. unfold costs in Hp |- *. rewrite Collect_sends in Hp |- *.
    rewrite (send_all_complete _ const_laws) by (done || apply snapshot_well_labelled).
    split; [done|]. by apply Collect_SeriesCount, store_publishable.
  - rewrite Hown. cbn [sent]. rewrite map_app. apply NoDup_app. split; [|split; [|by eapply own_distinct]].
    + eapply sublist_NoDup; [by apply store_scrape_unique|]. apply (fmap_sublist series_of), Hsub.
    + intros x (m & Hm & <-)%elem_of_map (m' & Hm' & Hx)%elem_of_map.
      apply NoDup_app in Hnd as [(_ & Hdis & _)%NoDup_app _].
      destruct (Collect_described _ _ (Hcost m Hm)) as [[Hd _] _].
      destruct (own_described _ _ _ _ _ _ _ He Hvec Hm') as [Hd' _].
      apply (f_equal fst) in Hx. unfold series_of in Hx. cbn [fst] in Hx. rewrite <- Hx in Hd.
      apply (Hdis (fqName (m_desc m'))); apply elem_of_map; eexists; done.
  - intros m Hm. assert (Hd : m_desc m ∈ CostCollector_Describe NewCostCollector ++ Exporter_Describe (app_exporter app) /\
      length (m_labels m) = length (variableLabels (m_desc m))).
    { apply elem_of_app in Hm as [Hm|Hm].
      - destruct (Collect_described _ _ (Hcost m Hm)) as [[? ?] _]. split; [apply elem_of_app; by left|done].
      - rewrite Hown in Hm. destruct (own_described _ _ _ _ _ _ _ He Hvec Hm). split; [apply elem_of_app; by right|done]. }
    destruct Hd as [Hd Hl]. split; [|done]. rewrite Hnames, elem_of_list_to_set.
    apply elem_of_app. left. rewrite <- map_app. apply elem_of_map. by exists (m_desc m).
  - intros m (target & Hh & Ht)%Hcost%Collect_targets. exists target. split; [done|].
    destruct (snapshot_targets_sourced business target Hreach Ht) as (id & p & Hp & <-).
    destruct (Hparts id p Hp) as [(t & Ht' & [-> _]%target_ids_elem)%elem_of_flat_map _].
    apply elem_of_map. by exists t.
  - intros id [st Hst]. unfold Store_Load in Hst. cbn [view_Collectors] in Hst.
    apply lookup_fmap_Some in Hst as (st0 & _ & Hst). by eapply Hstatuses.
Qed.
End Collecting.
End Scrapes.

(** The sample application, after the first failure of its first job. *)
Definition sample_failed (app : Application sim (Store * Time) (gset string)) : Store :=
  match app_jobs app with
  | job :: _ => (RecordFailure sample_now (app_store app) (job_id job)).2
  | [] => app_store app
  end.

Lemma sample_failed_running app : app_running app (sample_failed app).
Proof.
  unfold app_running, sample_failed. destruct (app_jobs app) as [|job jobs] eqn:Hj; [apply rtc_refl|].
  apply rtc_once. exists job. split; [rewrite Hj; by left|].
  eapply (job_failure job _ sample_now). apply surjective_pairing.
Qed.

(** A configuration with another label for what is aggregated. *)
Definition with_overflow_label (label : string) (value : AppConfig) : AppConfig :=
  let c := cfg_Collection value in
  let ce := col_CostExplorer c in
  let d := cce_Dimensions ce in
  mkAppConfig (cfg_Server value) (cfg_Log value) (cfg_AWS value) (cfg_Targets value)
    (mkCollection (col_RefreshInterval c) (col_StartupRefresh c) (col_JitterRatio c) (col_MaxConcurrency c) (FailureBackoff c)
      (mkCollectionCE (CostBases ce) (cce_MaxPages ce) (cce_PredictionInterval ce) (cce_Collectors ce)
        (mkDimensions (dim_SeriesLimit d) (dim_Overflow d) label))
      (col_Organizations c) (col_Budgets c) (col_Commitments c) (col_Anomalies c) (col_Tags c) (col_CUR c))
    (cfg_Cache value) (cfg_Telemetry value).

(** [Validate] accepts a label that is not valid UTF-8, and the costs aggregated under it make
    [Collect] panic. *)
Example overflow_label_panics :
  let label := of_bytes [byte_ 255] in
  Validate sample_env (fun m => map_to_list m) (with_overflow_label label sample_config) = Ok tt /\
  match (LimitDimensions sample_costs 2 label 0).1 with
  | Ok limited =>
      panicked (CostCollector_Collect reference_metric NewCostCollector (NewWithData limited [] [] [] [] [] [])) = true
  | Err _ => False
  end.
Proof. vm_compute. split; reflexivity. Qed.

(** The vectors of the sample have counted a refresh and a request. *)
Definition sample_vectors (app : Application sim (Store * Time) (gset string)) : Vectors reference_vectors :=
  foldr (vec_record reference_vectors) (vec_new reference_vectors (exp_events (app_exporter app)))
    (flat_map (fun id => ObserveRefresh (app_exporter app) id "error" Second) (take 1 (map job_id (app_jobs app))) ++
     ObserveRequest "prod" "GetCostAndUsage" "error" Second).

Lemma sample_vectors_running app : vectors_running reference_vectors (app_exporter app) (sample_vectors app).
Proof.
  unfold sample_vectors, vectors_running.
  assert (Hall : Forall (observed (app_exporter app))
    (flat_map (fun id => ObserveRefresh (app_exporter app) id "error" Second) (take 1 (map job_id (app_jobs app))) ++
     ObserveRequest "prod" "GetCostAndUsage" "error" Second)).
  { apply Forall_app. split; apply Forall_forall; intros ev Hev.
    - apply elem_of_flat_map in Hev as (id & _ & Hev). apply (observed_collector _ _ id). by eapply event_refresh.
    - apply (observed_aws _ _ "prod"). by eapply event_request. }
  induction Hall as [|ev l Hev _ IH]; [apply rtc_refl|]. cbn [foldr]. eapply rtc_r; [exact IH|]. by exists ev.
Qed.

Definition sample_costs_sent (app : Application sim (Store * Time) (gset string)) : Sent :=
  CostCollector_Collect reference_metric NewCostCollector (Store_Snapshot (app_store app)).
Definition sample_own_sent (app : Application sim (Store * Time) (gset string)) : Sent :=
  Exporter_Collect reference_metric reference_vectors (fun _ => sample_vectors app) (app_exporter app)
    (Store_Load sample_now (sample_failed app)) sample_now.

(** Twenty-seven series: one up and one size each of ten collectors, an attempt, the build, and of
    the vectors the two of the refresh, the two of the request and the counter without labels. *)
Example sample_scraped :
  match sample_construct with
  | Ok app => (length (sent (sample_costs_sent app)), length (sent (sample_own_sent app)), panicked (sample_own_sent app))
  | Err _ => (0, 0, true)
  end = (0, 27, false).
Proof. vm_compute. reflexivity. Qed.

Lemma scrape_consistent_witness :
  exists app, sample_construct = Ok app /\ panicked (sample_own_sent app) = false /\
    NoDup (map series_of (sent (sample_costs_sent app) ++ sent (sample_own_sent app))).
Proof.
  destruct sample_construct as [app|e] eqn:Hc.
  - exists app. split; [reflexivity|].
    edestruct (scrape_consistent sample_env (fun m => map_to_list m) sim_sdk sim_services (fun _ => 1) (fun l => l) 0%Z
      sample_prometheus
      (mkLibraries (fun _ _ _ _ w => w) (fun _ _ w => w) (fun _ _ w => w) (fun _ _ w => w) (fun _ _ w => w))
      fst snd (fun registry => registry) sample_library reference_metric reference_metric_laws
      reference_vectors reference_children reference_vector_laws
      sample_config (mkInfo "dev" "none" "unknown" "go") app (app_store app) (sample_failed app)
      (fun _ => sample_vectors app) sample_now sample_now) as (Hnot & _ & _ & _ & _ & Hnd & _).
    + reflexivity.
    + vm_compute. reflexivity.
    + exact sample_registry_laws.
    + exact Hc.
    + reflexivity.
    + apply rtc_refl.
    + apply sample_failed_running.
    + intros _. apply sample_vectors_running.
    + split; [exact Hnot|exact Hnd].
  - apply (f_equal is_ok) in Hc. vm_compute in Hc. discriminate Hc.
Defined.
