(* ===== verification/Refresh.v ===== *)
(** * A refresh of a job over the store (internal/scheduler/runner.go, internal/cache/memory/store.go)

    The retry loop of Scheduler run for a job of an application: its collector is the job's, it
    publishes and records failures in the application's store, and the refreshes of the other
    jobs go on while it runs.  The refresh is one of the runs of Composition, and what becomes of
    the job's part and status is one of three outcomes. *)

From S2P Require Import Prelude SliceStable GoStrings GoRegexp GoFloat GoTime GoUrl Errors Effects.
From S2P Require Import Pagination Domain Snapshot Cardinality Ports PromClient Metrics Collectors.
From S2P Require Import FamilyCollectors AccountReaders CostExplorer SummaryReaders Exporter Store.
From S2P Require Import Config Validation ValidationSpec Retry Verifier ClientFactory HttpServer.
From S2P Require Import AthenaQuery Athena Scheduler Bootstrap Application Composition.
Local Open Scope string_scope.
Local Open Scope list_scope.

(** A nil error, or the error. *)
Definition failure {A} (r : res A) : option error := match r with Ok _ => None | Err e => Some e end.

(** ** The store of a refresh *)

Section Environment.
(** [base] is the environment but for the job and the store: slots, clock, context, timer,
    observer and logger.  [others] is what the other refreshes did to the store by the time the
    world is this one, and [range] the order of the store's map. *)
Context {W : Type} (base : Env W) (job : AppJob W).
Context (others : W -> Store -> Store) (range : W -> gmap CollectorID Snapshot -> list Snapshot).

Definition asking {A} (op : W -> A * W) (σ : W * Store) : A * (W * Store) :=
  let '(a, w) := op (fst σ) in (a, (w, others w (snd σ))).

Definition telling (op : W -> W) (σ : W * Store) : W * Store := let w := op (fst σ) in (w, others w (snd σ)).

(** The store's operations read its clock under its mutex. *)
Definition store_publish (id : CollectorID) (partial : Snapshot) (σ : W * Store) : option error * (W * Store) :=
  let '(now, w) := now base (fst σ) in
  let '(r, store) := Publish (range w) now (snd σ) id partial in
  (failure r, (w, others w store)).

Definition store_record_failure (id : CollectorID) (σ : W * Store) : option error * (W * Store) :=
  let '(now, w) := now base (fst σ) in
  let '(r, store) := RecordFailure now (snd σ) id in
  (failure r, (w, others w store)).

Definition job_env : Env (W * Store) :=
  mkEnv (fun id => asking (acquire base id)) (asking (now base))
    (fun reference => asking (Collect (aj_Collector job) reference)) (fun id => telling (release base id))
    store_publish store_record_failure (asking (canceled base)) (fun delay => asking (wait base delay))
    (fun id status elapsed => telling (observe_refresh base id status elapsed))
    (fun id operation => telling (observe_cache_error base id operation))
    (fun id kind retryable => telling (log_failure base id kind retryable))
    (fun id operation err => telling (log_cache_error base id operation err)).

(** The job's refresh, as its worker starts it. *)
Definition job_refresh (c : Config) (reference : Time) (σ : W * Store) : W * Store :=
  refresh job_env c (job_id job) reference σ.
End Environment.

(** ** Outcomes *)

Section Outcomes.
Context {W V Registry : Type} (app : Application W V Registry) (job : AppJob W).

(** The steps of the other jobs: a collector is refreshed by one worker at a time. *)
Definition others_step (store store' : Store) : Prop :=
  exists other, other ∈ app_jobs app /\ job_id other <> job_id job /\ job_step other store store'.

(** What a collector did last: when it was attempted, when it succeeded and whether it is up. *)
Definition attempted (status : CollectorStatus) : Time * Time * bool :=
  (LastAttempt status, LastSuccess status, Up status).

Definition job_part (store : Store) : option Snapshot := parts (current store) !! job_id job.
Definition job_status (store : Store) : Time * Time * bool :=
  attempted (default CollectorStatus_zero (statuses (current store) !! job_id job)).

(** Nothing; a failure, with the part and the last success of before; or a part the collector
    answered with. *)
Inductive outcome (before after : Store) : Prop :=
| kept : job_part after = job_part before -> job_status after = job_status before -> outcome before after
| failed at_ : job_part after = job_part before ->
    job_status after = (at_, (job_status before).1.2, false) -> outcome before after
| published reference w partial w' at_ :
    Collect (aj_Collector job) reference w = (Ok partial, w') -> job_part after = Some partial ->
    job_status after = (at_, at_, true) -> outcome before after.

(** ** Composing steps *)

Lemma Publish_status range now store id partial store' :
  Publish range now store id partial = (Ok tt, store') ->
  job_part store' = (if decide (id = job_id job) then Some partial else job_part store) /\
  job_status store' = (if decide (id = job_id job) then (now, now, true) else job_status store).
Proof using.
  intros [(e & [=] & ->)|(_ & _ & _ & merged & _ & ->)]%Publish_cases. unfold job_part, job_status.
  cbn [current set_current parts statuses]. rewrite refresh_series_lookup.
  case_decide as Hid; [subst id; by rewrite !lookup_insert_eq|]. rewrite !lookup_insert_ne by done.
  split; [done|]. by destruct (parts (current store) !! job_id job).
Qed.

Lemma RecordFailure_status now store id store' :
  RecordFailure now store id = (Ok tt, store') ->
  job_part store' = job_part store /\
  job_status store' =
    (if decide (id = job_id job) then (now, (job_status store).1.2, false) else job_status store).
Proof using.
  intros [([=] & _ & ->)|(_ & _ & ->)]%RecordFailure_cases. unfold job_part, job_status.
  cbn [current set_current parts statuses]. split; [done|].
  case_decide as Hid; [subst id; by rewrite lookup_insert_eq|]. by rewrite lookup_insert_ne.
Qed.

(** A refused operation leaves the store as it is. *)
Lemma Publish_refused range now store id partial e store' :
  Publish range now store id partial = (Err e, store') -> store' = store.
Proof using. by intros [(? & _ & ->)|([=] & _)]%Publish_cases. Qed.

Lemma RecordFailure_refused now store id e store' :
  RecordFailure now store id = (Err e, store') -> store' = store.
Proof using. by intros [(_ & _ & ->)|([=] & _)]%RecordFailure_cases. Qed.

(** Runs of the application that keep, and that fail, the job. *)
Definition keeps (a b : Store) : Prop :=
  rtc (app_step app) a b /\ job_part b = job_part a /\ job_status b = job_status a.

Definition fails (a b : Store) : Prop :=
  rtc (app_step app) a b /\ job_part b = job_part a /\ exists at_, job_status b = (at_, (job_status a).1.2, false).

Definition runs (a b : Store) : Prop := rtc (app_step app) a b /\ outcome a b.

#[export] Instance keeps_preorder : PreOrder keeps.
Proof using.
  split; [by split; [apply rtc_refl|]|]. intros a b c (Hr & Hp & Hs) (Hr' & Hp' & Hs').
  split; [by etrans|]. by rewrite Hp', Hs', Hp, Hs.
Qed.

Lemma keeps_runs a b c : keeps a b -> runs b c -> runs a c.
Proof using.
  intros (Hr & Hp & Hs) [Hr' Ho]. split; [by etrans|].
  destruct Ho as [Hk Hst|t Hk Hst|r w p w' t Hc Hk Hst];
    [apply kept|apply (failed _ _ t)|apply (published _ _ r w p w' t)]; rewrite ?Hp, ?Hs, ?Hk, ?Hst, ?Hp, ?Hs; done.
Qed.

Lemma runs_keeps a b c : runs a b -> keeps b c -> runs a c.
Proof using.
  intros [Hr Ho] (Hr' & Hp & Hs). split; [by etrans|].
  destruct Ho as [Hk Hst|t Hk Hst|r w p w' t Hc Hk Hst];
    [apply kept|apply (failed _ _ t)|apply (published _ _ r w p w' t)]; rewrite ?Hp, ?Hs, ?Hk, ?Hst, ?Hp, ?Hs; done.
Qed.

Lemma fails_runs a b c : fails a b -> runs b c -> runs a c.
Proof using.
  intros (Hr & Hp & t0 & Hs) [Hr' Ho]. split; [by etrans|].
  destruct Ho as [Hk Hst|t Hk Hst|r w p w' t Hc Hk Hst].
  - apply (failed _ _ t0); [by rewrite Hk|by rewrite Hst].
  - apply (failed _ _ t); [by rewrite Hk|by rewrite Hst, Hs].
  - by apply (published _ _ r w p w' t).
Qed.

Lemma keeps_fails a b c : keeps a b -> fails b c -> fails a c.
Proof using. intros (Hr & Hp & Hs) (Hr' & Hp' & t & Hs'). split; [by etrans|]. split; [by rewrite Hp'|]. exists t. by rewrite Hs', Hs. Qed.

Lemma fails_keeps a b c : fails a b -> keeps b c -> fails a c.
Proof using. intros (Hr & Hp & t & Hs) (Hr' & Hp' & Hs'). split; [by etrans|]. split; [by rewrite Hp'|]. exists t. by rewrite Hs'. Qed.

Lemma others_keep store store' : others_step store store' -> keeps store store'.
Proof using.
  intros (other & Hin & Hne & Hstep). split; [apply rtc_once; by exists other|].
  destruct Hstep as [reference w partial w' range now [[]|e] store' Hc Hr Hp|now [[]|e] store' Hf].
  - apply Publish_status in Hp. by case_decide.
  - by apply Publish_refused in Hp as ->.
  - apply RecordFailure_status in Hf. by case_decide.
  - by apply RecordFailure_refused in Hf as ->.
Qed.

Lemma rtc_others_keep store store' : rtc others_step store store' -> keeps store store'.
Proof using. induction 1 as [|a b c Hab _ IH]; [done|]. etrans; [by apply others_keep|done]. Qed.
End Outcomes.

(** ** The refresh *)

Section Refreshed.
Context {W V Registry : Type} (app : Application W V Registry) (base : Env W) (job : AppJob W).
Context (others : W -> Store -> Store) (range : W -> gmap CollectorID Snapshot -> list Snapshot).
Context (Hjob : job ∈ app_jobs app) (Hrange : forall w, range_ok (range w)).
Context (Hothers : forall w store, rtc (others_step app job) store (others w store)).

Abbreviation env := (job_env base job others range).
Abbreviation id := (job_id job).

Lemma asking_keeps {A} (op : W -> A * W) σ : keeps app job σ.2 (asking others op σ).2.2.
Proof using Hothers. unfold asking. destruct (op σ.1) as [a w]. apply rtc_others_keep, Hothers. Qed.

Lemma telling_keeps (op : W -> W) σ : keeps app job σ.2 (telling others op σ).2.
Proof using Hothers. unfold telling. cbv zeta. apply rtc_others_keep, Hothers. Qed.

Lemma store_publish_runs partial w0 reference σ :
  (Collect (aj_Collector job) reference w0).1 = Ok partial ->
  let '(err, σ') := store_publish base others range id partial σ in
  match err with None => runs app job σ.2 σ'.2 | Some _ => keeps app job σ.2 σ'.2 end.
Proof using Hjob Hrange Hothers.
  intros Hc. unfold store_publish. destruct (now base σ.1) as [t w].
  destruct (Publish (range w) t σ.2 id partial) as [[[]|e] store] eqn:Hp; cbn.
  - apply (runs_keeps _ _ _ store); [|apply rtc_others_keep, Hothers]. split.
    + apply rtc_once. exists job. split; [done|]. eapply job_publish; [|by apply Hrange|exact Hp].
      rewrite <- Hc. apply surjective_pairing.
    + apply (Publish_status job) in Hp. destruct (decide (id = id)) as [_|]; [|done]. destruct Hp as [Hpart Hst].
      eapply (published _ _ _ reference w0 partial _ t); [|done|done]. rewrite <- Hc. apply surjective_pairing.
  - apply Publish_refused in Hp as ->. apply rtc_others_keep, Hothers.
Qed.

Lemma store_record_failure_keeps σ :
  let σ' := (store_record_failure base others id σ).2 in keeps app job σ.2 σ'.2 \/ fails app job σ.2 σ'.2.
Proof using Hjob Hothers.
  unfold store_record_failure. destruct (now base σ.1) as [t w].
  destruct (RecordFailure t σ.2 id) as [[[]|e] store] eqn:Hf; cbn; [right|left].
  - apply (fails_keeps _ _ _ store); [|apply rtc_others_keep, Hothers]. split.
    + apply rtc_once. exists job. split; [done|]. by eapply job_failure.
    + apply (RecordFailure_status job) in Hf. destruct (decide (id = id)) as [_|]; [|done]. destruct Hf. split; [done|eauto].
  - apply RecordFailure_refused in Hf as ->. apply rtc_others_keep, Hothers.
Qed.

Lemma observe_cache_keeps c operation err σ :
  keeps app job σ.2 (observeCachePublishError env c id operation err σ).2.
Proof using Hothers.
  unfold observeCachePublishError. destruct (Logger c), (Observer c); cbn [log_cache_error observe_cache_error job_env];
    [etrans; apply telling_keeps|apply telling_keeps|apply telling_keeps|done].
Qed.

Lemma attempt_runs c reference σ :
  let '(err, σ') := attempt env c id reference σ in
  match err with None => runs app job σ.2 σ'.2 | Some _ => keeps app job σ.2 σ'.2 end.
Proof using Hjob Hrange Hothers.
  unfold attempt. cbn [run_collect release publish job_env].
  pose proof (asking_keeps (Collect (aj_Collector job) reference) σ) as Hask. unfold asking in *.
  destruct (Collect (aj_Collector job) reference σ.1) as [[partial|e] w] eqn:Hc; cbn [snd] in Hask.
  - set (σ1 := (w, others w σ.2)) in *. assert (H1 : keeps app job σ.2 (telling others (release base id) σ1).2)
      by (etrans; [exact Hask|exact (telling_keeps (release base id) σ1)]).
    pose proof (store_publish_runs partial σ.1 reference (telling others (release base id) σ1)) as Hp.
    rewrite Hc in Hp. specialize (Hp eq_refl). destruct (store_publish _ _ _ _ _ _) as [[e|] σ2].
    + etrans; [exact H1|]. etrans; [exact Hp|]. apply observe_cache_keeps.
    + by eapply keeps_runs.
  - etrans; [exact Hask|]. exact (telling_keeps (release base id) (w, others w σ.2)).
Qed.

Lemma report_keeps c started err σ : keeps app job σ.2 (report env c id started err σ).2.
Proof using Hothers.
  unfold report. destruct (Observer c); [|done]. cbn [canceled now observe_refresh job_env].
  assert (Htail : forall status σ1, keeps app job σ1.2
    (let '(finished, σ2) := asking others (now base) σ1 in
     telling others (observe_refresh base id status (Sub finished started)) σ2).2).
  { intros status σ1. pose proof (asking_keeps (now base) σ1) as H. destruct (asking others (now base) σ1).
    etrans; [exact H|apply telling_keeps]. }
  destruct err; [|apply Htail].
  pose proof (asking_keeps (canceled base) σ) as H. destruct (asking others (canceled base) σ) as [stopped σ1].
  etrans; [exact H|apply Htail].
Qed.

Lemma note_failure_keeps c err σ :
  let σ' := note_failure env c id err σ in keeps app job σ.2 σ'.2 \/ fails app job σ.2 σ'.2.
Proof using Hjob Hothers.
  unfold note_failure, logCollectorFailure. cbn [record_failure log_failure job_env].
  set (σ1 := if Logger c then _ else σ). assert (H1 : keeps app job σ.2 σ1.2)
    by (unfold σ1; destruct (Logger c); [apply telling_keeps|done]).
  pose proof (store_record_failure_keeps σ1) as Hrec. destruct (store_record_failure base others id σ1) as [[e|] σ2];
    cbn in Hrec; [pose proof (observe_cache_keeps c "record_failure" e σ2) as H2|]; destruct Hrec as [Hrec|Hrec];
    eauto using keeps_fails, fails_keeps; left; by repeat (etrans; [eassumption|]).
Qed.

Lemma collect_runs c n delay reference σ : runs app job σ.2 (collect env c id n delay reference σ).2.
Proof using Hjob Hrange Hothers.
  assert (Hrefl : forall store, runs app job store store) by (intros; split; [apply rtc_refl|by apply kept]).
  assert (Hkr : forall a b, keeps app job a b -> runs app job a b) by (intros; by eapply keeps_runs).
  revert delay reference σ. induction n as [|n IH]; intros delay reference σ; cbn [collect]; [done|].
  cbn [acquire now canceled wait job_env].
  pose proof (asking_keeps (acquire base id) σ) as Hacq. destruct (asking _ _ σ) as [[] σ1]; cbn [negb]; [|by apply Hkr].
  eapply keeps_runs; [exact Hacq|]. pose proof (asking_keeps (now base) σ1) as Hnow.
  destruct (asking _ _ σ1) as [started σ2]. eapply keeps_runs; [exact Hnow|].
  pose proof (attempt_runs c reference σ2) as Hatt. destruct (attempt env c id reference σ2) as [[err|] σ3];
    [|eapply runs_keeps; [exact Hatt|apply report_keeps]].
  eapply keeps_runs; [exact Hatt|]. eapply keeps_runs; [apply (report_keeps c started (Some err))|].
  set (σ4 := report _ _ _ _ _ σ3). pose proof (asking_keeps (canceled base) σ4) as Hcan.
  destruct (asking _ _ σ4) as [[] σ5]; [by apply Hkr|]. eapply keeps_runs; [exact Hcan|].
  assert (Hnote : forall b, runs app job (note_failure env c id err σ5).2 b -> runs app job σ5.2 b).
  { intros b Hb. destruct (note_failure_keeps c err σ5); [by eapply keeps_runs|by eapply fails_runs]. }
  apply Hnote. destruct (negb (canRetry err) || bool_decide (n = 0)); [done|].
  set (σ6 := note_failure _ _ _ _ σ5). pose proof (asking_keeps (wait base delay) σ6) as Hwait.
  destruct (asking _ _ σ6) as [[] σ7]; cbn [negb]; [|by apply Hkr]. eapply keeps_runs; [exact Hwait|].
  pose proof (asking_keeps (now base) σ7) as Hnow'. destruct (asking _ _ σ7) as [reference' σ8].
  eapply keeps_runs; [exact Hnow'|]. apply IH.
Qed.

(** The last attempt of the job is at a time the clock gave. *)
Definition marked (store : Store) : Prop := exists w, (job_status job store).1.1 = (now base w).1.

Lemma keeps_marked a b : keeps app job a b -> marked a -> marked b.
Proof using. intros (_ & _ & Hs) [w Hw]. exists w. by rewrite Hs. Qed.

Lemma store_publish_marks partial σ σ' : store_publish base others range id partial σ = (None, σ') -> marked σ'.2.
Proof using Hothers.
  unfold store_publish. destruct (now base σ.1) as [t w] eqn:Ht.
  destruct (Publish (range w) t σ.2 id partial) as [[[]|e] store] eqn:Hp; intros [= <-]. cbn [snd].
  apply (keeps_marked store); [apply rtc_others_keep, Hothers|]. apply (Publish_status job) in Hp as [_ Hst].
  exists σ.1. rewrite Hst, Ht. by rewrite decide_True.
Qed.

Lemma note_failure_marks c err σ : CollectorID_Valid id = true -> marked (note_failure env c id err σ).2.
Proof using Hothers.
  intros Hid. unfold note_failure. cbn [record_failure job_env]. set (σ1 := logCollectorFailure _ _ _ _ _ σ).
  unfold store_record_failure. destruct (now base σ1.1) as [t w] eqn:Ht.
  destruct (RecordFailure t σ1.2 id) as [[[]|e] store] eqn:Hf; cbn [failure].
  - cbn [snd]. apply (keeps_marked store); [apply rtc_others_keep, Hothers|].
    apply (RecordFailure_status job) in Hf as [_ Hst]. exists σ1.1. rewrite Hst, Ht. by rewrite decide_True.
  - apply RecordFailure_cases in Hf as [(_ & Hno & _)|([=] & _)]. congruence.
Qed.

Lemma attempt_marks c reference σ σ' : attempt env c id reference σ = (None, σ') -> marked σ'.2.
Proof using Hothers.
  unfold attempt. cbn [run_collect release publish job_env]. unfold asking.
  destruct (Collect _ _ _) as [[partial|e] w]; [|done].
  destruct (store_publish _ _ _ _ _ _) as [[e|] σ2] eqn:Hp; intros [= <-]. by eapply store_publish_marks.
Qed.

Lemma collect_marks c n delay reference σ :
  (forall id w, (acquire base id w).1 = true) -> (forall w, (canceled base w).1 = false) ->
  CollectorID_Valid id = true -> 0 < n -> marked (collect env c id n delay reference σ).2.
Proof using Hothers.
  intros Hacq Hcan Hid. revert delay reference σ. induction n as [|n IH]; intros delay reference σ Hn; [lia|].
  cbn [collect]. cbn [acquire now canceled wait job_env].
  assert (Ha : forall A (op : W -> A * W) σ, (asking others op σ).1 = (op σ.1).1)
    by (intros A op σ0; unfold asking; by destruct (op σ0.1)).
  pose proof (Ha _ (acquire base id) σ) as Hok. rewrite Hacq in Hok.
  destruct (asking _ (acquire base id) σ) as [b σ1]. cbn in Hok. subst b. cbn [negb].
  destruct (asking _ _ σ1) as [started σ2]. destruct (attempt env c id reference σ2) as [[err|] σ3] eqn:Hatt;
    [|eapply keeps_marked; [apply report_keeps|by eapply attempt_marks]].
  set (σ4 := report _ _ _ _ _ σ3). pose proof (Ha _ (canceled base) σ4) as Hno. rewrite Hcan in Hno.
  destruct (asking _ (canceled base) σ4) as [b σ5]. cbn in Hno. subst b.
  pose proof (note_failure_marks c err σ5 Hid) as Hm. set (σ6 := note_failure _ _ _ _ σ5) in *.
  destruct (canRetry err); cbn [negb orb]; [|done]. case_bool_decide as Hlast; [done|].
  pose proof (asking_keeps (wait base delay) σ6) as Hwait. destruct (asking _ (wait base delay) σ6) as [[] σ7]; cbn [negb].
  - destruct (asking _ _ σ7) as [reference' σ8]. apply IH. lia.
  - by eapply keeps_marked.
Qed.

(** C10: the retry loop refines the runs of the application.  Let a job's refresh run in any world
    while the other jobs refresh as they may: the store it leaves is one the application can be
    in, so every scrape of it is consistent; the job's own part and status are those of before,
    or those of before but for a failed attempt, or a part its collector answered with, marked
    up; and unless the context ends, the attempt leaves its mark at a time of the clock. *)
Theorem refresh_refines c reference w store :
  let store' := (job_refresh base job others range c reference (w, store)).2 in
  (app_running app store -> app_running app store') /\ outcome job store store' /\
  ((forall id w, (acquire base id w).1 = true) -> (forall w, (canceled base w).1 = false) ->
   CollectorID_Valid id = true -> config_invalid c = false ->
   exists w0, (job_status job store').1.1 = (now base w0).1).
Proof using Hjob Hrange Hothers.
  cbv zeta. destruct (collect_runs c (Z.to_nat (MaxAttempts (Backoff c))) (Initial (Backoff c)) reference (w, store))
    as [Hr Ho].
  split; [intros Hrun; unfold app_running in *; etrans; [exact Hrun|exact Hr]|]. split; [exact Ho|].
  intros Ha Hc Hid Hcfg. apply (collect_marks c _ (Initial (Backoff c)) reference (w, store) Ha Hc Hid).
  unfold config_invalid in Hcfg. rewrite !orb_false_iff in Hcfg. destruct Hcfg as [[[[[[[_ Hm] _] _] _] _] _] _].
  apply Z.leb_gt in Hm. lia.
Qed.
End Refreshed.

(** ** A sample refresh *)

(** Slots are free, the clock stands, the context lives and the timer fires. *)
Definition sample_base : Env sim :=
  mkEnv (fun _ w => (true, w)) (fun w => (sample_now, w)) (fun _ w => (Err (ErrorString "not the job's"), w))
    (fun _ w => w) (fun _ _ w => (None, w)) (fun _ w => (None, w)) (fun w => (false, w)) (fun _ w => (true, w))
    (fun _ _ _ w => w) (fun _ _ w => w) (fun _ _ _ w => w) (fun _ _ _ w => w).

Lemma refresh_refines_witness :
  exists app job, sample_construct = Ok app /\ job ∈ app_jobs app /\
    app_running app (job_refresh sample_base job (fun _ store => store) (fun _ m => (map_to_list m).*2)
      sample_runner_config sample_now ((0%Z, []), app_store app)).2.
Proof.
  destruct sample_construct as [app|e] eqn:Hc; [|apply (f_equal is_ok) in Hc; vm_compute in Hc; discriminate Hc].
  destruct (app_jobs app) as [|job jobs] eqn:Hj.
  - apply (f_equal (fun r => match r with Ok app => length (app_jobs app) | Err _ => 1 end)) in Hc.
    rewrite Hj in Hc. vm_compute in Hc. discriminate Hc.
  - exists app, job. split; [reflexivity|]. assert (Hin : job ∈ app_jobs app) by (rewrite Hj; left).
    split; [exact Hin|].
    apply (refresh_refines app sample_base job (fun _ store => store) (fun _ m => (map_to_list m).*2) Hin
      (fun _ m => reflexivity _) (fun _ store => rtc_refl _ store) sample_runner_config sample_now (0%Z, [])
      (app_store app)).
    apply rtc_refl.
Defined.
