(* ===== verification/Delivery.v ===== *)
(** * What is collected reaches the readers (internal/scheduler/runner.go, internal/cache/memory/store.go)

    Refresh says what a refresh can leave behind.  Here is when it succeeds: the collector answers
    and the parts of its own target accept the answer.  What the jobs of the other targets do in
    the meantime, while the refresh waits for its slots or collects, cannot prevent it. *)

From S2P Require Import Prelude SliceStable GoStrings GoRegexp GoFloat GoTime GoUrl Errors Effects.
From S2P Require Import Pagination Domain Snapshot Cardinality Ports PromClient Metrics Collectors.
From S2P Require Import FamilyCollectors AccountReaders CostExplorer SummaryReaders Exporter Store Isolation.
From S2P Require Import Config Validation ValidationSpec Retry Verifier ClientFactory HttpServer.
From S2P Require Import AthenaQuery Athena Scheduler Bootstrap Application Composition Refresh.
Local Open Scope string_scope.
Local Open Scope list_scope.

(** ** What the readers see of a part *)

(** Every record of a part is in a snapshot, and of its accounts exactly those that the organization
    policies, when there are any, let through. *)
Definition exposed (policies : gmap TargetID OrganizationPolicy) (p s : Snapshot) : Prop :=
  (forall x, x ∈ costs p -> x ∈ costs s) /\ (forall x, x ∈ forecasts p -> x ∈ forecasts s) /\
  (forall x, x ∈ budgets p -> x ∈ budgets s) /\ (forall x, x ∈ commitments p -> x ∈ commitments s) /\
  (forall x, x ∈ anomalies p -> x ∈ anomalies s) /\ (forall x, x ∈ tagCosts p -> x ∈ tagCosts s) /\
  (forall x, x ∈ accounts p -> x ∈ accounts s <-> policies = ∅ \/ account_allowed policies s x).

Lemma part_exposed store id p :
  store_inv store -> parts (current store) !! id = Some p ->
  exposed (Store.organizationPolicies store) p (snapshot (current store)).
Proof.
  intros Hinv Hp. destruct (inv_snapshot store Hinv) as (values & Hv & Hm).
  pose proof (snapshot_families store values Hm) as (Hc & Hf & Hb & _ & Hcm & Han & Ht).
  assert (Hin : p ∈ values) by (apply (elem_of_parts _ _ _ Hv); by exists id).
  assert (Hfamily : forall A (family : Snapshot -> list A) l, l ≡ₚ flat_map family values ->
    forall x, x ∈ family p -> x ∈ l) by (intros A family l Hl x Hx; rewrite Hl; apply elem_of_flat_map; by exists p).
  split_and!; try by apply Hfamily. intros x Hx. by apply (part_accounts store values p).
Qed.

(** ** Jobs of the other targets *)

Section Foreign.
Context {W V Registry : Type} (app : Application W V Registry) (job : AppJob W).

Definition foreign_job_step (store store' : Store) : Prop :=
  exists other, other ∈ app_jobs app /\ ID_Target (job_id other) <> ID_Target (job_id job) /\ job_step other store store'.

Lemma foreign_job_others store store' : foreign_job_step store store' -> others_step app job store store'.
Proof. intros (other & Hin & Hne & Hstep). exists other. split; [done|]. split; [congruence|done]. Qed.

Lemma foreign_job_foreign store store' :
  foreign_job_step store store' -> foreign_step (ID_Target (job_id job)) store store'.
Proof.
  intros (other & _ & Hne & [? ? ? ? ? ? ? ? _ Hr Hp|? ? ? Hf]); [by eapply foreign_publish|by eapply foreign_failure].
Qed.

Lemma foreign_job_app store store' : foreign_job_step store store' -> app_step app store store'.
Proof. intros (other & Hin & _ & Hstep). by exists other. Qed.
End Foreign.

(** ** Delivery *)

Section Delivery.
Context {W V P Input Output Registry : Type} `{World W, AthenaWorld W, RetryWorld W}.
Context (LookupEnv : string -> option string)
  (range : gmap string CredentialSourceConfig -> list (string * CredentialSourceConfig))
  (sdk : SDK W P Input Output) (services : Application.Services W P) (bucket : TargetConfig -> nat)
  (range_groups : list groupKey -> list groupKey) (slack : Z)
  (prometheus : Prometheus Registry) (libraries : Libraries V Registry)
  (the_store : V -> Store) (the_clock : V -> Time).
Context (names : Registry -> gset string) (library : PromCollector -> list string).
Abbreviation construct := (construct LookupEnv range sdk services bucket range_groups slack prometheus libraries
  the_store the_clock).

(** A job of an application that was started, refreshed in an environment whose other refreshes
    are of other targets. *)
Context (value : AppConfig) (info : Info) (app : Application W V Registry) (base : Env W) (job : AppJob W).
Context (others : W -> Store -> Store) (ranges : W -> gmap CollectorID Snapshot -> list Snapshot).
Context (Hrange : range (Sources (cfg_AWS value)) ≡ₚ map_to_list (Sources (cfg_AWS value)))
  (Hval : Validate LookupEnv range value = Ok tt) (Hlaws : RegistryLaws prometheus names library)
  (Happ : construct value info = Ok app) (Hjob : job ∈ app_jobs app).
Context (Hranges : forall w, range_ok (ranges w))
  (Hforeign : forall w store, rtc (foreign_job_step app job) store (others w store)).

Lemma foreign_others w store : rtc (others_step app job) store (others w store).
Proof using Hforeign. eapply rtc_subrel; [apply foreign_job_others|apply Hforeign]. Qed.

(** A run of the jobs of other targets. *)
Definition meanwhile (a b : Store) : Prop := rtc (foreign_job_step app job) a b.

Lemma asking_eq {A} (op : W -> A * W) σ : asking others op σ = ((op σ.1).1, ((op σ.1).2, others (op σ.1).2 σ.2)).
Proof using. unfold asking. by destruct (op σ.1). Qed.

Lemma meanwhile_running a b : app_running app a -> meanwhile a b -> app_running app b.
Proof using. intros Ha Hab. unfold app_running in *. etrans; [exact Ha|]. eapply rtc_subrel; [apply foreign_job_app|exact Hab]. Qed.

(** The parts of the job's target accept a partial. *)
Definition accepts (store : Store) (partial : Snapshot) : Prop :=
  exists r now, range_ok r /\ (Publish r now store (job_id job) partial).1 = Ok tt.

(** They go on accepting it. *)
Lemma accepts_meanwhile a b partial r now :
  app_running app a -> meanwhile a b -> accepts a partial -> range_ok r ->
  (Publish r now b (job_id job) partial).1 = Ok tt.
Proof using Hrange Hval Hlaws Happ Hjob.
  intros Ha Hab (r' & now' & Hr' & <-) Hr. pose proof (meanwhile_running a b Ha Hab) as Hb.
  destruct (running_store _ _ _ _ _ _ _ _ _ _ _ _ _ _ _ Happ Ha) as [Hinv%store_reachable_inv _].
  destruct (running_store _ _ _ _ _ _ _ _ _ _ _ _ _ _ _ Happ Hb) as [Hinv'%store_reachable_inv _].
  destruct (running_bar_free _ _ _ _ _ _ _ _ _ _ _ _ _ _ _ _ a Hrange Hval Hlaws Happ Ha) as [Hbar Hnames].
  destruct (running_bar_free _ _ _ _ _ _ _ _ _ _ _ _ _ _ _ _ b Hrange Hval Hlaws Happ Hb) as [Hbar' _].
  assert (Hsteps : rtc (foreign_step (ID_Target (job_id job))) a b) by (eapply rtc_subrel; [apply (foreign_job_foreign app)|exact Hab]).
  destruct (foreign_steps_isolated _ _ _ Hinv Hsteps) as (_ & _ & Hview).
  destruct (foreign_steps_grow _ _ _ Hsteps) as [Hpol _].
  apply Publish_local; try done; [by apply Hnames|]. intros id Hid%bool_decide_eq_true. by injection (Hview id Hid).
Qed.

(** The store of the job when the collector has answered: that of before but for the others. *)
Lemma publish_delivers a σ partial :
  app_running app a -> meanwhile a σ.2 -> accepts a partial ->
  exists σ' w0, store_publish base others ranges (job_id job) partial σ = (None, σ') /\
    job_part job σ'.2 = Some partial /\ job_status job σ'.2 = ((now base w0).1, (now base w0).1, true).
Proof using Hrange Hval Hlaws Happ Hjob Hranges Hforeign.
  intros Ha Hab Hacc. unfold store_publish. destruct (now base σ.1) as [t w] eqn:Ht.
  pose proof (accepts_meanwhile a σ.2 partial (ranges w) t Ha Hab Hacc (Hranges w)) as Hok.
  destruct (Publish (ranges w) t σ.2 (job_id job) partial) as [r store] eqn:Hp. cbn in Hok. subst r.
  eexists _, σ.1. split; [reflexivity|]. rewrite Ht. cbn [snd fst].
  destruct (rtc_others_keep app job _ _ (foreign_others w store)) as (_ & Hpart & Hst). rewrite Hpart, Hst.
  apply (Publish_status job) in Hp. rewrite !decide_True in Hp by done. destruct Hp. done.
Qed.

(** C11: what is collected reaches the readers.  Let an application run from a configuration that
    [Validate] accepts, and a job of it be refreshed: when the refresh gets its slots, its collector
    answers and the parts of its own target accept the answer, then the refresh ends with the answer
    as the part of the job, the job up and its last attempt and success at one time of the clock,
    and every record of the answer in the snapshot readers get, of its accounts exactly those that
    the configured organization policies let through.  Whatever the jobs of the other targets
    publish or fail to in the meantime. *)
Theorem refresh_delivers c reference w store partial w' :
  app_running app store -> config_invalid c = false ->
  (acquire base (job_id job) w).1 = true ->
  Collect (aj_Collector job) reference (now base (acquire base (job_id job) w).2).2 = (Ok partial, w') ->
  accepts store partial ->
  let store' := (job_refresh base job others ranges c reference (w, store)).2 in
  app_running app store' /\ job_part job store' = Some partial /\
  (exists w0, job_status job store' = ((now base w0).1, (now base w0).1, true)) /\
  exposed (organizationPolicies value) partial (snapshot (current store')).
Proof using Hrange Hval Hlaws Happ Hjob Hranges Hforeign.
  intros Hrun Hcfg Hacq Hcol Hacc. cbv zeta.
  assert (Hdone : exists (σ : W * Store) w0, job_part job σ.2 = Some partial /\
    job_status job σ.2 = ((now base w0).1, (now base w0).1, true) /\
    keeps app job σ.2 (job_refresh base job others ranges c reference (w, store)).2).
  { unfold job_refresh, refresh. unfold config_invalid in Hcfg. rewrite !orb_false_iff in Hcfg.
    destruct Hcfg as [[[[[[[_ Hm] _] _] _] _] _] _]. apply Z.leb_gt in Hm.
    destruct (Z.to_nat (MaxAttempts (Backoff c))) as [|n] eqn:Hn; [lia|]. cbn [collect]. unfold attempt.
    cbn [acquire now run_collect release publish job_env]. rewrite (asking_eq _ (w, store)). cbn [fst snd]. rewrite Hacq. cbn [negb].
    rewrite asking_eq. cbn [fst snd]. rewrite asking_eq. cbn [fst snd]. rewrite Hcol. cbn [fst snd].
    match goal with |- context [store_publish _ _ _ _ _ ?sent] => set (σ := sent) end.
    assert (Hmeanwhile : meanwhile store σ.2)
      by (unfold σ, telling, meanwhile; cbn [fst snd]; repeat (etrans; [|apply Hforeign]); apply rtc_refl).
    destruct (publish_delivers store σ partial Hrun Hmeanwhile Hacc) as (σ' & w0 & -> & Hpart & Hst).
    exists σ', w0. split; [exact Hpart|]. split; [exact Hst|]. apply report_keeps, foreign_others. }
  destruct Hdone as (σ & w0 & Hpart & Hst & (_ & Hkpart & Hkst)).
  destruct (collect_runs app base job others ranges Hjob Hranges foreign_others c (Z.to_nat (MaxAttempts (Backoff c)))
    (Initial (Backoff c)) reference (w, store)) as [Hruns _].
  assert (Hrunning : app_running app (job_refresh base job others ranges c reference (w, store)).2)
    by (unfold app_running in *; etrans; [exact Hrun|exact Hruns]).
  split; [exact Hrunning|]. rewrite Hkpart, Hkst. split; [exact Hpart|]. split; [by exists w0|].
  destruct (running_store _ _ _ _ _ _ _ _ _ _ _ _ _ _ _ Happ Hrunning) as [Hinv%store_reachable_inv _].
  rewrite <- (running_policies _ _ _ _ _ _ _ _ _ _ _ _ _ _ _ Happ Hrunning).
  apply (part_exposed _ (job_id job)); [exact Hinv|]. unfold job_part in Hkpart, Hpart. by rewrite Hkpart.
Qed.
End Delivery.

(** ** The costs of the sample workload *)

(** Two queries of the Cost and Usage Report that succeed at once: the costs, then the costs by tag. *)
Definition sample_world : sim := (0%Z, ["SUCCEEDED"; "SUCCEEDED"]).

Definition report_page (tags : bool) : GetQueryResultsOutput :=
  mkResults (Some (mkResultSet
    (Some ([varchar "window"; varchar "currency"; varchar "cost_basis"; mkColumn (Some "amount") (Some "decimal")] ++
           if tags then [varchar "tag_key"; varchar "tag_value"] else []))
    (if tags then [map Some tagColumns; [Some "daily"; Some "USD"; Some "unblended"; Some "1.5"; Some "team"; Some "core"]]
     else [map Some costColumns; [Some "daily"; Some "USD"; Some "unblended"; Some "1.5"]]))) None.

Definition report_api : AthenaAPI sim := {|
  StartQueryExecution := StartQueryExecution sim_api;
  GetQueryExecution := GetQueryExecution sim_api;
  GetQueryResults _ _ _ w := (Ok (Some (report_page (bool_decide (w.2 = [])))), w);
  StopQueryExecution := StopQueryExecution sim_api
|}.

Definition report_services : Application.Services sim string :=
  mkServices (sv_CostExplorer sim_services) (sv_Organizations sim_services) (sv_Budgets sim_services)
    (fun _ => report_api) (sv_Verify sim_services).

Definition report_construct : res (Application sim (Store * Time) (gset string)) :=
  construct sample_env (fun m => map_to_list m) sim_sdk report_services (fun _ => 1) (fun l => l) 0%Z sample_prometheus
    (mkLibraries (fun _ _ _ _ w => w) (fun _ _ w => w) (fun _ _ w => w) (fun _ _ w => w) (fun _ _ w => w))
    fst snd sample_config (mkInfo "dev" "none" "unknown" "go").

(** The last job of the sample answers with costs, and the empty store accepts them. *)
Definition sample_accepted (app : Application sim (Store * Time) (gset string)) : bool :=
  match last (app_jobs app) with
  | Some job =>
      match Collect (aj_Collector job) sample_now sample_world with
      | (Ok partial, _) =>
          is_ok (Publish range_default sample_now (app_store app) (job_id job) partial).1 && (0 <? length (costs partial))%nat
      | _ => false
      end
  | None => false
  end.

Lemma sample_is_accepted : match report_construct with Ok app => sample_accepted app | Err _ => false end = true.
Proof. vm_compute. reflexivity. Qed.

Lemma refresh_delivers_witness :
  exists app job partial, report_construct = Ok app /\ job ∈ app_jobs app /\ costs partial <> [] /\
    let store' := (job_refresh sample_base job (fun _ store => store) (fun _ => range_default)
      sample_runner_config sample_now (sample_world, app_store app)).2 in
    exposed (organizationPolicies sample_config) partial (snapshot (current store')).
Proof.
  pose proof sample_is_accepted as Hok. destruct report_construct as [app|e] eqn:Hc; [|discriminate Hok].
  unfold sample_accepted in Hok. destruct (last (app_jobs app)) as [job|] eqn:Hlast; [|discriminate Hok].
  destruct (Collect (aj_Collector job) sample_now sample_world) as [[partial|e] w'] eqn:Hcol; [|discriminate Hok].
  apply andb_true_iff in Hok as [Hpub Hlen].
  exists app, job, partial. split; [reflexivity|].
  assert (Hjob : job ∈ app_jobs app) by (apply last_Some in Hlast as [l ->]; apply elem_of_app; right; left).
  split; [exact Hjob|]. split; [intros Hnil; rewrite Hnil in Hlen; discriminate Hlen|].
  eapply (refresh_delivers sample_env (fun m => map_to_list m) sim_sdk report_services (fun _ => 1) (fun l => l) 0%Z
    sample_prometheus
    (mkLibraries (fun _ _ _ _ w => w) (fun _ _ w => w) (fun _ _ w => w) (fun _ _ w => w) (fun _ _ w => w))
    fst snd (fun registry => registry) sample_library sample_config (mkInfo "dev" "none" "unknown" "go") app sample_base
    job (fun _ store => store) (fun _ => range_default)).
  - reflexivity.
  - vm_compute. reflexivity.
  - exact sample_registry_laws.
  - exact Hc.
  - exact Hjob.
  - intros _ m. reflexivity.
  - intros _ store. apply rtc_refl.
  - apply rtc_refl.
  - vm_compute. reflexivity.
  - reflexivity.
  - exact Hcol.
  - exists range_default, sample_now. split; [intros m; reflexivity|].
    destruct (Publish _ _ _ _ _).1 as [[]|e]; [reflexivity|discriminate Hpub].
Defined.
