(* ===== verification/Command.v ===== *)
(** * The command (internal/app/command.go, [Run] of bootstrap.go, cmd/aws-cost-exporter/main.go)

    [execute] loads the configuration under the flags, makes the logger, and checks the sources
    or starts the exporter.  Cobra, which parses the arguments, viper and the listener are
    arguments. *)

From S2P Require Import Prelude SliceStable GoStrings GoRegexp GoFloat GoTime GoUrl Errors Effects.
From S2P Require Import Pagination Domain Snapshot Cardinality Ports PromClient Metrics Collectors.
From S2P Require Import FamilyCollectors AccountReaders CostExplorer SummaryReaders Exporter Store.
From S2P Require Import Config Validation ValidationSpec Loader Logging Retry Verifier ClientFactory.
From S2P Require Import HttpServer AthenaQuery Athena Scheduler Bootstrap Application.
Local Open Scope string_scope.
Local Open Scope list_scope.

(** The flags after parsing; a flag that was not changed is [None]. *)
Record Flags := mkFlags {
  fl_config : string; fl_listen_address : option string; fl_log_level : option string;
  fl_check_config : bool
}.

(** The map of overrides; its keys differ, so that the order of a range over it is no matter. *)
Definition overrides (flags : Flags) : list (string * string) :=
  match fl_listen_address flags with Some address => [("server.listen_address", address)] | None => [] end ++
  match fl_log_level flags with Some level => [("log.level", level)] | None => [] end.

Section Command.
Context {S : Type} (viper : Viper S) (LookupEnv : string -> option string)
  (range : gmap string CredentialSourceConfig -> list (string * CredentialSourceConfig)).
Context {W P Input Output : Type} `{World W, AthenaWorld W, RetryWorld W}.
Context (sdk : SDK W P Input Output).
(** What cobra makes of the arguments, [None] when it printed the version or the help; the error
    of a write to the output; and whether the error output is there. *)
Context (parse : list string -> res (option Flags)) (Fprintln : string -> res unit) (errorOutput : bool).

Definition RunE (runtime : AppConfig -> Logging.Logger -> res unit) (flags : Flags) : res unit :=
  value ← Load viper LookupEnv range (mkOptions (fl_config flags) (overrides flags));
  logger ← logging_New (cfg_Log value) errorOutput;
  if fl_check_config flags then
    let factory := factory_New sdk LookupEnv (range (Sources (cfg_AWS value))) (cfg_AWS value) 0 in
    _ ← map_err (Wrapped "validate AWS credential sources")
          (ValidateSources (Some factory) (range (Sources (cfg_AWS value))));
    Fprintln "configuration valid"
  else runtime value logger.

Definition execute (args : list string) (runtime : AppConfig -> Logging.Logger -> res unit) : res unit :=
  flags ← parse args;
  match flags with None => Ok tt | Some flags => RunE runtime flags end.

(** The status [main] exits with. *)
Definition exit_status (result : res unit) : Z := match result with Ok _ => 0%Z | Err _ => 1%Z end.

(** ** [Run] *)

Section Runtime.
Context {V Registry Listener : Type} (services : Application.Services W P) (bucket : TargetConfig -> nat)
  (range_groups : list groupKey -> list groupKey) (slack : Z)
  (prometheus : Prometheus Registry) (libraries : Libraries V Registry)
  (the_store : V -> Store) (the_clock : V -> Time) (info : Info).
(** [net.Listen], and [RunServices] over what was built. *)
Context (Listen : string -> res Listener)
  (RunServices : Application W V Registry -> Listener -> Duration -> Logging.Logger -> res unit).

Definition Run (value : AppConfig) (logger : Logging.Logger) : res unit :=
  app ← construct LookupEnv range sdk services bucket range_groups slack prometheus libraries the_store
          the_clock value info;
  listener ← map_err (Wrapped "listen") (Listen (ListenAddress (cfg_Server value)));
  RunServices app listener (ShutdownTimeout (cfg_Server value)) logger.

(** Every source of a validated configuration that could be loaded. *)
Definition sources_load (value : AppConfig) : Prop :=
  forall name source, Sources (cfg_AWS value) !! name = Some source ->
    (load_source sdk LookupEnv (cfg_AWS value) source).2 = None.

Lemma ValidateSources_ok value :
  range (Sources (cfg_AWS value)) ≡ₚ map_to_list (Sources (cfg_AWS value)) ->
  ValidateSources (Some (factory_New sdk LookupEnv (range (Sources (cfg_AWS value))) (cfg_AWS value) 0))
    (range (Sources (cfg_AWS value))) = Ok tt <-> sources_load value.
Proof.
  intros Hrange. set (l := range (Sources (cfg_AWS value))) in *.
  assert (Hnd : NoDup l.*1) by (rewrite Hrange; apply NoDup_fst_map_to_list).
  pose proof (factory_New_sources sdk LookupEnv l (cfg_AWS value) 0 Hnd) as Hload. cbv zeta in Hload.
  assert (Hiff : sources_load value <-> forall name source, (name, source) ∈ l ->
    (load_source sdk LookupEnv (cfg_AWS value) source).2 = None).
  { unfold sources_load. split; intros Hs name source Hin; apply (Hs name);
      [apply elem_of_map_to_list; by rewrite <- Hrange|rewrite Hrange; by apply elem_of_map_to_list]. }
  rewrite Hiff. clear Hiff. cbn [ValidateSources].
  assert (Hgen : forall l', (forall x, x ∈ l' -> x ∈ l) ->
    source_errors (factory_New sdk LookupEnv l (cfg_AWS value) 0) l' = Ok tt <->
    forall name source, (name, source) ∈ l' -> (load_source sdk LookupEnv (cfg_AWS value) source).2 = None).
  { induction l' as [|[name source] l' IH]; intros Hsub; cbn [source_errors].
    { split; [intros _ n s Hn; by apply elem_of_nil in Hn|done]. }
    specialize (Hload name source (Hsub _ (list_elem_of_here _ _))).
    destruct (load_source sdk LookupEnv (cfg_AWS value) source) as [base err] eqn:Hl. destruct Hload as [_ ->].
    destruct err as [e|].
    - split; [done|]. intros Hs. specialize (Hs name source (list_elem_of_here _ _)). by rewrite Hl in Hs.
    - rewrite IH by (intros x Hx; apply Hsub; by right). split; intros Hs n s.
      + intros [[= -> ->]|Hin]%elem_of_cons; [by rewrite Hl|by apply (Hs n)].
      + intros Hin. apply (Hs n). by right. }
  by apply Hgen.
Qed.

(** C12: from the arguments to the services.  When the flags parse and the merged configuration
    loads, nothing before the listener fails any more: with [--check-config] the command prints
    that the configuration is valid exactly when every credential source could be loaded, and
    starts nothing; otherwise the exporter is constructed, and the result is that of the listener
    and of the services over it, with a logger of the configured level. *)
Theorem execute_starts (names : Registry -> gset string) (library : PromCollector -> list string) args flags value :
  (forall v, range (Sources (cfg_AWS v)) ≡ₚ map_to_list (Sources (cfg_AWS v))) ->
  RegistryLaws prometheus names library -> errorOutput = true ->
  parse args = Ok (Some flags) ->
  Load viper LookupEnv range (mkOptions (fl_config flags) (overrides flags)) = Ok value ->
  if fl_check_config flags then
    (sources_load value -> execute args Run = Fprintln "configuration valid") /\
    (~ sources_load value -> exists cause, execute args Run = Err (Wrapped "validate AWS credential sources" cause))
  else
    exists app logger, logging_New (cfg_Log value) errorOutput = Ok logger /\
      construct LookupEnv range sdk services bucket range_groups slack prometheus libraries the_store the_clock
        value info = Ok app /\ map job_id (app_jobs app) = configuredCollectorIDs value /\
      execute args Run =
        match Listen (ListenAddress (cfg_Server value)) with
        | Ok listener => RunServices app listener (ShutdownTimeout (cfg_Server value)) logger
        | Err err => Err (Wrapped "listen" err)
        end.
Proof.
  intros Hrange Hlaws Hout Hparse Hload.
  pose proof (proj1 (Load_ok viper LookupEnv range _ value Hrange) Hload) as (_ & _ & _ & Hvalid).
  destruct (v_log _ _ Hvalid) as [Hlevel Hformat].
  destruct (logging_New_ok (cfg_Log value) Hlevel Hformat) as (logger & Hlogger & _).
  assert (Hexec : execute args Run = RunE Run flags) by (unfold execute; by rewrite Hparse).
  rewrite Hexec. unfold RunE. rewrite Hload. cbn [mbind result_bind]. rewrite Hout, Hlogger. cbn [mbind result_bind].
  destruct (fl_check_config flags).
  - cbv zeta. pose proof (ValidateSources_ok value (Hrange value)) as Hsrc.
    destruct (ValidateSources _ _) as [[]|cause]; cbn [map_err mbind result_bind].
    + split; [done|]. intros Hn. by destruct Hn, Hsrc; auto.
    + split; [intros Hs; by apply Hsrc in Hs|]. by eexists.
  - destruct (construct_ok LookupEnv range sdk services bucket range_groups slack prometheus libraries the_store
      the_clock names library value info (Hrange value) Hvalid Hlaws) as (app & Happ & Hids & _).
    exists app, logger. split; [done|]. split; [done|]. split; [done|]. unfold Run. rewrite Happ. cbn [mbind result_bind].
    by destruct (Listen _).
Qed.
End Runtime.
End Command.

(** ** A concrete start *)

(** A viper that decodes the sample configuration whatever it is given. *)
Definition sample_viper : Viper unit :=
  mkViper unit tt (fun _ _ s => s) (fun _ s => Ok s) (fun _ _ s => s) (fun _ => Ok sample_config).

Definition sample_parse (args : list string) : res (option Flags) :=
  match args with
  | [] => Ok (Some (mkFlags "" None None false))
  | ["--check-config"] => Ok (Some (mkFlags "" None None true))
  | _ => Err (ErrorString "unknown flag")
  end.

Definition sample_Run : AppConfig -> Logging.Logger -> res unit :=
  Run sample_env (fun m => map_to_list m) sim_sdk sim_services (fun _ => 1) (fun l => l) 0%Z sample_prometheus
    (mkLibraries (fun _ _ _ _ w => w) (fun _ _ w => w) (fun _ _ w => w) (fun _ _ w => w) (fun _ _ w => w))
    (fst (A := Store) (B := Time)) snd (mkInfo "dev" "none" "unknown" "go")
    (fun address => if bool_decide (address = ":8080") then Ok tt else Err (ErrorString "no such address"))
    (fun _ _ _ _ => Ok tt).

Lemma execute_starts_witness :
  execute sample_viper sample_env (fun m => map_to_list m) sim_sdk sample_parse (fun _ => Ok tt) true [] sample_Run = Ok tt.
Proof.
  destruct (execute_starts sample_viper sample_env (fun m => map_to_list m) sim_sdk sample_parse (fun _ => Ok tt) true
    sim_services (fun _ => 1) (fun l => l) 0%Z sample_prometheus
    (mkLibraries (fun _ _ _ _ w => w) (fun _ _ w => w) (fun _ _ w => w) (fun _ _ w => w) (fun _ _ w => w))
    (fst (A := Store) (B := Time)) snd (mkInfo "dev" "none" "unknown" "go")
    (fun address => if bool_decide (address = ":8080") then Ok tt else Err (ErrorString "no such address"))
    (fun _ _ _ _ => Ok tt) (fun registry => registry) sample_library [] (mkFlags "" None None false) sample_config)
    as (app & logger & _ & _ & _ & Hexec).
  - reflexivity.
  - exact sample_registry_laws.
  - reflexivity.
  - reflexivity.
  - vm_compute. reflexivity.
  - unfold sample_Run. rewrite Hexec. reflexivity.
Defined.
