(* ===== verification/Services.v ===== *)
(** * Running and stopping the services ([RunServices] of internal/app/bootstrap.go)

    The goroutine of [RunServices], that of the scheduler and that of the HTTP server, as a step
    relation over real time.  [net/http] is described by its documentation: [Serve] returns
    [ErrServerClosed] once [Shutdown] is called, and another error before; [Shutdown] returns when
    the requests are drained, with the error of closing the listener, or when its context ends.  A
    goroutine that can go on does so before time passes; the scheduler may take any time to stop,
    or never stop. *)

From S2P Require Import Prelude GoStrings GoTime Errors.
Local Open Scope string_scope.
Local Open Scope list_scope.

(** [http.ErrServerClosed]. *)
Definition ErrServerClosed : error := Sentinel "http: Server closed".

(** What [waitForScheduler] is followed by: the error of [Serve], or that of [Shutdown]. *)
Inductive After :=
| AfterServe (err : error)
| AfterShutdown (err : option error).

(** Where [RunServices] is: at its select; past it, before [cancel], or before [BeginShutdown],
    [cancel] and [Shutdown]; in [Shutdown] until its deadline; before [waitForScheduler], and in
    its select until the timer fires; at the receive of the result of [Serve]; or returned at an
    instant, with the errors joined. *)
Inductive Main :=
| MSelect
| MServed (err : error)
| MStopping
| MCanceling
| MShutting
| MDraining (deadline : Time)
| MWait (next : After)
| MTimed (next : After) (deadline : Time)
| MServeResult (shutdownErr : option error)
| MReturned (result : list error) (at_ : Time).

(** [serverDone] holds the error once [Serve] returned.  [run_canceled] is the cancel of the
    context of the scheduler, [ctx_done] the end of its parent's; [timeouts] counts the calls of
    [onTimeout], and [stopped_at] is when the select of [RunServices] was left. *)
Record Services := mkServices {
  sv_clock : Time; ctx_done : bool; run_canceled : bool; schedulerDone : bool;
  serverDone : option error; sv_draining : bool; shutdown_called : bool; main : Main;
  timeouts : nat; stopped_at : option Time
}.

Definition at_main (m : Main) (σ : Services) : Services :=
  mkServices (sv_clock σ) (ctx_done σ) (run_canceled σ) (schedulerDone σ) (serverDone σ) (sv_draining σ)
    (shutdown_called σ) m (timeouts σ) (stopped_at σ).

(** [errors.Is(err, http.ErrServerClosed)] turns the error into nil. *)
Definition serve_error (err : error) : list error := if Is ErrServerClosed err then [] else [err].

(** The result after [waitForScheduler], or the receive of the other error. *)
Definition waited (next : After) (now : Time) : Main :=
  match next with
  | AfterServe err => MReturned (serve_error err) now
  | AfterShutdown err => MServeResult err
  end.

Section Steps.
(** [server.shutdownTimeout] and [schedulerShutdownTimeout]. *)
Context (drain timeout : Duration).

Inductive service_step (σ : Services) : Services -> Prop :=
| scheduler_stops :
    (ctx_done σ || run_canceled σ = true) -> schedulerDone σ = false ->
    service_step σ (mkServices (sv_clock σ) (ctx_done σ) (run_canceled σ) true (serverDone σ) (sv_draining σ)
      (shutdown_called σ) (main σ) (timeouts σ) (stopped_at σ))
| server_returns err :
    serverDone σ = None ->
    (if shutdown_called σ then err = ErrServerClosed else Is ErrServerClosed err = false) ->
    service_step σ (mkServices (sv_clock σ) (ctx_done σ) (run_canceled σ) (schedulerDone σ) (Some err) (sv_draining σ)
      (shutdown_called σ) (main σ) (timeouts σ) (stopped_at σ))
| main_served err :
    main σ = MSelect -> serverDone σ = Some err ->
    service_step σ (mkServices (sv_clock σ) (ctx_done σ) (run_canceled σ) (schedulerDone σ) (serverDone σ) (sv_draining σ)
      (shutdown_called σ) (MServed err) (timeouts σ) (Some (sv_clock σ)))
| main_stopping :
    main σ = MSelect -> ctx_done σ = true ->
    service_step σ (mkServices (sv_clock σ) (ctx_done σ) (run_canceled σ) (schedulerDone σ) (serverDone σ) (sv_draining σ)
      (shutdown_called σ) MStopping (timeouts σ) (Some (sv_clock σ)))
| main_cancels_served err :
    main σ = MServed err ->
    service_step σ (mkServices (sv_clock σ) (ctx_done σ) true (schedulerDone σ) (serverDone σ) (sv_draining σ)
      (shutdown_called σ) (MWait (AfterServe err)) (timeouts σ) (stopped_at σ))
| main_drains :
    main σ = MStopping ->
    service_step σ (mkServices (sv_clock σ) (ctx_done σ) (run_canceled σ) (schedulerDone σ) (serverDone σ) true
      (shutdown_called σ) MCanceling (timeouts σ) (stopped_at σ))
| main_cancels :
    main σ = MCanceling ->
    service_step σ (mkServices (sv_clock σ) (ctx_done σ) true (schedulerDone σ) (serverDone σ) (sv_draining σ)
      (shutdown_called σ) MShutting (timeouts σ) (stopped_at σ))
| main_shuts_down :
    main σ = MShutting ->
    service_step σ (mkServices (sv_clock σ) (ctx_done σ) (run_canceled σ) (schedulerDone σ) (serverDone σ) (sv_draining σ)
      true (MDraining (sv_clock σ + drain)%Z) (timeouts σ) (stopped_at σ))
| main_drained deadline err :
    main σ = MDraining deadline ->
    (err = Some DeadlineExceeded -> (deadline <= sv_clock σ)%Z) ->
    service_step σ (at_main (MWait (AfterShutdown err)) σ)
| main_waits next :
    main σ = MWait next -> (0 < timeout)%Z ->
    service_step σ (at_main (MTimed next (sv_clock σ + timeout)%Z) σ)
| main_waits_forever next :
    main σ = MWait next -> (timeout <= 0)%Z -> schedulerDone σ = true ->
    service_step σ (at_main (waited next (sv_clock σ)) σ)
| main_scheduler_done next deadline :
    main σ = MTimed next deadline -> schedulerDone σ = true ->
    service_step σ (at_main (waited next (sv_clock σ)) σ)
| main_scheduler_late next deadline :
    main σ = MTimed next deadline -> (deadline <= sv_clock σ)%Z ->
    service_step σ (mkServices (sv_clock σ) (ctx_done σ) (run_canceled σ) (schedulerDone σ) (serverDone σ) (sv_draining σ)
      (shutdown_called σ) (waited next (sv_clock σ)) (S (timeouts σ)) (stopped_at σ))
| main_returns shutdownErr err :
    main σ = MServeResult shutdownErr -> serverDone σ = Some err ->
    service_step σ (at_main (MReturned (option_list shutdownErr ++ serve_error err) (sv_clock σ)) σ).

(** Until when time may pass: [RunServices] waits for a timer or for others, and [Serve] returns
    at once when [Shutdown] was called. *)
Definition patient (σ : Services) (now : Time) : Prop :=
  match main σ with
  | MSelect => ctx_done σ = false /\ serverDone σ = None
  | MDraining deadline => (now <= deadline)%Z /\ serverDone σ <> None
  | MTimed next deadline =>
      (now <= deadline)%Z /\ schedulerDone σ = false /\ (shutdown_called σ = true -> serverDone σ <> None)
  | MWait next => (timeout <= 0)%Z /\ schedulerDone σ = false /\ (shutdown_called σ = true -> serverDone σ <> None)
  | MReturned _ _ => True
  | _ => False
  end.

Inductive services_step (σ : Services) : Services -> Prop :=
| services_move σ' : service_step σ σ' -> services_step σ σ'
| services_stop : (* the context of the process ends *)
    services_step σ (mkServices (sv_clock σ) true (run_canceled σ) (schedulerDone σ) (serverDone σ) (sv_draining σ)
      (shutdown_called σ) (main σ) (timeouts σ) (stopped_at σ))
| services_tick now : (sv_clock σ < now)%Z -> patient σ now ->
    services_step σ (mkServices now (ctx_done σ) (run_canceled σ) (schedulerDone σ) (serverDone σ) (sv_draining σ)
      (shutdown_called σ) (main σ) (timeouts σ) (stopped_at σ)).

Definition services_init (start : Time) : Services :=
  mkServices start false false false None false false MSelect 0 None.
Definition services_reachable (start : Time) (σ : Services) : Prop :=
  rtc services_step (services_init start) σ.
End Steps.

(** ** The invariant *)

Section Invariant.
Context (drain timeout : Duration) (Hdrain : (0 <= drain)%Z) (Htimeout : (0 < timeout)%Z).

(** Time since the select was left, by where [RunServices] is. *)
Definition in_time (σ : Services) : Prop :=
  match main σ with
  | MSelect => stopped_at σ = None
  | MServed _ | MStopping | MCanceling | MShutting => stopped_at σ = Some (sv_clock σ)
  | MDraining d => exists t0, stopped_at σ = Some t0 /\ d = (t0 + drain)%Z /\ (sv_clock σ <= d)%Z
  | MWait _ => exists t0, stopped_at σ = Some t0 /\ (sv_clock σ <= t0 + drain)%Z
  | MTimed _ d =>
      exists t0, stopped_at σ = Some t0 /\ (d <= t0 + drain + timeout)%Z /\ (sv_clock σ <= d)%Z
  | MServeResult _ => exists t0, stopped_at σ = Some t0 /\ (sv_clock σ <= t0 + drain + timeout)%Z
  | MReturned _ t => exists t0, stopped_at σ = Some t0 /\ (t <= t0 + drain + timeout)%Z
  end.

(** The scheduler is done, or was reported late, once. *)
Definition accounted (σ : Services) : Prop :=
  timeouts σ = 1 \/ timeouts σ = 0 /\ schedulerDone σ = true.

Definition stopping (σ : Services) : Prop := run_canceled σ = true /\ sv_draining σ = true /\ shutdown_called σ = true.

(** What was done, by where [RunServices] is. *)
Definition in_order (σ : Services) : Prop :=
  match main σ with
  | MSelect | MStopping => shutdown_called σ = false /\ timeouts σ = 0
  | MServed err => shutdown_called σ = false /\ timeouts σ = 0 /\ serverDone σ = Some err
  | MCanceling => shutdown_called σ = false /\ timeouts σ = 0 /\ sv_draining σ = true
  | MShutting => shutdown_called σ = false /\ timeouts σ = 0 /\ sv_draining σ = true /\ run_canceled σ = true
  | MDraining _ => stopping σ /\ timeouts σ = 0
  | MWait (AfterServe err) | MTimed (AfterServe err) _ =>
      run_canceled σ = true /\ shutdown_called σ = false /\ timeouts σ = 0 /\ serverDone σ = Some err
  | MWait (AfterShutdown _) | MTimed (AfterShutdown _) _ => stopping σ /\ timeouts σ = 0
  | MServeResult _ => stopping σ /\ accounted σ
  | MReturned result _ =>
      run_canceled σ = true /\ accounted σ /\ exists err, serverDone σ = Some err /\
        (result = [] -> stopping σ /\ Is ErrServerClosed err = true)
  end.

Record SvInv (σ : Services) : Prop := mkSvInv {
  sv_time : in_time σ;
  sv_order : in_order σ;
  sv_served : shutdown_called σ = false -> forall err, serverDone σ = Some err -> Is ErrServerClosed err = false
}.

Lemma serve_error_nil err : serve_error err = [] -> Is ErrServerClosed err = true.
Proof. unfold serve_error. by destruct (Is _ err). Qed.

(** Leaving [waitForScheduler], with the scheduler done or reported. *)
Lemma waited_inv σ σ' next d :
  SvInv σ -> main σ = MTimed next d \/ main σ = MWait next -> main σ' = waited next (sv_clock σ) ->
  sv_clock σ' = sv_clock σ -> stopped_at σ' = stopped_at σ -> run_canceled σ' = run_canceled σ ->
  sv_draining σ' = sv_draining σ -> shutdown_called σ' = shutdown_called σ -> serverDone σ' = serverDone σ ->
  accounted σ' -> SvInv σ'.
Proof.
  intros [Ht Ho Hs] Hm Hm' Hc Hst Hr Hd Hsh Hsv Hacc.
  assert (Htime : exists t0, stopped_at σ = Some t0 /\ (sv_clock σ <= t0 + drain + timeout)%Z).
  { unfold in_time in Ht. destruct Hm as [Hm|Hm]; rewrite Hm in Ht.
    - destruct Ht as (t0 & ? & ? & ?). exists t0. split; [done|lia].
    - destruct Ht as (t0 & ? & ?). exists t0. split; [done|lia]. }
  split; [|unfold in_order|by rewrite Hsh, Hsv].
  - unfold in_time. rewrite Hm', Hst, Hc. by destruct next.
  - rewrite Hm'. unfold in_order in Ho.
    destruct next as [err|err]; cbn [waited]; destruct Hm as [Hm|Hm]; rewrite Hm in Ho.
    1, 2: destruct Ho as (Hrc & Hcall & _ & Hdone); rewrite Hr, Hsv; split; [done|]; split; [done|];
      exists err; split; [done|]; intros Hnil%serve_error_nil; by rewrite (Hs Hcall err Hdone) in Hnil.
    all: destruct Ho as [Hstop _]; split; [|done]; unfold stopping in *; by rewrite Hr, Hd, Hsh.
Qed.

Lemma SvInv_move σ σ' : SvInv σ -> service_step drain timeout σ σ' -> SvInv σ'.
Proof using Hdrain Htimeout.
  intros Hinv Hstep. pose proof Hinv as [Ht Ho Hs]. unfold in_time in Ht. unfold in_order in Ho.
  destruct Hstep as [Hc Hd|err Hnone Herr|err Hm Hd|Hm Hd|err Hm|Hm|Hm|Hm|d err Hm Herr|next Hm Hpos
    |next Hm Hneg Hd|next d Hm Hd|next d Hm Hd|e err Hm Hd].
  - split; [exact Ht| |exact Hs]. unfold in_order. cbn.
    destruct (main σ); try done; unfold stopping, accounted in *; cbn; tauto.
  - split; [exact Ht| |].
    + unfold in_order. cbn. destruct (main σ); try done; rewrite ?Hnone in Ho;
        repeat match goal with next : After |- _ => destruct next end;
        repeat match goal with H : _ /\ _ |- _ => destruct H | H : exists _, _ |- _ => destruct H end; try done.
    + cbn. intros Hcall e [= <-]. by rewrite Hcall in Herr.
  - rewrite Hm in Ho. split; cbn; [done| |done]. unfold in_order. cbn. by destruct Ho.
  - rewrite Hm in Ho. split; cbn; [done| |done]. done.
  - rewrite Hm in Ho, Ht. destruct Ho as (? & ? & ?). split; cbn; [|by unfold in_order|done].
    unfold in_time. cbn. exists (sv_clock σ). split; [done|lia].
  - rewrite Hm in Ho, Ht. destruct Ho. split; cbn; [done|by unfold in_order|done].
  - rewrite Hm in Ho, Ht. destruct Ho as (? & ? & ?). split; cbn; [done|by unfold in_order|done].
  - rewrite Hm in Ho, Ht. destruct Ho as (? & ? & ? & ?). split; cbn; [|by unfold in_order|done].
    unfold in_time. cbn. exists (sv_clock σ). repeat split; [done|lia].
  - rewrite Hm in Ho, Ht. destruct Ht as (t0 & ? & -> & ?). split; cbn; [|by unfold in_order|done].
    unfold in_time. cbn. by exists t0.
  - rewrite Hm in Ho, Ht. destruct Ht as (t0 & ? & ?). split; cbn; [|by unfold in_order; cbn; destruct next|done].
    unfold in_time. cbn. exists t0. repeat split; [done|lia|lia].
  - lia.
  - apply (waited_inv σ _ next d Hinv); try done; [by left|]. right. cbn. split; [|done].
    rewrite Hm in Ho. destruct next; naive_solver.
  - apply (waited_inv σ _ next d Hinv); try done; [by left|]. left. cbn.
    rewrite Hm in Ho. destruct next; f_equal; naive_solver.
  - rewrite Hm in Ho, Ht. destruct Ht as (t0 & ? & ?), Ho as [Hstop Hacc].
    split; cbn; [unfold in_time; cbn; by exists t0| |done].
    unfold in_order. cbn. split; [apply Hstop|]. split; [done|]. exists err. split; [done|].
    intros [_ Hnil]%app_nil. split; [done|by apply serve_error_nil].
Qed.

Lemma SvInv_step σ σ' : SvInv σ -> services_step drain timeout σ σ' -> SvInv σ'.
Proof using Hdrain Htimeout.
  intros Hinv [σ1 Hmove| |now Hlt Hp]; [by eapply SvInv_move|..]; destruct Hinv as [Ht Ho Hs].
  - split; [exact Ht|exact Ho|exact Hs].
  - split; [|exact Ho|exact Hs]. unfold in_time, patient in *. cbn.
    destruct (main σ); try done.
    + destruct Ht as (t0 & ? & -> & ?), Hp. exists t0. repeat split; [done|lia].
    + lia.
    + destruct Ht as (t0 & ? & ? & ?), Hp. exists t0. repeat split; [done|lia|lia].
Qed.

Lemma reachable_SvInv start σ : services_reachable drain timeout start σ -> SvInv σ.
Proof using Hdrain Htimeout.
  assert (Hinit : SvInv (services_init start)) by (by split).
  unfold services_reachable. intros Hr. revert Hinit. induction Hr; [done|].
  intros Hinv. apply IHHr. by eapply SvInv_step.
Qed.
End Invariant.

(** ** What [RunServices] promises *)

(** How many moves are left at most. *)
Definition main_rank (m : Main) : nat :=
  match m with
  | MSelect => 10 | MServed _ | MStopping => 9 | MCanceling => 8 | MShutting => 7 | MDraining _ => 6
  | MWait _ => 5 | MTimed _ _ => 4 | MServeResult _ => 1 | MReturned _ _ => 0
  end.

Definition moves_left (σ : Services) : nat :=
  main_rank (main σ) + (if schedulerDone σ then 0 else 1) + (match serverDone σ with None => 1 | Some _ => 0 end).

Section Promises.
Context (drain timeout : Duration) (start : Time).

Lemma move_decreases σ σ' : service_step drain timeout σ σ' -> moves_left σ' < moves_left σ.
Proof.
  intros Hstep. unfold moves_left. destruct Hstep; cbn;
    repeat match goal with
    | H : main σ = _ |- _ => rewrite H
    | H : schedulerDone σ = false |- _ => rewrite H
    | H : serverDone σ = None |- _ => rewrite H
    end; cbn; try lia.
  all: match goal with |- context [waited ?next _] => destruct next end; cbn; lia.
Qed.

(** A goroutine can go on wherever time may not pass. *)
Lemma stuck_in_time_moves σ :
  (0 < timeout)%Z -> SvInv drain timeout σ -> stopped_at σ <> None ->
  (exists result t, main σ = MReturned result t) \/ (exists now, (sv_clock σ < now)%Z /\ patient timeout σ now) \/
  exists σ', service_step drain timeout σ σ'.
Proof.
  intros Hpos [Ht Ho _] Hst. unfold in_time in Ht. unfold in_order in Ho.
  assert (Hserve : shutdown_called σ = true -> serverDone σ = None -> exists σ', service_step drain timeout σ σ').
  { intros Hc Hn. eexists. apply (server_returns _ _ σ ErrServerClosed Hn). by rewrite Hc. }
  destruct (main σ) as [|err| | | |d|next|next d|e|r t] eqn:Hm; [done| | | | | | | | |by left; eauto]; right.
  - right. eexists. by apply (main_cancels_served _ _ σ err).
  - right. eexists. by apply main_drains.
  - right. eexists. by apply main_cancels.
  - right. eexists. by apply main_shuts_down.
  - right. eexists. by apply (main_drained _ _ σ d None Hm).
  - right. eexists. by apply (main_waits _ _ σ next).
  - destruct (schedulerDone σ) eqn:Hd; [right; eexists; by apply (main_scheduler_done _ _ σ next d)|].
    destruct (decide (d <= sv_clock σ)%Z); [right; eexists; by apply (main_scheduler_late _ _ σ next d)|].
    destruct (shutdown_called σ) eqn:Hc; [destruct (serverDone σ) eqn:Hsv; [|by right; apply Hserve]|].
    all: left; exists d; split; [lia|]; unfold patient; rewrite Hm, Hd, Hc, ?Hsv; repeat split; (lia || done).
  - right. destruct Ho as [(_ & _ & Hc) _]. destruct (serverDone σ) eqn:Hsv; [|by apply Hserve].
    eexists. by apply (main_returns _ _ σ e e0).
Qed.

(** C13: once its select is left [RunServices] returns, within the time the server may drain and
    the time the scheduler may take, even if the scheduler never stops: it has returned by then;
    before, either time can pass or a goroutine can go on; and at most twelve such moves are left,
    each of which leaves fewer. *)
Theorem shutdown_bounded σ t0 :
  (0 <= drain)%Z -> (0 < timeout)%Z -> services_reachable drain timeout start σ -> stopped_at σ = Some t0 ->
  (match main σ with MReturned _ t => t | _ => sv_clock σ end <= t0 + drain + timeout)%Z /\
  ((exists result t, main σ = MReturned result t) \/
   (exists now, (sv_clock σ < now)%Z /\ patient timeout σ now) \/ exists σ', service_step drain timeout σ σ') /\
  moves_left σ <= 12 /\ forall σ', service_step drain timeout σ σ' -> moves_left σ' < moves_left σ.
Proof.
  intros Hd Hp Hr Hst. pose proof (reachable_SvInv drain timeout Hd Hp start σ Hr) as Hinv. split; [|split; [|split]].
  - destruct Hinv as [Ht _ _]. unfold in_time in Ht.
    destruct (main σ); repeat match goal with H : exists _, _ |- _ => destruct H | H : _ /\ _ |- _ => destruct H end;
      simplify_eq; try lia; congruence.
  - apply stuck_in_time_moves; [done|done|by rewrite Hst].
  - unfold moves_left, main_rank. destruct (main σ), (schedulerDone σ), (serverDone σ); lia.
  - apply move_decreases.
Qed.

(** C19: [RunServices] returns with its work accounted for: the scheduler's context is canceled,
    the scheduler has stopped or its lateness was reported exactly once, [Serve] has returned,
    and the error is nil only after a shutdown that withdrew the readiness and ended with
    [ErrServerClosed]. *)
Theorem services_return σ result t :
  (0 <= drain)%Z -> (0 < timeout)%Z -> services_reachable drain timeout start σ -> main σ = MReturned result t ->
  run_canceled σ = true /\
  (timeouts σ = 1 \/ timeouts σ = 0 /\ schedulerDone σ = true) /\
  exists err, serverDone σ = Some err /\
    (result = [] -> sv_draining σ = true /\ shutdown_called σ = true /\ Is ErrServerClosed err = true).
Proof.
  intros Hd Hp Hr Hm. destruct (reachable_SvInv drain timeout Hd Hp start σ Hr) as [_ Ho _].
  unfold in_order in Ho. rewrite Hm in Ho. destruct Ho as (? & ? & err & ? & Hnil).
  split; [done|]. split; [done|]. exists err. split; [done|]. intros Hr0. by destruct (Hnil Hr0) as [(_ & ? & ?) ?].
Qed.

(** the scheduler can stop while the server still answers as ready: the context it runs under
    is a child of the one whose end starts the shutdown, so it is canceled with it, before
    [BeginShutdown]; the order its comment promises (readiness first, then the work) holds of
    [cancel] only. *)
Theorem work_canceled_before_drain :
  exists σ, services_reachable drain timeout start σ /\
    main σ = MSelect /\ sv_draining σ = false /\ run_canceled σ = false /\ schedulerDone σ = true.
Proof.
  exists (mkServices start true false true None false false MSelect 0 None). split; [|done].
  unfold services_reachable. eapply rtc_l; [apply services_stop|].
  eapply rtc_l; [apply services_move, scheduler_stops; done|]. apply rtc_refl.
Qed.
End Promises.

(** The process is asked to stop, the server drains in three seconds and the scheduler hangs. *)
Definition sample_stopped : Services :=
  mkServices 7%Z true true false (Some ErrServerClosed) true true (MReturned [] 7%Z) 1 (Some 2%Z).

(** Computes the state a step of a concrete run leads to. *)
Ltac run_cbn :=
  cbn [sv_clock ctx_done run_canceled schedulerDone serverDone sv_draining shutdown_called main timeouts
    stopped_at at_main waited Z.add Pos.add Pos.succ].

Lemma sample_stopped_reachable : services_reachable 10%Z 2%Z 0%Z sample_stopped.
Proof.
  unfold services_reachable, services_init.
  eapply rtc_l; [apply (services_tick _ _ _ 2%Z); by repeat split|]; run_cbn.
  eapply rtc_l; [apply services_stop|]; run_cbn.
  eapply rtc_l; [apply services_move, main_stopping; done|]; run_cbn.
  eapply rtc_l; [apply services_move, main_drains; done|]; run_cbn.
  eapply rtc_l; [apply services_move, main_cancels; done|]; run_cbn.
  eapply rtc_l; [apply services_move, main_shuts_down; done|]; run_cbn.
  eapply rtc_l; [apply services_move, (server_returns _ _ _ ErrServerClosed); done|]; run_cbn.
  eapply rtc_l; [apply (services_tick _ _ _ 5%Z); by repeat split|]; run_cbn.
  eapply rtc_l; [apply services_move, (main_drained _ _ _ 12%Z None); done|]; run_cbn.
  eapply rtc_l; [apply services_move, (main_waits _ _ _ (AfterShutdown None)); done|]; run_cbn.
  eapply rtc_l; [apply (services_tick _ _ _ 7%Z); by repeat split|]; run_cbn.
  eapply rtc_l; [apply services_move, (main_scheduler_late _ _ _ (AfterShutdown None) 7%Z); done|]; run_cbn.
  eapply rtc_l; [apply services_move, (main_returns _ _ _ None ErrServerClosed); done|]; run_cbn.
  apply rtc_refl.
Qed.

Lemma shutdown_bounded_witness :
  stopped_at sample_stopped = Some 2%Z /\ moves_left sample_stopped <= 12.
Proof.
  split; [reflexivity|].
  apply (shutdown_bounded 10%Z 2%Z 0%Z sample_stopped 2%Z ltac:(lia) ltac:(lia) sample_stopped_reachable eq_refl).
Defined.

Lemma services_return_witness :
  main sample_stopped = MReturned [] 7%Z /\ run_canceled sample_stopped = true.
Proof.
  split; [reflexivity|].
  apply (services_return 10%Z 2%Z 0%Z sample_stopped [] 7%Z ltac:(lia) ltac:(lia) sample_stopped_reachable eq_refl).
Defined.
