(* ===== verification/Dispatcher.v ===== *)
(** * The concurrent part of the scheduler (internal/scheduler/runner.go)

    [Run] starts two goroutines per job, a schedule and a worker.  They share the running set
    (under its mutex), one queue of capacity one per collector, one channel of capacity one per
    target and the semaphore of [MaxConcurrency] tokens.  A state records what each goroutine
    is about to do and what each channel holds; a step is one operation of one goroutine, so a
    sequence of steps is any interleaving. *)

From S2P Require Import Prelude GoFloat GoTime Domain Scheduler.
Local Open Scope string_scope.
Local Open Scope list_scope.

(** Where a [schedule] goroutine is: at its select, in [dispatch] before the running check, in
    [dispatch] at the send, or returned. *)
Inductive SState :=
| SWaiting
| SDispatching
| SSending (reference : Time)
| SDone.

(** Where a [worker] goroutine is: at its select; in [collect] waiting for the target channel,
    waiting for the semaphore, collecting, giving the target back, or past both releases
    (publishing, recording, waiting for the backoff); at [clearRunning] (of the loop or,
    [exiting], of the deferred call); or returned. *)
Inductive WState :=
| WIdle
| WTarget (reference : Time)
| WGlobal (reference : Time)
| WCollecting (reference : Time)
| WReleasing
| WBetween
| WClearing (exiting : bool)
| WExited.

Record State := mkState {
  ctx_done : bool;
  running : gset CollectorID;
  queue : gmap CollectorID Time;
  taken : gset TargetID;
  tokens : nat;
  schedules : gmap CollectorID SState;
  workers : gmap CollectorID WState
}.

Definition with_schedule (id : CollectorID) (s : SState) (σ : State) : State :=
  mkState (ctx_done σ) (running σ) (queue σ) (taken σ) (tokens σ) (<[id := s]> (schedules σ)) (workers σ).
Definition with_worker (id : CollectorID) (w : WState) (σ : State) : State :=
  mkState (ctx_done σ) (running σ) (queue σ) (taken σ) (tokens σ) (schedules σ) (<[id := w]> (workers σ)).
Definition with_running (f : gset CollectorID -> gset CollectorID) (σ : State) : State :=
  mkState (ctx_done σ) (f (running σ)) (queue σ) (taken σ) (tokens σ) (schedules σ) (workers σ).
Definition with_queue (f : gmap CollectorID Time -> gmap CollectorID Time) (σ : State) : State :=
  mkState (ctx_done σ) (running σ) (f (queue σ)) (taken σ) (tokens σ) (schedules σ) (workers σ).
Definition with_taken (f : gset TargetID -> gset TargetID) (σ : State) : State :=
  mkState (ctx_done σ) (running σ) (queue σ) (f (taken σ)) (tokens σ) (schedules σ) (workers σ).
Definition with_tokens (f : nat -> nat) (σ : State) : State :=
  mkState (ctx_done σ) (running σ) (queue σ) (taken σ) (f (tokens σ)) (schedules σ) (workers σ).

(** The start of [Run]: a startup refresh begins in [dispatch], the other schedules at their
    timer. *)
Definition init (r : Runner) : State :=
  mkState false ∅ ∅ ∅ 0
    (list_to_map (omap (fun job => (fun id =>
       (id, if StartupRefresh job then SDispatching else SWaiting)) <$> job_Collector job) (jobs r)))
    (list_to_map (omap (fun job => (fun id => (id, WIdle)) <$> job_Collector job) (jobs r))).

(** [clearRunning]. *)
Definition clearRunning (id : CollectorID) : State -> State := with_running (fun s => s ∖ {[id]}).

Section Steps.
Context (r : Runner).

(** [schedule] and [dispatch]. *)
Inductive schedule_step (id : CollectorID) (σ : State) : State -> Prop :=
| schedule_tick :
    schedules σ !! id = Some SWaiting ->
    schedule_step id σ (with_schedule id SDispatching σ)
| schedule_done :
    schedules σ !! id = Some SWaiting -> ctx_done σ = true ->
    schedule_step id σ (with_schedule id SDone σ)
| dispatch_skip :
    schedules σ !! id = Some SDispatching -> id ∈ running σ ->
    schedule_step id σ (with_schedule id SWaiting σ)
| dispatch_claim reference :
    schedules σ !! id = Some SDispatching -> id ∉ running σ ->
    schedule_step id σ
      (with_schedule id (SSending reference) (with_running (fun s => {[id]} ∪ s) σ))
| dispatch_send reference :
    schedules σ !! id = Some (SSending reference) -> queue σ !! id = None ->
    schedule_step id σ (with_schedule id SWaiting (with_queue <[id := reference]> σ)).

(** [worker] and the parts of [collect] that touch what the goroutines share. *)
Inductive worker_step (id : CollectorID) (σ : State) : State -> Prop :=
| worker_receive reference :
    workers σ !! id = Some WIdle -> queue σ !! id = Some reference ->
    worker_step id σ (with_worker id (WTarget reference) (with_queue (delete id) σ))
| worker_done :
    workers σ !! id = Some WIdle -> ctx_done σ = true ->
    worker_step id σ (with_worker id (WClearing true) σ)
| target_acquire reference :
    workers σ !! id = Some (WTarget reference) -> ID_Target id ∉ taken σ ->
    worker_step id σ
      (with_worker id (WGlobal reference) (with_taken (fun s => {[ID_Target id]} ∪ s) σ))
| target_canceled reference :
    workers σ !! id = Some (WTarget reference) -> ctx_done σ = true ->
    worker_step id σ (with_worker id (WClearing false) σ)
| global_acquire reference :
    workers σ !! id = Some (WGlobal reference) ->
    (Z.of_nat (tokens σ) < MaxConcurrency (config r))%Z ->
    worker_step id σ (with_worker id (WCollecting reference) (with_tokens S σ))
| global_canceled reference :
    workers σ !! id = Some (WGlobal reference) -> ctx_done σ = true ->
    worker_step id σ
      (with_worker id (WClearing false) (with_taken (fun s => s ∖ {[ID_Target id]}) σ))
| collected reference :
    workers σ !! id = Some (WCollecting reference) ->
    worker_step id σ (with_worker id WReleasing (with_tokens pred σ))
| target_release :
    workers σ !! id = Some WReleasing ->
    worker_step id σ (with_worker id WBetween (with_taken (fun s => s ∖ {[ID_Target id]}) σ))
| collect_retry reference :
    workers σ !! id = Some WBetween ->
    worker_step id σ (with_worker id (WTarget reference) σ)
| collect_return :
    workers σ !! id = Some WBetween ->
    worker_step id σ (with_worker id (WClearing false) σ)
| worker_clear :
    workers σ !! id = Some (WClearing false) ->
    worker_step id σ (with_worker id WIdle (clearRunning id σ))
| worker_exit :
    workers σ !! id = Some (WClearing true) ->
    worker_step id σ (with_worker id WExited (clearRunning id σ)).

Inductive step (σ : State) : State -> Prop :=
| step_cancel : step σ (mkState true (running σ) (queue σ) (taken σ) (tokens σ) (schedules σ) (workers σ))
| step_schedule id σ' : schedule_step id σ σ' -> step σ σ'
| step_worker id σ' : worker_step id σ σ' -> step σ σ'.

Definition reachable (σ : State) : Prop := rtc step (init r) σ.

(** [Run] returns when every goroutine has returned. *)
Definition returned (σ : State) : Prop :=
  ctx_done σ = true /\
  (forall id s, schedules σ !! id = Some s -> s = SDone) /\
  (forall id w, workers σ !! id = Some w -> w = WExited).
End Steps.

(** ** Readings of a state *)

Definition sending (σ : State) (id : CollectorID) : bool :=
  match schedules σ !! id with Some (SSending _) => true | _ => false end.

Definition queued (σ : State) (id : CollectorID) : bool := bool_decide (is_Some (queue σ !! id)).

Definition w_busy (w : WState) : bool :=
  match w with WIdle | WExited => false | _ => true end.

Definition w_exiting (w : WState) : bool :=
  match w with WClearing true | WExited => true | _ => false end.

Definition w_holds_target (w : WState) : bool :=
  match w with WGlobal _ | WCollecting _ | WReleasing => true | _ => false end.

Definition w_collecting (w : WState) : bool :=
  match w with WCollecting _ => true | _ => false end.

(** How many references of a collector are on their way: at the send, in the queue, in work. *)
Definition in_flight (σ : State) (id : CollectorID) (w : WState) : nat :=
  Nat.b2n (sending σ id) + Nat.b2n (queued σ id) + Nat.b2n (w_busy w).

(** The workers collecting. *)
Definition collecting (σ : State) : gmap CollectorID WState :=
  filter (fun p => w_collecting p.2 = true) (workers σ).

Lemma size_filter_update (m : gmap CollectorID WState) (f : WState -> bool) k a b :
  m !! k = Some a ->
  size (filter (fun p => f p.2 = true) (<[k := b]> m)) + Nat.b2n (f a) =
  size (filter (fun p => f p.2 = true) m) + Nat.b2n (f b).
Proof.
  intros Hk.
  assert (Hc : forall c, size (filter (fun p => f p.2 = true) (<[k := c]> (delete k m))) =
    Nat.b2n (f c) + size (filter (fun p => f p.2 = true) (delete k m))).
  { intros c. destruct (f c) eqn:Hf.
    - rewrite map_filter_insert_True by done. apply map_size_insert_None.
      apply map_lookup_filter_None. left. apply lookup_delete_eq.
    - rewrite map_filter_insert_False by (simpl; congruence).
      by rewrite delete_delete_eq. }
  rewrite <-(insert_delete_id m k a Hk) at 2. rewrite <-insert_delete_eq.
  rewrite !Hc. lia.
Qed.

(** ** The channels agree with the goroutines *)

(** A target is taken exactly when one worker holds it, and by no other worker. *)
Definition targets_held (ws : gmap CollectorID WState) (ts : gset TargetID) : Prop :=
  (forall t, t ∈ ts <-> exists id w, ws !! id = Some w /\ w_holds_target w = true /\ ID_Target id = t) /\
  (forall id1 w1 id2 w2, ws !! id1 = Some w1 -> ws !! id2 = Some w2 ->
    w_holds_target w1 = true -> w_holds_target w2 = true -> ID_Target id1 = ID_Target id2 ->
    id1 = id2).

(** Once the worker's context is alive, [running] counts exactly what is on its way. *)
Definition flights_counted (σ : State) : Prop :=
  forall id w, workers σ !! id = Some w -> w_exiting w = false ->
    in_flight σ id w = Nat.b2n (bool_decide (id ∈ running σ)).

Record Inv (r : Runner) (σ : State) : Prop := mkInv {
  inv_tokens : tokens σ = size (collecting σ);
  inv_max : (Z.of_nat (tokens σ) <= Z.max 0 (MaxConcurrency (config r)))%Z;
  inv_targets : targets_held (workers σ) (taken σ);
  inv_flights : flights_counted σ;
  inv_exits : forall id w, workers σ !! id = Some w -> w_exiting w = true -> ctx_done σ = true;
  inv_dom : dom (schedules σ) = dom (workers σ)
}.

Section Targets.
Context (ws : gmap CollectorID WState) (ts : gset TargetID) (id : CollectorID) (w w' : WState).
Context (Hw : ws !! id = Some w) (Hinv : targets_held ws ts).

Lemma held_keep :
  w_holds_target w = w_holds_target w' -> targets_held (<[id := w']> ws) ts.
Proof using Hw Hinv.
  destruct Hinv as [Ht Hu]. intros Heq. split.
  - intros t. rewrite Ht. split; intros (i & v & Hi & Hh & Hti).
    + destruct (decide (i = id)) as [->|Hne].
      * exists id, w'. rewrite lookup_insert_eq. simplify_eq. rewrite <-Heq. done.
      * exists i, v. by rewrite lookup_insert_ne.
    + apply lookup_insert_Some in Hi as [[<- <-]|[Hne Hi]]; [|by eauto].
      exists id, w. by rewrite Heq.
  - intros i1 w1 i2 w2 [[<- <-]|[Hn1 H1]]%lookup_insert_Some [[<- <-]|[Hn2 H2]]%lookup_insert_Some;
      try done; rewrite <-?Heq; intros; eapply Hu; eauto.
Qed.

Lemma held_acquire :
  w_holds_target w' = true -> ID_Target id ∉ ts ->
  targets_held (<[id := w']> ws) ({[ID_Target id]} ∪ ts).
Proof using Hw Hinv.
  destruct Hinv as [Ht Hu]. intros Hh' Hfree.
  assert (Hno : forall i v, ws !! i = Some v -> w_holds_target v = true -> ID_Target i <> ID_Target id).
  { intros i v Hi Hh He. apply Hfree, Ht. eauto. }
  split.
  - intros t. rewrite elem_of_union, elem_of_singleton, Ht. split.
    + intros [->|(i & v & Hi & Hh & Hti)]; [exists id, w'; by rewrite lookup_insert_eq|].
      exists i, v. rewrite lookup_insert_ne; [done|]. intros <-. by destruct (Hno _ _ Hi).
    + intros (i & v & [[<- <-]|[Hne Hi]]%lookup_insert_Some & Hh & Hti); naive_solver.
  - intros i1 w1 i2 w2 [[<- <-]|[Hn1 H1]]%lookup_insert_Some [[<- <-]|[Hn2 H2]]%lookup_insert_Some
      Hh1 Hh2 He; [done| | |by eapply Hu].
    + by destruct (Hno i2 w2).
    + by destruct (Hno i1 w1).
Qed.

Lemma held_release :
  w_holds_target w = true -> w_holds_target w' = false ->
  targets_held (<[id := w']> ws) (ts ∖ {[ID_Target id]}).
Proof using Hw Hinv.
  destruct Hinv as [Ht Hu]. intros Hh Hh'. split.
  - intros t. rewrite elem_of_difference, elem_of_singleton, Ht. split.
    + intros [(i & v & Hi & Hv & Hti) Hne]. exists i, v. rewrite lookup_insert_ne; [done|].
      intros <-. by apply Hne.
    + intros (i & v & [[<- <-]|[Hne Hi]]%lookup_insert_Some & Hv & Hti); [congruence|].
      split; [by eauto|]. intros ->. apply Hne. symmetry. by eapply (Hu i v id w).
  - intros i1 w1 i2 w2 [[<- <-]|[Hn1 H1]]%lookup_insert_Some [[<- <-]|[Hn2 H2]]%lookup_insert_Some;
      [done|congruence|congruence|by apply Hu].
Qed.
End Targets.

Lemma omap_pair_fst {A} (f : Job -> A) (l : list Job) :
  (omap (fun job => (fun id => (id, f job)) <$> job_Collector job) l).*1 = job_ids l.
Proof.
  unfold job_ids. induction l as [|job l IH]; [done|]. cbn.
  destruct (job_Collector job); cbn; [f_equal|]; apply IH.
Qed.

Section Preservation.
Context (r : Runner).

Lemma Inv_init : Inv r (init r).
Proof.
  assert (Hw : forall id w, workers (init r) !! id = Some w -> w = WIdle).
  { intros id w Hw%elem_of_list_to_map_2. simpl in Hw.
    apply list_elem_of_omap in Hw as (job & _ & Hj). by destruct (job_Collector job); simplify_eq/=. }
  assert (Hs : forall id, sending (init r) id = false).
  { intros id. unfold sending. destruct (schedules _ !! id) as [s|] eqn:E; [|done].
    apply elem_of_list_to_map_2, list_elem_of_omap in E as (job & _ & Hj).
    destruct (job_Collector job), (StartupRefresh job); by simplify_eq/=. }
  split; try done.
  - symmetry. apply map_size_empty_iff, map_empty. intros id. apply map_lookup_filter_None.
    destruct (workers (init r) !! id) as [w|] eqn:E; [right|by left].
    apply Hw in E as ->. by intros v [= <-].
  - simpl. lia.
  - split; [|intros ? ? ? ? ->%Hw; done]. intros t. simpl. split; [set_solver|].
    intros (id & w & ->%Hw & [=] & _).
  - intros id w ->%Hw _. unfold in_flight. rewrite Hs. done.
  - intros id w ->%Hw. done.
  - simpl. by rewrite !dom_list_to_map_L, !omap_pair_fst.
Qed.

(** What a step of the goroutines of one collector leaves to the others. *)
Lemma flights_update (σ σ' : State) (id : CollectorID) :
  flights_counted σ ->
  (forall i, i <> id ->
    schedules σ' !! i = schedules σ !! i /\ queue σ' !! i = queue σ !! i /\
    workers σ' !! i = workers σ !! i /\ (i ∈ running σ' <-> i ∈ running σ)) ->
  (forall w, workers σ' !! id = Some w -> w_exiting w = false ->
    in_flight σ' id w = Nat.b2n (bool_decide (id ∈ running σ'))) ->
  flights_counted σ'.
Proof.
  intros Hf Ho Hid i w Hw He. destruct (decide (i = id)) as [->|Hne]; [by apply Hid|].
  destruct (Ho i Hne) as (Hs & Hq & Hwk & Hr). rewrite Hwk in Hw.
  rewrite (bool_decide_ext _ _ Hr), <-(Hf i w Hw He).
  unfold in_flight, sending, queued. by rewrite Hs, Hq.
Qed.

Lemma in_claimed (i id : CollectorID) (s : gset CollectorID) :
  i <> id -> (i ∈ {[id]} ∪ s <-> i ∈ s).
Proof. set_solver. Qed.

Lemma in_cleared (i id : CollectorID) (s : gset CollectorID) :
  i <> id -> (i ∈ s ∖ {[id]} <-> i ∈ s).
Proof. set_solver. Qed.

Ltac solve_others :=
  intros ? ?; simpl; rewrite ?lookup_insert_ne, ?lookup_delete_ne by done;
  repeat split; intros; done || by apply in_claimed || (by eapply in_claimed) ||
    (by apply in_cleared) || (by eapply in_cleared).

Lemma b2n_in (i : CollectorID) (s : gset CollectorID) :
  i ∈ s -> Nat.b2n (bool_decide (i ∈ s)) = 1.
Proof. intros. by rewrite bool_decide_eq_true_2. Qed.

Lemma b2n_notin (i : CollectorID) (s : gset CollectorID) :
  i ∉ s -> Nat.b2n (bool_decide (i ∈ s)) = 0.
Proof. intros. by rewrite bool_decide_eq_false_2. Qed.

Lemma b2n_claimed (i : CollectorID) (s : gset CollectorID) :
  Nat.b2n (bool_decide (i ∈ {[i]} ∪ s)) = 1.
Proof. apply b2n_in. set_solver. Qed.

Lemma b2n_cleared (i : CollectorID) (s : gset CollectorID) :
  Nat.b2n (bool_decide (i ∈ s ∖ {[i]})) = 0.
Proof. apply b2n_notin. set_solver. Qed.

(** Opens [in_flight] at a collector whose goroutine has just moved. *)
Ltac open_flight Hf :=
  unfold in_flight, sending, queued, clearRunning in *; simpl in *;
  rewrite ?lookup_insert_eq, ?lookup_delete_eq; simpl;
  repeat match goal with
  | H : schedules _ !! _ = Some _ |- _ => rewrite H in Hf; clear H
  | H : queue _ !! _ = _ |- _ => rewrite H in Hf; clear H
  end; simpl in Hf; rewrite ?b2n_claimed, ?b2n_cleared; rewrite ?b2n_notin in Hf by assumption; lia.

Lemma Inv_schedule_step id σ σ' : Inv r σ -> schedule_step id σ σ' -> Inv r σ'.
Proof.
  intros [Ht Hm Hg Hf He Hd] Hstep.
  assert (Hdom : forall s s', schedules σ !! id = Some s ->
    dom (<[id := s']> (schedules σ)) = dom (workers σ)).
  { intros s s' Hs. rewrite dom_insert_L, <-Hd.
    assert (id ∈ dom (schedules σ)) by (by eapply elem_of_dom_2). set_solver. }
  destruct Hstep; (split; simpl; [done|done|done| |done|by eapply Hdom]);
    apply (flights_update σ _ id Hf); try solve_others; simpl; intros w Hw Hx;
    specialize (Hf id w Hw Hx); open_flight Hf.
Qed.

(** The bookkeeping of a worker that moves from [w] to [w']: the semaphore counts the
    workers collecting. *)
Lemma tokens_update σ id w w' n :
  tokens σ = size (collecting σ) -> workers σ !! id = Some w ->
  n + Nat.b2n (w_collecting w) = tokens σ + Nat.b2n (w_collecting w') ->
  n = size (filter (fun p => w_collecting p.2 = true) (<[id := w']> (workers σ))).
Proof.
  unfold collecting. intros Ht Hw Hn.
  pose proof (size_filter_update (workers σ) w_collecting id w w' Hw). lia.
Qed.

Lemma collecting_pos σ id w :
  tokens σ = size (collecting σ) -> workers σ !! id = Some w -> w_collecting w = true ->
  0 < tokens σ.
Proof.
  intros -> Hw Hc. destruct (decide (size (collecting σ) = 0)) as [Hz|]; [|lia].
  apply map_size_empty_iff in Hz. unfold collecting in Hz.
  by destruct (map_filter_empty_not_lookup _ _ id w Hz Hc).
Qed.

Lemma Inv_worker_step id σ σ' : Inv r σ -> worker_step r id σ σ' -> Inv r σ'.
Proof.
  intros [Ht Hm Hg Hf He Hd] Hstep.
  assert (Hdom : forall w w', workers σ !! id = Some w ->
    dom (schedules σ) = dom (<[id := w']> (workers σ))).
  { intros w w' Hs. rewrite dom_insert_L, Hd.
    assert (id ∈ dom (workers σ)) by (by eapply elem_of_dom_2). set_solver. }
  assert (Hx : forall w w', workers σ !! id = Some w ->
    (w_exiting w' = true -> w_exiting w = true \/ ctx_done σ = true) ->
    forall i v, <[id := w']> (workers σ) !! i = Some v -> w_exiting v = true -> ctx_done σ = true).
  { intros w w' Hw Hor i v [[<- <-]|[_ Hi]]%lookup_insert_Some Hv; [|by eapply He].
    destruct (Hor Hv); [by eapply He|done]. }
  destruct Hstep as [? Hw|Hw|? Hw|? Hw|? Hw|? Hw|? Hw|Hw|? Hw|Hw|Hw|Hw];
    pose proof (collecting_pos σ id _ Ht Hw) as Hpos; simpl in Hpos; try specialize (Hpos eq_refl);
    (split; simpl;
     [ eapply (tokens_update σ); [exact Ht|exact Hw|simpl; lia]
     | lia
     | first [ by eapply held_keep | by eapply held_acquire | by eapply held_release ]
     |
     | eapply Hx; [exact Hw|simpl; tauto]
     | by eapply Hdom ]);
    apply (flights_update σ _ id Hf); try solve_others; simpl;
    intros v Hv Hxv; rewrite lookup_insert_eq in Hv; injection Hv as <-; try discriminate Hxv;
    specialize (Hf id _ Hw eq_refl);
    match type of Hf with _ = Nat.b2n ?x => pose proof (Nat.b2n_le_1 x) end;
    open_flight Hf.
Qed.

Lemma Inv_step σ σ' : Inv r σ -> step r σ σ' -> Inv r σ'.
Proof.
  intros Hinv [|id ? Hs|id ? Hs]; [|by eapply Inv_schedule_step|by eapply Inv_worker_step].
  destruct Hinv as [Ht Hm Hg Hf He Hd]. by split.
Qed.

Lemma reachable_Inv σ : reachable r σ -> Inv r σ.
Proof.
  apply (rtc_ind_r (Inv r)); [apply Inv_init|]. intros ? ? _ Hs Hi. by eapply Inv_step.
Qed.
End Preservation.

(** ** What the invariant gives *)

(** The schedule blocked at the send to a queue nobody will read. *)
Definition stuck (id : CollectorID) (σ : State) : Prop :=
  ctx_done σ = true /\ workers σ !! id = Some WExited /\ is_Some (queue σ !! id) /\
  exists reference, schedules σ !! id = Some (SSending reference).

Lemma stuck_step r id σ σ' : stuck id σ -> step r σ σ' -> stuck id σ'.
Proof.
  intros (Hc & Hw & Hq & reference & Hs) Hstep. unfold stuck.
  destruct Hstep as [|i ? Hst|i ? Hst]; [by eauto| |].
  - assert (i <> id).
    { intros ->. destruct Hst; simplify_eq. destruct Hq as [? Hq]. congruence. }
    destruct Hst; simpl; rewrite ?lookup_insert_ne by done; eauto.
  - assert (i <> id) by (intros ->; destruct Hst; simplify_eq).
    destruct Hst; simpl; rewrite ?lookup_insert_ne, ?lookup_delete_ne by done; eauto.
Qed.

(** ** Runs of a runner with one job that starts at once *)

Section Solo.
Context (c : Config) (id : CollectorID) (interval : Duration).

Definition solo : Runner :=
  mkRunner [mkJob (Some id) interval true] c {[id]} {[ID_Target id]}.

(** The state of [solo] from what its two goroutines and the shared variables hold. *)
Definition solo_state (done : bool) (run : gset CollectorID) (q : gmap CollectorID Time)
    (t : gset TargetID) (n : nat) (s : SState) (w : WState) : State :=
  mkState done run q t n {[id := s]} {[id := w]}.

Lemma solo_init : init solo = solo_state false ∅ ∅ ∅ 0 SDispatching WIdle.
Proof. reflexivity. Qed.

Lemma solo_schedule_at done run q t n s w :
  schedules (solo_state done run q t n s w) !! id = Some s.
Proof. apply lookup_singleton_eq. Qed.

Lemma solo_worker_at done run q t n s w :
  workers (solo_state done run q t n s w) !! id = Some w.
Proof. apply lookup_singleton_eq. Qed.

Lemma solo_workers done run q t n s w i v :
  workers (solo_state done run q t n s w) !! i = Some v -> v = w.
Proof. cbn. intros [_ <-]%lookup_singleton_Some. reflexivity. Qed.

(** The steps of [solo] that the runs below take, as equations between solo states. *)
Lemma solo_claim done q t n w reference :
  step solo (solo_state done ∅ q t n SDispatching w)
    (solo_state done {[id]} q t n (SSending reference) w).
Proof.
  apply (step_schedule _ _ id). replace (solo_state done {[id]} q t n (SSending reference) w) with
    (with_schedule id (SSending reference) (with_running (fun s => {[id]} ∪ s)
      (solo_state done ∅ q t n SDispatching w))).
  - apply dispatch_claim; [apply solo_schedule_at|apply not_elem_of_empty].
  - unfold solo_state, with_schedule, with_running. cbn. by rewrite insert_singleton_eq, (right_id_L ∅ (∪)).
Qed.

Lemma solo_send done run t n w reference :
  step solo (solo_state done run ∅ t n (SSending reference) w)
    (solo_state done run {[id := reference]} t n SWaiting w).
Proof.
  apply (step_schedule _ _ id). replace (solo_state done run {[id := reference]} t n SWaiting w) with
    (with_schedule id SWaiting (with_queue <[id := reference]>
      (solo_state done run ∅ t n (SSending reference) w))).
  - apply dispatch_send; [apply solo_schedule_at|apply lookup_empty].
  - unfold solo_state, with_schedule, with_queue. cbn. by rewrite insert_singleton_eq.
Qed.

Lemma solo_tick done run q t n w :
  step solo (solo_state done run q t n SWaiting w) (solo_state done run q t n SDispatching w).
Proof.
  apply (step_schedule _ _ id). replace (solo_state done run q t n SDispatching w) with
    (with_schedule id SDispatching (solo_state done run q t n SWaiting w)).
  - apply schedule_tick, solo_schedule_at.
  - unfold solo_state, with_schedule. cbn. by rewrite insert_singleton_eq.
Qed.

Lemma solo_receive done run t n s reference :
  step solo (solo_state done run {[id := reference]} t n s WIdle)
    (solo_state done run ∅ t n s (WTarget reference)).
Proof.
  apply (step_worker _ _ id). replace (solo_state done run ∅ t n s (WTarget reference)) with
    (with_worker id (WTarget reference) (with_queue (delete id)
      (solo_state done run {[id := reference]} t n s WIdle))).
  - apply worker_receive; [apply solo_worker_at|apply lookup_singleton_eq].
  - unfold solo_state, with_worker, with_queue. cbn. by rewrite insert_singleton_eq, delete_singleton_eq.
Qed.

Lemma solo_target done run q n s reference :
  step solo (solo_state done run q ∅ n s (WTarget reference))
    (solo_state done run q {[ID_Target id]} n s (WGlobal reference)).
Proof.
  apply (step_worker _ _ id). replace (solo_state done run q {[ID_Target id]} n s (WGlobal reference))
    with (with_worker id (WGlobal reference) (with_taken (fun s => {[ID_Target id]} ∪ s)
      (solo_state done run q ∅ n s (WTarget reference)))).
  - apply target_acquire; [apply solo_worker_at|apply not_elem_of_empty].
  - unfold solo_state, with_worker, with_taken. cbn. by rewrite insert_singleton_eq, (right_id_L ∅ (∪)).
Qed.

Lemma solo_global done run q t s reference :
  (0 < MaxConcurrency c)%Z ->
  step solo (solo_state done run q t 0 s (WGlobal reference))
    (solo_state done run q t 1 s (WCollecting reference)).
Proof.
  intros Hc. apply (step_worker _ _ id).
  replace (solo_state done run q t 1 s (WCollecting reference))
    with (with_worker id (WCollecting reference) (with_tokens S
      (solo_state done run q t 0 s (WGlobal reference)))).
  - apply global_acquire; [apply solo_worker_at|exact Hc].
  - unfold solo_state, with_worker, with_tokens. cbn. by rewrite insert_singleton_eq.
Qed.

Lemma solo_leave run q t n s :
  rtc (step solo) (solo_state true run q t n s WIdle) (solo_state true (run ∖ {[id]}) q t n s WExited).
Proof.
  eapply rtc_l; [apply (step_worker _ _ id), worker_done; [apply solo_worker_at|done]|].
  apply rtc_once, (step_worker _ _ id).
  replace (solo_state true (run ∖ {[id]}) q t n s WExited) with
    (with_worker id WExited (clearRunning id (with_worker id (WClearing true)
      (solo_state true run q t n s WIdle)))).
  - apply worker_exit. apply lookup_insert_eq.
  - unfold solo_state, with_worker, clearRunning, with_running. cbn. by rewrite !insert_singleton_eq.
Qed.

(** The startup refresh is being collected. *)
Lemma solo_collecting (t : Time) :
  (0 < MaxConcurrency c)%Z ->
  reachable solo (solo_state false {[id]} ∅ {[ID_Target id]} 1 SWaiting (WCollecting t)).
Proof.
  intros Hc. unfold reachable. rewrite solo_init.
  eapply rtc_l; [apply solo_claim|]. eapply rtc_l; [apply solo_send|].
  eapply rtc_l; [apply solo_receive|]. eapply rtc_l; [apply solo_target|].
  apply rtc_once. by apply solo_global.
Qed.

(** The schedule is left blocked: the context ends while the startup reference is still
    queued, the worker's select takes the context, and the schedule's select takes its timer
    once more. *)
Lemma solo_stuck (t : Time) :
  reachable solo (solo_state true {[id]} {[id := t]} ∅ 0 (SSending t) WExited).
Proof.
  unfold reachable. rewrite solo_init.
  eapply rtc_l; [apply (solo_claim _ _ _ _ _ t)|]. eapply rtc_l; [apply solo_send|].
  eapply rtc_l; [apply step_cancel|]. etrans; [apply solo_leave|].
  rewrite difference_diag_L.
  eapply rtc_l; [apply solo_tick|]. apply rtc_once, solo_claim.
Qed.
End Solo.

(** The cost summary of one target, every hour and at startup. *)
Definition sample_id : CollectorID := mkCollectorID "management" "cost-summary".
Definition sample_config : Config :=
  mkConfig 3600000000000%Z true f0 4%Z
    (mkBackoff 3%Z 1000000000%Z 60000000000%Z (f64_of_Z 2)) true true.
Definition sample : Runner := solo sample_config sample_id 3600000000000%Z.
Definition sample_state : State :=
  solo_state sample_id false {[sample_id]} ∅ {[ID_Target sample_id]} 1 SWaiting (WCollecting 0%Z).

Lemma sample_reachable : reachable sample sample_state.
Proof. by apply solo_collecting. Qed.

(** ** Properties *)

(** In every interleaving, at most [MaxConcurrency] workers collect at the same time, and never
    two at the same target. *)
Lemma collecting_bounded (r : Runner) (σ : State) :
  reachable r σ ->
  (Z.of_nat (size (collecting σ)) <= Z.max 0 (MaxConcurrency (config r)))%Z /\
  (forall id1 id2 t1 t2, workers σ !! id1 = Some (WCollecting t1) ->
    workers σ !! id2 = Some (WCollecting t2) -> ID_Target id1 = ID_Target id2 -> id1 = id2).
Proof.
  intros [Ht Hm [_ Hu] _ _ _]%reachable_Inv. rewrite <-Ht. split; [done|].
  intros id1 id2 t1 t2 H1 H2. by eapply Hu.
Qed.

(** C4: single flight.  As long as a worker has not left its loop, at most one reference of its
    collector is at the send, in the queue or in work, the running set says whether there is
    one, and a schedule at the send finds the queue free, so [dispatch] does not block. *)
Theorem single_flight (r : Runner) (σ : State) (id : CollectorID) (w : WState) :
  reachable r σ -> workers σ !! id = Some w -> w_exiting w = false ->
  in_flight σ id w <= 1 /\
  (id ∈ running σ <-> in_flight σ id w = 1) /\
  (forall reference, schedules σ !! id = Some (SSending reference) ->
    schedule_step id σ (with_schedule id SWaiting (with_queue <[id := reference]> σ))).
Proof.
  intros [_ _ _ Hf _ _]%reachable_Inv Hw He. specialize (Hf id w Hw He). rewrite Hf.
  split; [apply Nat.b2n_le_1|split].
  - case_bool_decide; simpl; [tauto|]. split; [done|lia].
  - intros reference Hs. constructor; [done|]. unfold in_flight, sending, queued in Hf.
    rewrite Hs in Hf. simpl in Hf. pose proof (Nat.b2n_le_1 (bool_decide (id ∈ running σ))).
    destruct (queue σ !! id) eqn:Hq; [|done]. rewrite bool_decide_eq_true_2 in Hf by done.
    simpl in Hf. lia.
Qed.

Lemma single_flight_witness : in_flight sample_state sample_id (WCollecting 0%Z) <= 1.
Proof.
  apply (single_flight sample sample_state sample_id (WCollecting 0%Z) sample_reachable);
    [apply solo_worker_at|reflexivity].
Defined.

(** C39: the two levels of locking cannot deadlock: whenever a worker is in the middle of a
    refresh, some worker of the runner in the middle of one can take its next step, the wait
    for a target or for the semaphore included. *)
Theorem workers_progress (r : Runner) (σ : State) (id : CollectorID) (w : WState) :
  reachable r σ -> (0 < MaxConcurrency (config r))%Z ->
  workers σ !! id = Some w -> w_busy w = true ->
  exists id' w' σ', workers σ !! id' = Some w' /\ w_busy w' = true /\ worker_step r id' σ σ'.
Proof.
  intros [Ht Hm [Hg _] _ _ _]%reachable_Inv Hpos Hw Hb.
  assert (Hcol : forall i t, workers σ !! i = Some (WCollecting t) -> exists id' w' σ',
    workers σ !! id' = Some w' /\ w_busy w' = true /\ worker_step r id' σ σ').
  { intros i t Hi. eexists i, _, _. split; [done|]. split; [done|]. by eapply collected. }
  assert (Hglo : forall i t, workers σ !! i = Some (WGlobal t) -> exists id' w' σ',
    workers σ !! id' = Some w' /\ w_busy w' = true /\ worker_step r id' σ σ').
  { intros i t Hi.
    destruct (decide (Z.of_nat (tokens σ) < MaxConcurrency (config r))%Z) as [Hlt|Hge].
    - eexists i, _, _. split; [done|]. split; [done|]. by eapply global_acquire.
    - assert (Hne : collecting σ <> ∅) by (intros Hz; rewrite Hz, map_size_empty in Ht; lia).
      apply map_choose in Hne as (j & v & [Hj Hv]%map_lookup_filter_Some).
      destruct v; try discriminate Hv. by eapply Hcol. }
  assert (Hrel : forall i, workers σ !! i = Some WReleasing -> exists id' w' σ',
    workers σ !! id' = Some w' /\ w_busy w' = true /\ worker_step r id' σ σ').
  { intros i Hi. eexists i, _, _. split; [done|]. split; [done|]. by eapply target_release. }
  destruct w as [|t|t|t| | |[]|]; try discriminate Hb; eauto.
  - destruct (decide (ID_Target id ∈ taken σ)) as [(j & v & Hj & Hv & _)%Hg|Hn].
    + destruct v; try discriminate Hv; eauto.
    + eexists id, _, _. split; [done|]. split; [done|]. by eapply target_acquire.
  - eexists id, _, _. split; [done|]. split; [done|]. by eapply collect_return.
  - eexists id, _, _. split; [done|]. split; [done|]. by eapply worker_exit.
  - eexists id, _, _. split; [done|]. split; [done|]. by eapply worker_clear.
Qed.

Lemma workers_progress_witness :
  exists id' w' σ', workers sample_state !! id' = Some w' /\ w_busy w' = true /\
    worker_step sample id' sample_state σ'.
Proof.
  apply (workers_progress sample sample_state sample_id (WCollecting 0%Z) sample_reachable);
    [reflexivity|apply solo_worker_at|reflexivity].
Defined.

(** a runner whose workers have all returned has given back every slot: no target is taken
    and the semaphore is empty. *)
Theorem exit_releases (r : Runner) (σ : State) :
  reachable r σ -> (forall id w, workers σ !! id = Some w -> w = WExited) ->
  taken σ = ∅ /\ tokens σ = 0.
Proof.
  intros [Ht _ [Hg _] _ _ _]%reachable_Inv He. split.
  - apply set_eq. intros t. rewrite Hg. split; [|set_solver].
    intros (id & w & ->%He & [=] & _).
  - rewrite Ht. apply map_size_empty_iff, map_empty. intros id. apply map_lookup_filter_None.
    destruct (workers σ !! id) as [w|] eqn:E; [right|by left].
    apply He in E as ->. by intros v [= <-].
Qed.

Lemma exit_releases_witness :
  taken (solo_state sample_id true {[sample_id]} {[sample_id := 0%Z]} ∅ 0 (SSending 0%Z) WExited) = ∅.
Proof.
  apply (exit_releases sample _ (solo_stuck sample_config sample_id 3600000000000%Z 0%Z)).
  intros id w Hw. by apply solo_workers in Hw.
Defined.

(** C40: [Run] need not return after its context ends.  A worker may leave with a reference
    still in its queue; it clears the running flag, so if the timer of the schedule fires
    before the schedule sees the end of the context, [dispatch] claims the collector again and
    blocks for ever at the send to the full queue: no continuation of this run returns. *)
Theorem Run_can_block_forever (c : Config) (id : CollectorID) (interval : Duration) :
  exists σ, reachable (solo c id interval) σ /\ ctx_done σ = true /\
    forall σ', rtc (step (solo c id interval)) σ σ' -> ~ returned σ'.
Proof.
  eexists. split; [apply (solo_stuck c id interval 0%Z)|]. split; [done|].
  intros σ' Hr (_ & Hs & _).
  assert (Hst : stuck id σ').
  { revert Hr. apply (rtc_ind_r (stuck id)).
    - split; [done|]. split; [apply solo_worker_at|]. split; [eexists; apply lookup_singleton_eq|].
      eexists. apply solo_schedule_at.
    - intros ? ? _ Hstep Hi. by eapply stuck_step. }
  destruct Hst as (_ & _ & _ & reference & Hsend). by apply Hs in Hsend.
Qed.
