(* ===== verification/TimedRunner.v ===== *)
(** * The runner in time (internal/scheduler/runner.go, timer.go)

    Dispatcher has the goroutines of the runner and what they share, and leaves open when a timer
    fires; Timers has the schedule of one job and its timers.  Here the two are one system: a
    schedule moves in both, or in its timers alone.  The two views of a schedule never part, and
    how often a collector is refreshed is bounded by the time that has passed. *)

From S2P Require Import Prelude GoFloat FloatFacts GoTime Domain Scheduler Timers Dispatcher.
Local Open Scope string_scope.
Local Open Scope list_scope.

(** The attempts of [collect] a worker is at, and what has happened so far: the collectors whose
    worker took a reference from its queue, and those it called [Collect] of. *)
Record Tally := mkTally {
  tries : gmap CollectorID nat; received : list CollectorID; collections : list CollectorID
}.

Record TimedRunner := mkTimed {
  shared : State; goroutines : gmap CollectorID Schedule; tally : Tally
}.

(** A schedule about to call [dispatch]: past a tick, or at its startup refresh. *)
Definition in_dispatch (job : Job) (at_ : SchedulePC) : bool :=
  match at_ with PTicked => true | PStart => StartupRefresh job | _ => false end.

(** What the step of a worker adds to the tally: the loop of [collect] starts at the first attempt
    and goes on to the next. *)
Definition tallied (id : CollectorID) (σ σ' : State) (t : Tally) : Tally :=
  match workers σ !! id, workers σ' !! id with
  | Some WIdle, Some (WTarget _) => mkTally (<[ id := 1 ]> (tries t)) (id :: received t) (collections t)
  | Some WBetween, Some (WTarget _) =>
      mkTally (<[ id := S (default 0 (tries t !! id)) ]> (tries t)) (received t) (collections t)
  | Some (WGlobal _), Some (WCollecting _) => mkTally (tries t) (received t) (id :: collections t)
  | _, _ => t
  end.

Section Timed.
Context (r : Runner) (start : Time).

Definition job_of (id : CollectorID) (job : Job) : Prop := job ∈ jobs r /\ job_Collector job = Some id.

Definition timed_init : TimedRunner :=
  mkTimed (init r) (list_to_map (omap (fun job => (fun id => (id, schedule_start start)) <$> job_Collector job) (jobs r))) (mkTally ∅ [] []).

Definition moved (job : Job) (g g' : Schedule) : Prop :=
  goroutine_step (config r) (job_Interval job) (StartupRefresh job) g g' /\ pc g' <> pc g.

Definition with_goroutine (id : CollectorID) (g : Schedule) (σ : State) (τ : TimedRunner) : TimedRunner :=
  mkTimed σ (<[ id := g ]> (goroutines τ)) (tally τ).

Inductive timed_step (τ : TimedRunner) : TimedRunner -> Prop :=
| timed_cancel σ :
    σ = mkState true (running (shared τ)) (queue (shared τ)) (taken (shared τ)) (tokens (shared τ))
          (schedules (shared τ)) (workers (shared τ)) ->
    timed_step τ (mkTimed σ (goroutines τ) (tally τ))
| timed_worker id σ :
    worker_step r id (shared τ) σ ->
    (Z.of_nat (default 0%nat (tries (tallied id (shared τ) σ (tally τ)) !! id)) <= MaxAttempts (Backoff (config r)))%Z ->
    timed_step τ (mkTimed σ (goroutines τ) (tallied id (shared τ) σ (tally τ)))
| timed_passes id g later :
    goroutines τ !! id = Some g -> (sc_clock g <= later)%Z ->
    timed_step τ (with_goroutine id (mkSchedule later (pc g) (deferred g) (timer g) (heap g) (references g)) (shared τ) τ)
| timed_tick id job g g' :
    job_of id job -> goroutines τ !! id = Some g -> moved job g g' -> pc g = PSelect -> pc g' = PTicked ->
    schedules (shared τ) !! id = Some SWaiting ->
    timed_step τ (with_goroutine id g' (with_schedule id SDispatching (shared τ)) τ)
| timed_return id job g g' :
    job_of id job -> goroutines τ !! id = Some g -> moved job g g' -> pc g' = PReturned ->
    schedules (shared τ) !! id = Some SWaiting -> ctx_done (shared τ) = true ->
    timed_step τ (with_goroutine id g' (with_schedule id SDone (shared τ)) τ)
| timed_dispatch id job g g' σ :
    job_of id job -> goroutines τ !! id = Some g -> moved job g g' -> in_dispatch job (pc g) = true ->
    schedules (shared τ) !! id = Some SDispatching -> schedule_step id (shared τ) σ ->
    (forall reference, schedules σ !! id = Some (SSending reference) -> reference = sc_clock g) ->
    timed_step τ (with_goroutine id g' σ τ)
| timed_send id reference σ :
    schedules (shared τ) !! id = Some (SSending reference) -> schedule_step id (shared τ) σ ->
    timed_step τ (mkTimed σ (goroutines τ) (tally τ))
| timed_alone id job g g' :
    job_of id job -> goroutines τ !! id = Some g -> moved job g g' -> pc g <> PSelect ->
    in_dispatch job (pc g) = false -> schedules (shared τ) !! id = Some SWaiting ->
    timed_step τ (with_goroutine id g' (shared τ) τ).

Definition timed_reachable (τ : TimedRunner) : Prop := rtc timed_step timed_init τ.

(** ** The two views of a schedule *)

Definition agrees (job : Job) (g : Schedule) (s : option SState) : Prop :=
  match s with
  | Some SWaiting => in_dispatch job (pc g) = false /\ pc g <> PReturned
  | Some SDispatching => in_dispatch job (pc g) = true
  | Some (SSending reference) => (pc g = PFirst \/ pc g = PReset) /\ head (references g) = Some reference
  | Some SDone => pc g = PReturned
  | None => False
  end.

Definition taken_by (id : CollectorID) (log : list CollectorID) : nat :=
  length (List.filter (fun other => bool_decide (other = id)) log).

(** The references a collector was given: those its worker took, one in the queue, one at the send. *)
Definition given (σ : State) (log : list CollectorID) (id : CollectorID) : nat :=
  taken_by id log + Nat.b2n (queued σ id) + Nat.b2n (sending σ id).

Record together (τ : TimedRunner) (id : CollectorID) (g : Schedule) (job : Job) : Prop := mkTogether {
  tg_reachable : schedule_reachable (config r) (job_Interval job) (StartupRefresh job) start g;
  tg_agrees : agrees job g (schedules (shared τ) !! id);
  tg_given : given (shared τ) (received (tally τ)) id <= length (references g)
}.

Record TInv (τ : TimedRunner) : Prop := mkTInv {
  ti_shared : reachable r (shared τ);
  ti_job : forall id, is_Some (goroutines τ !! id) -> exists job, job_of id job;
  ti_together : forall id g job, goroutines τ !! id = Some g -> job_of id job -> together τ id g job
}.

(** ** Effects of the steps *)

Lemma moved_cases job g g' :
  moved job g g' ->
  (pc g = PSelect /\ (pc g' = PReturned \/ pc g' = PTicked) /\ references g' = references g) \/
  (in_dispatch job (pc g) = true /\ references g' = sc_clock g :: references g /\ (pc g' = PFirst \/ pc g' = PReset)) \/
  (pc g <> PSelect /\ in_dispatch job (pc g) = false /\ references g' = references g /\ in_dispatch job (pc g') = false /\
   pc g' <> PReturned).
Proof.
  intros [Hstep Hpc].
  destruct Hstep as [H|random t h H|H|t h H|H|random t active h H|H|random t h H|later]; cbn [pc references] in *;
    [| | | | | | | |done]; rewrite H in *; cbn [in_dispatch].
  - destruct (StartupRefresh job).
    + right. left. split; [done|]. split; [done|]. by left.
    + right. right. done.
  - right. right. done.
  - left. split; [done|]. split; [by left|done].
  - left. split; [done|]. split; [by right|done].
  - right. left. split; [done|]. split; [done|]. by right.
  - right. right. by destruct active.
  - right. right. done.
  - right. right. done.
Qed.

Lemma worker_effect id σ σ' t :
  worker_step r id σ σ' ->
  schedules σ' = schedules σ /\ forall id', given σ' (received (tallied id σ σ' t)) id' = given σ (received t) id'.
Proof.
  intros Hstep. assert (Hs : schedules σ' = schedules σ) by by destruct Hstep. split; [done|].
  intros id'. unfold given, sending. rewrite Hs. f_equal. unfold tallied, queued, taken_by.
  destruct Hstep as [reference Hw Hq|Hw|reference Hw|reference Hw|reference Hw|reference Hw|reference Hw|Hw|reference Hw|Hw|Hw|Hw];
    cbn; rewrite Hw, ?lookup_insert_eq; cbn; try done.
  destruct (decide (id = id')) as [<-|Hne].
  - rewrite bool_decide_true by done. rewrite lookup_delete_eq, Hq. cbn. lia.
  - rewrite bool_decide_false by done. by rewrite lookup_delete_ne.
Qed.

Lemma schedule_effect id σ σ' :
  schedule_step id σ σ' ->
  forall id', id' <> id -> schedules σ' !! id' = schedules σ !! id' /\ queue σ' !! id' = queue σ !! id'.
Proof.
  intros Hstep id' Hne.
  destruct Hstep; cbn; rewrite ?lookup_insert_ne by done; done.
Qed.

Context (Hunique : NoDup (job_ids (jobs r))).

Lemma job_of_unique id job job' : job_of id job -> job_of id job' -> job = job'.
Proof using Hunique.
  unfold job_of, job_ids in *. revert Hunique. induction (jobs r) as [|j l IH]; cbn; [by intros _ [?%elem_of_nil ?]|].
  intros Hnd [Hj Hid] [Hj' Hid'].
  assert (Hin : forall j, j ∈ l -> job_Collector j = Some id -> id ∈ omap job_Collector l)
    by (intros k Hk Hkid; apply list_elem_of_omap; by exists k).
  apply elem_of_cons in Hj as [->|Hj], Hj' as [->|Hj']; [done|..]; [rewrite Hid in Hnd|rewrite Hid' in Hnd|];
    [apply NoDup_cons in Hnd as [[] _]; eauto..|].
  apply IH; [|done..]. destruct (job_Collector j); [by apply NoDup_cons in Hnd as [_ ?]|done].
Qed.

(** A step of the shared state that leaves a collector alone. *)
Lemma together_kept τ σ gs t id g job :
  together τ id g job -> schedules σ !! id = schedules (shared τ) !! id ->
  given σ (received t) id = given (shared τ) (received (tally τ)) id -> together (mkTimed σ gs t) id g job.
Proof using. intros [Hr Ha Hg] Hs He. split; cbn [shared tally]; [done|by rewrite Hs|by rewrite He]. Qed.

Lemma given_kept σ σ' log id :
  schedules σ' !! id = schedules σ !! id -> queue σ' !! id = queue σ !! id -> given σ' log id = given σ log id.
Proof using. intros Hs Hq. unfold given, queued, sending. by rewrite Hs, Hq. Qed.

Lemma TInv_update τ id g g' job σ :
  TInv τ -> job_of id job -> goroutines τ !! id = Some g -> reachable r σ ->
  (forall id', id' <> id -> schedules σ !! id' = schedules (shared τ) !! id' /\ queue σ !! id' = queue (shared τ) !! id') ->
  (together τ id g job -> together (with_goroutine id g' σ τ) id g' job) -> TInv (with_goroutine id g' σ τ).
Proof using Hunique.
  intros [Hs Hj Ht] Hjob Hg Hr Hother Htog. split; cbn [shared goroutines tally with_goroutine]; [done|..].
  - intros id' [<-|Hid]%lookup_insert_is_Some'; [by exists job|by apply Hj].
  - intros id' g0 job' [[<- <-]|[Hne Hl]]%lookup_insert_Some Hjob'.
    + rewrite (job_of_unique id job' job) by done. apply Htog, Ht; done.
    + destruct (Hother id') as [Hsch Hq]; [done|]. apply (together_kept τ); [by apply Ht|done|by apply given_kept].
Qed.

Lemma timed_reaches job g g' :
  schedule_reachable (config r) (job_Interval job) (StartupRefresh job) start g -> moved job g g' ->
  schedule_reachable (config r) (job_Interval job) (StartupRefresh job) start g'.
Proof using. intros Hr [Hm _]. by eapply rtc_r. Qed.

Lemma with_schedule_given id s σ log :
  sending σ id = false -> (forall reference, s <> SSending reference) ->
  given (with_schedule id s σ) log id = given σ log id.
Proof using.
  intros Hs Hne. unfold given, queued. f_equal. rewrite Hs. unfold sending. cbn. rewrite lookup_insert_eq.
  by destruct s as [| |reference|]; try done; destruct (Hne reference).
Qed.

(** A dispatch is skipped, or claims the running set with the time it was called at. *)
Lemma dispatch_effect id σ σ' log reference :
  schedules σ !! id = Some SDispatching -> schedule_step id σ σ' ->
  (forall t, schedules σ' !! id = Some (SSending t) -> t = reference) ->
  (schedules σ' !! id = Some SWaiting \/ schedules σ' !! id = Some (SSending reference)) /\
  given σ' log id <= S (given σ log id).
Proof using.
  intros Hd Hstep Ht. assert (Hs : sending σ id = false) by (unfold sending; by rewrite Hd).
  destruct Hstep as [H|H|H Hin|t H Hin|t H Hq]; rewrite H in Hd; try done.
  - split; [left; apply lookup_insert_eq|]. rewrite with_schedule_given; [lia|done|done].
  - cbn in Ht |- *. rewrite lookup_insert_eq in Ht |- *. rewrite (Ht t eq_refl). split; [by right|].
    unfold given, queued. cbn. rewrite Hs. unfold sending. cbn. rewrite lookup_insert_eq. cbn. lia.
Qed.

Lemma send_effect id σ σ' log reference :
  schedules σ !! id = Some (SSending reference) -> schedule_step id σ σ' ->
  schedules σ' !! id = Some SWaiting /\ given σ' log id = given σ log id.
Proof using.
  intros Hd Hstep. destruct Hstep as [H|H|H Hin|t H Hin|t H Hq]; rewrite H in Hd; try done.
  split; [apply lookup_insert_eq|]. unfold given, queued, sending. cbn.
  rewrite !lookup_insert_eq, H, Hq. cbn. lia.
Qed.

(** ** The invariant *)

Lemma job_map_lookup {A} (F : Job -> A) id job :
  job_of id job ->
  (list_to_map (omap (fun job => (fun id => (id, F job)) <$> job_Collector job) (jobs r)) : gmap CollectorID A) !! id = Some (F job).
Proof using Hunique.
  intros [Hj Hid]. apply elem_of_list_to_map_1.
  - replace (omap _ (jobs r)).*1 with (job_ids (jobs r)); [done|]. unfold job_ids. clear.
    induction (jobs r) as [|j l IH]; cbn; [done|]. destruct (job_Collector j); cbn; by rewrite IH.
  - apply list_elem_of_omap. exists job. by rewrite Hid.
Qed.

Lemma TInv_init : TInv timed_init.
Proof using Hunique.
  assert (Hlookup : forall id g, goroutines timed_init !! id = Some g -> exists job, job_of id job /\ g = schedule_start start).
  { intros id g Hl%elem_of_list_to_map_2. apply list_elem_of_omap in Hl as (job & Hj & Hl).
    destruct (job_Collector job) as [id'|] eqn:Hid; [|done]. injection Hl as -> <-. by exists job. }
  split; [apply rtc_refl| |].
  - intros id [g (job & Hj & _)%Hlookup]. by exists job.
  - intros id g job (job' & Hj' & ->)%Hlookup Hjob. clear job' Hj'.
    assert (Hs : schedules (init r) !! id = Some (if StartupRefresh job then SDispatching else SWaiting))
      by exact (job_map_lookup (fun job => if StartupRefresh job then SDispatching else SWaiting) id job Hjob).
    split; cbn [shared timed_init tally received].
    + apply rtc_refl.
    + rewrite Hs. unfold agrees, in_dispatch. cbn. by destruct (StartupRefresh job).
    + unfold given, queued, sending. rewrite Hs. cbn. by destruct (StartupRefresh job).
Qed.

Lemma moved_alone job g g' :
  moved job g g' -> pc g <> PSelect -> in_dispatch job (pc g) = false ->
  references g' = references g /\ in_dispatch job (pc g') = false /\ pc g' <> PReturned.
Proof using. intros [(? & _)|[(? & _)|(_ & _ & ? & ? & ?)]]%moved_cases; congruence || done. Qed.

Lemma moved_selected job g g' : moved job g g' -> pc g = PSelect -> references g' = references g.
Proof using.
  intros [(_ & _ & ?)|[(Hd & _)|(? & _)]]%moved_cases Hpc; [done| |done]. by rewrite Hpc in Hd.
Qed.

Lemma moved_returned job g g' : moved job g g' -> pc g' = PReturned -> pc g = PSelect.
Proof using.
  intros [(? & _)|[(_ & _ & [Hr|Hr])|(_ & _ & _ & _ & ?)]]%moved_cases Hpc; congruence || done.
Qed.

Lemma moved_dispatch job g g' :
  moved job g g' -> in_dispatch job (pc g) = true ->
  references g' = sc_clock g :: references g /\ (pc g' = PFirst \/ pc g' = PReset).
Proof using.
  intros [(Hs & _)|[(_ & ? & ?)|(_ & ? & _)]]%moved_cases Hd; [by rewrite Hs in Hd|done|congruence].
Qed.

(** A step of one schedule, as one of the runner. *)
Lemma schedule_reaches id σ σ' :
  reachable r σ -> schedule_step id σ σ' -> reachable r σ'.
Proof using. intros Hr Hs. eapply rtc_r; [exact Hr|by eapply step_schedule]. Qed.

(** A step a schedule takes in both views. *)
Lemma TInv_both τ id g g' job σ :
  TInv τ -> job_of id job -> goroutines τ !! id = Some g -> moved job g g' -> schedule_step id (shared τ) σ ->
  agrees job g' (schedules σ !! id) ->
  (given (shared τ) (received (tally τ)) id <= length (references g) -> given σ (received (tally τ)) id <= length (references g')) ->
  TInv (with_goroutine id g' σ τ).
Proof using Hunique.
  intros Hinv Hjob Hg Hm Hstep Ha Hgiven.
  apply (TInv_update τ id g _ job); [done..|eapply schedule_reaches; [by apply ti_shared|done]|by apply schedule_effect|].
  intros [Hr _ Hgv]. split; cbn [shared with_goroutine tally]; [by eapply timed_reaches|done|by apply Hgiven].
Qed.

Lemma TInv_step τ τ' : TInv τ -> timed_step τ τ' -> TInv τ'.
Proof using Hunique.
  intros Hinv Hstep. pose proof Hinv as [Hs Hj Ht].
  destruct Hstep as [σ ->|id σ Hw _|id g later Hg Hle|id job g g' Hjob Hg Hm Hpc Hpc' Hsch|id job g g' Hjob Hg Hm Hpc' Hsch Hdone
    |id job g g' σ Hjob Hg Hm Hd Hsch Hstep Href|id reference σ Hsch Hstep|id job g g' Hjob Hg Hm Hpc Hd Hsch].
  - split; cbn [shared goroutines]; [by eapply rtc_r; [|apply step_cancel]|done|].
    intros id g job Hg Hjob. by apply (together_kept τ); [apply Ht|..].
  - destruct (worker_effect id _ _ (tally τ) Hw) as [Hsch Hgiven].
    split; cbn [shared goroutines]; [by eapply rtc_r; [|eapply step_worker]|done|].
    intros id' g job Hg Hjob. apply (together_kept τ); [by apply Ht|by rewrite Hsch|apply Hgiven].
  - destruct (Hj id) as [job Hjob]; [by exists g|]. apply (TInv_update τ id g _ job); try done.
    intros [Hr Ha Hgv]. split; cbn [shared with_goroutine tally]; [|exact Ha|exact Hgv]. by eapply rtc_r; [|apply passes].
  - apply (TInv_both τ id g g' job); try done; [by apply schedule_tick|cbn; rewrite lookup_insert_eq; cbn; by rewrite Hpc'|].
    rewrite with_schedule_given by (done || (unfold sending; by rewrite Hsch)). by rewrite (moved_selected job g g').
  - apply (TInv_both τ id g g' job); try done; [by apply schedule_done|cbn; by rewrite lookup_insert_eq|].
    rewrite with_schedule_given by (done || (unfold sending; by rewrite Hsch)).
    by rewrite (moved_selected job g g') by (done || by eapply moved_returned).
  - destruct (moved_dispatch job g g' Hm Hd) as [Hrefs Hpc'].
    destruct (dispatch_effect id _ σ (received (tally τ)) (sc_clock g) Hsch Hstep Href) as [Hafter Hgiven].
    apply (TInv_both τ id g g' job); try done; [|rewrite Hrefs; cbn [length]; lia].
    destruct Hafter as [->| ->]; cbn; [by destruct Hpc' as [->| ->]|by rewrite Hrefs].
  - destruct (send_effect id _ σ (received (tally τ)) reference Hsch Hstep) as [Hafter Hgiven].
    split; cbn [shared goroutines]; [by eapply schedule_reaches|done|]. intros id' g job Hg Hjob.
    destruct (decide (id' = id)) as [->|Hne].
    + destruct (Ht id g job Hg Hjob) as [Hr Ha Hgv]. rewrite Hsch in Ha. destruct Ha as [Hpc _].
      split; cbn [shared tally]; [done| |by rewrite Hgiven]. rewrite Hafter. cbn. by destruct Hpc as [->| ->].
    + destruct (schedule_effect id _ σ Hstep id' Hne) as [Hs' Hq']. apply (together_kept τ); [by apply Ht|done|by apply given_kept].
  - destruct (moved_alone job g g' Hm Hpc Hd) as (Hrefs & Hd' & Hpc').
    apply (TInv_update τ id g _ job); [done..|].
    intros [Hr Ha Hgv]. split; cbn [shared with_goroutine tally]; [by eapply timed_reaches|by rewrite Hsch|by rewrite Hrefs].
Qed.

Lemma reachable_TInv τ : timed_reachable τ -> TInv τ.
Proof using Hunique.
  unfold timed_reachable. intros Hr. generalize TInv_init. induction Hr; [done|]. intros Hinv. apply IHHr. by eapply TInv_step.
Qed.

(** ** Attempts *)

(** A worker between the start of an attempt and its [Collect]. *)
Definition attempting (w : option WState) : bool :=
  match w with Some (WTarget _ | WGlobal _) => true | _ => false end.

(** A worker inside [collect]. *)
Definition in_collect (w : option WState) : bool :=
  match w with Some (WTarget _ | WGlobal _ | WCollecting _ | WReleasing | WBetween) => true | _ => false end.

(** The collections of a collector: every reference but the last had all its attempts. *)
Record counted_attempts (σ : State) (t : Tally) (id : CollectorID) : Prop := mkCounted {
  ca_tries : default 0%nat (tries t !! id) <= Z.to_nat (MaxAttempts (Backoff (config r)));
  ca_none : taken_by id (received t) = 0 -> default 0%nat (tries t !! id) = 0 /\ in_collect (workers σ !! id) = false;
  ca_collections : taken_by id (collections t) + Nat.b2n (attempting (workers σ !! id)) <=
    pred (taken_by id (received t)) * Z.to_nat (MaxAttempts (Backoff (config r))) + default 0%nat (tries t !! id)
}.

Lemma taken_by_cons id id' log :
  taken_by id (id' :: log) = (if bool_decide (id' = id) then S (taken_by id log) else taken_by id log).
Proof using. unfold taken_by. cbn. by case_bool_decide. Qed.

Lemma tallied_other id id' σ σ' t :
  id' <> id ->
  default 0%nat (tries (tallied id σ σ' t) !! id') = default 0%nat (tries t !! id') /\
  taken_by id' (received (tallied id σ σ' t)) = taken_by id' (received t) /\
  taken_by id' (collections (tallied id σ σ' t)) = taken_by id' (collections t).
Proof using.
  intros Hne. unfold tallied. repeat case_match; cbn [tries received collections];
    rewrite ?taken_by_cons, ?bool_decide_false, ?lookup_insert_ne by congruence; done.
Qed.

Lemma worker_kept id id' σ σ' : worker_step r id σ σ' -> id' <> id -> workers σ' !! id' = workers σ !! id'.
Proof using. intros Hstep Hne. destruct Hstep; cbn; by rewrite lookup_insert_ne. Qed.

(** What the tally says of a collector after a step of its worker. *)
Lemma tallied_same id σ σ' t :
  worker_step r id σ σ' ->
  let attempts := default 0%nat (tries t !! id) in
  let attempts' := default 0%nat (tries (tallied id σ σ' t) !! id) in
  let starts := attempting (workers σ' !! id) && negb (attempting (workers σ !! id)) in
  let calls := attempting (workers σ !! id) && w_collecting (default WIdle (workers σ' !! id)) in
  taken_by id (collections (tallied id σ σ' t)) = taken_by id (collections t) + Nat.b2n calls /\
  if starts && negb (in_collect (workers σ !! id))
  then attempts' = 1%nat /\ taken_by id (received (tallied id σ σ' t)) = S (taken_by id (received t))
  else attempts' = attempts + Nat.b2n starts /\ taken_by id (received (tallied id σ σ' t)) = taken_by id (received t).
Proof using.
  intros Hstep. unfold tallied.
  destruct Hstep as [reference Hw Hq|Hw|reference Hw|reference Hw|reference Hw|reference Hw|reference Hw|Hw|reference Hw|Hw|Hw|Hw];
    cbn; rewrite Hw, ?lookup_insert_eq; cbn; rewrite ?lookup_insert_eq, ?taken_by_cons, ?bool_decide_true by done; cbn; unfold taken_by; lia.
Qed.

Lemma in_collect_step id σ σ' :
  worker_step r id σ σ' -> in_collect (workers σ' !! id) = true ->
  in_collect (workers σ !! id) = true \/ attempting (workers σ' !! id) = true.
Proof using.
  intros Hstep. destruct Hstep; cbn; rewrite lookup_insert_eq; cbn; auto;
    match goal with H : workers _ !! _ = _ |- _ => rewrite H end; cbn; auto.
Qed.

Lemma counted_worker id σ σ' t :
  worker_step r id σ σ' -> (Z.of_nat (default 0%nat (tries (tallied id σ σ' t) !! id)) <= MaxAttempts (Backoff (config r)))%Z ->
  counted_attempts σ t id -> counted_attempts σ' (tallied id σ σ' t) id.
Proof using.
  intros Hstep Htry [Ht Hn Hc]. pose proof (in_collect_step id σ σ' Hstep) as Hin.
  destruct (tallied_same id σ σ' t Hstep) as [Hcol Htally].
  assert (Hcalls : attempting (workers σ' !! id) && w_collecting (default WIdle (workers σ' !! id)) = false)
    by by destruct (workers σ' !! id) as [[]|].
  assert (Hinside : attempting (workers σ !! id) = true -> in_collect (workers σ !! id) = true)
    by by destruct (workers σ !! id) as [[]|].
  enough (default 0%nat (tries (tallied id σ σ' t) !! id) <= Z.to_nat (MaxAttempts (Backoff (config r))) /\ _ /\ _)
    as (H1 & H2 & H3) by (split; [exact H1|exact H2|exact H3]).
  split; [lia|]. revert Hcol Htally Hin Hcalls Hinside Hc Hn.
  generalize (attempting (workers σ !! id)) (attempting (workers σ' !! id)) (w_collecting (default WIdle (workers σ' !! id)))
    (in_collect (workers σ !! id)) (in_collect (workers σ' !! id)).
  intros before after calls inside inside' Hcol Htally Hin Hcalls Hinside Hc Hn.
  destruct (taken_by id (received t)) as [|n] eqn:Hrec; [destruct (Hn eq_refl) as [Htries Hout]|];
    destruct after, before, calls, inside; cbn in *; try done; destruct Htally as [Ha Hr]; rewrite ?Ha, ?Hr in *;
    (split; [intros; first [lia|split; [lia|destruct inside'; intuition congruence]]|cbn; lia]).
Qed.

Lemma counted_step τ τ' :
  (forall id, counted_attempts (shared τ) (tally τ) id) -> timed_step τ τ' ->
  forall id, counted_attempts (shared τ') (tally τ') id.
Proof using.
  intros Hinv Hstep. assert (Hschedule : forall id σ, schedule_step id (shared τ) σ -> workers σ = workers (shared τ))
    by (intros id σ Hs; by destruct Hs).
  assert (Hkept : forall σ, workers σ = workers (shared τ) -> forall id, counted_attempts σ (tally τ) id)
    by (intros σ Hw id; destruct (Hinv id) as [Ht Hn Hc]; by split; rewrite ?Hw).
  destruct Hstep as [σ ->|id σ Hw Htry| | | |id job g g' σ _ _ _ _ _ Hs _|id reference σ _ Hs|];
    try (apply Hkept; cbn [shared with_goroutine]; first [done|by eapply Hschedule]).
  intros id'. destruct (decide (id' = id)) as [->|Hne]; [by apply counted_worker|].
  destruct (tallied_other id id' (shared τ) σ (tally τ) Hne) as (Ht & Hr & Hcol). destruct (Hinv id') as [Ht' Hn' Hc'].
  split; cbn [shared tally]; rewrite ?Ht, ?Hr, ?Hcol, ?(worker_kept id id' _ _ Hw Hne); done.
Qed.

Lemma reachable_counted τ : timed_reachable τ -> forall id, counted_attempts (shared τ) (tally τ) id.
Proof using.
  assert (Hidle : forall id, workers (init r) !! id = None \/ workers (init r) !! id = Some WIdle).
  { intros id. destruct (workers (init r) !! id) as [w|] eqn:Hw; [right|by left].
    apply elem_of_list_to_map_2, list_elem_of_omap in Hw as (job & _ & Hw).
    destruct (job_Collector job); [|done]. by injection Hw as _ <-. }
  assert (Hinit : forall id, counted_attempts (shared timed_init) (tally timed_init) id).
  { intros id. split; cbn [shared tally timed_init tries received collections];
      [by rewrite lookup_empty; cbn; lia|..]; destruct (Hidle id) as [->| ->]; rewrite lookup_empty; cbn; done || lia. }
  unfold timed_reachable. intros Hr. revert Hinit. induction Hr as [|? ? ? Hstep _ IH]; [done|].
  intros Hinit. apply IH. by eapply counted_step.
Qed.

(** Every collection belongs to an attempt of a reference that was taken. *)
Lemma collections_of_received τ id :
  timed_reachable τ ->
  taken_by id (collections (tally τ)) <= taken_by id (received (tally τ)) * Z.to_nat (MaxAttempts (Backoff (config r))).
Proof using.
  intros Hr. destruct (reachable_counted τ Hr id) as [Ht Hn Hc].
  destruct (taken_by id (received (tally τ))) as [|n]; [rewrite (proj1 (Hn eq_refl)) in Hc|]; cbn in *; lia.
Qed.

(** ** The schedule of Timers, in the runner *)

Lemma moved_from job g g' : moved job g g' -> pc g <> PReturned.
Proof using. intros [Hstep Hpc]. destruct Hstep; cbn in *; congruence. Qed.

Lemma agrees_waiting job g s :
  agrees job g s -> in_dispatch job (pc g) = false -> pc g <> PReturned ->
  (forall reference, s <> Some (SSending reference)) -> s = Some SWaiting.
Proof using.
  intros Ha Hd Hpc Hs. destruct s as [[| |reference|]|]; cbn in Ha; try done; [congruence|by destruct (Hs reference)].
Qed.

Lemma agrees_dispatching job g s : agrees job g s -> in_dispatch job (pc g) = true -> s = Some SDispatching.
Proof using.
  intros Ha Hd. destruct s as [[| |reference|]|]; cbn in Ha; try done.
  - destruct Ha as [Ha _]. congruence.
  - destruct Ha as [[Ha|Ha] _]; by rewrite Ha in Hd.
  - by rewrite Ha in Hd.
Qed.

(** Nothing a schedule does on its own timers is lost in the runner, once it is past the send. *)
Lemma timed_simulates τ id job g g' :
  timed_reachable τ -> job_of id job -> goroutines τ !! id = Some g -> moved job g g' ->
  (forall reference, schedules (shared τ) !! id <> Some (SSending reference)) ->
  (pc g' = PReturned -> ctx_done (shared τ) = true) ->
  exists τ', timed_step τ τ' /\ goroutines τ' !! id = Some g'.
Proof using Hunique.
  intros Hr Hjob Hg Hm Hsend Hdone. destruct (ti_together τ (reachable_TInv τ Hr) id g job Hg Hjob) as [_ Ha _].
  pose proof (moved_from job g g' Hm) as Hfrom.
  assert (Hnew : forall σ, goroutines (with_goroutine id g' σ τ) !! id = Some g') by (intros; apply lookup_insert_eq).
  pose proof (moved_cases job g g' Hm) as [(Hpc & Hpc' & _)|[(Hd & _)|(Hpc & Hd & _)]].
  - assert (Hsch : schedules (shared τ) !! id = Some SWaiting) by (apply (agrees_waiting job g); try done; by rewrite Hpc).
    destruct Hpc' as [Hpc'|Hpc']; eexists; (split; [|apply Hnew]); [eapply timed_return|eapply timed_tick]; eauto.
  - assert (Hsch := agrees_dispatching job g _ Ha Hd). destruct (decide (id ∈ running (shared τ))) as [Hin|Hin];
      eexists; (split; [|apply Hnew]); eapply timed_dispatch; try done.
    + by apply dispatch_skip.
    + cbn. intros t. by rewrite lookup_insert_eq.
    + by apply (dispatch_claim _ _ (sc_clock g)).
    + cbn. intros t. rewrite lookup_insert_eq. by intros [= <-].
  - assert (Hsch : schedules (shared τ) !! id = Some SWaiting) by by apply (agrees_waiting job g).
    eexists. split; [|apply (Hnew (shared τ))]. by eapply timed_alone.
Qed.
End Timed.

(** What the constructor has checked. *)
Lemma NewJobs_facts l c r :
  NewJobs l c = Ok r ->
  config_invalid c = false /\ (forall job, job ∈ l -> (0 < job_Interval job)%Z) /\ NoDup (job_ids l) /\
  jobs r = l /\ config r = c /\ (0 < MaxConcurrency c)%Z /\ (1 <= MaxAttempts (Backoff c))%Z.
Proof.
  destruct (NewJobs_spec l c) as (_ & Hok & Hmax). intros (_ & Hc & Hvalid & Hnd & ->)%Hok.
  split; [done|]. split; [|by repeat split; try apply Hmax].
  intros job Hj. rewrite forallb_elem_of in Hvalid. specialize (Hvalid job Hj). unfold job_valid in Hvalid.
  destruct (job_Collector job); [|done]. by inv_bool.
Qed.

(** C29: what a runner may ask of AWS is bounded, at any time and over time.  In every
    interleaving at most [MaxConcurrency] workers collect at the same time, and never two at the
    same target.  With the timers of the schedules in passing time, the worker of a job has taken
    at most one reference more than intervals of the job have passed since the start, and called
    its collector at most [MaxAttempts] times for each of them, whatever the jitter, the skipped
    dispatches, the failures and the delays; this for a job whose interval fits a duration with its
    jitter (at most some 194 years, which [NewJobs] does not check). *)
Theorem refreshes_bounded l c r start τ :
  NewJobs l c = Ok r -> valid_float (JitterRatio c) -> timed_reachable r start τ ->
  (Z.of_nat (size (collecting (shared τ))) <= MaxConcurrency c)%Z /\
  (forall id1 id2 t1 t2, workers (shared τ) !! id1 = Some (WCollecting t1) ->
    workers (shared τ) !! id2 = Some (WCollecting t2) -> ID_Target id1 = ID_Target id2 -> id1 = id2) /\
  (forall id job g, job ∈ l -> job_Collector job = Some id ->
    (job_Interval job + most_jitter (job_Interval job) < 2 ^ 63)%Z ->
    goroutines τ !! id = Some g ->
    let intervals := ((sc_clock g - start) / job_Interval job)%Z in
    (Z.of_nat (taken_by id (received (tally τ))) <= 1 + intervals)%Z /\
    (Z.of_nat (taken_by id (collections (tally τ))) <= (1 + intervals) * MaxAttempts (Backoff c))%Z).
Proof.
  intros Hnew Hjitter Hr. destruct (NewJobs_facts l c r Hnew) as (Hc & Hvalid & Hnd & Hjobs & Hconfig & Hmax & Hattempts).
  assert (Hnd' : NoDup (job_ids (jobs r))) by by rewrite Hjobs.
  pose proof (reachable_TInv r start Hnd' τ Hr) as [Hs _ Ht].
  destruct (collecting_bounded r (shared τ) Hs) as [Hsize Htargets]. rewrite Hconfig in Hsize.
  split; [lia|]. split; [exact Htargets|]. intros id job g Hin Hid Hint Hg.
  assert (Hjob : job_of r id job) by (unfold job_of; by rewrite Hjobs).
  destruct (Ht id g job Hg Hjob) as [Hreach _ Hgiven]. rewrite Hconfig in Hreach.
  assert (Hpos : (0 < job_Interval job)%Z) by by apply (Hvalid job).
  pose proof (dispatches_bounded (job_Interval job) start g Hpos (reachable_dated _ _ _ _ _ Hreach)
    (proj1 (reachable_ScInv _ _ _ Hc Hjitter Hpos Hint _ _ Hreach))) as Hcount.
  assert (Hreceived : (Z.of_nat (taken_by id (received (tally τ))) <= 1 + (sc_clock g - start) / job_Interval job)%Z)
    by (unfold given in Hgiven; lia).
  split; [exact Hreceived|]. pose proof (collections_of_received r start τ id Hr) as Hcol. rewrite Hconfig in Hcol.
  nia.
Qed.

(** ** The first refresh of the sample *)

Definition sample_jobs : list Job := [mkJob (Some sample_id) Hour true].
Definition sample_runner : Runner :=
  match NewJobs sample_jobs sample_runner_config with Ok r => r | Err _ => sample end.

(** The startup refresh is in the hands of the worker; the schedule is before its first timer. *)
Definition sample_claimed : State :=
  with_schedule sample_id (SSending 0%Z) (with_running (fun s => {[sample_id]} ∪ s) (init sample_runner)).
Definition sample_sent : State :=
  with_schedule sample_id SWaiting (with_queue <[sample_id := 0%Z]> sample_claimed).
Definition sample_received : State :=
  with_worker sample_id (WTarget 0%Z) (with_queue (delete sample_id) sample_sent).
Definition sample_timed : TimedRunner :=
  mkTimed sample_received (goroutines (with_goroutine sample_id (mkSchedule 0%Z PFirst None None [] [0%Z]) sample_claimed
    (timed_init sample_runner 0%Z))) (mkTally {[sample_id := 1]} [sample_id] []).

Lemma sample_timed_reachable : timed_reachable sample_runner 0%Z sample_timed.
Proof.
  assert (Hjob : job_of sample_runner sample_id (mkJob (Some sample_id) Hour true)) by (split; [vm_compute; constructor|done]).
  unfold timed_reachable.
  eapply rtc_l.
  { eapply (timed_dispatch _ _ sample_id _ (schedule_start 0%Z) (mkSchedule 0%Z PFirst None None [] [0%Z]) sample_claimed Hjob).
    - vm_compute. reflexivity.
    - split; [by apply (starts _ _ true)|discriminate].
    - reflexivity.
    - vm_compute. reflexivity.
    - apply dispatch_claim; [vm_compute; reflexivity|]. intros Hin. vm_compute in Hin. discriminate Hin.
    - intros t. cbn. rewrite lookup_insert_eq. by intros [= <-]. }
  eapply rtc_l.
  { apply (timed_send _ _ sample_id 0%Z sample_sent); [apply lookup_insert_eq|].
    apply (dispatch_send _ _ 0%Z); [apply lookup_insert_eq|]. vm_compute. reflexivity. }
  eapply rtc_l.
  { apply (timed_worker _ _ sample_id sample_received); [|vm_compute; discriminate].
    apply worker_receive; [vm_compute; reflexivity|apply lookup_insert_eq]. }
  apply reflexive_eq. vm_compute. reflexivity.
Qed.

Lemma refreshes_bounded_witness :
  taken_by sample_id (received (tally sample_timed)) = 1 /\
  (Z.of_nat (taken_by sample_id (received (tally sample_timed))) <= 1 + (0 - 0) / Hour)%Z /\
  (Z.of_nat (taken_by sample_id (collections (tally sample_timed))) <=
    (1 + (0 - 0) / Hour) * MaxAttempts (Backoff sample_runner_config))%Z.
Proof.
  split; [vm_compute; reflexivity|].
  apply (refreshes_bounded sample_jobs sample_runner_config sample_runner 0%Z sample_timed) with
    (job := mkJob (Some sample_id) Hour true) (g := mkSchedule 0%Z PFirst None None [] [0%Z]);
    [vm_compute; reflexivity|vm_compute; reflexivity|exact sample_timed_reachable|by left|reflexivity
    |vm_compute; reflexivity|vm_compute; reflexivity].
Defined.
