(* ===== verification/Pages.v ===== *)
(** * The documentation pages (tools/pages/main.go)

    [prepare] copies the Wiki pages into a directory for the site generator, with their links
    rewritten.  Paths are Unix paths, cleaned into the list of their components; a file system
    maps them to nodes, without symbolic links; what the operating system refuses is an argument. *)

From S2P Require Import Prelude SliceStable GoStrings GoRegexp GoUrl Errors Effects.
Local Open Scope string_scope.
Local Open Scope list_scope.

(** ** Paths (path/filepath) *)

Abbreviation Path := (list string).

(** [Clean] of a rooted path, on the components so far in reverse. *)
Fixpoint Clean (reversed components : Path) : Path :=
  match components with
  | [] => rev reversed
  | c :: components =>
      if bool_decide (c = "" \/ c = ".") then Clean reversed components
      else if bool_decide (c = "..") then Clean (tail reversed) components
      else Clean (c :: reversed) components
  end.

(** [Abs]; [cwd] is what [os.Getwd] answers. *)
Definition Abs (cwd : res Path) (path : string) : res Path :=
  let components := map of_bytes (Split "/"%char (bytes path)) in
  if HasPrefix path "/" then Ok (Clean [] components)
  else cwd ← cwd; Ok (Clean (rev cwd) components).

(** The components after the common ones. *)
Fixpoint diverge (base target : Path) : Path * Path :=
  match base, target with
  | b :: base', t :: target' => if bool_decide (b = t) then diverge base' target' else (base, target)
  | _, _ => (base, target)
  end.

(** [Rel] of two cleaned absolute paths. *)
Definition Rel (base target : Path) : string :=
  let '(base, target) := diverge base target in
  let components := replicate (length base) ".." ++ target in
  if bool_decide (components = []) then "." else join "/" components.

(** [Ext] of a file name: from the last dot. *)
Fixpoint Ext_from (reversed seen : list ascii) : list ascii :=
  match reversed with
  | [] => []
  | c :: reversed =>
      if bool_decide (c = "/"%char) then []
      else if bool_decide (c = "."%char) then c :: seen else Ext_from reversed (c :: seen)
  end.

Definition Ext (name : string) : string := of_bytes (Ext_from (rev (bytes name)) []).

(** ** Links *)

Definition wikiBaseURL : string := "https://github.com/Sakuya1998/aws-cost-exporter/wiki/".

Definition slug_class : list (ascii * ascii) := [upper; lower; digit; one "-"]%char.
Definition fragment_class : list (ascii * ascii) :=
  [upper; lower; digit; one "."; one "_"; one "~"; one "%"; one "!"; one "$"; one "&"; one "'"; one "("; one ")";
   one "*"; one "+"; one ","; one ";"; one "="; one ":"; one "@"; one "/"; one "?"; one "-"]%char.

(** The longest prefix in a class: what a greedy repetition takes. *)
Fixpoint span (class : list (ascii * ascii)) (l : list ascii) : list ascii * list ascii :=
  match l with
  | [] => ([], [])
  | c :: rest => if in_class class c then let '(taken, rest) := span class rest in (c :: taken, rest) else ([], l)
  end.

(** The match of [wikiLinkPattern] at the start, and what follows it.  No slug holds the byte a
    fragment starts with, so the longest slug is the one that is matched. *)
Definition wiki_link (l : list ascii) : option (list ascii * list ascii) :=
  match strip (bytes wikiBaseURL) l with
  | None => None
  | Some rest =>
      let '(slug, rest) := span slug_class rest in
      if bool_decide (slug = []) then None else
      match rest with
      | "#"%char :: rest' =>
          let '(fragment, rest') := span fragment_class rest' in
          if bool_decide (fragment = []) then Some (bytes wikiBaseURL ++ slug, rest)
          else Some (bytes wikiBaseURL ++ slug ++ "#"%char :: fragment, rest')
      | _ => Some (bytes wikiBaseURL ++ slug, rest)
      end
  end.

(** What a match is replaced by. *)
Definition local_link (found : list ascii) : list ascii :=
  let value := bytes (TrimPrefix (of_bytes found) wikiBaseURL) in
  let '(slug, fragment) := Cut "#"%char value in
  let fragment := match default [] fragment with [] => [] | fragment => "#"%char :: fragment end in
  if bool_decide (of_bytes slug = "Home") then bytes "index.md" ++ fragment else slug ++ bytes ".md" ++ fragment.

(** [ReplaceAllFunc]: matches from left to right, a byte past the start when there is none. *)
Fixpoint replace_links (fuel : nat) (l : list ascii) : list ascii :=
  match fuel, l with
  | S fuel, c :: rest =>
      match wiki_link l with
      | Some (found, rest) => local_link found ++ replace_links fuel rest
      | None => c :: replace_links fuel rest
      end
  | _, _ => []
  end.

Definition rewriteWikiLinks (content : list ascii) : list ascii := replace_links (length content) content.

Example rewrite_ex :
  rewriteWikiLinks (bytes ("See [x](" +++ wikiBaseURL +++ "Home#top), " +++ wikiBaseURL +++ "Metrics#.")) =
  bytes "See [x](index.md#top), Metrics.md#.".
Proof. vm_compute. reflexivity. Qed.

(** ** The file system *)

Inductive Node := File (content : list ascii) | Directory.

#[export] Instance Node_eq_dec : EqDecision Node.
Proof. solve_decision. Defined.

Abbreviation FileSystem := (gmap Path Node).

Inductive FsOp := OpOpen | OpRead | OpList | OpClose | OpRemove | OpMkdir | OpWrite.

Definition ErrNotDirectory : error := Sentinel "not a directory".
Definition ErrNotFile : error := Sentinel "no such file".

Definition is_dir (fs : FileSystem) (path : Path) : bool := bool_decide (path = [] \/ fs !! path = Some Directory).

Record sourcePage := mkPage { page_name : string; page_content : list ascii }.

Definition excluded (name : string) : bool := bool_decide (name ∈ ["README.md"; "_Sidebar.md"; "_Footer.md"]).

Section Prepare.
(** The error the system answers an operation on a path with, if any; when it cannot remove a
    tree, what it leaves of it; when it cannot write a file, what it has written. *)
Context (fault : FsOp -> Path -> option error) (survives : Path -> bool) (written : Path -> option (list ascii)).

Definition refused (op : FsOp) (path : Path) : res unit :=
  match fault op path with Some err => Err err | None => Ok tt end.

(** [fs.ReadFile] and [fs.ReadDir]: the entries of a directory, sorted by name. *)
Definition ReadFile (fs : FileSystem) (path : Path) : res (list ascii) :=
  _ ← refused OpRead path;
  match fs !! path with Some (File content) => Ok content | _ => Err ErrNotFile end.

Definition entry_of (dir path : Path) (node : Node) : option (string * Node) :=
  match last path with
  | Some name => if bool_decide (path = dir ++ [name]) then Some (name, node) else None
  | None => None
  end.

Definition ReadDir (fs : FileSystem) (dir : Path) : res (list (string * Node)) :=
  _ ← refused OpList dir;
  Ok (SliceStable (by_key String.ltb fst no_key) (omap (fun '(path, node) => entry_of dir path node) (map_to_list fs))).

(** A page that is copied. *)
Definition skipped (name : string) (node : Node) : bool :=
  match node with Directory => true | File _ => negb (bool_decide (Ext name = ".md")) || excluded name end.

Fixpoint read_entries (fs : FileSystem) (sourcePath : Path) (entries : list (string * Node)) : res (list sourcePage) :=
  match entries with
  | [] => Ok []
  | (name, node) :: entries =>
      if skipped name node then read_entries fs sourcePath entries else
      content ← map_err (Wrapped "read page") (ReadFile fs (sourcePath ++ [name]));
      pages ← read_entries fs sourcePath entries;
      Ok (mkPage name content :: pages)
  end.

(** The deferred [Close] gives its error only when there is no other. *)
Definition readSourcePages (fs : FileSystem) (sourcePath : Path) : res (list ascii * list sourcePage) :=
  _ ← map_err (Wrapped "open source directory")
        (_ ← refused OpOpen sourcePath; if is_dir fs sourcePath then Ok tt else Err ErrNotDirectory);
  result ← (home ← map_err (Wrapped "read required Home.md") (ReadFile fs (sourcePath ++ ["Home.md"]));
            entries ← map_err (Wrapped "read source directory") (ReadDir fs sourcePath);
            pages ← read_entries fs sourcePath entries;
            Ok (home, pages));
  _ ← map_err (Wrapped "close source directory") (refused OpClose sourcePath);
  Ok result.

(** [os.RemoveAll]: the path and everything below it. *)
Definition RemoveAll (path : Path) : io FileSystem unit := fun fs =>
  match fault OpRemove path with
  | Some err => (Err err, filter (fun '(p, _) => ~ path `prefix_of` p \/ survives p = true) fs)
  | None => (Ok tt, filter (fun '(p, _) => ~ path `prefix_of` p) fs)
  end.

(** [os.MkdirAll]: the directories that lead to the path, from the root. *)
Definition ancestors (path : Path) : list Path := map (fun n => take (S n) path) (seq 0 (length path)).

Definition make_dir (path : Path) : io FileSystem unit := fun fs =>
  match fs !! path with
  | Some Directory => (Ok tt, fs)
  | Some (File _) => (Err ErrNotDirectory, fs)
  | None =>
      match fault OpMkdir path with
      | Some err => (Err err, fs)
      | None => (Ok tt, <[ path := Directory ]> fs)
      end
  end.

Fixpoint make_dirs (paths : list Path) : io FileSystem unit :=
  match paths with
  | [] => mret tt
  | path :: paths => _ ← make_dir path; make_dirs paths
  end.

Definition MkdirAll (path : Path) : io FileSystem unit := make_dirs (ancestors path).

(** [os.WriteFile] of a file in a directory that exists. *)
Definition WriteFile (path : Path) (content : list ascii) : io FileSystem unit := fun fs =>
  match fs !! path with
  | Some Directory => (Err ErrNotFile, fs)
  | _ =>
      match fault OpWrite path with
      | Some err => (Err err, match written path with Some part => <[ path := File part ]> fs | None => fs end)
      | None => (Ok tt, <[ path := File content ]> fs)
      end
  end.

Definition writePage (destination : Path) (name : string) (content : list ascii) : io FileSystem unit :=
  io_map_err (Wrapped "write page") (WriteFile (destination ++ [name]) content).

Fixpoint write_pages (destination : Path) (pages : list sourcePage) : io FileSystem unit :=
  match pages with
  | [] => mret tt
  | page :: pages =>
      _ ← writePage destination (page_name page) (rewriteWikiLinks (page_content page));
      write_pages destination pages
  end.

(** The guard of [prepare]. *)
Definition contains_source (destinationPath sourcePath : Path) : bool :=
  let relativeSource := Rel destinationPath sourcePath in
  bool_decide (relativeSource = ".") ||
  (negb (bool_decide (relativeSource = "..")) && negb (HasPrefix relativeSource "../")).

Definition prepare (cwd : res Path) (source destination : string) : io FileSystem unit := fun fs =>
  (sourcePath ← lift (map_err (Wrapped "resolve source") (Abs cwd source));
   destinationPath ← lift (map_err (Wrapped "resolve destination") (Abs cwd destination));
   _ ← lift (if contains_source destinationPath sourcePath
             then Err (ErrorString "destination contains source directory") else Ok tt);
   '(home, pages) ← lift (readSourcePages fs sourcePath);
   _ ← io_map_err (Wrapped "clear destination") (RemoveAll destinationPath);
   _ ← io_map_err (Wrapped "create destination") (MkdirAll destinationPath);
   _ ← write_pages destinationPath pages;
   writePage destinationPath "index.md" (rewriteWikiLinks home)) fs.
End Prepare.

(** ** Paths that contain one another *)

(** A component of a cleaned path. *)
Definition component (c : string) : Prop := c <> "" /\ c <> "." /\ c <> ".." /\ "/"%char ∉ bytes c.

Lemma Clean_components reversed components :
  Forall component reversed -> Forall (fun c => "/"%char ∉ bytes c) components -> Forall component (Clean reversed components).
Proof.
  revert reversed. induction components as [|c components IH]; intros reversed Hr Hc; cbn [Clean];
    [by apply Forall_rev|]. apply Forall_cons in Hc as [Hslash Hc].
  case_bool_decide as Hskip; [by apply IH|]. case_bool_decide as Hup.
  - apply IH; [|done]. by destruct Hr.
  - apply IH; [|done]. constructor; [|done]. unfold component. tauto.
Qed.

Lemma Split_fields sep l : Forall (fun field => sep ∉ field) (Split sep l).
Proof.
  induction l as [|c l IH]; cbn; [constructor; [apply not_elem_of_nil|done]|].
  case_bool_decide as Hc; [constructor; [apply not_elem_of_nil|done]|].
  destruct IH as [|field fields Hf Hfs]; (constructor; [|done]); apply not_elem_of_cons; split; try done.
  apply not_elem_of_nil.
Qed.

Lemma Abs_components cwd path p :
  (forall dir, cwd = Ok dir -> Forall component dir) -> Abs cwd path = Ok p -> Forall component p.
Proof.
  intros Hcwd. unfold Abs. set (components := map of_bytes _).
  assert (Hc : Forall (fun c => "/"%char ∉ bytes c) components).
  { unfold components. apply Forall_map. eapply Forall_impl; [apply Split_fields|]. intros l Hl. cbn. by rewrite bytes_of_bytes. }
  destruct (HasPrefix path "/"); [intros [= <-]; by apply Clean_components|].
  intros (dir & Hd & [= <-])%bind_ok. apply Clean_components; [apply Forall_rev; by apply Hcwd|done].
Qed.

Lemma diverge_spec base target base' target' :
  diverge base target = (base', target') ->
  exists common, base = common ++ base' /\ target = common ++ target' /\
    (base' = [] \/ ~ base' `prefix_of` target').
Proof.
  revert target. induction base as [|b base IH]; intros target; cbn; [intros [= <- <-]; exists []; auto|].
  destruct target as [|t target].
  { intros [= <- <-]. exists []. split; [done|]. split; [done|]. right. apply prefix_nil_not. }
  case_bool_decide as Hbt.
  - subst t. intros (common & -> & -> & Hd)%IH. by exists (b :: common).
  - intros [= <- <-]. exists []. split; [done|]. split; [done|]. right. intros Hp%prefix_cons_inv_1. done.
Qed.

(** Compares the first bytes of two strings. *)
Ltac prefix_cases := cbv [String.prefix String.app]; repeat (case_match; subst; try done).

(** A path that starts with a component is no way up. *)
Lemma join_component c components :
  component c -> join "/" (c :: components) <> ".." /\ HasPrefix (join "/" (c :: components)) "../" = false.
Proof.
  intros (Hne & Hdot & Hup & Hslash). unfold HasPrefix.
  assert (Hs : forall x, x = ""%string \/ (exists y, x = String "/" y) ->
    String.app c x <> ".."%string /\ String.prefix "../" (String.app c x) = false).
  { intros x Hx. destruct c as [|a [|b [|d c]]]; [done| | |].
    - destruct Hx as [->|[y ->]]; (split; [intros [=]; by subst|prefix_cases]).
    - destruct Hx as [->|[y ->]]; (split; [intros [=]; by subst|prefix_cases]).
    - split; [by intros [=]|]. prefix_cases. exfalso. apply Hslash. cbn. set_solver. }
  destruct components as [|d components]; cbn [join].
  - assert (Hc : String.app c "" = c) by (apply bytes_inj; rewrite bytes_app; apply app_nil_r).
    specialize (Hs ""%string (or_introl eq_refl)). by rewrite Hc in Hs.
  - apply Hs. right. by eexists.
Qed.

(** The guard refuses exactly the destinations that contain the source. *)
Lemma contains_source_prefix destination source :
  Forall component source -> contains_source destination source = true <-> destination `prefix_of` source.
Proof.
  intros Hsrc. unfold contains_source, Rel. destruct (diverge destination source) as [up down] eqn:Hd.
  apply diverge_spec in Hd as (common & -> & -> & Hd). apply Forall_app in Hsrc as [_ Hdown].
  assert (Hcut : common ++ up `prefix_of` common ++ down <-> up `prefix_of` down)
    by (split; [apply prefix_app_inv|apply prefix_app]).
  rewrite Hcut. destruct up as [|u up]; cbn [length replicate app].
  - split; [intros _; apply prefix_nil|]. intros _. destruct down as [|c down]; [done|].
    rewrite (bool_decide_false (c :: down = [])) by done. apply Forall_cons in Hdown as [Hc _].
    destruct (join_component c down Hc) as [Hup Hpre]. by rewrite (bool_decide_false _ Hup), Hpre, orb_true_r.
  - destruct Hd as [Hd|Hd]; [done|]. split; [|done].
    destruct (replicate (length up) ".." ++ down) as [|d rest]; [by vm_compute|].
    rewrite (bool_decide_false (".." :: d :: rest = [])) by done. change (join "/" (".." :: d :: rest))
      with (String "." (String "." (String "/" (join "/" (d :: rest))))).
    rewrite (bool_decide_false (String _ _ = ".")) by done.
    assert (HasPrefix (String "." (String "." (String "/" (join "/" (d :: rest))))) "../" = true) as ->
      by (by destruct (join "/" (d :: rest))). by rewrite andb_false_r.
Qed.

(** ** What the operations touch *)

Set Default Proof Using "Type".

Section Effects.
Context (fault : FsOp -> Path -> option error) (survives : Path -> bool) (written : Path -> option (list ascii)).

(** Outside of a destination nothing changes but for the directories that lead to it. *)
Definition confined (destination : Path) (fs fs' : FileSystem) : Prop :=
  forall p, ~ destination `prefix_of` p ->
    fs' !! p = fs !! p \/ p `prefix_of` destination /\ fs !! p = None /\ fs' !! p = Some Directory.

Lemma confined_refl d fs : confined d fs fs.
Proof. intros p _. by left. Qed.

Lemma confined_trans d a b c : confined d a b -> confined d b c -> confined d a c.
Proof.
  intros Hab Hbc p Hp. destruct (Hab p Hp) as [E1|(Hpre & E1 & E2)], (Hbc p Hp) as [E3|(Hpre' & E3 & E4)].
  - left. congruence.
  - right. split; [done|]. split; congruence.
  - right. split; [done|]. split; congruence.
  - congruence.
Qed.

Lemma confined_insert d fs p node : d `prefix_of` p -> confined d fs (<[ p := node ]> fs).
Proof. intros Hp q Hq. left. apply lookup_insert_ne. by intros <-. Qed.

Lemma RemoveAll_confined d fs r fs' : RemoveAll fault survives d fs = (r, fs') -> confined d fs fs'.
Proof.
  clear written. unfold RemoveAll. intros Hr p Hp. left.
  destruct (fault OpRemove d); injection Hr as <- <-; apply option_eq; intros node;
    rewrite map_lookup_filter_Some; naive_solver.
Qed.

Lemma make_dirs_confined d paths fs r fs' :
  Forall (fun p => p `prefix_of` d) paths -> make_dirs fault paths fs = (r, fs') -> confined d fs fs'.
Proof.
  revert fs. induction paths as [|q paths IH]; intros fs Hq; cbn [make_dirs]; [intros [= <- <-]; apply confined_refl|].
  apply Forall_cons in Hq as [Hq Hqs]. unfold mbind, io_bind. destruct (make_dir fault q fs) as [[u|e] fs1] eqn:Hm;
    [intros Hrest; eapply confined_trans; [|by eapply IH]|intros [= <- <-]].
  all: unfold make_dir in Hm; destruct (fs !! q) as [[|]|] eqn:Hl; [| |destruct (fault OpMkdir q)];
    try discriminate Hm; injection Hm as Hu <-; try apply confined_refl.
  intros p Hp. destruct (decide (p = q)) as [->|Hne]; [right; by rewrite lookup_insert_eq|].
  left. by apply lookup_insert_ne.
Qed.

Lemma ancestors_prefix d : Forall (fun p => p `prefix_of` d) (ancestors d).
Proof.
  apply Forall_forall. intros p (n & _ & <-)%elem_of_map. exists (drop (S n) d). by rewrite take_drop.
Qed.

Lemma writePage_confined d name content fs r fs' : writePage fault written d name content fs = (r, fs') -> confined d fs fs'.
Proof.
  assert (Hd : d `prefix_of` d ++ [name]) by apply prefix_app_r, reflexivity.
  unfold writePage, io_map_err, WriteFile. destruct (fs !! (d ++ [name])) as [[|]|], (fault OpWrite (d ++ [name]));
    try destruct (written (d ++ [name])); intros [= _ <-]; try apply confined_refl; by apply confined_insert.
Qed.

Lemma write_pages_confined d pages fs r fs' : write_pages fault written d pages fs = (r, fs') -> confined d fs fs'.
Proof.
  revert fs. induction pages as [|page pages IH]; intros fs; cbn [write_pages]; [intros [= _ <-]; apply confined_refl|].
  unfold mbind, io_bind. destruct (writePage _ _ _ _ _ fs) as [[u|e] fs1] eqn:Hw; apply writePage_confined in Hw.
  - intros Hrest%IH. by eapply confined_trans.
  - by intros [= _ <-].
Qed.

(** *** Successful runs *)

(** A page of the Wiki, as the source directory holds it. *)
Definition page_of (fs : FileSystem) (source : Path) (name : string) (content : list ascii) : Prop :=
  fs !! (source ++ [name]) = Some (File content) /\ Ext name = ".md" /\ excluded name = false.

Lemma ReadDir_ok fs dir entries : ReadDir fault fs dir = Ok entries ->
  forall name node, (name, node) ∈ entries <-> fs !! (dir ++ [name]) = Some node.
Proof.
  unfold ReadDir. intros (? & _ & [= <-])%bind_ok name node. rewrite elem_of_SliceStable, list_elem_of_omap.
  unfold entry_of. split.
  - intros ([path node'] & Hin & He). apply elem_of_map_to_list in Hin. destruct (last path); [|done].
    case_bool_decide as Hp; [|done]. injection He as -> ->. by rewrite <- Hp.
  - intros Hl. exists (dir ++ [name], node). split; [by apply elem_of_map_to_list|]. rewrite last_snoc.
    by rewrite bool_decide_true.
Qed.

Lemma ReadFile_ok fs path content : ReadFile fault fs path = Ok content -> fs !! path = Some (File content).
Proof. unfold ReadFile. intros (? & _ & H)%bind_ok. destruct (fs !! path) as [[]|]; congruence. Qed.

Lemma read_entries_ok fs source entries pages : read_entries fault fs source entries = Ok pages ->
  (forall name node, (name, node) ∈ entries -> fs !! (source ++ [name]) = Some node) ->
  forall name content, mkPage name content ∈ pages <-> (name, File content) ∈ entries /\ skipped name (File content) = false.
Proof.
  clear survives written. revert pages. induction entries as [|[name node] entries IH]; intros pages; cbn [read_entries].
  - intros [= <-] _ n c. set_solver.
  - intros Hread Hin n c. assert (Hin' : forall n c, (n, c) ∈ entries -> fs !! (source ++ [n]) = Some c) by (intros; apply Hin; by right).
    rewrite elem_of_cons. destruct (skipped name node) eqn:Hs.
    + rewrite (IH pages Hread Hin' n c). split; [intros [? ?]; auto|]. intros [[[= -> <-]|?] ?]; [congruence|auto].
    + apply bind_ok in Hread as (content & Hc%map_err_ok%ReadFile_ok & Hread).
      apply bind_ok in Hread as (rest & Hrest & [= <-]). rewrite elem_of_cons, (IH rest Hrest Hin' n c).
      rewrite (Hin name node) in Hc by (by left). injection Hc as ->. split.
      * intros [[= -> ->]|[? ?]]; auto.
      * intros [[[= -> ->]|?] ?]; auto.
Qed.

Lemma readSourcePages_ok fs source home pages : readSourcePages fault fs source = Ok (home, pages) ->
  fs !! (source ++ ["Home.md"]) = Some (File home) /\
  forall name content, mkPage name content ∈ pages <-> page_of fs source name content.
Proof.
  unfold readSourcePages. intros (? & _ & H)%bind_ok. apply bind_ok in H as ([h ps] & Hr & H).
  apply bind_ok in H as (? & _ & [= -> ->]). apply bind_ok in Hr as (h & Hh%map_err_ok%ReadFile_ok & Hr).
  apply bind_ok in Hr as (entries & He%map_err_ok & Hr). apply bind_ok in Hr as (ps & Hps & [= -> ->]).
  split; [done|]. intros name content. pose proof (ReadDir_ok _ _ _ He) as Hdir.
  rewrite (read_entries_ok _ _ _ _ Hps (fun n node => proj1 (Hdir n node))), Hdir. unfold page_of, skipped.
  rewrite orb_false_iff, negb_false_iff, bool_decide_eq_true. done.
Qed.

Lemma make_dirs_ok paths fs u fs' : make_dirs fault paths fs = (Ok u, fs') ->
  (forall p, p ∈ paths -> fs' !! p = Some Directory) /\ (forall p, p ∉ paths -> fs' !! p = fs !! p).
Proof.
  revert fs. induction paths as [|q paths IH]; intros fs; cbn [make_dirs]; [intros [_ ->]%io_ret_ok; set_solver|].
  intros (u' & fs1 & Hm & Hrest)%io_bind_ok. apply IH in Hrest as [Hin Hout].
  assert (Hq : fs1 !! q = Some Directory /\ forall p, p <> q -> fs1 !! p = fs !! p).
  { unfold make_dir in Hm. destruct (fs !! q) as [[|]|] eqn:Hl; [done| |destruct (fault OpMkdir q)]; try done.
    - injection Hm as <- <-. done.
    - injection Hm as <- <-. split; [apply lookup_insert_eq|]. intros p Hp. by apply lookup_insert_ne. }
  destruct Hq as [Hq Hother]. split.
  - intros p [->|Hp]%elem_of_cons; [|by apply Hin]. destruct (decide (q ∈ paths)); [by apply Hin|by rewrite Hout].
  - intros p [Hne Hp]%not_elem_of_cons. rewrite Hout by done. by apply Hother.
Qed.

Lemma writePage_ok d name content fs u fs' :
  writePage fault written d name content fs = (Ok u, fs') -> fs' = <[ d ++ [name] := File content ]> fs.
Proof.
  unfold writePage, WriteFile. intros H%io_map_err_ok.
  destruct (fs !! (d ++ [name])) as [[|]|], (fault OpWrite (d ++ [name])); congruence.
Qed.

Lemma write_pages_ok d pages fs u fs' : write_pages fault written d pages fs = (Ok u, fs') ->
  forall p, (exists name content, mkPage name content ∈ pages /\ p = d ++ [name] /\
               fs' !! p = Some (File (rewriteWikiLinks content))) \/
    (forall name content, mkPage name content ∈ pages -> p <> d ++ [name]) /\ fs' !! p = fs !! p.
Proof.
  clear survives. revert fs. induction pages as [|[name content] pages IH]; intros fs; cbn [write_pages page_name page_content].
  - intros [_ ->]%io_ret_ok p. right. set_solver.
  - intros (u' & fs1 & ->%writePage_ok & Hrest)%io_bind_ok p.
    destruct (IH _ Hrest p) as [(n & c & Hin & Hp & Hl)|[Hno Hl]]; [left; exists n, c; set_solver|].
    destruct (decide (p = d ++ [name])) as [->|Hne].
    + left. exists name, content. rewrite Hl, lookup_insert_eq. set_solver.
    + right. rewrite Hl, lookup_insert_ne by done. split; [|done]. intros n c [[= -> ->]|Hin]%elem_of_cons; [done|by eapply Hno].
Qed.
End Effects.

(** ** What [prepare] does *)

Section Contract.
Context (fault : FsOp -> Path -> option error) (survives : Path -> bool) (written : Path -> option (list ascii)).

(** The two steps of [prepare]: what it reads, and what it does to the destination. *)
Definition build (d : Path) (home : list ascii) (pages : list sourcePage) : io FileSystem unit :=
  _ ← io_map_err (Wrapped "clear destination") (RemoveAll fault survives d);
  _ ← io_map_err (Wrapped "create destination") (MkdirAll fault d);
  _ ← write_pages fault written d pages;
  writePage fault written d "index.md" (rewriteWikiLinks home).

Lemma prepare_cases cwd source destination fs s d :
  Abs cwd source = Ok s -> Abs cwd destination = Ok d ->
  let run := prepare fault survives written cwd source destination fs in
  if contains_source d s then run = (Err (ErrorString "destination contains source directory"), fs) else
  match readSourcePages fault fs s with
  | Err err => run = (Err err, fs)
  | Ok (home, pages) => run = build d home pages fs
  end.
Proof.
  intros Hs Hd. cbv zeta. unfold prepare, build. rewrite Hs, Hd. unfold mbind, io_bind, lift, map_err.
  destruct (contains_source d s); [done|]. by destruct (readSourcePages fault fs s) as [[home pages]|err].
Qed.

Lemma build_confined d home pages fs r fs' : build d home pages fs = (r, fs') -> confined d fs fs'.
Proof.
  unfold build, mbind, io_bind, io_map_err. destruct (RemoveAll _ _ d fs) as [r1 fs1] eqn:H1.
  apply RemoveAll_confined in H1. destruct r1; cbn [map_err]; [|by intros [= _ <-]].
  destruct (MkdirAll fault d fs1) as [r2 fs2] eqn:H2.
  apply (make_dirs_confined fault d) in H2; [|apply ancestors_prefix]. pose proof (confined_trans _ _ _ _ H1 H2) as H12.
  destruct r2; cbn [map_err]; [|by intros [= _ <-]].
  destruct (write_pages _ _ d pages fs2) as [r3 fs3] eqn:H3. apply write_pages_confined in H3.
  pose proof (confined_trans _ _ _ _ H12 H3) as H13. destruct r3; [|by intros [= _ <-]].
  intros H4%writePage_confined. by eapply confined_trans.
Qed.

(** The destination after a successful run, from the pages that were read. *)
Lemma build_ok d home pages fs u fs' : d <> [] -> build d home pages fs = (Ok u, fs') ->
  fs' !! d = Some Directory /\ fs' !! (d ++ ["index.md"]) = Some (File (rewriteWikiLinks home)) /\
  forall name rest, name :: rest <> ["index.md"] ->
    (exists content, rest = [] /\ mkPage name content ∈ pages /\
       fs' !! (d ++ name :: rest) = Some (File (rewriteWikiLinks content))) \/
    (forall content, rest = [] -> mkPage name content ∉ pages) /\ fs' !! (d ++ name :: rest) = None.
Proof.
  intros Hd. unfold build. intros (u1 & fs1 & Hrm%io_map_err_ok & H)%io_bind_ok.
  apply io_bind_ok in H as (u2 & fs2 & Hmk%io_map_err_ok & H). apply io_bind_ok in H as (u3 & fs3 & Hw & Hi).
  apply writePage_ok in Hi as ->. apply make_dirs_ok in Hmk as [Hin Hout]. pose proof (write_pages_ok _ _ _ _ _ _ _ Hw) as Hpages.
  assert (Hself : forall rest, d ++ rest = d -> rest = []) by (intros rest Hr; by rewrite <- (app_nil_r d) in Hr at 2; apply app_inv_head in Hr).
  assert (Hclear : forall rest, rest <> [] -> fs2 !! (d ++ rest) = None).
  { intros rest Hrest. rewrite Hout.
    - unfold RemoveAll in Hrm. destruct (fault OpRemove d); [done|]. injection Hrm as _ <-.
      apply map_lookup_filter_None. right. intros node _ Hno. apply Hno. by apply prefix_app_r.
    - intros Hanc. pose proof (ancestors_prefix d) as Hall. rewrite Forall_forall in Hall.
      destruct (Hall _ Hanc) as [k Hk]. rewrite <- app_assoc in Hk. symmetry in Hk. apply Hself, app_nil in Hk as [? _]. done. }
  split; [|split; [apply lookup_insert_eq|]].
  - rewrite lookup_insert_ne by (intros Heq; by apply Hself in Heq).
    destruct (Hpages d) as [(n & c & _ & Heq & _)|[_ ->]]; [by symmetry in Heq; apply Hself in Heq|].
    assert (0 < length d) by (destruct d; [done|cbn; lia]). apply Hin, elem_of_map. exists (length d - 1).
    split; [apply elem_of_seq; lia|apply take_ge; lia].
  - intros name rest Hne. rewrite lookup_insert_ne by (intros Heq; apply app_inv_head in Heq; congruence).
    destruct (Hpages (d ++ name :: rest)) as [(n & c & Hp & Heq & Hl)|[Hno Hl]].
    + apply app_inv_head in Heq. injection Heq as -> ->. left. by exists c.
    + right. split; [|rewrite Hl; by apply Hclear]. intros c -> Hp. by apply (Hno name c).
Qed.

(** the preparation of the pages.  A destination that contains the source is refused, and it, or a
    source that cannot be read, leaves the file system as it is.  Whatever fails, nothing outside
    of the destination changes but for the directories that lead to it.  When it succeeds, the
    destination holds the home page as index.md and every page of the source, its links
    rewritten, and nothing else. *)
Theorem prepare_spec cwd source destination fs r fs' s d :
  (forall dir, cwd = Ok dir -> Forall component dir) -> Abs cwd source = Ok s -> Abs cwd destination = Ok d ->
  prepare fault survives written cwd source destination fs = (r, fs') ->
  (d `prefix_of` s -> is_ok r = false /\ fs' = fs) /\
  (forall e, readSourcePages fault fs s = Err e -> is_ok r = false /\ fs' = fs) /\
  confined d fs fs' /\
  (r = Ok tt ->
    fs' !! d = Some Directory /\
    (exists home, fs !! (s ++ ["Home.md"]) = Some (File home) /\
       fs' !! (d ++ ["index.md"]) = Some (File (rewriteWikiLinks home))) /\
    (forall name node, name <> "index.md" ->
       fs' !! (d ++ [name]) = Some node <->
       exists content, page_of fs s name content /\ node = File (rewriteWikiLinks content)) /\
    forall name name' rest, fs' !! (d ++ name :: name' :: rest) = None).
Proof.
  intros Hcwd Hs Hd Hrun. pose proof (prepare_cases cwd source destination fs s d Hs Hd) as Hcases.
  cbv zeta in Hcases. rewrite Hrun in Hcases.
  pose proof (contains_source_prefix d s (Abs_components cwd source s Hcwd Hs)) as Hcont.
  destruct (contains_source d s).
  { injection Hcases as -> ->. split; [done|]. split; [done|]. split; [apply confined_refl|done]. }
  assert (Hno : ~ d `prefix_of` s) by (intros H; by apply Hcont in H). split; [done|].
  destruct (readSourcePages fault fs s) as [[home pages]|e] eqn:Hread.
  2: { injection Hcases as -> ->. split; [done|]. split; [apply confined_refl|done]. }
  split; [done|]. split; [by eapply build_confined|]. intros ->.
  apply readSourcePages_ok in Hread as [Hhome Hpages].
  assert (Hne : d <> []) by (intros ->; apply Hno, prefix_nil).
  symmetry in Hcases. apply build_ok in Hcases as (Hdir & Hindex & Hother); [|done].
  split; [done|]. split; [by exists home|]. split.
  - intros name node Hn. destruct (Hother name []) as [(c & _ & Hp & Hl)|[Hnone Hl]]; [congruence| |]; rewrite Hl.
    + apply Hpages in Hp. split; [intros [= <-]; by exists c|]. intros (c' & Hp' & ->).
      destruct Hp as [Hp _], Hp' as [Hp' _]. congruence.
    + split; [done|]. intros (c & Hp & _). by apply Hpages, Hnone in Hp.
  - intros name name' rest. by destruct (Hother name (name' :: rest)) as [(c & ? & _)|[_ Hl]].
Qed.
End Contract.

(** A Wiki of two pages and a sidebar, and what the site generator gets. *)
Definition sample_wiki : FileSystem :=
  list_to_map [(["docs"], Directory); (["docs"; "wiki"], Directory);
    (["docs"; "wiki"; "Home.md"], File (bytes (wikiBaseURL +++ "Metrics")));
    (["docs"; "wiki"; "Metrics.md"], File (bytes "up"));
    (["docs"; "wiki"; "_Sidebar.md"], File (bytes "menu")); ([".pages"], File (bytes "stale"))].

Definition sample_prepared : res unit * FileSystem :=
  prepare (fun _ _ => None) (fun _ => false) (fun _ => None) (Ok []) "docs/wiki" "./.pages" sample_wiki.

Lemma prepare_spec_witness :
  is_ok sample_prepared.1 = true /\ confined [".pages"] sample_wiki sample_prepared.2 /\
  sample_prepared.2 !! [".pages"; "index.md"] = Some (File (bytes "Metrics.md")).
Proof.
  split; [vm_compute; reflexivity|].
  assert (Hcwd : forall dir : Path, Ok (E := error) [] = Ok dir -> Forall component dir) by (intros dir [= <-]; constructor).
  destruct (prepare_spec (fun _ _ => None) (fun _ => false) (fun _ => None) (Ok []) "docs/wiki" "./.pages" sample_wiki
    sample_prepared.1 sample_prepared.2 ["docs"; "wiki"] [".pages"] Hcwd) as (_ & _ & Hc & _);
    [vm_compute; reflexivity|vm_compute; reflexivity|apply surjective_pairing|].
  split; [exact Hc|vm_compute; reflexivity].
Defined.
